(* ===== verification/_CoqProject ===== *)
-Q . S2P
Prelude.v
NetAddr.v
AddrText.v
Text.v
Json.v
JsonText.v
Contract.v
Logging.v
Allocator.v
AllocatorConc.v
Policy.v
Types.v
Reflexive.v
HolePunch.v
Stun.v
DirectFlags.v
Auth.v
RelayFrame.v
RelayRegistry.v
RosterStore.v
RosterStoreConc.v
Coordinator.v
Apply.v
Registration.v
Heartbeat.v
CoordInv.v
Membership.v
MembershipConc.v
Joining.v
Restart.v
RelayRoute.v
Topology.v
Stream.v
Api.v
Dto.v
ApiProps.v
Boot.v
System.v
Lifetime.v
Demo.v
Witnesses.v
PeerSession.v
SessionTable.v
SessionInv.v
SessionTableConc.v
DataPlane.v
CommandGate.v
PeerSync.v
PeerSyncProps.v
StreamClient.v
Client.v
Wire.v
DataPlaneProps.v
EndToEnd.v
HeartbeatLoop.v
RelayClient.v
Platform.v
Routes.v
Firewall.v
Identity.v
Startup.v
Tls.v
StartupProps.v
Fabric.v
Loopback.v
WgFabric.v
Tun.v
HostSink.v
Cli.v
PeersReport.v
CliRun.v
Evolve.v
Sources.v
Joiner.v
Mesh.v
Widths.v
JoinerDemo.v
EndToEndDemo.v
HostDemo.v
FabricDemo.v
