(* ===== verification/Prelude.v ===== *)
(** * tabbify-service-mesh: a verification development

    ** The program

    A coordinator ([crates/mesh-coordinator]) keeps the roster of an overlay network
    of WireGuard nodes. Nodes register over HTTP with a join token, are given an IPv6
    overlay address in the block of their network, prove that they are alive with
    heartbeats, and follow the roster over an event stream. An access policy between
    tags decides which nodes may see each other. Nodes that cannot reach each other
    over UDP exchange their packets through the coordinator's relay, and pairs that
    keep doing so are told to punch holes. A joiner ([crates/mesh-joiner]) is the node's
    side: a table of WireGuard sessions that follows the roster, the data plane between
    the host's TUN device, the UDP socket and the relay, and the configuration of the
    host. The command-line tool ([tools/tabbify-mesh]) runs a joiner as a daemon. A
    fabric ([crates/mesh-fabric]) carries messages between applications by overlay
    address, over WireGuard, over TCP on one host, or within a process.

    ** The files

    Every file requires this one and the files of the components it calls; all are
    listed in dependency order in [_CoqProject]. Paths below are relative to the
    crate's [src/].

    Shared:
    - [Prelude]: results, machine integers, strings of bytes, lists, finite maps.
    - [NetAddr], [AddrText]: [std::net]; the formatter's text parses back.
    - [Text]: the string functions of the standard library that the host code uses.
    - [Json], [JsonText]: the data model of JSON, the readers and writers that [derive]
      makes of a structure, the class [JsonText] of a text format for it with its laws,
      and a reference printer and parser that has them.
    - [Contract]: [vendor/tabbify-join-contract] (fixed addresses,
      container names, the requests of joining).
    - [Logging]: [crates/mesh-log].

    Coordinator, components:
    - [Allocator], [AllocatorConc]: [roster/allocator.rs], sequentially and as the
      compare-and-swap loops it consists of.
    - [Policy]: [policy/model.rs], [policy/store.rs].
    - [Types]: the data of [roster/events.rs], [http/api/dto.rs], [http/sse.rs].
    - [Reflexive], [HolePunch], [DirectFlags], [Stun]: [nat/].
    - [Auth]: [auth/validate.rs], [roster/identity.rs].
    - [RelayFrame], [RelayRegistry], [RelayRoute]: [relay/] and [http/relay.rs].
    - [RosterStore], [RosterStoreConc]: [roster/store.rs], one save at a time and saves
      that overlap.
    - [Coordinator], [Topology]: [roster/coordinator/mod.rs], [command_queue.rs],
      [roster/filter.rs]. [Inner] is the record [Coordinator.Inner].
    - [Apply], [Registration], [Heartbeat]: [roster/apply.rs] and the handlers of
      [roster/coordinator/]; [roster/timeout.rs].
    - [Stream], [Api]: [http/].
    - [Dto]: the bodies, events, policy and roster file as JSON; the
      publisher of events ([publisher.rs]).
    - [Boot]: [main.rs].
    Coordinator, what it does:
    - [CoordInv], [Membership], [Joining], [Restart], [ApiProps]: the invariant and
      what each operation does to the state.
    - [System], [Lifetime]: the step relation of the running coordinator, and its life
      over restarts from what it has stored.
    - [MembershipConc]: registrations and deregistrations between whose accesses to the
      shared maps others come.
    - [Demo], [Witnesses]: a concrete coordinator on which the theorems apply.

    Joiner, components:
    - [PeerSession], [SessionTable], [DataPlane]: [wg/], [peer.rs], the inbound side of
      [relay/client.rs] and the puncher of [nat/holepunch.rs].
    - [RelayClient]: [relay/client.rs].
    - [CommandGate]: [coordinator/command*.rs].
    - [PeerSync], [HeartbeatLoop], [StreamClient], [Client], [Wire]: [coordinator/];
      [Wire] has the joiner's own structures of the bodies and events.
    - [Tls]: [coordinator/client/tls.rs], the coordinator's [http/mtls.rs] and the tool
      [tools/tabbify-mesh-ca].
    - [Platform], [Routes], [Firewall]: [platform/].
    - [Identity]: [wg/persistent_*.rs], [wg/keypair.rs].
    - [Startup]: [joiner.rs], [config.rs], [net_reach.rs].
    Joiner, what it does:
    - [SessionInv], [PeerSyncProps], [DataPlaneProps], [StartupProps]: the table's
      invariant and what each operation does.
    - [SessionTableConc]: announcements of peers between whose accesses to the table's
      indexes others come.
    - [Evolve], [Sources], [Joiner], [Widths]: the joiner as one step relation, and what
      holds in every state it reaches.
    - [EndToEnd], [Mesh]: the two halves together.
    - [JoinerDemo], [HostDemo], [EndToEndDemo]: concrete nodes, hosts and meshes.

    Fabric: [Fabric], [Loopback], [WgFabric],
    [Tun], with [FabricDemo].

    Tool: [HostSink] ([host_sink.rs]), [Cli] ([cli.rs], [status_file.rs],
    [time_format.rs], [commands/leave.rs], [commands/status.rs]), [PeersReport]
    ([commands/peers.rs]), [CliRun] ([commands/join.rs]); [HostDemo] has a run of them.

    ** How the code is modelled

    A handler is one function from the state and its inputs to the state and its
    outputs. It has one reading of the clock, an argument; where the code reads the
    clock more than once the model says so. The coordinator's handlers lock [Inner]'s
    maps one call at a time; the model takes a whole handler as one step, except where
    the interleaving is the point: [AllocatorConc] has the allocator's calls,
    [RosterStoreConc] the system calls of saves, [MembershipConc] the accesses of
    registering and deregistering, [SessionTableConc] those of announcing a peer,
    [Loopback] the connections of a node, and [CliRun] the two tasks of the tool's
    daemon. In [Joiner] the calls that the heartbeat and the event stream make on the
    table are steps of their own, as well as the whole of each, and [StreamClient] lets
    other tasks change what is shared between any two items of the stream. Steps are
    taken in any order by the step relations [System.occurs], whose steps carry what
    happened, [Lifetime.life_step], [Mesh]'s, [Joiner]'s and [CliRun]'s.

    Requests that the code sends without a time limit may stay unanswered: the one that
    opens the event stream ([StreamClient.Unanswered]) and the deregistration of a
    daemon that leaves ([CliRun.Leaving]). What waits for them waits for ever, and the
    theorems say so.

    Machine integers are [Z] with the source's arithmetic written out (wrapping,
    saturating, checked, truncating casts); [Widths] checks that the fields of
    a session, which are [Z]s here, stay within their types. Strings are strings of UTF-8 bytes; slicing that
    the source would panic on is an explicit result. A [HashMap] or [DashMap] is a
    [gmap]; an iteration over one takes its order from a class ([MapOrder],
    [TableOrder]), so that no theorem depends on it. Objects shared through an [Arc],
    the joiner's sessions, live in a heap and the indexes hold references to them.
    Errors are [Result]s with the source's error types. What a component emits (events,
    datagrams, frames, commands for the host) is an ordered list.

    Code that is not here is a parameter: the tunnel of [boringtun] (class [Noise]),
    the curve, ed25519 ([Signatures]), [base64] and [uuid] ([Externals]), the text of
    JSON ([JsonText]; for the bodies that only one program reads and writes, classes of
    their own such as [StatusJson]), X.509 ([Pki]), bounded channels ([Channels]), the
    auth service, the programs [ip], [iptables], [ifconfig]
    ([Host]; their effects are the laws of [Iproute2] and [Iptables]), and every system
    call. Results of a call that may fail are arguments, so that each theorem covers
    each failure. Laws are stated only where a theorem needs documented behaviour (a
    codec reads back what it wrote, a listing shows what was added), and the demo files
    have an instance for every class with laws.

    ** Termination and fuel

    Recursion is structural wherever the source's is over a list or a counter. The
    loops that are not: the allocator's compare-and-swap loops and the tool's daemon are
    step relations with a measure ([AllocatorConc]; [CliRun], whose daemon ends if the
    coordinator answers), as are the handlers of
    [MembershipConc], which never wait for each other for ever; the flush loop of the
    data plane, in which the code asks the tunnel for output until it has none, takes
    fuel, and [DataPlaneProps] shows that the fuel given is enough for every tunnel whose
    queue is finite; the retry loops over the network take the list of the outcomes
    they meet.

    ** What is shown

    - The coordinator, in every state it can reach over any number of restarts: the
      roster and the key index are a bijection, addresses are unique and below the
      allocator's counters, nothing mentions a peer that has left
      ([Lifetime.coordinator_invariant]); and a step that gives a member its identity is
      a registration that was admitted with it ([Lifetime.identity_only_by_admission]).
    - Who gets in and who sees whom: [Joining], [ApiProps], [RelayRoute], [Policy],
      [Stream].
    - Joining and leaving, exactly: [Membership], [Restart], [StartupProps].
    - The joiner keeps to the roster and its peers apart: [PeerSyncProps], [Joiner],
      [DataPlaneProps], [Widths], [Routes], [Firewall].
    - Both ends together: a heartbeat's answer makes the table equal to what the policy
      shows, a packet crosses the relay to a socket of the one node it is for, a node that the
      coordinator has forgotten comes back unless a recovery of it has failed before
      ([EndToEnd]).
    - Concurrency: the allocator is linearizable ([AllocatorConc]); saves that do not
      overlap are saves in some order, and what overlapping ones can do is shown on an
      example ([RosterStoreConc]); members and keys survive every interleaving of the
      handlers that change them ([MembershipConc]); announcements of different peers come
      out as if each had been alone, two of the same new peer may not ([SessionTableConc]).
    - What one program writes the other reads: requests, answers and events between the
      two crates ([Wire]), the roster file over versions ([Dto]), the log ([Logging]),
      certificates from the tool to both ends of a connection ([Tls]).
    - Remote commands: what happens on a host was signed, at most once, and no more
      than three reboots in any hour ([HostSink]).
    - Fabrics: an abstract contract of delivery that the in-process, loopback and
      WireGuard fabrics implement ([Fabric], [Loopback], [WgFabric]).

    ** Not modelled

    - The servers and clients of HTTP, server-sent events and web sockets, timers and
      the runtime's scheduling: [axum], [reqwest] and [tokio] do these. The handlers
      are modelled from the extracted inputs to the response.
    - [http/openapi.rs] and the schema attributes: documentation only.
    - A structure read from a JSON array of its fields, which [serde] would take and
      nobody here sends: [Json.read_struct] takes objects.
    - What is logged, and when: only the format of a line and the setup are modelled.
    - The inside of a TLS handshake: [Tls] says which ends accept each other, from the
      roots they trust and the name the joiner calls the coordinator by.
    - Interleavings of the joiner's tasks within one call on the session table other
      than [upsert], with the routes to a peer's apps set after the peer was removed, or
      within one datagram or packet; and of the coordinator's handlers other than those
      named above. *)

From stdpp Require Export base tactics numbers list gmap strings sorting.
From Stdlib Require Export Lia ZifyBool.

#[export] Set Default Goal Selector "!".

(** ** Results *)

(** [Result A E] is the source's [Result<A, E>]. *)
Inductive Result (A E : Type) : Type :=
| Ok (a : A)
| Err (e : E).
Arguments Ok {A E} a.
Arguments Err {A E} e.

#[export] Instance Result_eq_dec `{EqDecision A, EqDecision E} : EqDecision (Result A E).
Proof. solve_decision. Defined.

Definition is_ok {A E} (r : Result A E) : bool :=
  match r with Ok _ => true | Err _ => false end.

(** [r.ok()] *)
Definition ok {A E} (r : Result A E) : option A :=
  match r with Ok a => Some a | Err _ => None end.

Definition map_err {A E F} (f : E -> F) (r : Result A E) : Result A F :=
  match r with Ok a => Ok a | Err e => Err (f e) end.

Declare Scope mesh_scope.
Delimit Scope mesh_scope with mesh.
Open Scope mesh_scope.

(** The lemmas that the proofs of several files resolve by automation. *)
Create HintDb mesh.

(** The [?] operator in a function without state. *)
Notation "'let?' x := c 'in' k" :=
  (match c with Ok x => k | Err err => Err err end)
  (at level 10, x pattern, c at level 100, k at level 200)
  : mesh_scope.

(** ** Functional record update

    [r <| f := v |>] replaces field [f] of [r]; a record opts in with an
    instance of [Eta] that rebuilds it from its projections. *)
Class Eta (R : Type) := eta : R -> R.
Class Setter {R T : Type} (proj : R -> T) := set_field : (T -> T) -> R -> R.
Arguments set_field {R T} proj {_} _ _ /.

Ltac build_setter :=
  match goal with
  | |- @Setter ?R ?T ?proj =>
      let inst := constr:(_ : Eta R) in
      let g := fresh "g" in
      let r := fresh "r" in
      unfold Setter; intros g r;
      let body := eval hnf in (inst : R -> R) in
      let t := eval cbv beta in (body r) in
      let t' := eval pattern (proj r) in t in
      match t' with
      | ?F _ => let x := eval cbv beta in (F (g (proj r))) in exact x
      end
  end.
#[export] Hint Extern 1 (Setter _) => build_setter : typeclass_instances.

Notation "r <| f := v |>" := (set_field f (fun _ => v) r)
  (at level 1, left associativity, f at level 200, v at level 200) : mesh_scope.

(** ** Machine integers

    A [w]-bit integer of the source is a [Z] in its range; the operations below
    are those of Rust's integer types, with the wrap-around or saturation
    written out. *)
Section Ints.
Open Scope Z_scope.

Definition u8_max : Z := 255.
Definition u16_max : Z := 65535.
Definition u32_max : Z := 4294967295.
Definition u64_max : Z := 18446744073709551615.
Definition i64_max : Z := 9223372036854775807.
Definition i64_min : Z := -9223372036854775808.

Definition is_u8 (z : Z) : Prop := 0 <= z <= u8_max.
Definition is_u16 (z : Z) : Prop := 0 <= z <= u16_max.
Definition is_u32 (z : Z) : Prop := 0 <= z <= u32_max.
Definition is_u64 (z : Z) : Prop := 0 <= z <= u64_max.
Definition is_i64 (z : Z) : Prop := i64_min <= z <= i64_max.

Definition clamp (lo hi z : Z) : Z := Z.max lo (Z.min hi z).
Definition i64_saturating_add (a b : Z) : Z := clamp i64_min i64_max (a + b).
Definition i64_saturating_sub (a b : Z) : Z := clamp i64_min i64_max (a - b).
Definition u32_saturating_add (a b : Z) : Z := Z.min u32_max (a + b).
Definition u64_saturating_add (a b : Z) : Z := Z.min u64_max (a + b).
Definition u64_wrapping_add (a b : Z) : Z := (a + b) mod 2 ^ 64.
Definition u32_wrapping_add (a b : Z) : Z := (a + b) mod 2 ^ 32.
Definition u64_wrapping_mul (a b : Z) : Z := (a * b) mod 2 ^ 64.
Definition u16_checked_add (a b : Z) : option Z :=
  if a + b <=? u16_max then Some (a + b) else None.
Definition i64_checked_mul (a b : Z) : option Z :=
  if (i64_min <=? a * b) && (a * b <=? i64_max) then Some (a * b) else None.

(** Two's-complement value of the low 64 bits of [z]. *)
Definition wrap_i64 (z : Z) : Z := (z + 2 ^ 63) mod 2 ^ 64 - 2 ^ 63.

(** [i64::checked_shl]: [None] only when the shift amount is not below the bit
    width; a shift that is below it discards the bits shifted out. *)
Definition i64_checked_shl (a : Z) (n : Z) : option Z :=
  if n <? 64 then Some (wrap_i64 (Z.shiftl a n)) else None.

Lemma is_u16_lt z : is_u16 z <-> 0 <= z < 2 ^ 16.
Proof. unfold is_u16, u16_max. change (2 ^ 16) with 65536. lia. Qed.
Lemma is_u64_lt z : is_u64 z <-> 0 <= z < 2 ^ 64.
Proof. unfold is_u64, u64_max. change (2 ^ 64) with 18446744073709551616. lia. Qed.
Lemma u64_wrapping_mul_u64 a b : is_u64 (u64_wrapping_mul a b).
Proof. apply is_u64_lt. by apply Z.mod_pos_bound. Qed.
Lemma u16_checked_add_Some a b c :
  u16_checked_add a b = Some c <-> c = a + b /\ a + b <= u16_max.
Proof.
  unfold u16_checked_add. case_match; split;
    [by intros [= <-]; lia|by intros [-> _]|done|lia].
Qed.
Lemma u16_checked_add_None a b :
  u16_checked_add a b = None <-> u16_max < a + b.
Proof. unfold u16_checked_add. case_match; split; [done|lia|lia|done]. Qed.
Lemma wrap_i64_id z : is_i64 z -> wrap_i64 z = z.
Proof.
  unfold is_i64, i64_min, i64_max, wrap_i64. intros H.
  rewrite Z.mod_small; lia.
Qed.

(** Results of machine arithmetic are in their width. *)
Lemma is_i64_0 : is_i64 0.
Proof. unfold is_i64, i64_min, i64_max. lia. Qed.
Lemma is_u32_0 : is_u32 0.
Proof. unfold is_u32, u32_max. lia. Qed.
Lemma is_u32_wrap a b : is_u32 (u32_wrapping_add a b).
Proof.
  unfold is_u32, u32_wrapping_add, u32_max. pose proof (Z.mod_pos_bound (a + b) (2 ^ 32) eq_refl).
  change (2 ^ 32) with 4294967296 in *. lia.
Qed.
Lemma is_u64_wrap a b : is_u64 (u64_wrapping_add a b).
Proof. apply is_u64_lt. by apply Z.mod_pos_bound. Qed.
Lemma is_i64_saturating a b : is_i64 (i64_saturating_add a b).
Proof. unfold is_i64, i64_saturating_add, clamp, i64_min, i64_max. lia. Qed.
Lemma is_u32_saturating a : is_u32 a -> is_u32 (u32_saturating_add a 1).
Proof. unfold is_u32, u32_saturating_add, u32_max. lia. Qed.

(** Bitwise operations stay within a width. *)
Lemma lxor_bound a b n :
  0 <= n -> 0 <= a < 2 ^ n -> 0 <= b < 2 ^ n -> 0 <= Z.lxor a b < 2 ^ n.
Proof.
  intros Hn Ha Hb. split; [apply Z.lxor_nonneg; lia|].
  destruct (decide (Z.lxor a b = 0)) as [->|Hne]; [lia|].
  assert (0 <= Z.lxor a b) by (apply Z.lxor_nonneg; lia).
  apply Z.log2_lt_pow2; [lia|].
  assert (forall x, 0 <= x < 2 ^ n -> x = 0 \/ Z.log2 x < n) as Hlog.
  { intros x Hx. destruct (decide (x = 0)) as [->|]; [by left|right].
    apply Z.log2_lt_pow2; lia. }
  pose proof (Z.log2_lxor a b). specialize (H0 ltac:(lia) ltac:(lia)).
  destruct (Hlog a Ha) as [->|]; destruct (Hlog b Hb) as [->|].
  - by rewrite Z.lxor_0_l in Hne.
  - rewrite Z.lxor_0_l in *. lia.
  - rewrite Z.lxor_0_r in *. lia.
  - lia.
Qed.

Lemma lxor_involutive a b : Z.lxor (Z.lxor a b) b = a.
Proof. by rewrite Z.lxor_assoc, Z.lxor_nilpotent, Z.lxor_0_r. Qed.

(** Big-endian 16-bit values, [u16::to_be_bytes] and [u16::from_be_bytes]. *)
Definition u16_to_be_bytes (z : Z) : list Z :=
  [Z.land (Z.shiftr z 8) 255; Z.land z 255].
Definition u16_from_be_bytes (hi lo : Z) : Z := Z.lor (Z.shiftl hi 8) lo.

Lemma u16_from_be_bytes_eq hi lo : is_u8 lo -> u16_from_be_bytes hi lo = hi * 256 + lo.
Proof.
  intros Hlo. unfold u16_from_be_bytes.
  rewrite Z.shiftl_mul_pow2 by lia.
  pose proof (Z.add_lor_land (hi * 2 ^ 8) lo).
  assert (Z.land (hi * 2 ^ 8) lo = 0); [|lia].
  apply Z.bits_inj'. intros n Hn. rewrite Z.land_spec, Z.bits_0.
  destruct (decide (n < 8)).
  - by rewrite Z.mul_pow2_bits_low by lia.
  - rewrite (Z.bits_above_log2 lo n); [by rewrite andb_false_r|unfold is_u8 in *; lia|].
    destruct (decide (lo = 0)) as [->|]; [simpl; lia|].
    assert (Z.log2 lo < 8); [|lia].
    apply Z.log2_lt_pow2; unfold is_u8, u8_max in *; lia.
Qed.

Lemma land_255 z : Z.land z 255 = z mod 256.
Proof. change 255 with (Z.ones 8). by rewrite Z.land_ones by lia. Qed.

Lemma u16_be_roundtrip z :
  is_u16 z ->
  u16_from_be_bytes (Z.land (Z.shiftr z 8) 255) (Z.land z 255) = z.
Proof.
  intros Hz. rewrite u16_from_be_bytes_eq.
  - rewrite !land_255, Z.shiftr_div_pow2 by lia. change (2 ^ 8) with 256.
    unfold is_u16, u16_max in Hz.
    rewrite (Z.mod_small (z / 256)); [pose proof (Z.div_mod z 256); lia|].
    split; [apply Z.div_pos; lia|apply Z.div_lt_upper_bound; lia].
  - rewrite land_255. unfold is_u8, u8_max. pose proof (Z.mod_pos_bound z 256). lia.
Qed.
End Ints.
#[export] Hint Resolve is_i64_0 is_u32_0 is_u32_wrap is_u64_wrap is_i64_saturating is_u32_saturating : mesh.

(** ** Strings and bytes

    A Rust [str] is its UTF-8 bytes; a Rocq [string] holds one byte per
    character. *)
Definition bytes_of_string (s : string) : list Z :=
  (fun a => Z.of_N (Ascii.N_of_ascii a)) <$> String.list_ascii_of_string s.

(** [str::starts_with] *)
Fixpoint starts_with (prefix s : string) : bool :=
  match prefix, s with
  | EmptyString, _ => true
  | String p ps, String c cs => bool_decide (p = c) && starts_with ps cs
  | String _ _, EmptyString => false
  end.

(** [str::strip_prefix] with a string pattern *)
Fixpoint strip_prefix (prefix s : string) : option string :=
  match prefix, s with
  | EmptyString, _ => Some s
  | String p ps, String c cs =>
      if bool_decide (p = c) then strip_prefix ps cs else None
  | String _ _, EmptyString => None
  end.

(** [str::strip_suffix] with a one-byte character pattern *)
Fixpoint strip_suffix_char (c : Ascii.ascii) (s : string) : option string :=
  match s with
  | EmptyString => None
  | String a EmptyString => if bool_decide (a = c) then Some EmptyString else None
  | String a s' => String a <$> strip_suffix_char c s'
  end.

Lemma string_app_nil (s : string) : "" +:+ s = s.
Proof. done. Qed.
Lemma string_app_cons c (s t : string) : String c s +:+ t = String c (s +:+ t).
Proof. done. Qed.

Lemma starts_with_spec p s : starts_with p s = true <-> exists r, s = p +:+ r.
Proof.
  revert s. induction p as [|a p IH]; intros s; simpl.
  - split; [by exists s|done].
  - destruct s as [|b s]; simpl.
    { split; [done|by intros [? [=]]]. }
    rewrite andb_true_iff, bool_decide_eq_true, IH. split.
    + intros [-> [r ->]]. by exists r.
    + intros [r [= -> ->]]. eauto.
Qed.

Lemma starts_with_app p r : starts_with p (p +:+ r) = true.
Proof. apply starts_with_spec. by exists r. Qed.

Lemma strip_prefix_spec p s r : strip_prefix p s = Some r <-> s = p +:+ r.
Proof.
  revert s. induction p as [|c p IH]; intros s; simpl.
  - rewrite string_app_nil. split; [by intros [= ->]|by intros ->].
  - destruct s as [|d s]; [split; [done|rewrite string_app_cons; done]|]. rewrite string_app_cons.
    case_bool_decide as Hc; [subst; rewrite IH; split; [by intros ->|by intros [= ->]]|].
    split; [done|intros [= -> _]; done].
Qed.

Lemma strip_suffix_char_spec c s p :
  strip_suffix_char c s = Some p <-> s = p +:+ String c EmptyString.
Proof.
  revert p. induction s as [|a s IH]; intros p.
  { split; [done|]. by destruct p. }
  destruct s as [|b s].
  - destruct p as [|x [|y p]]; simpl;
      rewrite ?string_app_cons, ?string_app_nil; case_bool_decide; split; congruence.
  - change (strip_suffix_char c (String a (String b s)))
      with (String a <$> strip_suffix_char c (String b s)).
    rewrite fmap_Some. split.
    + intros (q & Hq & ->). apply IH in Hq. by rewrite Hq.
    + destruct p as [|x p]; [done|]. intros [= -> Hs]. exists p.
      split; [by apply IH|done].
Qed.

Lemma strip_suffix_char_None c s p :
  strip_suffix_char c s = None -> s <> p +:+ String c EmptyString.
Proof. intros H ->. destruct (strip_suffix_char_spec c (p +:+ String c EmptyString) p) as [_ Hx]. rewrite Hx in H; done. Qed.

Lemma string_app_assoc (a b c : string) : (a +:+ b) +:+ c = a +:+ (b +:+ c).
Proof. induction a as [|x a IH]; [done|]. rewrite !string_app_cons. by f_equal. Qed.

Lemma string_app_nil_r (a : string) : a +:+ EmptyString = a.
Proof. induction a as [|x a IH]; [done|]. rewrite string_app_cons. by f_equal. Qed.

Lemma string_app_length (a b : string) :
  String.length (a +:+ b) = (String.length a + String.length b)%nat.
Proof. induction a as [|x a IH]; [done|]. rewrite string_app_cons. simpl. by rewrite IH. Qed.

Lemma string_snoc_inj (s t : string) a b :
  s +:+ String a EmptyString = t +:+ String b EmptyString -> s = t /\ a = b.
Proof.
  revert t. induction s as [|c s IH]; intros [|d t];
    rewrite ?string_app_cons, ?string_app_nil.
  - by intros [= ->].
  - intros [= -> H0]. by destruct t.
  - intros [= -> H0]. by destruct s.
  - intros [= -> Ht]. apply IH in Ht as [-> ->]. done.
Qed.

Lemma string_app_inv_head (a b c : string) : a +:+ b = a +:+ c -> b = c.
Proof. induction a as [|x a IH]; [done|]. rewrite !string_app_cons. intros [= H]. auto. Qed.

(** Two prefixes of one string are comparable. *)
Lemma prefix_comparable (p q r t : string) :
  p +:+ r = q +:+ t -> (exists u, q = p +:+ u) \/ (exists u, p = q +:+ u).
Proof.
  revert q. induction p as [|a p IH]; intros q; simpl.
  - intros _. left. by exists q.
  - destruct q as [|b q]; simpl.
    + intros _. right. by exists (String a p).
    + intros [= -> H]. destruct (IH _ H) as [[u ->]|[u ->]]; [left|right]; by exists u.
Qed.

(** ** Lists *)

(** Replacing an element that [f] maps to nothing adds what [f] maps the new
    one to. *)
Lemma bind_insert_Permutation {A B} (f : A -> list B) l i x y :
  l !! i = Some x -> f x = [] -> (<[i := y]> l ≫= f) ≡ₚ (l ≫= f) ++ f y.
Proof.
  intros Hi Hx. rewrite insert_take_drop by (by eapply lookup_lt_Some).
  rewrite <- (take_drop_middle l i x Hi) at 3.
  rewrite !bind_app, !bind_cons, Hx. simpl.
  rewrite <- app_assoc. apply Permutation_app_head. apply Permutation_app_comm.
Qed.

(** The standard list searches, in terms of membership. *)
Lemma find_Some_in {A} (f : A -> bool) l x : List.find f l = Some x -> x ∈ l /\ f x = true.
Proof. intros H. apply find_some in H as [H1 H2]. split; [by apply list_elem_of_In|done]. Qed.
Lemma find_None_all {A} (f : A -> bool) l x : List.find f l = None -> x ∈ l -> f x = false.
Proof. intros H Hin. eapply find_none; [done|by apply list_elem_of_In]. Qed.

Lemma existsb_elem {A} (f : A -> bool) l : existsb f l = true <-> exists x, x ∈ l /\ f x = true.
Proof. rewrite existsb_exists. by setoid_rewrite list_elem_of_In. Qed.

(** An invariant of the turns of a loop. *)
Lemma foldl_inv {B A} (P : B -> Prop) (f : B -> A -> B) l b :
  (forall b x, x ∈ l -> P b -> P (f b x)) -> P b -> P (foldl f b l).
Proof.
  revert b. induction l as [|x l IH]; intros b Hf Hb; simpl; [done|].
  apply IH; [intros; apply Hf; [by right|done]|]. apply Hf; [by left|done].
Qed.

Lemma sublist_in {A} (l k : list A) x : l `sublist_of` k -> x ∈ l -> x ∈ k.
Proof. induction 1; rewrite ?elem_of_cons; naive_solver. Qed.

(** [foldl Z.min] is the least element. *)
Lemma foldl_min_in x (l : list Z) : foldl Z.min x l ∈ x :: l.
Proof.
  revert x. induction l as [|y l IH]; intros x; simpl; [by left|].
  destruct (Z.min_spec x y) as [[_ ->]|[_ ->]].
  - specialize (IH x). apply elem_of_cons in IH as [->|]; [by left|by right; right].
  - by right.
Qed.
Lemma foldl_min_le x (l : list Z) y : y ∈ x :: l -> (foldl Z.min x l <= y)%Z.
Proof.
  revert x y. induction l as [|z l IH]; intros x y Hy; simpl.
  { apply elem_of_cons in Hy as [->|Hy]; [done|]. by apply elem_of_nil in Hy. }
  rewrite !elem_of_cons in Hy. destruct Hy as [->|[->|Hy]].
  - etrans; [apply (IH _ (Z.min x z)); by left|lia].
  - etrans; [apply (IH _ (Z.min x z)); by left|lia].
  - apply IH. by right.
Qed.

(** The sum of [f] over a list, and how one replacement changes it. *)
Definition sum_by {A} (f : A -> nat) (l : list A) : nat := sum_list_with f l.

Lemma sum_by_insert {A} (f : A -> nat) l i x y :
  l !! i = Some x -> (sum_by f (<[i := y]> l) + f x = sum_by f l + f y)%nat.
Proof.
  unfold sum_by. revert i. induction l as [|z l IH]; intros [|i]; simpl; [done|done| |].
  - intros [= ->]. lia.
  - intros Hi. specialize (IH _ Hi). lia.
Qed.

Lemma sum_by_le {A} (f g : A -> nat) k l :
  (forall x, x ∈ l -> f x <= g x + k)%nat -> (sum_by f l <= sum_by g l + k * length l)%nat.
Proof.
  unfold sum_by. induction l as [|x l IH]; simpl; [lia|]. intros H.
  pose proof (H x ltac:(by left)). specialize (IH ltac:(intros; apply H; by right)). lia.
Qed.

(** ** [str::trim]

    The white-space characters of Unicode, as their UTF-8 encodings. *)
Section Trim.
Open Scope Z_scope.

Definition ws1 (b : Z) : bool := ((9 <=? b) && (b <=? 13)) || (b =? 32).
Definition ws2 (b c : Z) : bool := (b =? 0xc2) && ((c =? 0x85) || (c =? 0xa0)).
Definition ws3 (b c d : Z) : bool :=
  ((b =? 0xe1) && (c =? 0x9a) && (d =? 0x80))
  || ((b =? 0xe2) && (c =? 0x80)
      && (((0x80 <=? d) && (d <=? 0x8a)) || (d =? 0xa8) || (d =? 0xa9) || (d =? 0xaf)))
  || ((b =? 0xe2) && (c =? 0x81) && (d =? 0x9f))
  || ((b =? 0xe3) && (c =? 0x80) && (d =? 0x80)).

(** White space dropped from the front of a list of bytes; [flip] when the list
    is in reverse. *)
Fixpoint trim_front (flip : bool) (l : list Z) : list Z :=
  match l with
  | [] => []
  | b :: r =>
      if ws1 b then trim_front flip r
      else match r with
           | [] => l
           | c :: r =>
               if (if flip then ws2 c b else ws2 b c) then trim_front flip r
               else match r with
                    | [] => l
                    | d :: r =>
                        if (if flip then ws3 d c b else ws3 b c d) then trim_front flip r else l
                    end
           end
  end.

Definition string_of_bytes (l : list Z) : string :=
  String.string_of_list_ascii ((fun z => Ascii.ascii_of_N (Z.to_N z)) <$> l).

Definition trim (s : string) : string :=
  string_of_bytes (rev (trim_front true (rev (trim_front false (bytes_of_string s))))).
End Trim.

Lemma trim_example : trim "  a b	 " = "a b" /\ trim "ab" = "ab".
Proof. done. Qed.

(** ** Stable sorting by an integer key ([sort_by_key]) *)
Section SortBy.
Context {A : Type} (key : A -> Z).

Fixpoint insert_by (x : A) (l : list A) : list A :=
  match l with
  | [] => [x]
  | y :: l' => if (key x <=? key y)%Z then x :: l else y :: insert_by x l'
  end.
Definition sort_by_key (l : list A) : list A := foldr insert_by [] l.

Lemma insert_by_perm x l : insert_by x l ≡ₚ x :: l.
Proof.
  induction l as [|y l IH]; simpl; [done|]. case_match; [done|].
  rewrite IH. apply Permutation_swap.
Qed.

Lemma sort_by_key_perm l : sort_by_key l ≡ₚ l.
Proof. induction l as [|x l IH]; simpl; [done|]. by rewrite insert_by_perm, IH. Qed.

Definition key_le (x y : A) : Prop := (key x <= key y)%Z.

Lemma insert_by_sorted x l : Sorted key_le l -> Sorted key_le (insert_by x l).
Proof.
  induction l as [|y l IH]; simpl; intros Hs; [by repeat constructor|].
  destruct (key x <=? key y)%Z eqn:E.
  - constructor; [done|]. constructor. unfold key_le. lia.
  - inversion Hs; subst. constructor; [by apply IH|].
    destruct l as [|z l]; simpl; [constructor; unfold key_le; lia|].
    case_match; constructor; [unfold key_le; lia|].
    match goal with H : HdRel _ _ _ |- _ => by inversion H end.
Qed.

Lemma sort_by_key_sorted l : Sorted key_le (sort_by_key l).
Proof. induction l as [|x l IH]; simpl; [constructor|]. by apply insert_by_sorted. Qed.
End SortBy.
