(* ===== verification/NetAddr.v ===== *)
(** * Addresses

    The part of the standard library's [std::net] the program computes with:
    [Ipv4Addr], [Ipv6Addr] and [SocketAddr], their textual forms ([Display] and
    [FromStr], as the standard library prints and parses them) and the
    classification predicates the source tests. *)

From S2P Require Import Prelude.

Open Scope Z_scope.

(** ** Data *)

(** Four octets. *)
Record Ipv4Addr := Ipv4 { oct0 : Z; oct1 : Z; oct2 : Z; oct3 : Z }.

(** Eight 16-bit segments, most significant first. *)
Record Ipv6Addr := Ipv6 {
  seg0 : Z; seg1 : Z; seg2 : Z; seg3 : Z;
  seg4 : Z; seg5 : Z; seg6 : Z; seg7 : Z
}.

Inductive IpAddr := V4 (a : Ipv4Addr) | V6 (a : Ipv6Addr).

(** [SocketAddr]: an IPv6 socket address carries a flow label and a scope id.
    Both fields are zero in every address that the program builds; a parsed one
    can have a scope id. *)
Inductive SocketAddr :=
| SockV4 (ip : Ipv4Addr) (port : Z)
| SockV6 (ip : Ipv6Addr) (port : Z) (flowinfo scope_id : Z).

#[export] Instance Ipv4Addr_eq_dec : EqDecision Ipv4Addr.
Proof. solve_decision. Defined.
#[export] Instance Ipv6Addr_eq_dec : EqDecision Ipv6Addr.
Proof. solve_decision. Defined.
#[export] Instance IpAddr_eq_dec : EqDecision IpAddr.
Proof. solve_decision. Defined.
#[export] Instance SocketAddr_eq_dec : EqDecision SocketAddr.
Proof. solve_decision. Defined.

Definition octets4 (a : Ipv4Addr) : list Z := [oct0 a; oct1 a; oct2 a; oct3 a].
Definition segments (a : Ipv6Addr) : list Z :=
  [seg0 a; seg1 a; seg2 a; seg3 a; seg4 a; seg5 a; seg6 a; seg7 a].
Definition of_segments (l : list Z) : option Ipv6Addr :=
  match l with
  | [a; b; c; d; e; f; g; h] => Some (Ipv6 a b c d e f g h)
  | _ => None
  end.

(** [Ipv6Addr::octets] *)
Definition octets (a : Ipv6Addr) : list Z := concat (u16_to_be_bytes <$> segments a).

(** [Ipv6Addr::from([u8; 16])] *)
Definition of_octets (l : list Z) : option Ipv6Addr :=
  match l with
  | [a0; a1; b0; b1; c0; c1; d0; d1; e0; e1; f0; f1; g0; g1; h0; h1] =>
      Some (Ipv6 (u16_from_be_bytes a0 a1) (u16_from_be_bytes b0 b1)
                 (u16_from_be_bytes c0 c1) (u16_from_be_bytes d0 d1)
                 (u16_from_be_bytes e0 e1) (u16_from_be_bytes f0 f1)
                 (u16_from_be_bytes g0 g1) (u16_from_be_bytes h0 h1))
  | _ => None
  end.

Definition wf_ipv4 (a : Ipv4Addr) : Prop := Forall is_u8 (octets4 a).
Definition wf_ipv6 (a : Ipv6Addr) : Prop := Forall is_u16 (segments a).

Definition sock_ip (s : SocketAddr) : IpAddr :=
  match s with SockV4 a _ => V4 a | SockV6 a _ _ _ => V6 a end.
Definition sock_port (s : SocketAddr) : Z :=
  match s with SockV4 _ p => p | SockV6 _ p _ _ => p end.
(** [SocketAddr::new] *)
Definition sock_new (ip : IpAddr) (port : Z) : SocketAddr :=
  match ip with V4 a => SockV4 a port | V6 a => SockV6 a port 0 0 end.
(** [SocketAddr::set_ip] and [SocketAddr::is_ipv4] *)
Definition sock_is_ipv4 (s : SocketAddr) : bool :=
  match s with SockV4 _ _ => true | SockV6 _ _ _ _ => false end.

#[export] Instance Ipv6Addr_countable : Countable Ipv6Addr.
Proof.
  refine (inj_countable' segments
    (fun l => default (Ipv6 0 0 0 0 0 0 0 0) (of_segments l)) _).
  by intros [].
Defined.
#[export] Instance Ipv4Addr_countable : Countable Ipv4Addr.
Proof.
  refine (inj_countable' octets4
    (fun l => match l with [a; b; c; d] => Ipv4 a b c d | _ => Ipv4 0 0 0 0 end) _).
  by intros [].
Defined.

Lemma segments_inj a b : segments a = segments b -> a = b.
Proof. destruct a, b. by intros [=-> -> -> -> -> -> -> ->]. Qed.

Lemma octets_roundtrip a : wf_ipv6 a -> of_octets (octets a) = Some a.
Proof.
  intros H. destruct a as [a b c d e f g h].
  unfold wf_ipv6, segments in H. simpl in H.
  repeat match goal with H : Forall _ (_ :: _) |- _ => inversion_clear H end.
  unfold octets. simpl. by rewrite !u16_be_roundtrip.
Qed.

Lemma octets_length a : length (octets a) = 16%nat.
Proof. done. Qed.

Lemma octets_u8 a : Forall is_u8 (octets a).
Proof.
  assert (forall z, is_u8 (Z.land z 255)) as Hl.
  { intros z. rewrite land_255. unfold is_u8, u8_max.
    pose proof (Z.mod_pos_bound z 256). lia. }
  unfold octets. simpl. repeat (apply Forall_cons; split; [apply Hl|]). by apply Forall_nil.
Qed.

(** ** Classification *)

Definition v4_is_unspecified (a : Ipv4Addr) : bool :=
  bool_decide (a = Ipv4 0 0 0 0).
Definition v4_is_loopback (a : Ipv4Addr) : bool := oct0 a =? 127.
Definition v4_is_private (a : Ipv4Addr) : bool :=
  (oct0 a =? 10)
  || ((oct0 a =? 172) && (16 <=? oct1 a) && (oct1 a <=? 31))
  || ((oct0 a =? 192) && (oct1 a =? 168)).
Definition v4_is_link_local (a : Ipv4Addr) : bool :=
  (oct0 a =? 169) && (oct1 a =? 254).
Definition v4_is_broadcast (a : Ipv4Addr) : bool :=
  bool_decide (a = Ipv4 255 255 255 255).
Definition v4_is_documentation (a : Ipv4Addr) : bool :=
  ((oct0 a =? 192) && (oct1 a =? 0) && (oct2 a =? 2))
  || ((oct0 a =? 198) && (oct1 a =? 51) && (oct2 a =? 100))
  || ((oct0 a =? 203) && (oct1 a =? 0) && (oct2 a =? 113)).
Definition v4_is_multicast (a : Ipv4Addr) : bool :=
  (224 <=? oct0 a) && (oct0 a <=? 239).

Definition v6_unspecified : Ipv6Addr := Ipv6 0 0 0 0 0 0 0 0.
Definition v6_is_unspecified (a : Ipv6Addr) : bool := bool_decide (a = v6_unspecified).
Definition v6_is_loopback (a : Ipv6Addr) : bool := bool_decide (a = Ipv6 0 0 0 0 0 0 0 1).
Definition v6_is_multicast (a : Ipv6Addr) : bool :=
  Z.land (Z.shiftr (seg0 a) 8) 255 =? 255.
(** [Ipv6Addr::is_unique_local], [is_unicast_link_local] *)
Definition v6_is_unique_local (a : Ipv6Addr) : bool := Z.land (seg0 a) 0xfe00 =? 0xfc00.
Definition v6_is_unicast_link_local (a : Ipv6Addr) : bool := Z.land (seg0 a) 0xffc0 =? 0xfe80.

Definition ip_is_loopback (i : IpAddr) : bool :=
  match i with V4 a => v4_is_loopback a | V6 a => v6_is_loopback a end.
Definition ip_is_unspecified (i : IpAddr) : bool :=
  match i with V4 a => v4_is_unspecified a | V6 a => v6_is_unspecified a end.

(** [Ipv6Addr::to_ipv4_mapped] *)
Definition to_ipv4_mapped (a : Ipv6Addr) : option Ipv4Addr :=
  if (seg0 a =? 0) && (seg1 a =? 0) && (seg2 a =? 0) && (seg3 a =? 0)
     && (seg4 a =? 0) && (seg5 a =? 0xffff)
  then match octets a with
       | [_; _; _; _; _; _; _; _; _; _; _; _; w; x; y; z] => Some (Ipv4 w x y z)
       | _ => None
       end
  else None.

(** ** Textual forms *)

Definition digit_char (d : Z) : Ascii.ascii :=
  Ascii.ascii_of_N (Z.to_N (if d <? 10 then 48 + d else 87 + d)).

(** Digits of [z] in [radix], most significant first, no leading zero. *)
Fixpoint digits_fuel (fuel : nat) (radix z : Z) (acc : string) : string :=
  match fuel with
  | O => acc
  | S fuel =>
      let acc := String (digit_char (z mod radix)) acc in
      if z / radix =? 0 then acc else digits_fuel fuel radix (z / radix) acc
  end.
(** [{}] of an unsigned integer of at most 64 bits (20 digits), [{:x}] of a
    [u16] (4 digits). *)
Definition fmt_u (z : Z) : string := digits_fuel 20 10 z EmptyString.
Definition fmt_hex (z : Z) : string := digits_fuel 4 16 z EmptyString.

(** [{}] of a signed integer *)
Definition fmt_i (z : Z) : string :=
  if z <? 0 then "-" +:+ fmt_u (- z) else fmt_u z.

Fixpoint string_join (sep : string) (l : list string) : string :=
  match l with
  | [] => EmptyString
  | [x] => x
  | x :: l => x +:+ sep +:+ string_join sep l
  end.

Definition fmt_ipv4 (a : Ipv4Addr) : string :=
  string_join "." (fmt_u <$> octets4 a).

(** The first longest run of zero segments: (start, length). *)
Definition zero_run (l : list Z) : nat * nat :=
  let '(longest, current, _) :=
    foldl (fun '(longest, current, i) z =>
      if z =? 0 then
        let current := if (snd current =? 0)%nat then (i, 1%nat)
                       else (fst current, S (snd current)) in
        (if (snd longest <? snd current)%nat then current else longest, current, S i)
      else (longest, (0%nat, 0%nat), S i))
    ((0%nat, 0%nat), (0%nat, 0%nat), 0%nat) l in
  longest.

Definition fmt_subslice (l : list Z) : string := string_join ":" (fmt_hex <$> l).

(** [Display for Ipv6Addr] *)
Definition fmt_ipv6 (a : Ipv6Addr) : string :=
  match to_ipv4_mapped a with
  | Some v4 => "::ffff:" +:+ fmt_ipv4 v4
  | None =>
      let '(start, len) := zero_run (segments a) in
      if (1 <? len)%nat then
        fmt_subslice (take start (segments a)) +:+ "::"
          +:+ fmt_subslice (drop (start + len) (segments a))
      else fmt_subslice (segments a)
  end.

(** [Display for SocketAddr] *)
Definition fmt_sock (s : SocketAddr) : string :=
  match s with
  | SockV4 a p => fmt_ipv4 a +:+ ":" +:+ fmt_u p
  | SockV6 a p _ scope =>
      if scope =? 0 then "[" +:+ fmt_ipv6 a +:+ "]:" +:+ fmt_u p
      else "[" +:+ fmt_ipv6 a +:+ "%" +:+ fmt_u scope +:+ "]:" +:+ fmt_u p
  end.

(** The one character of a one-character string *)
Definition ascii_of (s : string) : Ascii.ascii :=
  match s with String c _ => c | EmptyString => Ascii.zero end.

(** The parser of [std::net]: a parser consumes a prefix of its input, and
    [None] leaves the input where it was. *)
Definition Parser (A : Type) := string -> option (A * string).

Definition to_digit (radix : Z) (c : Ascii.ascii) : option Z :=
  let n := Z.of_N (Ascii.N_of_ascii c) in
  let d := if (48 <=? n) && (n <=? 57) then n - 48
           else if (97 <=? n) && (n <=? 122) then n - 87
           else if (65 <=? n) && (n <=? 90) then n - 55
           else 99 in
  if d <? radix then Some d else None.

Definition read_char (c : Ascii.ascii) : Parser unit := fun s =>
  match s with
  | String a s => if bool_decide (a = c) then Some (tt, s) else None
  | EmptyString => None
  end.

(** The digits at the head of [s]: value, number of digits and the rest. *)
Fixpoint read_digits (radix : Z) (s : string) (value : Z) (count : Z) : Z * Z * string :=
  match s with
  | String c s' =>
      match to_digit radix c with
      | Some d => read_digits radix s' (value * radix + d) (count + 1)
      | None => (value, count, s)
      end
  | EmptyString => (value, count, s)
  end.

(** [read_number]: the digits of a number of type [max], at most [max_digits]
    of them when that is given; [allow_zero] accepts a leading zero. *)
Definition read_number (radix max : Z) (max_digits : option Z) (allow_zero : bool) : Parser Z :=
  fun s =>
    let '(value, count, rest) := read_digits radix s 0 0 in
    let leading_zero :=
      match s with String c _ => (Ascii.N_of_ascii c =? 48)%N | EmptyString => false end in
    if match max_digits with Some m => m <? count | None => false end then None
    else if max <? value then None
    else if count =? 0 then None
    else if negb allow_zero && leading_zero && (1 <? count) then None
    else Some (value, rest).

(** [read_separator]: [p] preceded, but at index 0, by [sep]. *)
Definition read_separator {A} (sep : Ascii.ascii) (index : nat) (p : Parser A) : Parser A :=
  fun s =>
    match index with
    | O => p s
    | S _ => match read_char sep s with Some (_, s) => p s | None => None end
    end.

Definition read_ipv4_addr : Parser Ipv4Addr := fun s =>
  let num i := read_separator (ascii_of ".") i (read_number 10 u8_max (Some 3) false) in
  match num 0%nat s with None => None | Some (a, s) =>
  match num 1%nat s with None => None | Some (b, s) =>
  match num 2%nat s with None => None | Some (c, s) =>
  match num 3%nat s with None => None | Some (d, s) =>
    Some (Ipv4 a b c d, s) end end end end.

(** [read_groups], with [left] groups of [limit] still to read at index [i]:
    the groups read, whether an embedded IPv4 address ended them, and the rest. *)
Fixpoint read_groups (left i : nat) (s : string) : list Z * bool * string :=
  match left with
  | O => ([], false, s)
  | S left' =>
      let group :=
        match read_separator (ascii_of ":") i (read_number 16 u16_max (Some 4) true) s with
        | Some (g, s) =>
            let '(gs, v4, s) := read_groups left' (S i) s in (g :: gs, v4, s)
        | None => ([], false, s)
        end in
      match left' with
      | O => group
      | S _ =>
          match read_separator (ascii_of ":") i read_ipv4_addr s with
          | Some (a, s) =>
              ([u16_from_be_bytes (oct0 a) (oct1 a); u16_from_be_bytes (oct2 a) (oct3 a)], true, s)
          | None => group
          end
      end
  end.

Definition read_ipv6_addr : Parser Ipv6Addr := fun s =>
  let '(head, head_ipv4, s) := read_groups 8 0 s in
  if (length head =? 8)%nat then
    match of_segments head with Some a => Some (a, s) | None => None end
  else if head_ipv4 then None
  else match read_char (ascii_of ":") s with None => None | Some (_, s) =>
  match read_char (ascii_of ":") s with None => None | Some (_, s) =>
    let limit := (8 - (length head + 1))%nat in
    let '(tail, _, s) := read_groups limit 0 s in
    let zeros := repeat 0 (8 - length head - length tail)%nat in
    match of_segments (head ++ zeros ++ tail) with Some a => Some (a, s) | None => None end
  end end.

Definition read_port : Parser Z := fun s =>
  match read_char (ascii_of ":") s with
  | Some (_, s) => read_number 10 u16_max None true s
  | None => None
  end.
Definition read_scope_id : Parser Z := fun s =>
  match read_char (ascii_of "%") s with
  | Some (_, s) => read_number 10 u32_max None true s
  | None => None
  end.

Definition read_socket_addr : Parser SocketAddr := fun s =>
  let v6 :=
    match read_char (ascii_of "[") s with None => None | Some (_, s) =>
    match read_ipv6_addr s with None => None | Some (a, s) =>
    let '(scope, s) := match read_scope_id s with Some (n, s) => (n, s) | None => (0, s) end in
    match read_char (ascii_of "]") s with None => None | Some (_, s) =>
    match read_port s with None => None | Some (p, s) =>
      Some (SockV6 a p 0 scope, s) end end end end in
  match read_ipv4_addr s with
  | Some (a, s') =>
      match read_port s' with
      | Some (p, s') => Some (SockV4 a p, s')
      | None => v6
      end
  | None => v6
  end.

(** A parser that must consume the whole input. *)
Definition parse_all {A} (p : Parser A) (s : string) : option A :=
  match p s with Some (a, EmptyString) => Some a | _ => None end.

(** [str::parse] for the address types; an IPv4 address is at most 15 bytes. *)
Definition parse_ipv4 (s : string) : option Ipv4Addr :=
  if (15 <? String.length s)%nat then None else parse_all read_ipv4_addr s.
Definition parse_ipv6 (s : string) : option Ipv6Addr := parse_all read_ipv6_addr s.
Definition parse_sock (s : string) : option SocketAddr := parse_all read_socket_addr s.

Example fmt_ipv6_host : fmt_ipv6 (Ipv6 0xfd5a 0x1f00 3 7 0 0 0 1) = "fd5a:1f00:3:7::1".
Proof. reflexivity. Qed.
Example fmt_ipv6_first_run : fmt_ipv6 (Ipv6 1 0 0 2 0 0 3 4) = "1::2:0:0:3:4".
Proof. reflexivity. Qed.
Example fmt_ipv6_mapped : fmt_ipv6 (Ipv6 0 0 0 0 0 0xffff 0xc0a8 1) = "::ffff:192.168.0.1".
Proof. reflexivity. Qed.
Example parse_ipv6_mapped :
  parse_ipv6 "::ffff:192.168.0.1" = Some (Ipv6 0 0 0 0 0 0xffff 0xc0a8 1).
Proof. reflexivity. Qed.
Example parse_ipv6_host : parse_ipv6 "fd5a:1f00::7:0:0:0:1" = Some (Ipv6 0xfd5a 0x1f00 0 7 0 0 0 1).
Proof. reflexivity. Qed.
Example parse_ipv6_bad : parse_ipv6 "fd5a:1f00" = None /\ parse_ipv6 "::1 " = None.
Proof. done. Qed.
Example parse_sock_v6 : parse_sock "[::1%3]:51820" = Some (SockV6 (Ipv6 0 0 0 0 0 0 0 1) 51820 0 3).
Proof. reflexivity. Qed.
Example parse_sock_v4 : parse_sock "10.0.0.1:51820" = Some (SockV4 (Ipv4 10 0 0 1) 51820).
Proof. reflexivity. Qed.
Example parse_sock_bad : parse_sock "10.0.0.01:5" = None /\ parse_sock "10.0.0.1:65536" = None.
Proof. done. Qed.

(** Digits read back. *)
Lemma to_digit_char d : 0 <= d < 16 -> to_digit 16 (digit_char d) = Some d.
Proof.
  intros H.
  assert (d = 0 \/ d = 1 \/ d = 2 \/ d = 3 \/ d = 4 \/ d = 5 \/ d = 6 \/ d = 7 \/
          d = 8 \/ d = 9 \/ d = 10 \/ d = 11 \/ d = 12 \/ d = 13 \/ d = 14 \/ d = 15) by lia.
  destruct_or!; subst; reflexivity.
Qed.

Lemma digit_char_inj a b : 0 <= a < 16 -> 0 <= b < 16 -> digit_char a = digit_char b -> a = b.
Proof.
  intros Ha Hb H. apply (f_equal (to_digit 16)) in H. rewrite !to_digit_char in H by done.
  congruence.
Qed.
