(* ===== verification/AddrText.v ===== *)
(** * The text of an IPv6 address reads back

    [std::net]'s parser applied to its formatter: what the coordinator relies on
    when an address travels through an event or the stored roster. *)

From S2P Require Import Prelude NetAddr.

Open Scope Z_scope.

(** ** Numbers *)

(** The digits of [z], at most [fuel] of them. *)
Definition digits (fuel : nat) (radix z : Z) : string := digits_fuel fuel radix z EmptyString.

Lemma digits_fuel_app fuel radix z acc : digits_fuel fuel radix z acc = digits fuel radix z +:+ acc.
Proof.
  revert z acc. induction fuel as [|fuel IH]; intros z acc; [done|]. unfold digits. cbn [digits_fuel].
  destruct (z / radix =? 0); [done|]. rewrite (IH _ (String _ acc)), (IH _ (String _ EmptyString)).
  by rewrite string_app_assoc.
Qed.

Lemma digits_S fuel radix z :
  digits (S fuel) radix z
  = (if z / radix =? 0 then EmptyString else digits fuel radix (z / radix))
    +:+ String (digit_char (z mod radix)) EmptyString.
Proof.
  unfold digits at 1. cbn [digits_fuel]. destruct (z / radix =? 0); [done|]. by rewrite digits_fuel_app.
Qed.

Lemma to_digit_digit_char radix d : 0 <= d < radix -> radix <= 16 -> to_digit radix (digit_char d) = Some d.
Proof.
  intros Hd Hr. pose proof (to_digit_char d ltac:(lia)) as H. unfold to_digit in *.
  set (x := if (48 <=? _) && _ then _ else _) in *. destruct (x <? 16); [|done].
  injection H as ->. destruct (d <? radix) eqn:E; [done|lia].
Qed.

Section Digits.
Variable radix : Z.
Hypothesis Hradix : 2 <= radix <= 16.

Lemma div_fuel fuel z : 0 <= z < radix ^ Z.of_nat (S fuel) -> 0 <= z / radix < radix ^ Z.of_nat fuel.
Proof.
  intros Hz. rewrite Nat2Z.inj_succ, Z.pow_succ_r in Hz by lia.
  split; [apply Z.div_pos; lia|apply Z.div_lt_upper_bound; lia].
Qed.

Lemma digits_length fuel z : 0 <= z < radix ^ Z.of_nat (S fuel) ->
  (1 <= String.length (digits (S fuel) radix z) <= S fuel)%nat.
Proof.
  revert z. induction fuel as [|fuel IH]; intros z Hz; rewrite digits_S, string_app_length; simpl.
  - replace (z / radix =? 0) with true; [simpl; lia|].
    pose proof (div_fuel 0 z Hz) as Hd. simpl in Hd. lia.
  - pose proof (IH (z / radix) (div_fuel _ _ Hz)). destruct (z / radix =? 0); simpl; lia.
Qed.

(** The digits, then the rest. *)
Lemma read_digits_digits fuel z v n t :
  0 <= z < radix ^ Z.of_nat fuel ->
  let k := Z.of_nat (String.length (digits fuel radix z)) in
  read_digits radix (digits fuel radix z +:+ t) v n = read_digits radix t (v * radix ^ k + z) (n + k).
Proof.
  revert z v n t. induction fuel as [|fuel IH]; intros z v n t Hz.
  { simpl in *. assert (z = 0) as -> by lia. rewrite Z.add_0_r. do 2 f_equal; lia. }
  rewrite digits_S, string_app_assoc, string_app_cons, string_app_nil, string_app_length.
  pose proof (div_fuel fuel z Hz) as Hd. pose proof (Z.mod_pos_bound z radix ltac:(lia)) as Hm.
  pose proof (Z.div_mod z radix ltac:(lia)) as Hdm.
  destruct (z / radix =? 0) eqn:E.
  - apply Z.eqb_eq in E. rewrite string_app_nil. cbn [read_digits].
    rewrite to_digit_digit_char by lia. simpl. f_equal; lia.
  - rewrite (IH (z / radix)) by done. cbn [read_digits].
    rewrite to_digit_digit_char by lia. cbn [String.length].
    rewrite Nat2Z.inj_add. change (Z.of_nat 1) with 1.
    rewrite Z.pow_add_r by lia. f_equal; [|lia]. rewrite Z.pow_1_r. nia.
Qed.

(** A string at which no number in this radix goes on. *)
Definition stops (t : string) : Prop :=
  match t with EmptyString => True | String c _ => to_digit radix c = None end.

Lemma read_digits_stops t v n : stops t -> read_digits radix t v n = (v, n, t).
Proof. destruct t as [|c t]; simpl; [done|]. by intros ->. Qed.

Lemma digits_leading_zero fuel z s :
  0 <= z < radix ^ Z.of_nat (S fuel) -> digits (S fuel) radix z = String (digit_char 0) s -> z = 0 /\ s = EmptyString.
Proof.
  revert z s. induction fuel as [|fuel IH]; intros z s Hz; rewrite digits_S;
    pose proof (div_fuel _ z Hz) as Hd; pose proof (Z.mod_pos_bound z radix ltac:(lia)) as Hm;
    pose proof (Z.div_mod z radix ltac:(lia)) as Hdm;
    (destruct (z / radix =? 0) eqn:E; [apply Z.eqb_eq in E|apply Z.eqb_neq in E]).
  1, 3: rewrite string_app_nil; intros [= Hc <-]; apply digit_char_inj in Hc; [split; [lia|done]|lia..].
  - simpl in Hd. lia.
  - destruct (digits (S fuel) radix (z / radix)) as [|c u] eqn:Hu.
    { pose proof (digits_length fuel (z / radix) Hd). rewrite Hu in *. simpl in *. lia. }
    rewrite string_app_cons. intros [= -> _]. apply IH in Hu as [? _]; [lia|done].
Qed.

Lemma read_number_digits fuel max limit allow z t :
  0 <= z < radix ^ Z.of_nat (S fuel) -> z <= max -> Z.of_nat (S fuel) <= limit -> stops t ->
  read_number radix max (Some limit) allow (digits (S fuel) radix z +:+ t) = Some (z, t).
Proof.
  intros Hz Hmax Hlim Ht. pose proof (digits_length fuel z Hz) as Hl.
  unfold read_number. rewrite read_digits_digits by done.
  rewrite read_digits_stops by done. rewrite Z.mul_0_l, !Z.add_0_l.
  destruct (limit <? _) eqn:E1; [lia|]. destruct (max <? z) eqn:E2; [lia|].
  destruct (_ =? 0) eqn:E3; [lia|].
  destruct (negb allow && _ && _) eqn:E4; [|done].
  apply andb_true_iff in E4 as [[_ E4]%andb_true_iff E5].
  destruct (digits (S fuel) radix z) as [|c u] eqn:Hu; [simpl in *; lia|].
  rewrite string_app_cons in E4. apply N.eqb_eq in E4.
  assert (c = digit_char 0) as ->.
  { rewrite <- (Ascii.ascii_N_embedding c), E4. reflexivity. }
  apply digits_leading_zero in Hu as [_ ->]; [|done]. simpl in E5. lia.
Qed.
End Digits.

(** [{:x}] of a [u16] and [{}] of an octet. *)
Lemma read_hex z t : is_u16 z -> stops 16 t -> read_number 16 u16_max (Some 4) true (fmt_hex z +:+ t) = Some (z, t).
Proof.
  unfold is_u16, u16_max. intros Hz Ht. apply (read_number_digits 16 ltac:(lia) 3); try done; simpl; lia.
Qed.

Lemma fmt_u_octet z : is_u8 z -> fmt_u z = digits 3 10 z.
Proof.
  unfold is_u8, u8_max. intros Hz. unfold fmt_u, digits. do 3 (cbn [digits_fuel];
    match goal with |- context [?a / 10 =? 0] => destruct (a / 10 =? 0) eqn:? end; [done|]).
  exfalso. rewrite !Z.div_div, (Z.div_small z) in * by lia. done.
Qed.

Lemma read_octet z t : is_u8 z -> stops 10 t -> read_number 10 u8_max (Some 3) false (fmt_u z +:+ t) = Some (z, t).
Proof.
  intros Hz Ht. rewrite fmt_u_octet by done. unfold is_u8, u8_max in *.
  apply (read_number_digits 10 ltac:(lia) 2); try done; simpl; lia.
Qed.

Lemma read_ipv4_fmt a t : wf_ipv4 a -> stops 10 t -> read_ipv4_addr (fmt_ipv4 a +:+ t) = Some (a, t).
Proof.
  intros Hw Ht. destruct a as [a b c d]. unfold wf_ipv4, octets4 in Hw. simpl in Hw.
  repeat match goal with H : Forall _ (_ :: _) |- _ => inversion_clear H end.
  unfold fmt_ipv4, octets4. cbn [fmap list_fmap oct0 oct1 oct2 oct3 string_join].
  rewrite !string_app_assoc, !string_app_cons, !string_app_nil.
  unfold read_ipv4_addr, read_separator, read_char. rewrite read_octet by done.
  rewrite bool_decide_true by done. rewrite read_octet by done.
  rewrite bool_decide_true by done. rewrite read_octet by done.
  rewrite bool_decide_true by done. rewrite read_octet by done. done.
Qed.

(** ** Groups *)

(** Groups as they are printed from index [i] on. *)
Fixpoint join_groups (i : nat) (gs : list Z) (t : string) : string :=
  match gs with
  | [] => t
  | g :: gs => (match i with O => EmptyString | S _ => ":" end) +:+ fmt_hex g +:+ join_groups (S i) gs t
  end.

Lemma join_groups_S i j gs t : join_groups (S i) gs t = join_groups (S j) gs t.
Proof. revert i j. induction gs as [|g gs IH]; intros i j; [done|]. cbn [join_groups]. by rewrite (IH _ (S j)). Qed.

Lemma fmt_subslice_join gs t : fmt_subslice gs +:+ t = join_groups 0 gs t.
Proof.
  unfold fmt_subslice. destruct gs as [|g gs]; [done|]. cbn [join_groups]. rewrite string_app_nil.
  revert g. induction gs as [|h gs IH]; intros g; [done|].
  change (string_join ":" (fmt_hex <$> g :: h :: gs))
    with (fmt_hex g +:+ ":" +:+ string_join ":" (fmt_hex <$> h :: gs)).
  rewrite !string_app_assoc, IH. cbn [join_groups]. by rewrite (join_groups_S 1 0).
Qed.

(** After the groups: the end or a colon. *)
Definition ends (t : string) : Prop := t = EmptyString \/ exists u, t = ":" +:+ u.

Lemma ends_stops radix t : 0 <= radix <= 16 -> ends t -> stops radix t.
Proof.
  intros Hr [->|[u ->]]; [done|]. unfold stops, to_digit; simpl.
  destruct (99 <? radix) eqn:?; [lia|done].
Qed.
Lemma ends_join i gs t : ends t -> ends (join_groups (S i) gs t).
Proof. destruct gs as [|g gs]; [done|]. right. cbn [join_groups]. by eexists. Qed.

(** Hexadecimal digits and then such an end hold no dotted quad. *)
Lemma no_dot fuel z t v n :
  0 <= z -> ends t ->
  read_char (ascii_of ".") (snd (read_digits 10 (digits fuel 16 z +:+ t) v n)) = None.
Proof.
  intros Hz Ht. revert z v n t Hz Ht.
  assert (forall t v n, ends t -> read_char (ascii_of ".") (snd (read_digits 10 t v n)) = None) as Hend.
  { intros t v n Ht. rewrite read_digits_stops by by apply ends_stops; [lia|].
    by destruct Ht as [->|[u ->]]. }
  assert (forall d s v n, 0 <= d < 16 ->
    (forall v n, read_char (ascii_of ".") (snd (read_digits 10 s v n)) = None) ->
    read_char (ascii_of ".") (snd (read_digits 10 (String (digit_char d) s) v n)) = None) as Hcons.
  { intros d s v n Hd Hs. cbn [read_digits]. destruct (to_digit 10 (digit_char d)); [apply Hs|].
    cbn [snd read_char]. rewrite bool_decide_false; [done|]. intros Hx.
    apply (f_equal (to_digit 16)) in Hx. by rewrite to_digit_char in Hx. }
  assert (forall fuel z s, 0 <= z ->
    (forall v n, read_char (ascii_of ".") (snd (read_digits 10 s v n)) = None) ->
    forall v n, read_char (ascii_of ".") (snd (read_digits 10 (digits fuel 16 z +:+ s) v n)) = None) as Hd.
  { clear fuel Hend. induction fuel as [|fuel IH]; intros z s Hz Hs v n; [apply Hs|].
    rewrite digits_S, string_app_assoc, string_app_cons, string_app_nil.
    pose proof (Z.mod_pos_bound z 16 ltac:(lia)).
    destruct (z / 16 =? 0); [rewrite string_app_nil; by apply Hcons|].
    apply IH; [by apply Z.div_pos|]. intros v' n'. by apply Hcons. }
  intros z v n t Hz Ht. apply Hd; [done|]. intros. by apply Hend.
Qed.

Lemma ipv4_fails_on_hex g t : is_u16 g -> ends t -> read_ipv4_addr (fmt_hex g +:+ t) = None.
Proof.
  intros Hg Ht. unfold read_ipv4_addr, read_separator at 1.
  pose proof (no_dot 4 g t 0 0 (proj1 Hg) Ht) as Hd. unfold digits in Hd. fold (fmt_hex g) in Hd.
  unfold read_number at 1. destruct (read_digits 10 (fmt_hex g +:+ t) 0 0) as [[v n] r]. cbn [snd] in Hd.
  repeat match goal with |- context [if ?c then None else _] => destruct c; [done|] end.
  unfold read_separator at 1. by rewrite Hd.
Qed.

(** At [t] no further group can be read at index [i]. *)
Definition no_group (i : nat) (t : string) : Prop :=
  t = EmptyString \/ (exists u, t = "::" +:+ u).

Lemma no_group_fails i t : no_group i t ->
  read_separator (ascii_of ":") i (read_number 16 u16_max (Some 4) true) t = None /\
  read_separator (ascii_of ":") i read_ipv4_addr t = None /\ ends t.
Proof.
  intros [->|[u ->]]; destruct i; split_and!; try done; try by left.
  all: right; by eexists.
Qed.

Lemma read_groups_join left i gs t :
  Forall is_u16 gs -> (length gs <= left)%nat ->
  ends t -> (length gs = left \/ no_group (i + length gs) t) ->
  read_groups left i (join_groups i gs t) = (gs, false, t).
Proof.
  revert i gs. induction left as [|left IH]; intros i gs Hgs Hlen Ht Hstop.
  { destruct gs; [done|simpl in *; lia]. }
  cbn [read_groups]. destruct gs as [|g gs].
  - destruct Hstop as [|Hno]; [done|]. rewrite Nat.add_0_r in Hno.
    destruct (no_group_fails i t Hno) as (H1 & H2 & _). cbn [join_groups].
    rewrite H1. destruct left; [done|]. by rewrite H2.
  - apply Forall_cons in Hgs as [Hg Hgs]. simpl in Hlen.
    assert (ends (join_groups (S i) gs t)) as He by by apply ends_join.
    assert (forall {A} (p : Parser A), read_separator (ascii_of ":") i p (join_groups i (g :: gs) t)
            = p (fmt_hex g +:+ join_groups (S i) gs t)) as Hsep.
    { intros A p. by destruct i. }
    rewrite !Hsep, ipv4_fails_on_hex by done. rewrite read_hex by (done || (apply ends_stops; [lia|done])).
    rewrite IH; [by destruct left|done|lia|done|].
    destruct Hstop as [Hl|Hno]; [left; simpl in Hl; lia|right].
    simpl in Hno. by rewrite Nat.add_succ_r in Hno.
Qed.

(** ** Addresses *)

Definition zeros_at (l : list Z) (start len : nat) : Prop :=
  (start + len <= length l)%nat /\ take len (drop start l) = repeat 0 len.

Lemma zeros_at_snoc l z start len : zeros_at l start len -> zeros_at (l ++ [z]) start len.
Proof.
  intros [Hl Ht]. split; [rewrite length_app; lia|].
  rewrite drop_app_le by lia. rewrite take_app_le; [done|]. rewrite length_drop. lia.
Qed.

Lemma zeros_at_grow l start len :
  zeros_at l start len -> (start + len)%nat = length l -> zeros_at (l ++ [0]) start (S len).
Proof.
  intros [Hl Ht] He. split; [rewrite length_app; simpl; lia|].
  rewrite drop_app_le by lia. rewrite take_ge in Ht by (rewrite length_drop; lia).
  rewrite take_ge by (rewrite length_app, length_drop; simpl; lia).
  rewrite Ht, <- (Nat.add_1_r len), repeat_app. done.
Qed.

Lemma zero_run_spec l : zeros_at l (fst (zero_run l)) (snd (zero_run l)).
Proof.
  unfold zero_run.
  match goal with |- context [foldl ?f ?a l] => set (F := f); set (A := a) end.
  assert (let '(longest, current, i) := foldl F A l in
    zeros_at l (fst longest) (snd longest) /\ i = length l /\
    (snd current <> 0%nat -> zeros_at l (fst current) (snd current) /\
       (fst current + snd current)%nat = length l)) as H.
  { induction l as [|z l IH] using rev_ind; [by repeat split|].
    rewrite foldl_snoc. destruct (foldl F A l) as [[longest current] i].
    destruct IH as (H1 & -> & H3). unfold F. rewrite length_app. simpl (length [z]).
    destruct (z =? 0) eqn:Ez.
    - apply Z.eqb_eq in Ez as ->.
      assert (let c := if (snd current =? 0)%nat then (length l, 1%nat) else (fst current, S (snd current)) in
        zeros_at (l ++ [0]) (fst c) (snd c) /\ (fst c + snd c)%nat = (length l + 1)%nat) as Hc.
      { destruct (snd current =? 0)%nat eqn:Ec.
        - split; [|simpl; lia]. apply zeros_at_grow; [|simpl; lia]. split; [simpl; lia|done].
        - apply Nat.eqb_neq in Ec. destruct (H3 Ec) as [H4 H5]. split; [by apply zeros_at_grow|simpl; lia]. }
      destruct Hc as [Hc1 Hc2].
      split; [destruct (_ <? _)%nat; [done|by apply zeros_at_snoc]|]. split; [lia|done].
    - split; [by apply zeros_at_snoc|]. split; [lia|done]. }
  destruct (foldl F A l) as [[longest current] i]. apply H.
Qed.

Lemma take_zeros_drop l start len :
  zeros_at l start len -> l = take start l ++ repeat 0 len ++ drop (start + len) l.
Proof.
  intros [Hl Ht]. rewrite <- Ht, <- drop_drop, !take_drop. done.
Qed.

Lemma parse_mapped a v4 : wf_ipv6 a -> to_ipv4_mapped a = Some v4 ->
  wf_ipv4 v4 /\ a = Ipv6 0 0 0 0 0 0xffff (u16_from_be_bytes (oct0 v4) (oct1 v4)) (u16_from_be_bytes (oct2 v4) (oct3 v4)).
Proof.
  intros Hw. pose proof (octets_u8 a) as H8. unfold to_ipv4_mapped. destruct a as [a b c d e f g h].
  destruct (_ && _) eqn:E; [|done]. cbn [seg0 seg1 seg2 seg3 seg4 seg5] in E.
  assert (a = 0 /\ b = 0 /\ c = 0 /\ d = 0 /\ e = 0 /\ f = 0xffff) as (-> & -> & -> & -> & -> & ->) by lia.
  unfold wf_ipv6, segments in Hw. simpl in Hw. unfold octets, segments in *. simpl in *.
  intros [= <-]. simpl.
  repeat match goal with H : Forall _ (_ :: _) |- _ => inversion_clear H end.
  rewrite !u16_be_roundtrip by done. split; [|done].
  repeat (apply Forall_cons; split; [done|]). by apply Forall_nil.
Qed.

Lemma read_groups_ipv4 left i a : wf_ipv4 a ->
  read_groups (S (S left)) (S i) (":" +:+ fmt_ipv4 a)
  = ([u16_from_be_bytes (oct0 a) (oct1 a); u16_from_be_bytes (oct2 a) (oct3 a)], true, EmptyString).
Proof.
  intros Hw. cbn [read_groups].
  assert (read_separator (ascii_of ":") (S i) read_ipv4_addr (":" +:+ fmt_ipv4 a) = Some (a, EmptyString)) as ->; [|done].
  change (read_separator (ascii_of ":") (S i) read_ipv4_addr (":" +:+ fmt_ipv4 a)) with (read_ipv4_addr (fmt_ipv4 a)).
  rewrite <- (string_app_nil_r (fmt_ipv4 a)). by apply read_ipv4_fmt.
Qed.

Lemma read_groups_hex left g t : is_u16 g -> ends t ->
  read_groups (S (S left)) 0 (fmt_hex g +:+ t)
  = let '(gs, v4, s) := read_groups (S left) 1 t in (g :: gs, v4, s).
Proof.
  intros Hg Ht. remember (S left) as n eqn:Hn. cbn [read_groups read_separator].
  rewrite ipv4_fails_on_hex, read_hex by (done || (apply ends_stops; [lia|done])). by subst n.
Qed.

Lemma read_ipv6_double_colon gs t rest :
  (length gs < 8)%nat -> Forall is_u16 gs ->
  read_groups (8 - (length gs + 1)) 0 t = rest ->
  read_ipv6_addr (join_groups 0 gs ("::" +:+ t))
  = let '(tail, _, s) := rest in
    match of_segments (gs ++ repeat 0 (8 - length gs - length tail) ++ tail) with
    | Some a => Some (a, s) | None => None end.
Proof.
  intros Hl Hg <-. unfold read_ipv6_addr.
  rewrite read_groups_join; [|done|lia|right; by eexists|right; right; by eexists].
  destruct (length gs =? 8)%nat eqn:E; [lia|]. done.
Qed.

Lemma wf_take_drop a n : wf_ipv6 a -> Forall is_u16 (take n (segments a)) /\ Forall is_u16 (drop n (segments a)).
Proof. intros H. split; [by apply Forall_take|by apply Forall_drop]. Qed.

Lemma parse_fmt_ipv6 a : wf_ipv6 a -> parse_ipv6 (fmt_ipv6 a) = Some a.
Proof.
  intros Hw. unfold fmt_ipv6, parse_ipv6, parse_all. destruct (to_ipv4_mapped a) as [v4|] eqn:Hm.
  - destruct (parse_mapped a v4 Hw Hm) as [Hw4 ->].
    change ("::ffff:" +:+ fmt_ipv4 v4)
      with (join_groups 0 [] ("::" +:+ (fmt_hex 0xffff +:+ (":" +:+ fmt_ipv4 v4)))).
    erewrite read_ipv6_double_colon; [|simpl; lia|by apply Forall_nil|done].
    change (8 - (length (A := Z) [] + 1))%nat with 7%nat.
    rewrite read_groups_hex, read_groups_ipv4; [done|done|unfold is_u16, u16_max; lia|right; by eexists].
  - pose proof (zero_run_spec (segments a)) as Hz.
    destruct (zero_run (segments a)) as [start len]. simpl in Hz.
    destruct (1 <? len)%nat eqn:Hl.
    + apply Nat.ltb_lt in Hl. pose proof (take_zeros_drop _ _ _ Hz) as Hsplit.
      destruct Hz as [Hlen _]. change (length (segments a)) with 8%nat in Hlen.
      assert (length (take start (segments a)) = start) as Ht by (rewrite length_take; simpl; lia).
      assert (length (drop (start + len) (segments a)) = 8 - (start + len))%nat as Hd by (rewrite length_drop; done).
      rewrite fmt_subslice_join.
      rewrite <- (string_app_nil_r (fmt_subslice (drop _ _))), fmt_subslice_join.
      erewrite read_ipv6_double_colon; [|lia|by apply wf_take_drop|].
      2: { apply read_groups_join; [by apply wf_take_drop|lia|by left|right; by left]. }
      cbn beta iota. rewrite Ht, Hd.
      replace (8 - start - (8 - (start + len)))%nat with len by lia.
      rewrite <- Hsplit. by destruct a.
    + rewrite <- (string_app_nil_r (fmt_subslice _)), fmt_subslice_join. unfold read_ipv6_addr.
      rewrite read_groups_join; [by destruct a|done|done|by left|by left].
Qed.
