(* ===== verification/Text.v ===== *)
(** * Text functions of the standard library that the crates use

    [str::trim_end_matches], [str::contains], [to_lowercase], [lines] and [split_whitespace] on strings of
    UTF-8 bytes. *)

From S2P Require Import Prelude.

Open Scope Z_scope.

(** ** Strings and their bytes *)

Lemma bytes_of_app a b : bytes_of_string (a +:+ b) = bytes_of_string a ++ bytes_of_string b.
Proof.
  unfold bytes_of_string. induction a as [|c a IH]; [done|]. rewrite string_app_cons.
  cbn [String.list_ascii_of_string]. by rewrite !fmap_cons, IH.
Qed.
Lemma string_of_bytes_of s : string_of_bytes (bytes_of_string s) = s.
Proof.
  unfold string_of_bytes, bytes_of_string. induction s as [|c s IH]; [done|].
  cbn [String.list_ascii_of_string]. rewrite !fmap_cons. cbn [String.string_of_list_ascii].
  by rewrite N2Z.id, Ascii.ascii_N_embedding, IH.
Qed.
Lemma length_bytes_of s : length (bytes_of_string s) = String.length s.
Proof.
  unfold bytes_of_string. rewrite length_fmap. induction s as [|c s IH]; [done|].
  cbn [String.list_ascii_of_string length String.length]. by rewrite IH.
Qed.
Lemma bytes_of_u8 s : Forall is_u8 (bytes_of_string s).
Proof.
  apply Forall_forall. intros b (c & -> & _)%list_elem_of_fmap. pose proof (Ascii.N_ascii_bounded c). unfold is_u8, u8_max. lia.
Qed.

(** [str::trim_end_matches('/')] *)
Fixpoint drop_slashes (l : list Z) : list Z :=
  match l with b :: l => if b =? 47 then drop_slashes l else b :: l | [] => [] end.
Definition trim_end_slashes (s : string) : string :=
  string_of_bytes (rev (drop_slashes (rev (bytes_of_string s)))).

(** ** Searching *)

(** [str::contains] with a string pattern *)
Fixpoint contains (s needle : string) : bool :=
  starts_with needle s || match s with EmptyString => false | String _ s => contains s needle end.

Lemma contains_spec s needle : contains s needle = true <-> exists a b, s = a +:+ needle +:+ b.
Proof.
  revert needle. induction s as [|c s IH]; intros needle; cbn [contains]; rewrite orb_true_iff, starts_with_spec.
  - split; [intros [[r ->]|[=]]; by exists EmptyString, r|].
    intros (a & b & He). left. destruct a; [by exists b|done].
  - rewrite IH. split.
    + intros [[r ->]|(a & b & ->)]; [by exists EmptyString, r|]. by exists (String c a), b.
    + intros (a & b & He). destruct a as [|d a]; [left; by exists b|].
      right. rewrite string_app_cons in He. injection He as -> ->. by exists a, b.
Qed.

Lemma contains_app_l a s needle : contains s needle = true -> contains (a +:+ s) needle = true.
Proof.
  rewrite !contains_spec. intros (x & y & ->). exists (a +:+ x), y. by rewrite !string_app_assoc.
Qed.
Lemma contains_app_r s b needle : contains s needle = true -> contains (s +:+ b) needle = true.
Proof.
  rewrite !contains_spec. intros (x & y & ->). exists x, (y +:+ b). by rewrite !string_app_assoc.
Qed.

Lemma string_app_inv_tail (a b c : string) : a +:+ c = b +:+ c -> a = b.
Proof.
  revert b. induction a as [|x a IH]; intros b He; pose proof (f_equal String.length He) as Hl;
    rewrite !string_app_length in Hl; destruct b as [|y b]; cbn [String.length] in Hl; try lia; [done|].
  rewrite !string_app_cons in He. injection He as -> He. f_equal. by apply IH.
Qed.

(** The letters that [to_lowercase] changes and the patterns here contain are
    ASCII; other characters are left alone. *)
Definition to_ascii_lower (c : Ascii.ascii) : Ascii.ascii :=
  let n := Z.of_N (Ascii.N_of_ascii c) in
  if (65 <=? n) && (n <=? 90) then Ascii.ascii_of_N (Z.to_N (n + 32)) else c.
Fixpoint to_lowercase (s : string) : string :=
  match s with EmptyString => EmptyString | String c s => String (to_ascii_lower c) (to_lowercase s) end.

Lemma to_lowercase_app a b : to_lowercase (a +:+ b) = to_lowercase a +:+ to_lowercase b.
Proof. induction a as [|c a IH]; [done|]. rewrite string_app_cons. cbn [to_lowercase]. by rewrite IH. Qed.

Definition newline : Ascii.ascii := Ascii.ascii_of_N 10.
Definition carriage_return : Ascii.ascii := Ascii.ascii_of_N 13.

(** [str::lines]: a final newline ends the last line, and a carriage return before
    a newline belongs to it; [cur] is the line so far. *)
Fixpoint lines_from (cur s : string) : list string :=
  match s with
  | EmptyString => if bool_decide (cur = EmptyString) then [] else [cur]
  | String c s =>
      if bool_decide (c = newline) then default cur (strip_suffix_char carriage_return cur) :: lines_from EmptyString s
      else lines_from (cur +:+ String c EmptyString) s
  end.
Definition lines (s : string) : list string := lines_from EmptyString s.

(** [str::split_whitespace] on bytes; [cur] is the word so far, in reverse. *)
Definition end_word (cur : list Z) (words : list (list Z)) : list (list Z) :=
  match cur with [] => words | _ => rev cur :: words end.
Fixpoint split_ws (cur l : list Z) : list (list Z) :=
  match l with
  | [] => end_word cur []
  | b :: r =>
      if ws1 b then end_word cur (split_ws [] r)
      else match r with
           | c :: r' =>
               if ws2 b c then end_word cur (split_ws [] r')
               else match r' with
                    | d :: r'' => if ws3 b c d then end_word cur (split_ws [] r'') else split_ws (b :: cur) r
                    | [] => split_ws (b :: cur) r
                    end
           | [] => split_ws (b :: cur) r
           end
  end.
Definition split_whitespace (s : string) : list string := string_of_bytes <$> split_ws [] (bytes_of_string s).

Lemma text_examples :
  lines ("a" +:+ String newline ("b" +:+ String carriage_return (String newline EmptyString))) = ["a"; "b"]
  /\ split_whitespace "  from  x lookup 5 " = ["from"; "x"; "lookup"; "5"]
  /\ to_lowercase "No Such Process" = "no such process"
  /\ contains "abcd" "bc" = true /\ contains "abcd" "bd" = false.
Proof. by split_and!. Qed.

(** ** The lines of a text that was put together from lines *)

Fixpoint no_newline (s : string) : bool :=
  match s with EmptyString => true | String c s => negb (bool_decide (c = newline)) && no_newline s end.
Definition unlines (ls : list string) : string := foldr (fun l s => l +:+ String newline s) EmptyString ls.

Lemma lines_from_app cur l s :
  no_newline l = true ->
  lines_from cur (l +:+ String newline s)
  = default (cur +:+ l) (strip_suffix_char carriage_return (cur +:+ l)) :: lines_from EmptyString s.
Proof.
  revert cur. induction l as [|c l IH]; intros cur Hl.
  - rewrite string_app_nil, string_app_nil_r. cbn [lines_from]. by rewrite bool_decide_true.
  - cbn [no_newline] in Hl. apply andb_true_iff in Hl as [Hc Hl]. apply negb_true_iff in Hc.
    rewrite string_app_cons. cbn [lines_from]. rewrite Hc, IH by done.
    by rewrite !string_app_assoc.
Qed.

(** Lines without line breaks of their own come back as they were. *)
Definition plain_line (l : string) : bool := no_newline l && negb (bool_decide (is_Some (strip_suffix_char carriage_return l))).
Lemma lines_unlines ls : Forall (fun l => plain_line l = true) ls -> lines (unlines ls) = ls.
Proof.
  unfold lines. induction 1 as [|l ls Hl _ IH]; [done|]. apply andb_true_iff in Hl as [Hn Hc].
  apply negb_true_iff, bool_decide_eq_false, eq_None_not_Some in Hc.
  cbn [unlines foldr]. rewrite lines_from_app by done. rewrite string_app_nil, Hc. cbn [default]. f_equal. exact IH.
Qed.
