(* ===== verification/Json.v ===== *)
(** * Values of JSON and how [serde] reads and writes a struct with them

    A derived [Serialize] writes the fields of a struct in the order of their
    declaration, and a field with [skip_serializing_if] only when it has something to
    say; a derived [Deserialize] looks its fields up by name, ignores names it does not
    know, refuses a name of its own that comes twice, and fills a missing field by its
    [#[serde(default)]] or, for an [Option], with [None]. *)

From S2P Require Import Prelude.

Open Scope Z_scope.

#[local] Unset Elimination Schemes.
(** Numbers are integers: no struct here has a field of a floating type. *)
Inductive Json :=
| JNull
| JBool (b : bool)
| JNumber (z : Z)
| JString (s : string)
| JArray (l : list Json)
| JObject (fields : list (string * Json)).
#[local] Set Elimination Schemes.

Lemma Json_ind (P : Json -> Prop) :
  P JNull -> (forall b, P (JBool b)) -> (forall z, P (JNumber z)) -> (forall s, P (JString s)) ->
  (forall l, Forall P l -> P (JArray l)) ->
  (forall fields, Forall (fun p => P p.2) fields -> P (JObject fields)) ->
  forall j, P j.
Proof.
  intros Hnull Hbool Hnum Hstr Harr Hobj. fix IH 1. intros [|b|z|s|l|fields]; [done..| |].
  - apply Harr. induction l as [|j l IHl]; constructor; [apply IH|apply IHl].
  - apply Hobj. induction fields as [|[n j] fields IHf]; constructor; [apply IH|apply IHf].
Qed.

(** ** Writing *)

(** The fields of a struct, [None] for one that is left out. *)
Definition object_fields (fields : list (string * option Json)) : list (string * Json) :=
  omap (fun p => pair p.1 <$> p.2) fields.
Definition object (fields : list (string * option Json)) : Json := JObject (object_fields fields).

(** An [Option] that is always written, and one with
    [skip_serializing_if = "Option::is_none"]. *)
Definition json_option {A} (f : A -> Json) (x : option A) : Json := from_option f JNull x.
Definition if_some {A} (f : A -> Json) (x : option A) : option Json := f <$> x.
Definition json_list {A} (f : A -> Json) (l : list A) : Json := JArray (f <$> l).
(** [skip_serializing_if = "Vec::is_empty"] *)
Definition if_any {A} (f : A -> Json) (l : list A) : option Json :=
  match l with [] => None | _ => Some (json_list f l) end.

(** ** Reading *)

Fixpoint assoc {A} (name : string) (fields : list (string * A)) : option A :=
  match fields with
  | [] => None
  | (n, j) :: fields => if String.eqb n name then Some j else assoc name fields
  end.

(** No name of the struct comes twice. *)
Fixpoint distinct (l : list string) : bool :=
  match l with [] => true | n :: l => negb (existsb (String.eqb n) l) && distinct l end.
Definition once (names : list string) (fields : list (string * Json)) : bool :=
  distinct (List.filter (fun n => existsb (String.eqb n) names) fields.*1).
(** The reader that [derive] makes of a struct, on an object. It would take an array of
    the fields in their order too, which neither side here writes; that is refused
    here. *)
Definition read_struct {A} (names : list string) (read : list (string * Json) -> option A) (j : Json) : option A :=
  match j with JObject fields => if once names fields then read fields else None | _ => None end.

Definition read_string (j : Json) : option string := match j with JString s => Some s | _ => None end.
Definition read_bool (j : Json) : option bool := match j with JBool b => Some b | _ => None end.
Definition read_number (lo hi : Z) (j : Json) : option Z :=
  match j with JNumber z => if (lo <=? z) && (z <=? hi) then Some z else None | _ => None end.
Definition read_u8 : Json -> option Z := read_number 0 u8_max.
Definition read_u16 : Json -> option Z := read_number 0 u16_max.
Definition read_u64 : Json -> option Z := read_number 0 u64_max.
Definition read_i64 : Json -> option Z := read_number i64_min i64_max.
Definition read_list {A} (read : Json -> option A) (j : Json) : option (list A) :=
  match j with JArray l => mapM read l | _ => None end.
(** [[u8; 32]] is read from an array of 32 numbers. *)
Definition read_bytes32 (j : Json) : option (list Z) :=
  l ← read_list read_u8 j; if (length l =? 32)%nat then Some l else None.
(** An [Option] field that is missing or null is [None]. *)
Definition read_option {A} (read : Json -> option A) (j : option Json) : option (option A) :=
  match j with None | Some JNull => Some None | Some j => Some <$> read j end.
(** [#[serde(default)]]: a field that is missing has the value [d]; null is not missing. *)
Definition read_default {A} (d : A) (read : Json -> option A) (j : option Json) : option A :=
  match j with None => Some d | Some j => read j end.
Definition read_default_list {A} (read : Json -> option A) : option Json -> option (list A) :=
  read_default [] (read_list read).

(** ** What is written is read *)

Lemma existsb_In n l : existsb (String.eqb n) l = true <-> n ∈ l.
Proof.
  rewrite existsb_exists, list_elem_of_In. split.
  - intros (x & Hx & He%String.eqb_eq). congruence.
  - intros Hn. exists n. by rewrite String.eqb_refl.
Qed.
Lemma distinct_spec l : distinct l = true <-> NoDup l.
Proof.
  induction l as [|n l IH]; cbn [distinct]; [split; [intros _; apply NoDup_nil_2|done]|].
  rewrite NoDup_cons, andb_true_iff, negb_true_iff, IH, <- existsb_In. destruct (existsb _ _); naive_solver.
Qed.

Lemma object_names_sublist fields : sublist (object_fields fields).*1 fields.*1.
Proof.
  induction fields as [|[n [j|]] fields IH]; cbn; [done|by apply sublist_skip|by apply sublist_cons].
Qed.
Lemma filter_sublist (f : string -> bool) l : sublist (List.filter f l) l.
Proof.
  induction l as [|n l IH]; cbn; [done|]. destruct (f n); [by apply sublist_skip|by apply sublist_cons].
Qed.

Lemma once_object names fields : distinct fields.*1 = true -> once names (object_fields fields) = true.
Proof.
  unfold once. rewrite !distinct_spec. intros Hd.
  eapply sublist_NoDup, filter_sublist. by eapply sublist_NoDup, object_names_sublist.
Qed.
Lemma read_struct_object {A} names (read : _ -> option A) fields :
  distinct fields.*1 = true -> read_struct names read (object fields) = read (object_fields fields).
Proof. intros Hd. cbn [object read_struct]. by rewrite once_object. Qed.

Lemma assoc_None {A} n (fields : list (string * A)) : n ∉ fields.*1 -> assoc n fields = None.
Proof.
  induction fields as [|[m a] fields IH]; cbn; [done|]. rewrite not_elem_of_cons. intros [Hn Hf].
  destruct (String.eqb m n) eqn:E; [apply String.eqb_eq in E; congruence|by apply IH].
Qed.
Lemma assoc_object n fields :
  distinct fields.*1 = true -> assoc n (object_fields fields) = mjoin (assoc n fields).
Proof.
  rewrite distinct_spec.
  induction fields as [|[m x] fields IH]; [done|]. cbn. rewrite NoDup_cons. intros [Hm Hf].
  destruct x as [j|]; cbn; destruct (String.eqb m n) eqn:E; cbn; [done|by apply IH| |by apply IH].
  apply String.eqb_eq in E as ->. apply assoc_None. intros Hn. apply Hm.
  by eapply elem_of_sublist, object_names_sublist.
Qed.

(** Fields may be missing, and others be there. *)
Lemma once_evolved names keep fields extra :
  once names fields = true -> (forall p, p ∈ extra -> p.1 ∉ names) ->
  once names (List.filter (fun p => keep p.1) fields ++ extra) = true.
Proof.
  unfold once. rewrite !distinct_spec. intros Hd Hx. rewrite fmap_app, List.filter_app.
  replace (List.filter _ extra.*1) with (@nil string).
  - rewrite app_nil_r. eapply sublist_NoDup; [exact Hd|]. clear.
    induction fields as [|[n j] fields IH]; [done|]. cbn. destruct (keep n); cbn; destruct (existsb _ names);
      [by apply sublist_skip|done|by apply sublist_cons|done].
  - symmetry. induction extra as [|p extra IH]; [done|]. rewrite fmap_cons. cbn [List.filter].
    replace (existsb _ names) with false; [apply IH; intros q Hq; apply Hx; by constructor|].
    symmetry. apply not_true_iff_false. rewrite existsb_In. apply Hx. constructor.
Qed.
Lemma assoc_evolved n keep (fields extra : list (string * Json)) :
  (forall p, p ∈ extra -> p.1 <> n) ->
  assoc n (List.filter (fun p => keep p.1) fields ++ extra) = if keep n then assoc n fields else None.
Proof.
  intros Hx. induction fields as [|[m j] fields IH]; cbn.
  - transitivity (@None Json); [|by destruct (keep n)]. apply assoc_None. intros (p & -> & Hp)%list_elem_of_fmap. by apply (Hx p).
  - destruct (keep m) eqn:Em; cbn; [|rewrite IH]; destruct (String.eqb m n) eqn:E; try done.
    + apply String.eqb_eq in E as ->. by rewrite Em.
    + apply String.eqb_eq in E as ->. by rewrite Em.
Qed.
Lemma read_struct_evolved {A} names (read : _ -> option A) keep fields extra :
  once names fields = true -> (forall p, p ∈ extra -> p.1 ∉ names) ->
  read_struct names read (JObject (List.filter (fun p => keep p.1) fields ++ extra))
  = read (List.filter (fun p => keep p.1) fields ++ extra).
Proof. intros Ho Hx. cbn [read_struct]. by rewrite once_evolved. Qed.

Lemma read_number_in lo hi z : lo <= z <= hi -> read_number lo hi (JNumber z) = Some z.
Proof. intros Hz. unfold read_number. by replace ((lo <=? z) && (z <=? hi)) with true by lia. Qed.
Lemma read_number_Some lo hi j z : read_number lo hi j = Some z <-> j = JNumber z /\ lo <= z <= hi.
Proof.
  split; [|intros [-> Hz]; by apply read_number_in].
  destruct j; cbn; try done. destruct (_ && _) eqn:E; [intros [= <-]|done]. split; [done|lia].
Qed.
Lemma read_list_map {A B} (read : Json -> option A) (f : B -> Json) (g : B -> option A) l :
  (forall x, x ∈ l -> read (f x) = g x) -> read_list read (json_list f l) = mapM g l.
Proof.
  cbn [read_list json_list]. induction l as [|x l IH]; intros Hf; [done|]. rewrite fmap_cons. cbn [mapM].
  rewrite Hf by constructor. by rewrite IH by (intros y Hy; apply Hf; by constructor).
Qed.
Lemma mapM_pure {A} (l : list A) : mapM Some l = Some l.
Proof. induction l as [|x l IH]; [done|]. cbn [mapM mbind option_bind]. by rewrite IH. Qed.
Lemma mapM_fmap_pure {A B} (f : A -> B) l : mapM (Some ∘ f) l = Some (f <$> l).
Proof. induction l as [|x l IH]; [done|]. cbn [mapM mbind option_bind]. by rewrite IH. Qed.
Lemma read_list_all {A} (read : Json -> option A) f l :
  (forall x, x ∈ l -> read (f x) = Some x) -> read_list read (json_list f l) = Some l.
Proof. intros Hf. by rewrite (read_list_map read f Some), mapM_pure. Qed.
Lemma read_strings l : read_list read_string (json_list JString l) = Some l.
Proof. by apply read_list_all. Qed.
Lemma read_option_json {A} (read : Json -> option A) f x :
  (forall a, x = Some a -> f a <> JNull /\ read (f a) = Some a) -> read_option read (Some (json_option f x)) = Some x.
Proof.
  destruct x as [a|]; [|done]. intros Hf. destruct (Hf a eq_refl) as [Hn Hr]. cbn.
  destruct (f a); try done; by rewrite Hr.
Qed.
Lemma read_option_if_some {A} (read : Json -> option A) f x :
  (forall a, x = Some a -> f a <> JNull /\ read (f a) = Some a) -> read_option read (if_some f x) = Some x.
Proof.
  destruct x as [a|]; [|done]. intros Hf. apply (read_option_json read f (Some a) Hf).
Qed.
Lemma read_default_if_any {A} (read : Json -> option A) f l :
  (forall x, x ∈ l -> read (f x) = Some x) -> read_default_list read (if_any f l) = Some l.
Proof. intros Hf. destruct l as [|x l]; [done|]. by apply read_list_all. Qed.

Lemma read_option_string x : read_option read_string (Some (json_option JString x)) = Some x.
Proof. by apply read_option_json. Qed.
Lemma read_option_if_string x : read_option read_string (if_some JString x) = Some x.
Proof. by apply read_option_if_some. Qed.

Lemma read_option_bool x : read_option read_bool (Some (json_option JBool x)) = Some x.
Proof. by apply read_option_json. Qed.
Lemma read_default_strings l : read_default_list read_string (Some (json_list JString l)) = Some l.
Proof. apply read_strings. Qed.
Lemma read_default_any_strings l : read_default_list read_string (if_any JString l) = Some l.
Proof. by apply read_default_if_any. Qed.

Create Rewrite HintDb json.
#[export] Hint Rewrite @read_strings read_option_bool read_default_strings read_default_any_strings @read_option_string @read_option_if_string : json.

(** Reading a struct that was written: the fields are found, and those without a range
    read back. *)
Ltac read_object :=
  rewrite read_struct_object by (vm_compute; reflexivity);
  cbv beta; rewrite ?assoc_object by (vm_compute; reflexivity);
  cbn [assoc String.eqb Ascii.eqb Bool.eqb mjoin option_join mbind option_bind read_string read_bool read_default];
  autorewrite with json; cbn [mbind option_bind].

(** The numbers [serde_json] writes are those of the 64-bit types. *)
Fixpoint representable (j : Json) : bool :=
  match j with
  | JNull | JBool _ | JString _ => true
  | JNumber z => (i64_min <=? z) && (z <=? u64_max)
  | JArray l => forallb representable l
  | JObject fields => forallb (fun p => representable p.2) fields
  end.

Lemma representable_object fields :
  representable (object fields) = forallb (fun p => from_option representable true p.2) fields.
Proof.
  cbn. induction fields as [|[n [j|]] fields IH]; [done| |exact IH]. cbn. by rewrite <- IH.
Qed.
Lemma representable_list {A} (f : A -> Json) l :
  (forall x, x ∈ l -> representable (f x) = true) -> representable (json_list f l) = true.
Proof.
  intros Hf. cbn. apply forallb_forall. intros j (x & -> & Hx)%list_elem_of_In%list_elem_of_fmap. by apply Hf.
Qed.
Lemma representable_any {A} (f : A -> Json) l :
  (forall x, x ∈ l -> representable (f x) = true) -> from_option representable true (if_any f l) = true.
Proof. intros Hf. destruct l as [|x l]; [done|]. by apply representable_list. Qed.
Lemma representable_some {A} (f : A -> Json) x :
  (forall a, x = Some a -> representable (f a) = true) -> from_option representable true (if_some f x) = true.
Proof. intros Hf. destruct x as [a|]; [by apply Hf|done]. Qed.
Lemma representable_option {A} (f : A -> Json) x :
  (forall a, x = Some a -> representable (f a) = true) -> representable (json_option f x) = true.
Proof. intros Hf. destruct x as [a|]; [by apply Hf|done]. Qed.
Lemma representable_string_parts :
  (forall l, representable (json_list JString l) = true) /\ (forall x, representable (json_option JString x) = true)
  /\ (forall x, from_option representable true (if_some JString x) = true)
  /\ (forall l, from_option representable true (if_any JString l) = true).
Proof.
  split_and!; intros x; [by apply representable_list|by apply representable_option|by apply representable_some|by apply representable_any].
Qed.
Lemma representable_i64 z : is_i64 z -> representable (JNumber z) = true.
Proof. unfold is_i64, i64_min, i64_max. cbn. unfold i64_min, u64_max. lia. Qed.
Lemma representable_u64 z : is_u64 z -> representable (JNumber z) = true.
Proof. unfold is_u64. cbn. unfold i64_min, u64_max. lia. Qed.

(** Splits the question for an object into its fields, and answers it for those of
    strings and booleans. *)
Ltac represent :=
  rewrite representable_object; cbn [forallb snd from_option];
  pose proof representable_string_parts as (Hrepr1 & Hrepr2 & Hrepr3 & Hrepr4);
  rewrite ?Hrepr1, ?Hrepr2, ?Hrepr3, ?Hrepr4; clear Hrepr1 Hrepr2 Hrepr3 Hrepr4;
  repeat change (representable (JString _)) with true; repeat change (representable (JBool _)) with true;
  cbn [andb]; rewrite ?andb_true_r, ?andb_true_iff.

(** ** Texts

    [serde_json]'s texts of values: what it writes, it reads. *)
Class JsonText := { to_text : Json -> string; of_text : string -> option Json }.
Class JsonTextLaws `{JsonText} := {
  of_text_to_text : forall j, representable j = true -> of_text (to_text j) = Some j;
}.
