(* ===== verification/JsonText.v ===== *)
(** * A reference text form of JSON

    RFC 8259 for the values of [Json.v]: a compact printer and a parser, with the
    proof that the one reads the other back. The services' own texts are those of
    [serde_json] (class [JsonText]); this form instantiates that class, and it is what
    the lines of the log are read with ([Logging.v]). Numbers are integers. *)

From Stdlib Require Import Ascii.
From S2P Require Import Prelude NetAddr AddrText Text Json.

Open Scope Z_scope.

Definition quote : Ascii.ascii := "034"%char.
Definition backslash : Ascii.ascii := "092"%char.
Definition byte_of (c : Ascii.ascii) : Z := Z.of_N (Ascii.N_of_ascii c).
Definition char_of (b : Z) : Ascii.ascii := Ascii.ascii_of_N (Z.to_N b).
Definition char_eqb (c d : Ascii.ascii) : bool := Ascii.eqb c d.
Definition single (c : Ascii.ascii) : string := String c EmptyString.

(** ** Strings *)

(** The escapes of one character besides [\u]. *)
Definition short_escapes : list (Ascii.ascii * Ascii.ascii) :=
  [(quote, quote); (backslash, backslash); ("/"%char, "/"%char); ("b"%char, char_of 8); ("f"%char, char_of 12);
   ("n"%char, char_of 10); ("r"%char, char_of 13); ("t"%char, char_of 9)].
Fixpoint unescape_char (c : Ascii.ascii) (l : list (Ascii.ascii * Ascii.ascii)) : option Ascii.ascii :=
  match l with [] => None | (a, b) :: l => if char_eqb a c then Some b else unescape_char c l end.

Definition is_control (c : Ascii.ascii) : bool := byte_of c <? 32.

Definition hex4 (a b c d : Ascii.ascii) : option Z :=
  a ← to_digit 16 a; b ← to_digit 16 b; c ← to_digit 16 c; d ← to_digit 16 d;
  Some (4096 * a + 256 * b + 16 * c + d).
(** The UTF-8 bytes of a code point. *)
Definition utf8 (n : Z) : string :=
  string_of_bytes
    (if n <? 0x80 then [n]
     else if n <? 0x800 then [0xc0 + n / 64; 0x80 + n mod 64]
     else if n <? 0x10000 then [0xe0 + n / 4096; 0x80 + n / 64 mod 64; 0x80 + n mod 64]
     else [0xf0 + n / 262144; 0x80 + n / 4096 mod 64; 0x80 + n / 64 mod 64; 0x80 + n mod 64]).

Definition push (t : string) (r : option (string * string)) : option (string * string) :=
  '(content, rest) ← r; Some (t +:+ content, rest).
(** The content of a string, after its opening quote, and what follows its closing one. *)
Fixpoint read_content (s : string) : option (string * string) :=
  match s with
  | EmptyString => None
  | String c s =>
      if char_eqb c quote then Some (EmptyString, s)
      else if char_eqb c backslash then
        match s with
        | EmptyString => None
        | String e s =>
            if char_eqb e "u" then
              match s with
              | String h1 (String h2 (String h3 (String h4 s))) =>
                  n ← hex4 h1 h2 h3 h4;
                  if (0xd800 <=? n) && (n <? 0xdc00) then
                    match s with
                    | String b (String u (String l1 (String l2 (String l3 (String l4 s))))) =>
                        m ← hex4 l1 l2 l3 l4;
                        if char_eqb b backslash && char_eqb u "u" && (0xdc00 <=? m) && (m <? 0xe000)
                        then push (utf8 (0x10000 + 1024 * (n - 0xd800) + (m - 0xdc00))) (read_content s)
                        else None
                    | _ => None
                    end
                  else if (0xdc00 <=? n) && (n <? 0xe000) then None
                  else push (utf8 n) (read_content s)
              | _ => None
              end
            else x ← unescape_char e short_escapes; push (single x) (read_content s)
        end
      else if is_control c then None
      else push (single c) (read_content s)
  end.
(** The content alone, if the whole of [s] is one. *)
Definition unescape (s : string) : option string :=
  match read_content (s +:+ single quote) with Some (content, EmptyString) => Some content | _ => None end.

Definition escape_char (c : Ascii.ascii) : string :=
  if char_eqb c quote || char_eqb c backslash then String backslash (single c)
  else if char_eqb c (char_of 8) then String backslash (single "b")
  else if char_eqb c (char_of 12) then String backslash (single "f")
  else if char_eqb c (char_of 10) then String backslash (single "n")
  else if char_eqb c (char_of 13) then String backslash (single "r")
  else if char_eqb c (char_of 9) then String backslash (single "t")
  else if is_control c
  then String backslash (String "u" (String "0" (String "0" (String (digit_char (byte_of c / 16)) (single (digit_char (byte_of c mod 16)))))))
  else single c.
Fixpoint escape (s : string) : string :=
  match s with EmptyString => EmptyString | String c s => escape_char c +:+ escape s end.

(** ** Printing *)

Definition quoted (s : string) : string := String quote (escape s +:+ single quote).
Fixpoint print (j : Json) : string :=
  match j with
  | JNull => "null"
  | JBool b => if b then "true" else "false"
  | JNumber z => fmt_i z
  | JString s => quoted s
  | JArray l => "[" +:+ string_join "," ((fun j => print j) <$> l) +:+ "]"
  | JObject fields => "{" +:+ string_join "," ((fun p => quoted p.1 +:+ ":" +:+ print p.2) <$> fields) +:+ "}"
  end.

(** ** Parsing *)

Definition is_ws (c : Ascii.ascii) : bool :=
  char_eqb c (char_of 32) || char_eqb c (char_of 10) || char_eqb c (char_of 13) || char_eqb c (char_of 9).
Fixpoint skip_ws (s : string) : string :=
  match s with String c r => if is_ws c then skip_ws r else s | EmptyString => EmptyString end.
(** The character [c], after any white space. *)
Definition token (c : Ascii.ascii) (s : string) : option string :=
  match skip_ws s with String d r => if char_eqb d c then Some r else None | EmptyString => None end.
Definition literal (t : string) (j : Json) (s : string) : option (Json * string) := pair j <$> strip_prefix t s.
Definition unsigned (s : string) : option (Z * string) := NetAddr.read_number 10 u64_max (Some 20) false s.
(** An integer of 64 bits. *)
Definition integer (s : string) : option (Json * string) :=
  match s with
  | String c r =>
      if char_eqb c "-" then '(z, rest) ← unsigned r; if (0 <? z) && (i64_min <=? - z) then Some (JNumber (- z), rest) else None
      else '(z, rest) ← unsigned s; Some (JNumber z, rest)
  | EmptyString => None
  end.

Fixpoint value (fuel : nat) (s : string) : option (Json * string) :=
  match fuel with
  | O => None
  | S fuel =>
      match skip_ws s with
      | EmptyString => None
      | String c r as s =>
          if char_eqb c "{" then
            match token "}" r with Some rest => Some (JObject [], rest) | None => '(l, rest) ← members fuel r; Some (JObject l, rest) end
          else if char_eqb c "[" then
            match token "]" r with Some rest => Some (JArray [], rest) | None => '(l, rest) ← elements fuel r; Some (JArray l, rest) end
          else if char_eqb c quote then '(t, rest) ← read_content r; Some (JString t, rest)
          else if char_eqb c "n" then literal "null" JNull s
          else if char_eqb c "t" then literal "true" (JBool true) s
          else if char_eqb c "f" then literal "false" (JBool false) s
          else integer s
      end
  end
with members (fuel : nat) (s : string) : option (list (string * Json) * string) :=
  match fuel with
  | O => None
  | S fuel =>
      s ← token quote s;
      '(name, s) ← read_content s;
      s ← token ":" s;
      '(j, s) ← value fuel s;
      match token "}" s with
      | Some rest => Some ([(name, j)], rest)
      | None => s ← token "," s; '(l, rest) ← members fuel s; Some ((name, j) :: l, rest)
      end
  end
with elements (fuel : nat) (s : string) : option (list Json * string) :=
  match fuel with
  | O => None
  | S fuel =>
      '(j, s) ← value fuel s;
      match token "]" s with
      | Some rest => Some ([j], rest)
      | None => s ← token "," s; '(l, rest) ← elements fuel s; Some (j :: l, rest)
      end
  end.

(** Every value, member and element costs at least one character. *)
Definition parse (s : string) : option Json :=
  match value (S (String.length s)) s with
  | Some (j, rest) => if bool_decide (skip_ws rest = EmptyString) then Some j else None
  | None => None
  end.

Lemma print_examples :
  print (JObject [("a", JArray [JNumber 1; JNumber (-20); JNull]); ("b", JBool true); ("c", JObject [])])
    = "{" +:+ quoted "a" +:+ ":[1,-20,null]," +:+ quoted "b" +:+ ":true," +:+ quoted "c" +:+ ":{}}"
  /\ parse " [ 1 , true ] " = Some (JArray [JNumber 1; JBool true])
  /\ parse "[01]" = None /\ parse "[1,]" = None /\ parse "[1] 2" = None /\ parse "18446744073709551616" = None
  /\ parse ("[" +:+ String quote (String backslash "u00e9\ud83d\ude00") +:+ single quote +:+ "]")
     = Some (JArray [JString (string_of_bytes [0xc3; 0xa9; 0xf0; 0x9f; 0x98; 0x80])])
  /\ parse ("[" +:+ String quote (String backslash "ud83d") +:+ single quote +:+ "]") = None.
Proof. by vm_compute. Qed.

(** ** What is printed reads back *)

(** *** Strings *)

Lemma read_escaped_char c t : read_content (escape_char c +:+ t) = push (single c) (read_content t).
Proof.
  destruct c as [[] [] [] [] [] [] [] []]; reflexivity.
Qed.
Lemma read_content_escape s t : read_content (escape s +:+ String quote t) = Some (s, t).
Proof.
  induction s as [|c s IH]; [done|]. cbn [escape]. by rewrite string_app_assoc, read_escaped_char, IH.
Qed.
Lemma unescape_escape s : unescape (escape s) = Some s.
Proof. unfold unescape, single. by rewrite read_content_escape. Qed.
Lemma quoted_app s t : quoted s +:+ t = String quote (escape s +:+ String quote t).
Proof. unfold quoted. by rewrite string_app_cons, string_app_assoc. Qed.

(** *** Numbers *)

Lemma digits_head fuel z : exists d t, digits (S fuel) 10 z = String (digit_char d) t /\ 0 <= d < 10.
Proof.
  revert z. induction fuel as [|fuel IH]; intros z; rewrite digits_S; pose proof (Z.mod_pos_bound z 10 ltac:(lia)).
  - exists (z mod 10), EmptyString. by destruct (z / 10 =? 0).
  - destruct (z / 10 =? 0); [by exists (z mod 10), EmptyString|].
    destruct (IH (z / 10)) as (d & t & -> & Hd). eexists d, _. by rewrite string_app_cons.
Qed.
Lemma digit_cases (P : Ascii.ascii -> Prop) :
  Forall P (digit_char <$> [0; 1; 2; 3; 4; 5; 6; 7; 8; 9]) -> forall d, 0 <= d < 10 -> P (digit_char d).
Proof.
  intros H d Hd. rewrite Forall_fmap, Forall_forall in H. apply H, list_elem_of_In. simpl. lia.
Qed.
Lemma unsigned_fmt z rest : is_u64 z -> stops 10 rest -> unsigned (fmt_u z +:+ rest) = Some (z, rest).
Proof.
  unfold is_u64, u64_max. intros Hz Hr.
  apply (read_number_digits 10 ltac:(lia) 19 u64_max 20 false); [simpl; lia|unfold u64_max; lia|lia|done].
Qed.
Lemma integer_fmt z rest :
  i64_min <= z <= u64_max -> stops 10 rest -> integer (fmt_i z +:+ rest) = Some (JNumber z, rest).
Proof.
  unfold i64_min, u64_max. intros Hz Hr. unfold fmt_i. destruct (z <? 0) eqn:E.
  - rewrite string_app_assoc, string_app_cons, string_app_nil. cbn [integer].
    rewrite unsigned_fmt by (unfold is_u64, u64_max; lia || done). cbn. unfold i64_min.
    by replace ((0 <? - z) && _) with true by lia; rewrite Z.opp_involutive.
  - pose proof (unsigned_fmt z rest ltac:(unfold is_u64, u64_max; lia) Hr) as Hu.
    destruct (digits_head 19 z) as (d & t & Hd & Hb). unfold fmt_u in *. fold (digits 20 10 z) in *. rewrite Hd in *.
    rewrite string_app_cons in *. cbn [integer].
    assert (char_eqb (digit_char d) "-" = false) as ->; [|by rewrite Hu].
    clear Hu Hd. apply (digit_cases (fun c => char_eqb c "-" = false)); [by repeat constructor|done].
Qed.

(** *** Values *)

(** A value starts with a character that is no white space and closes nothing. *)
Definition opens (c : Ascii.ascii) : bool := negb (is_ws c) && negb (char_eqb c "}") && negb (char_eqb c "]").
Lemma print_head j : exists c t, print j = String c t /\ opens c = true.
Proof.
  destruct j as [|[]|z|s|l|l]; try by eexists _, _; split.
  cbn [print]. unfold fmt_i. destruct (z <? 0); [by eexists _, _; split|].
  destruct (digits_head 19 z) as (d & t & Hd & Hb). unfold fmt_u. fold (digits 20 10 z). rewrite Hd.
  eexists _, _. split; [done|]. clear Hd. apply (digit_cases (fun c => opens c = true)); [by repeat constructor|done].
Qed.
Lemma print_nonempty j : (1 <= String.length (print j))%nat.
Proof. destruct (print_head j) as (c & t & -> & _). cbn. lia. Qed.

Lemma token_here c r : is_ws c = false -> token c (String c r) = Some r.
Proof. intros Hc. unfold token. cbn [skip_ws]. rewrite Hc. unfold char_eqb. by rewrite Ascii.eqb_refl. Qed.
Lemma token_other c d r : is_ws d = false -> char_eqb d c = false -> token c (String d r) = None.
Proof. intros Hd Hc. unfold token. cbn [skip_ws]. by rewrite Hd, Hc. Qed.

(** [value] at every character that a printed value can start with but a digit. *)
Definition reads (j : Json) : Prop :=
  forall fuel rest, representable j = true -> stops 10 rest -> (String.length (print j) <= fuel)%nat ->
    value fuel (print j +:+ rest) = Some (j, rest).

Lemma join_more {A} (f : A -> string) x y l :
  string_join "," (f <$> x :: y :: l) = f x +:+ "," +:+ string_join "," (f <$> y :: l).
Proof. done. Qed.
Lemma elements_print l fuel rest :
  Forall reads l -> forallb representable l = true -> l <> [] ->
  (String.length (string_join "," (print <$> l)) + 1 <= fuel)%nat ->
  elements fuel (string_join "," (print <$> l) +:+ "]" +:+ rest) = Some (l, rest).
Proof.
  intros Hl. revert fuel. induction Hl as [|j l Hj Hl IH]; [done|]. intros fuel Hr _ Hf.
  cbn [forallb] in Hr. apply andb_true_iff in Hr as [Hrj Hrl].
  destruct fuel as [|fuel]; [lia|]. destruct l as [|k l].
  - cbn [fmap list_fmap string_join] in *. cbn [elements]. rewrite Hj by (done || lia). cbn [mbind option_bind].
    by rewrite string_app_cons, token_here.
  - rewrite join_more in *. rewrite !string_app_length in Hf. cbn [String.length] in Hf. pose proof (print_nonempty j).
    rewrite !string_app_assoc. cbn [elements]. rewrite Hj by (done || lia). cbn [mbind option_bind].
    rewrite string_app_cons, string_app_nil, token_other, token_here by done. cbn [mbind option_bind].
    by rewrite IH by (done || lia).
Qed.

Definition print_member (p : string * Json) : string := quoted p.1 +:+ ":" +:+ print p.2.
Lemma members_print l fuel rest :
  Forall (fun p => reads p.2) l -> forallb (fun p => representable p.2) l = true -> l <> [] ->
  (String.length (string_join "," (print_member <$> l)) + 1 <= fuel)%nat ->
  members fuel (string_join "," (print_member <$> l) +:+ "}" +:+ rest) = Some (l, rest).
Proof.
  intros Hl. revert fuel. induction Hl as [|[n j] l Hj Hl IH]; [done|]. intros fuel Hr _ Hf.
  cbn [forallb] in Hr. apply andb_true_iff in Hr as [Hrj Hrl]. cbn [snd] in *.
  destruct fuel as [|fuel]; [lia|].
  assert (forall t, print_member (n, j) +:+ t = String quote (escape n +:+ String quote (":" +:+ print j +:+ t))) as Hm.
  { intros t. unfold print_member. cbn [fst snd]. by rewrite !string_app_assoc, quoted_app. }
  assert (String.length (print j) + 3 <= String.length (print_member (n, j)))%nat as Hlen.
  { unfold print_member, quoted, single. rewrite !string_app_length. cbn. rewrite string_app_length. cbn. lia. }
  destruct l as [|q l].
  - cbn [fmap list_fmap string_join] in *. rewrite Hm. cbn [members]. rewrite token_here by done. cbn [mbind option_bind].
    rewrite read_content_escape. cbn [mbind option_bind]. rewrite string_app_cons, token_here by done. cbn [mbind option_bind].
    rewrite string_app_nil, Hj by (done || lia). cbn [mbind option_bind]. by rewrite string_app_cons, token_here.
  - rewrite join_more in *. rewrite !string_app_length in Hf. cbn [String.length] in Hf.
    rewrite !string_app_assoc, Hm. cbn [members]. rewrite token_here by done. cbn [mbind option_bind].
    rewrite read_content_escape. cbn [mbind option_bind]. rewrite string_app_cons, token_here by done. cbn [mbind option_bind].
    rewrite string_app_nil, Hj by (done || lia). cbn [mbind option_bind].
    rewrite string_app_cons, string_app_nil, token_other, token_here by done. cbn [mbind option_bind].
    by rewrite IH by (done || lia).
Qed.

(** No value's text begins like the end of an empty array or object. *)
Lemma token_print c j t : c = "]"%char \/ c = "}"%char -> token c (print j +:+ t) = None.
Proof.
  destruct (print_head j) as (d & u & -> & Ho). unfold opens in Ho. apply andb_true_iff in Ho as [[Hw H1]%andb_true_iff H2].
  apply negb_true_iff in Hw, H1, H2. rewrite string_app_cons. by intros [-> | ->]; apply token_other.
Qed.
Lemma join_head {A} (f : A -> string) x l : exists t, string_join "," (f <$> x :: l) = f x +:+ t.
Proof. destruct l; [exists EmptyString; by rewrite string_app_nil_r|by eexists]. Qed.

Lemma value_number z fuel rest :
  i64_min <= z <= u64_max -> stops 10 rest -> value (S fuel) (fmt_i z +:+ rest) = Some (JNumber z, rest).
Proof.
  intros Hz Hs. rewrite <- (integer_fmt z rest Hz Hs).
  assert (exists c t, fmt_i z +:+ rest = String c t /\ forall r, value (S fuel) (String c r) = integer (String c r))
    as (c & t & -> & Hc); [|apply Hc].
  unfold fmt_i. destruct (z <? 0); [by eexists _, _; split|].
  destruct (digits_head 19 z) as (d & t & Hd & Hb). unfold fmt_u. fold (digits 20 10 z). rewrite Hd, string_app_cons.
  eexists _, _. split; [done|]. clear Hd. revert d Hb.
  apply (digit_cases (fun c => forall r, value (S fuel) (String c r) = integer (String c r))). by repeat constructor.
Qed.

Lemma value_array fuel r : token "]" r = None ->
  value (S fuel) (String "[" r) = '(l, rest) ← elements fuel r; Some (JArray l, rest).
Proof. intros Ht. cbn. by rewrite Ht. Qed.
Lemma value_object fuel r : token "}" r = None ->
  value (S fuel) (String "{" r) = '(l, rest) ← members fuel r; Some (JObject l, rest).
Proof. intros Ht. cbn. by rewrite Ht. Qed.

Lemma value_print j : reads j.
Proof.
  induction j as [|b|z|s|l IH|l IH] using Json_ind; intros [|fuel] rest Hr Hs Hf;
    try match type of Hf with (String.length (print ?j) <= 0)%nat => exfalso; pose proof (print_nonempty j); lia end.
  - done.
  - by destruct b.
  - cbn [representable] in Hr. apply value_number; [lia|done].
  - cbn [print]. rewrite quoted_app. cbn. by rewrite read_content_escape.
  - destruct l as [|j l]; [done|]. cbn [print] in *.
    change ((fun j => print j) <$> j :: l) with (print <$> j :: l) in *.
    rewrite !string_app_length in Hf. cbn [String.length] in Hf.
    rewrite !string_app_assoc, string_app_cons, string_app_nil.
    destruct (join_head print j l) as [t Ht].
    rewrite value_array by (by rewrite Ht, string_app_assoc, token_print by (by left)).
    by rewrite elements_print by (done || lia).
  - destruct l as [|p l]; [done|]. cbn [print] in *. fold print_member in *.
    rewrite !string_app_length in Hf. cbn [String.length] in Hf.
    rewrite !string_app_assoc, string_app_cons, string_app_nil.
    destruct (join_head print_member p l) as [t Ht].
    rewrite value_object.
    2: { rewrite Ht, string_app_assoc. unfold print_member. by rewrite !string_app_assoc, quoted_app. }
    by rewrite members_print by (done || lia).
Qed.

(** The parser reads back what the printer wrote. *)
Lemma parse_print j : representable j = true -> parse (print j) = Some j.
Proof.
  intros Hr. unfold parse. pose proof (value_print j (S (String.length (print j))) EmptyString Hr I ltac:(lia)) as H.
  rewrite string_app_nil_r in H. by rewrite H.
Qed.

(** The reference form as an instance. It is not a default: a client names it. *)
Definition reference_text : JsonText := {| to_text := print; of_text := parse |}.
Lemma reference_text_laws : JsonTextLaws (H := reference_text).
Proof. split. exact parse_print. Qed.

(** More fuel changes nothing. *)
Lemma value_more fuel :
  (forall s x fuel', value fuel s = Some x -> (fuel <= fuel')%nat -> value fuel' s = Some x)
  /\ (forall s x fuel', members fuel s = Some x -> (fuel <= fuel')%nat -> members fuel' s = Some x)
  /\ (forall s x fuel', elements fuel s = Some x -> (fuel <= fuel')%nat -> elements fuel' s = Some x).
Proof.
  induction fuel as [|fuel (IHv & IHm & IHe)]; [done|].
  split_and!; intros s x [|fuel'] H Hf; try lia; apply le_S_n in Hf.
  - cbn [value] in *. destruct (skip_ws s) as [|c r]; [done|].
    repeat (case_match; try done);
      match type of H with
      | members _ _ ≫= _ = _ => apply bind_Some in H as (y & Hy & H); by rewrite (IHm _ _ _ Hy Hf)
      | elements _ _ ≫= _ = _ => apply bind_Some in H as (y & Hy & H); by rewrite (IHe _ _ _ Hy Hf)
      end.
  - cbn [members] in *.
    apply bind_Some in H as (s1 & -> & H). cbn [mbind option_bind].
    apply bind_Some in H as ([name s2] & -> & H). cbn [mbind option_bind].
    apply bind_Some in H as (s3 & -> & H). cbn [mbind option_bind].
    apply bind_Some in H as ([j s4] & Hv & H). rewrite (IHv _ _ _ Hv Hf). cbn [mbind option_bind].
    destruct (token _ s4); [done|]. apply bind_Some in H as (s5 & -> & H). cbn [mbind option_bind].
    apply bind_Some in H as ([l s6] & Hm & H). by rewrite (IHm _ _ _ Hm Hf).
  - cbn [elements] in *.
    apply bind_Some in H as ([j s4] & Hv & H). rewrite (IHv _ _ _ Hv Hf). cbn [mbind option_bind].
    destruct (token _ s4); [done|]. apply bind_Some in H as (s5 & -> & H). cbn [mbind option_bind].
    apply bind_Some in H as ([l s6] & Hm & H). by rewrite (IHe _ _ _ Hm Hf).
Qed.
Lemma members_more fuel fuel' s x : members fuel s = Some x -> (fuel <= fuel')%nat -> members fuel' s = Some x.
Proof. intros H Hf. by apply (value_more fuel). Qed.
