(* ===== verification/Contract.v ===== *)
(** * The join contract

    The shared contract crate ([vendor/tabbify-join-contract]): which overlay
    addresses are fixed infrastructure addresses, which container names are valid, and
    the request for a join token as JSON. *)

From S2P Require Import Prelude NetAddr Json JsonText.

Open Scope Z_scope.

(** ** Overlay address rules ([ula.rs]) *)

Definition HOST_ULA_SLOT : Z := 0x1f00.
Definition INFRA_ULA_IDX : Z := 0.

Definition is_legacy_infra_ula (s : list Z) : bool :=
  match s with
  | [s0; s1; s2; s3; s4; s5; s6; s7] =>
      (s0 =? 0xfd5a) && (s1 =? 0x1f00) && (s2 =? 0) && (s3 =? 3)
      && (s4 =? 0) && (s5 =? 0) && (s6 =? 0) && (s7 =? 1)
  | _ => false
  end.

Definition is_fixed_infra_ula (addr : Ipv6Addr) : bool :=
  ((Z.land (seg0 addr) 0xfe00 =? 0xfc00)
   && (seg1 addr =? HOST_ULA_SLOT) && (seg3 addr =? INFRA_ULA_IDX))
  || is_legacy_infra_ula (segments addr).

(** ** Container names ([container.rs]) *)

Definition CONTAINER_NAME_MAX_LEN : Z := 63.

Inductive ContainerNameError :=
| NameEmpty
| NameTooLong (max : Z)
| NameInvalidChar.

#[export] Instance ContainerNameError_eq_dec : EqDecision ContainerNameError.
Proof. solve_decision. Defined.

(** [str::chars]: the Unicode scalar values of a UTF-8 string. A continuation
    byte extends the character before it. *)
Definition is_continuation (b : Z) : bool := Z.land b 0xc0 =? 0x80.
Definition lead_bits (b : Z) : Z :=
  if b <? 0x80 then b
  else if b <? 0xe0 then Z.land b 0x1f
  else if b <? 0xf0 then Z.land b 0x0f
  else Z.land b 0x07.
Definition push_byte (acc : list Z) (b : Z) : list Z :=
  if is_continuation b then
    match acc with
    | c :: acc => (c * 64 + Z.land b 0x3f) :: acc
    | [] => []
    end
  else lead_bits b :: acc.
Definition chars (s : string) : list Z := rev (foldl push_byte [] (bytes_of_string s)).

(** [char::is_ascii_alphanumeric] *)
Definition is_ascii_alphanumeric (c : Z) : bool :=
  ((48 <=? c) && (c <=? 57)) || ((65 <=? c) && (c <=? 90)) || ((97 <=? c) && (c <=? 122)).

Definition is_container_name_char (c : Z) : bool :=
  is_ascii_alphanumeric c || ((c =? 46) || (c =? 95) || (c =? 45)).

Definition validate_container_name (name : string) : Result unit ContainerNameError :=
  if bool_decide (name = EmptyString) then Err NameEmpty
  else if CONTAINER_NAME_MAX_LEN <? Z.of_nat (length (chars name)) then
    Err (NameTooLong CONTAINER_NAME_MAX_LEN)
  else if negb (forallb is_container_name_char (chars name)) then Err NameInvalidChar
  else Ok tt.

(** ** Lemmas *)

Lemma is_fixed_infra_ula_index addr :
  is_fixed_infra_ula addr = true -> seg1 addr = HOST_ULA_SLOT /\ (seg3 addr = 0 \/ (seg2 addr = 0 /\ seg3 addr = 3)).
Proof.
  unfold is_fixed_infra_ula, is_legacy_infra_ula, HOST_ULA_SLOT, INFRA_ULA_IDX.
  destruct addr; simpl. lia.
Qed.

Lemma foldl_push_ascii bs acc :
  Forall (fun b => 0 <= b < 128) bs -> foldl push_byte acc bs = rev bs ++ acc.
Proof.
  revert acc. induction bs as [|b bs IH]; intros acc; [done|].
  intros [Hb Hbs]%Forall_cons. simpl. rewrite IH by done.
  rewrite <- app_assoc. simpl. do 2 f_equal.
  unfold push_byte, is_continuation, lead_bits.
  assert ((Z.land b 0xc0 =? 0x80) = false) as ->.
  { apply Z.eqb_neq. intros He.
    assert (Z.testbit (Z.land b 0xc0) 7 = true) as Ht by (by rewrite He).
    rewrite Z.land_spec in Ht. apply andb_true_iff in Ht as [Ht _].
    destruct (decide (b = 0)) as [->|]; [done|].
    rewrite Z.bits_above_log2 in Ht; [done|lia|].
    apply Z.log2_lt_pow2; lia. }
  case_match; [done|lia].
Qed.

Lemma chars_ascii s :
  Forall (fun b => 0 <= b < 128) (bytes_of_string s) -> chars s = bytes_of_string s.
Proof. intros H. unfold chars. by rewrite foldl_push_ascii, app_nil_r, rev_involutive. Qed.

(** * The request for a join token ([join_request.rs])

    The one structure of this repository that other services send to each other; its
    field order and the fields that are left out at their default are part of the
    contract. *)

Record JoinRequest := mkJoinRequest {
  jr_network : string;
  jr_tags : list string;
  jr_role : option string;
  jr_serve : bool;
  jr_subject : option string;
  jr_name : option string;
  jr_ttl : option Z;
  jr_system : bool;
  jr_kind : option string;
  jr_requested_ulas : list string;
}.

(** The skip helper [is_false]. *)
Definition is_false (value : bool) : bool := negb value.

(** [Serialize] *)
Definition join_fields (r : JoinRequest) : list (string * option Json) :=
  [("network", Some (JString (jr_network r)));
   ("tags", Some (json_list JString (jr_tags r)));
   ("role", if_some JString (jr_role r));
   ("serve", Some (JBool (jr_serve r)));
   ("subject", if_some JString (jr_subject r));
   ("name", if_some JString (jr_name r));
   ("ttl", if_some JNumber (jr_ttl r));
   ("system", if is_false (jr_system r) then None else Some (JBool (jr_system r)));
   ("kind", if_some JString (jr_kind r));
   ("requested_ulas", if_any JString (jr_requested_ulas r))].
Definition join_json (r : JoinRequest) : Json := object (join_fields r).

(** [Deserialize] *)
Definition join_names : list string :=
  ["network"; "tags"; "role"; "serve"; "subject"; "name"; "ttl"; "system"; "kind"; "requested_ulas"].
Definition read_join : Json -> option JoinRequest :=
  read_struct join_names (fun o =>
    network ← assoc "network" o ≫= read_string;
    tags ← read_default_list read_string (assoc "tags" o);
    role ← read_option read_string (assoc "role" o);
    serve ← read_default false read_bool (assoc "serve" o);
    subject ← read_option read_string (assoc "subject" o);
    name ← read_option read_string (assoc "name" o);
    ttl ← read_option read_i64 (assoc "ttl" o);
    system ← read_default false read_bool (assoc "system" o);
    kind ← read_option read_string (assoc "kind" o);
    requested ← read_default_list read_string (assoc "requested_ulas" o);
    Some (mkJoinRequest network tags role serve subject name ttl system kind requested)).

(** A request of a node: none of the administrator's fields. *)
Definition node_request (r : JoinRequest) : Prop := jr_system r = false /\ jr_kind r = None /\ jr_requested_ulas r = [].
(** What a node has always sent: these names, in this order, and no other. *)
Definition node_names (r : JoinRequest) : list string :=
  ["network"; "tags"] ++ (if bool_decide (is_Some (jr_role r)) then ["role"] else []) ++ ["serve"]
  ++ (if bool_decide (is_Some (jr_subject r)) then ["subject"] else []) ++ (if bool_decide (is_Some (jr_name r)) then ["name"] else []) ++ (if bool_decide (is_Some (jr_ttl r)) then ["ttl"] else []).

Lemma read_system (b : bool) : read_default false read_bool (if is_false b then None else Some (JBool b)) = Some b.
Proof. by destruct b. Qed.
Lemma read_join_json r : (forall t, jr_ttl r = Some t -> is_i64 t) -> read_join (join_json r) = Some r.
Proof.
  intros Ht. unfold read_join, join_json, join_fields. read_object.
  rewrite read_option_if_some by (intros t He; split; [done|by apply read_number_in, Ht]).
  cbn [mbind option_bind]. rewrite read_system. by destruct r.
Qed.

(** A join-token request means the same on both sides and stays what it has been on
    the wire: for a lifetime of 64 bits it reads back as it was from its text; a node's
    request consists of the network, the tags and the serving flag, and of the role,
    subject, name and lifetime that are given, in that order, and never carries the
    administrator's fields; and the network alone is a request, for an ordinary join. *)
Theorem join_request_roundtrip `{JsonTextLaws} r :
  (forall t, jr_ttl r = Some t -> is_i64 t) ->
  of_text (to_text (join_json r)) ≫= read_join = Some r
  /\ (node_request r -> (object_fields (join_fields r)).*1 = node_names r)
  /\ read_join (JObject [("network", JString (jr_network r))])
     = Some (mkJoinRequest (jr_network r) [] None false None None None false None []).
Proof.
  intros Ht. split_and!.
  - rewrite of_text_to_text; [by apply read_join_json|]. unfold join_json, join_fields.
    destruct (jr_system r); represent; apply representable_some; intros t He; by apply representable_i64, Ht.
  - intros (Hs & Hk & Hu). unfold join_fields, node_names. rewrite Hs, Hk, Hu.
    by destruct (jr_role r), (jr_subject r), (jr_name r), (jr_ttl r).
  - done.
Qed.

Lemma join_request_roundtrip_witness :
  let r := mkJoinRequest "n_a" ["runner"] (Some "runner") true (Some "app") None (Some 600) false None [] in
  parse (print (join_json r)) ≫= read_join = Some r
  /\ (object_fields (join_fields r)).*1 = ["network"; "tags"; "role"; "serve"; "subject"; "ttl"].
Proof.
  intros r. destruct (@join_request_roundtrip reference_text reference_text_laws r) as (H1 & H2 & _).
  - intros t [= <-]. by split.
  - split; [exact H1|]. by apply H2.
Defined.
