(* ===== verification/Logging.v ===== *)
(** * The lines of the log ([crates/mesh-log])

    [init_logging] installs one subscriber for the process, and its formatter puts the
    name of the service at the head of the JSON object that [tracing_subscriber] makes
    of an event. The line is read here with the parser of [JsonText.v]. *)

From Stdlib Require Import Ascii.
From S2P Require Import Prelude NetAddr AddrText Text Json JsonText.

Open Scope Z_scope.

Definition DEFAULT_FILTER : string := "info".

(** ** A line *)

(** [rest_escape], for one character *)
Definition rest_escape_char (c : ascii) : string :=
  if char_eqb c quote || char_eqb c backslash then String backslash (single c)
  else if char_eqb c newline then String backslash (single "n")
  else if char_eqb c carriage_return then String backslash (single "r")
  else if char_eqb c (char_of 9) then String backslash (single "t")
  else single c.
Fixpoint rest_escape (s : string) : string :=
  match s with EmptyString => EmptyString | String c s => rest_escape_char c +:+ rest_escape s end.

(** [trim_end_matches] with the characters a line ends with *)
Definition ends_line (c : ascii) : bool := char_eqb c newline || char_eqb c carriage_return.
Fixpoint trim_line_end (s : string) : string :=
  match s with
  | EmptyString => EmptyString
  | String c s =>
      match trim_line_end s with
      | EmptyString => if ends_line c then EmptyString else single c
      | t => String c t
      end
  end.

(** [{"service":"<name>"] *)
Definition service_head (service : string) : string :=
  "{" +:+ quoted "service" +:+ ":" +:+ String quote (rest_escape service +:+ single quote).
(** What [ServiceJson] makes of the text of the stock formatter, without the newline. *)
Definition splice (service trimmed : string) : string :=
  match strip_prefix "{" trimmed with
  | Some rest => service_head service +:+ (if starts_with "}" rest then rest else "," +:+ rest)
  | None => trimmed
  end.

Section Logging.
(** [tracing_subscriber]'s events, its stock formatter, and its filters: [try_new] of a
    directive and the lenient [new]. *)
Context {Event Filter : Type} (stock_format : Event -> option string).
Context (try_new : string -> option Filter) (new : string -> Filter).

Record ServiceJson := mkServiceJson { service : string }.

(** [format_event]: the text it writes, unless the stock formatter fails. *)
Definition format_event (f : ServiceJson) (event : Event) : option string :=
  buf ← stock_format event; Some (splice (service f) (trim_line_end buf) +:+ single newline).

(** The subscriber of a process. *)
Record Subscriber := mkSubscriber { filter : Filter; event_format : ServiceJson }.

(** [init_logging] with this [RUST_LOG] in a process with the global subscriber
    [installed]: the one that is installed then. *)
Definition init_logging (rust_log : option string) (name : string) (installed : option Subscriber) : option Subscriber :=
  let filter := default (new DEFAULT_FILTER) (rust_log ≫= try_new) in
  let subscriber := mkSubscriber filter (mkServiceJson name) in
  match installed with
  | Some s => Some s
  | None => Some subscriber
  end.
End Logging.

(** ** The name reads back *)

(** [rest_escape] has an escape for three control characters. *)
Definition tame_char (c : ascii) : bool :=
  negb (is_control c) || char_eqb c newline || char_eqb c carriage_return || char_eqb c (char_of 9).
Fixpoint tame (s : string) : bool := match s with EmptyString => true | String c s => tame_char c && tame s end.

Lemma read_rest_escaped_char c t :
  read_content (rest_escape_char c +:+ t) = if tame_char c then push (single c) (read_content t) else None.
Proof. destruct c as [[] [] [] [] [] [] [] []]; reflexivity. Qed.
Lemma read_rest_escaped s t :
  read_content (rest_escape s +:+ String quote t) = if tame s then Some (s, t) else None.
Proof.
  induction s as [|c s IH]; [done|]. cbn [rest_escape tame]. rewrite string_app_assoc, read_rest_escaped_char, IH.
  by destruct (tame_char c), (tame s).
Qed.

Lemma no_newline_app a b : no_newline (a +:+ b) = no_newline a && no_newline b.
Proof. induction a as [|c a IH]; [done|]. rewrite string_app_cons. cbn [no_newline]. by rewrite IH, andb_assoc. Qed.
Lemma rest_escape_no_newline s : no_newline (rest_escape s) = true.
Proof.
  induction s as [|c s IH]; [done|]. cbn [rest_escape]. rewrite no_newline_app, IH, andb_true_r.
  destruct c as [[] [] [] [] [] [] [] []]; reflexivity.
Qed.

(** ** The object of a line *)

Lemma parse_object rest fields :
  parse (String "{" rest) = Some (JObject fields) ->
  fields = [] \/ exists fuel r, (fuel <= String.length (String "{" rest))%nat
    /\ members fuel rest = Some (fields, r) /\ skip_ws r = EmptyString.
Proof.
  unfold parse. destruct (token "}" rest) as [r|] eqn:Et.
  - cbn. rewrite Et. case_match; [|done]. intros [= <-]. by left.
  - rewrite value_object by done. destruct (members _ rest) as [[l r]|] eqn:Em; [|done]. cbn [mbind option_bind].
    case_bool_decide; [|done]. intros [= <-]. right. by eexists _, r.
Qed.

(** The head of a line, read as the first member of the object. *)
Lemma members_head name fuel t :
  members (S (S fuel)) (quoted "service" +:+ ":" +:+ String quote (rest_escape name +:+ String quote t))
  = if tame name
    then match token "}" t with
         | Some rest => Some ([("service", JString name)], rest)
         | None => s ← token "," t; '(l, rest) ← members (S fuel) s; Some (("service", JString name) :: l, rest)
         end
    else None.
Proof.
  rewrite quoted_app. cbn [members]. rewrite token_here by done. cbn [mbind option_bind].
  rewrite read_content_escape. cbn [mbind option_bind]. rewrite string_app_cons, token_here by done. cbn [mbind option_bind].
  rewrite string_app_nil.
  replace (value (S fuel) (String quote (rest_escape name +:+ String quote t)))
    with ('(s, rest) ← read_content (rest_escape name +:+ String quote t); Some (JString s, rest)) by done.
  rewrite read_rest_escaped. by destruct (tame name).
Qed.

Lemma parse_head name t :
  parse (service_head name +:+ t)
  = if tame name
    then match token "}" t with
         | Some rest => if bool_decide (skip_ws rest = EmptyString) then Some (JObject [("service", JString name)]) else None
         | None =>
             s ← token "," t;
             '(l, rest) ← members (String.length (service_head name +:+ t) - 1) s;
             if bool_decide (skip_ws rest = EmptyString) then Some (JObject (("service", JString name) :: l)) else None
         end
    else None.
Proof.
  unfold parse.
  assert (exists n, String.length (service_head name +:+ t) = S (S n)) as [n Hn].
  { eexists. unfold service_head, quoted, single. rewrite !string_app_length. cbn. reflexivity. }
  rewrite Hn. replace (S (S n) - 1)%nat with (S n) by lia.
  replace (service_head name +:+ t)
    with (String "{" (quoted "service" +:+ ":" +:+ String quote (rest_escape name +:+ String quote t))).
  2: { unfold service_head, single. by rewrite !string_app_assoc, !string_app_cons, !string_app_assoc, !string_app_cons, !string_app_nil. }
  rewrite value_object by (rewrite quoted_app; by apply token_other). rewrite members_head.
  destruct (tame name); [|done]. destruct (token "}" t) as [r|]; [done|]. destruct (token "," t) as [s|]; [|done].
  cbn [mbind option_bind]. by destruct (members (S n) s) as [[l r]|].
Qed.

Lemma head_no_newline name : no_newline (service_head name) = true.
Proof.
  change (service_head name) with (("{" +:+ quoted "service" +:+ ":" +:+ single quote) +:+ rest_escape name +:+ single quote).
  by rewrite !no_newline_app, rest_escape_no_newline.
Qed.

(** C24: Every line of the log is one JSON object that has the name of the service as
    its first member and then everything the stock formatter wrote, in its order; the
    name reads back as it was given, and the line has no newline before its end. This
    holds exactly for the names without control characters other than newline, carriage
    return and tab: with another one in the name, the line is not JSON. *)
Theorem service_line {Event} (stock_format : Event -> option string) f event buf fields :
  stock_format event = Some buf -> starts_with "{" (trim_line_end buf) = true ->
  parse (trim_line_end buf) = Some (JObject fields) -> (fields = [] -> trim_line_end buf = "{}") ->
  exists line, format_event stock_format f event = Some (line +:+ single newline)
    /\ parse line = (if tame (service f) then Some (JObject (("service", JString (service f)) :: fields)) else None)
    /\ no_newline line = no_newline (trim_line_end buf).
Proof.
  intros Hb Hs Hp He. unfold format_event. rewrite Hb. eexists. split; [done|].
  apply starts_with_spec in Hs as [rest Ht]. rewrite string_app_cons, string_app_nil in Ht. rewrite Ht in *. clear Hb Ht buf.
  unfold splice. replace (strip_prefix "{" _) with (Some rest) by (symmetry; by apply strip_prefix_spec). split.
  - rewrite parse_head. destruct (tame (service f)); [|done].
    destruct (parse_object rest fields Hp) as [->|(fuel & r & Hf & Hm & Hr)].
    { specialize (He eq_refl). injection He as ->. cbn. by rewrite bool_decide_true. }
    assert (token "}" rest = None) as Hn.
    { destruct fuel; [done|]. cbn [members] in Hm. apply bind_Some in Hm as (s & Hq & _).
      unfold token in *. destruct (skip_ws rest) as [|c t]; [done|]. destruct (char_eqb c quote) eqn:E; [|done].
      apply Ascii.eqb_eq in E as ->. done. }
    assert (starts_with "}" rest = false) as ->.
    { destruct (starts_with "}" rest) eqn:E; [|done]. apply starts_with_spec in E as [u ->].
      by rewrite string_app_cons, token_here in Hn. }
    rewrite string_app_cons, string_app_nil, token_other, token_here by done. cbn [mbind option_bind].
    erewrite members_more; [|exact Hm|].
    + cbn [mbind option_bind]. by rewrite bool_decide_true.
    + cbn [String.length] in Hf. unfold service_head, quoted, single. rewrite !string_app_length. cbn. lia.
  - rewrite no_newline_app, head_no_newline. by destruct (starts_with "}" rest).
Qed.

(** The first installation in a process stands: later ones, and one after a host's own,
    change nothing. What is installed has the filter of [RUST_LOG], or [info] when that
    is missing or does not parse. *)
Lemma first_install_stands {Filter} (try_new : string -> option Filter) new calls installed :
  foldl (fun s '(rust_log, name) => init_logging try_new new rust_log name s) installed calls
  = match installed, calls with
    | Some s, _ => Some s
    | None, [] => None
    | None, (rust_log, name) :: _ =>
        Some (mkSubscriber (match rust_log ≫= try_new with Some f => f | None => new DEFAULT_FILTER end) (mkServiceJson name))
    end.
Proof.
  assert (forall s calls, foldl (fun s '(rust_log, name) => init_logging try_new new rust_log name s) (Some s) calls = Some s) as Hs.
  { intros s l. by induction l as [|[r n] l IH]. }
  destruct installed as [s|]; [apply Hs|]. destruct calls as [|[r n] calls]; [done|]. cbn [foldl]. unfold init_logging at 2.
  rewrite Hs. by destruct (r ≫= try_new).
Qed.

Definition demo_event : string := print (JObject [("level", JString "INFO"); ("message", JString "up")]) +:+ single newline.
Lemma service_line_witness :
  let f := mkServiceJson (String quote (String backslash (single newline))) in
  (exists line, format_event Some f demo_event = Some (line +:+ single newline)
     /\ parse line = Some (JObject [("service", JString (service f)); ("level", JString "INFO"); ("message", JString "up")]))
  /\ exists line, format_event Some (mkServiceJson (single (char_of 8))) demo_event = Some (line +:+ single newline)
       /\ parse line = None.
Proof.
  intros f. split.
  - destruct (service_line Some f demo_event demo_event [("level", JString "INFO"); ("message", JString "up")])
      as (line & H1 & H2 & _); [reflexivity|by vm_compute..|]. by exists line.
  - destruct (service_line Some (mkServiceJson (single (char_of 8))) demo_event demo_event [("level", JString "INFO"); ("message", JString "up")])
      as (line & H1 & H2 & _); [reflexivity|by vm_compute..|]. by exists line.
Defined.
