(* ===== verification/Allocator.v ===== *)
(** * The overlay address allocator ([roster/allocator.rs])

    One counter of issued peer indices per 16-bit network block. The counters
    are atomics updated by compare-and-swap loops; this file has the operations
    as they behave when nothing interferes, and [AllocatorConc] has the loops
    themselves under interleaving, with the proof that they refine these. *)

From S2P Require Import Prelude NetAddr Contract.

Open Scope Z_scope.

(** ** Block selection *)

Definition DEFAULT_NETWORK_SLOT : Z := 0.

Definition fnv1a64 (bytes : list Z) : Z :=
  let OFFSET := 0xcbf29ce484222325 in
  let PRIME := 0x00000100000001b3 in
  foldl (fun hash b => u64_wrapping_mul (Z.lxor hash b) PRIME) OFFSET bytes.

Definition network_slot (network : string) : Z :=
  if bool_decide (network = EmptyString) then DEFAULT_NETWORK_SLOT
  else
    let h := fnv1a64 (bytes_of_string network) in
    let folded :=
      Z.land (Z.lxor (Z.lxor (Z.lxor (Z.shiftr h 48) (Z.shiftr h 32)) (Z.shiftr h 16)) h)
             0xffff in
    if folded =? DEFAULT_NETWORK_SLOT then 1 else folded.

(** ** The allocator *)

Inductive AllocError := Exhausted.

#[export] Instance AllocError_eq_dec : EqDecision AllocError.
Proof. solve_decision. Defined.

(** [per_network]: the last index issued in each block. *)
Record UlaAllocator := mkUlaAllocator { per_network : gmap Z Z }.
#[export] Instance eta_UlaAllocator : Eta UlaAllocator :=
  fun a => mkUlaAllocator (per_network a).

Definition allocator_new : UlaAllocator := mkUlaAllocator ∅.

Definition address_for (slot peer_index : Z) : Ipv6Addr :=
  Ipv6 0xfd5a 0x1f00 slot peer_index 0 0 0 1.

(** The value of the counter of [slot]; a missing entry is inserted as 0. *)
Definition counter (a : UlaAllocator) (slot : Z) : Z := default 0 (per_network a !! slot).

Definition allocate_in_slot (a : UlaAllocator) (slot : Z)
    : UlaAllocator * Result (Z * Ipv6Addr) AllocError :=
  let current := counter a slot in
  match u16_checked_add current 1 with
  | None => (mkUlaAllocator (<[slot := current]> (per_network a)), Err Exhausted)
  | Some next =>
      (mkUlaAllocator (<[slot := next]> (per_network a)), Ok (next, address_for slot next))
  end.

Definition allocate (a : UlaAllocator) (network : string)
    : UlaAllocator * Result (Z * Ipv6Addr) AllocError :=
  allocate_in_slot a (network_slot network).

Definition issued (a : UlaAllocator) (network : string) : Z :=
  counter a (network_slot network).

Definition bump_slot_at_least (a : UlaAllocator) (slot idx : Z) : UlaAllocator :=
  let current := counter a slot in
  mkUlaAllocator (<[slot := if current <? idx then idx else current]> (per_network a)).

(** ** Invariant: every counter is a [u16] *)

Definition wf_allocator (a : UlaAllocator) : Prop := forall slot, is_u16 (counter a slot).

Lemma counter_new slot : counter allocator_new slot = 0.
Proof. done. Qed.

Lemma counter_insert a slot v slot' :
  counter (mkUlaAllocator (<[slot := v]> (per_network a))) slot'
  = if decide (slot' = slot) then v else counter a slot'.
Proof.
  unfold counter; simpl. case_decide as Hs; subst.
  - by rewrite lookup_insert_eq.
  - by rewrite lookup_insert_ne by done.
Qed.

Lemma counter_allocate a slot slot' :
  counter (fst (allocate_in_slot a slot)) slot'
  = if decide (slot' = slot) then Z.min u16_max (counter a slot + 1) `max` counter a slot
    else counter a slot'.
Proof.
  unfold allocate_in_slot.
  destruct (u16_checked_add (counter a slot) 1) eqn:E; simpl; rewrite counter_insert.
  - apply u16_checked_add_Some in E. case_decide; lia.
  - apply u16_checked_add_None in E. case_decide; lia.
Qed.

Lemma counter_bump a slot idx slot' :
  counter (bump_slot_at_least a slot idx) slot'
  = if decide (slot' = slot) then Z.max (counter a slot) idx else counter a slot'.
Proof. unfold bump_slot_at_least. rewrite counter_insert. case_decide; [case_match|]; lia. Qed.

Lemma wf_allocator_new : wf_allocator allocator_new.
Proof. intros slot. rewrite counter_new. unfold is_u16, u16_max. lia. Qed.

Lemma wf_allocate a slot : wf_allocator a -> wf_allocator (fst (allocate_in_slot a slot)).
Proof.
  intros H s. rewrite counter_allocate. specialize (H slot) as Ha. specialize (H s).
  unfold is_u16 in *. case_decide; unfold u16_max in *; lia.
Qed.

Lemma wf_bump a slot idx :
  is_u16 idx -> wf_allocator a -> wf_allocator (bump_slot_at_least a slot idx).
Proof.
  intros Hi H s. rewrite counter_bump. specialize (H slot) as Ha. specialize (H s).
  unfold is_u16 in *. case_decide; lia.
Qed.

Lemma allocate_in_slot_Ok a slot idx u :
  snd (allocate_in_slot a slot) = Ok (idx, u) <->
  idx = counter a slot + 1 /\ counter a slot < u16_max /\ u = address_for slot idx.
Proof.
  unfold allocate_in_slot.
  destruct (u16_checked_add (counter a slot) 1) eqn:E; simpl.
  - apply u16_checked_add_Some in E as [-> E]. split.
    + intros [= <- <-]. repeat split; lia.
    + intros (-> & _ & ->). done.
  - apply u16_checked_add_None in E. split; [done|lia].
Qed.

Lemma allocate_in_slot_Err a slot e :
  snd (allocate_in_slot a slot) = Err e <-> u16_max <= counter a slot.
Proof.
  destruct e. unfold allocate_in_slot.
  destruct (u16_checked_add (counter a slot) 1) eqn:E; simpl.
  - apply u16_checked_add_Some in E. split; [done|lia].
  - apply u16_checked_add_None in E. split; [lia|done].
Qed.

Lemma address_for_inj s i s' i' : address_for s i = address_for s' i' -> s = s' /\ i = i'.
Proof. by intros [= -> ->]. Qed.

(** ** Sequences of operations *)

Inductive alloc_op := OpAllocate (slot : Z) | OpBump (slot idx : Z).

(** The operations in order, with the addresses issued. *)
Fixpoint run_ops (a : UlaAllocator) (ops : list alloc_op) : UlaAllocator * list (Z * Z) :=
  match ops with
  | [] => (a, [])
  | OpAllocate slot :: ops =>
      let '(a, r) := allocate_in_slot a slot in
      let '(a, out) := run_ops a ops in
      (a, match r with Ok (idx, _) => (slot, idx) :: out | Err _ => out end)
  | OpBump slot idx :: ops => run_ops (bump_slot_at_least a slot idx) ops
  end.

Lemma counter_allocate_le a slot s : counter a s <= counter (fst (allocate_in_slot a slot)) s.
Proof. rewrite counter_allocate. case_decide; subst; lia. Qed.
Lemma counter_bump_le a slot idx s : counter a s <= counter (bump_slot_at_least a slot idx) s.
Proof. rewrite counter_bump. case_decide; subst; lia. Qed.

Lemma run_ops_spec a ops :
  (forall s i, (s, i) ∈ snd (run_ops a ops) -> counter a s < i <= counter (fst (run_ops a ops)) s)
  /\ (forall s, counter a s <= counter (fst (run_ops a ops)) s)
  /\ NoDup (snd (run_ops a ops)).
Proof.
  revert a. induction ops as [|[slot|slot idx] ops IH]; intros a; simpl.
  - split_and!; [by intros ?? ?%not_elem_of_nil|done|constructor].
  - pose proof (counter_allocate_le a slot) as Hle.
    destruct (allocate_in_slot a slot) as [a1 r] eqn:E. simpl in Hle.
    destruct (IH a1) as (H1 & H2 & H3).
    destruct (run_ops a1 ops) as [a2 out]; simpl in *.
    destruct r as [[i u]|e]; [|split_and!; [|intros s|done]].
    + pose proof (proj1 (allocate_in_slot_Ok a slot i u) ltac:(by rewrite E)) as (-> & Hlt & _).
      assert (counter a1 slot = counter a slot + 1) as Hc.
      { pose proof (counter_allocate a slot slot) as Hc. rewrite E in Hc; simpl in Hc.
        rewrite decide_True in Hc by done. lia. }
      specialize (H2 slot) as H2s. split_and!.
      * intros s j [[= -> ->]|Hin]%elem_of_cons; [lia|].
        specialize (H1 _ _ Hin). specialize (Hle s). lia.
      * intros s. specialize (Hle s). specialize (H2 s). lia.
      * constructor; [|done]. intros Hin%H1. lia.
    + intros s j Hin. specialize (H1 _ _ Hin). specialize (Hle s). lia.
    + specialize (Hle s). specialize (H2 s). lia.
  - destruct (IH (bump_slot_at_least a slot idx)) as (H1 & H2 & H3).
    pose proof (counter_bump_le a slot idx) as Hle.
    split_and!; [| |done].
    + intros s j Hin. specialize (H1 _ _ Hin). specialize (Hle s). lia.
    + intros s. specialize (H2 s). specialize (Hle s). lia.
Qed.

Lemma network_slot_range network : is_u16 (network_slot network).
Proof.
  unfold network_slot. case_bool_decide.
  { unfold is_u16, u16_max, DEFAULT_NETWORK_SLOT. lia. }
  change 0xffff with (Z.ones 16). rewrite Z.land_ones by lia.
  match goal with |- is_u16 (if (?x mod ?m =? _) then _ else _) =>
    pose proof (Z.mod_pos_bound x m ltac:(lia)) end.
  unfold is_u16, u16_max in *. change (2 ^ 16) with 65536 in *. case_match; lia.
Qed.

Lemma network_slot_named network : network <> EmptyString -> network_slot network <> DEFAULT_NETWORK_SLOT.
Proof.
  intros H. unfold network_slot. rewrite bool_decide_false by done.
  case_match; unfold DEFAULT_NETWORK_SLOT in *; lia.
Qed.

(** ** Properties *)

(** A named network has a block of its own 16 bits, never the default one, and
    no address that the allocator issues in it is a fixed infrastructure address. *)
Theorem named_network_never_infra a network a' idx u :
  wf_allocator a -> network <> EmptyString ->
  allocate a network = (a', Ok (idx, u)) ->
  is_u16 (seg2 u) /\ seg2 u <> DEFAULT_NETWORK_SLOT /\ seg3 u = counter a' (seg2 u) /\
  counter a (seg2 u) < seg3 u <= u16_max /\ is_fixed_infra_ula u = false.
Proof.
  intros Hwf Hn Ha. pose proof (network_slot_range network) as Hr.
  pose proof (network_slot_named network Hn) as Hne.
  unfold allocate in Ha.
  destruct (proj1 (allocate_in_slot_Ok a (network_slot network) idx u) ltac:(by rewrite Ha))
    as (-> & Hlt & ->).
  pose proof (counter_allocate a (network_slot network) (network_slot network)) as Hc.
  rewrite Ha, decide_True in Hc by done. simpl in *.
  specialize (Hwf (network_slot network)). unfold is_u16, DEFAULT_NETWORK_SLOT in *.
  split_and!; try lia.
  apply not_true_is_false. intros [_ Hi]%is_fixed_infra_ula_index. simpl in Hi. lia.
Qed.

Lemma named_network_never_infra_witness :
  exists a' u, allocate allocator_new "alice" = (a', Ok (1, u)) /\ is_fixed_infra_ula u = false.
Proof.
  eexists _, _. split; [reflexivity|].
  eapply (named_network_never_infra allocator_new "alice" _ 1);
    [apply wf_allocator_new|done|reflexivity].
Defined.

(** The default block is the exception: its third address is the legacy
    infrastructure address. *)
Lemma default_network_legacy_infra :
  let a := fst (allocate (fst (allocate allocator_new EmptyString)) EmptyString) in
  match snd (allocate a EmptyString) with
  | Ok (_, u) => is_fixed_infra_ula u = true
  | Err _ => False
  end.
Proof. reflexivity. Qed.
