(* ===== verification/AllocatorConc.v ===== *)
(** * The allocator under interleaving ([roster/allocator.rs])

    [allocate_in_slot] and [bump_slot_at_least] are loops around
    [compare_exchange] that run on the threads of the HTTP server. Here each
    loop is a small state machine whose steps are its atomic accesses, and any
    number of threads step in any order. The concurrent map guards an entry
    with a lock of its shard while the loop runs; the model does not rely on it,
    so it has every interleaving that the lock would exclude as well.

    The loops are shown to be linearizable (every run is a sequence of the
    operations of [Allocator], in the order of the accesses that take effect),
    which gives the uniqueness of issued addresses, and to terminate under every
    scheduler. *)

From S2P Require Import Prelude NetAddr Contract Allocator.

Open Scope Z_scope.

(** ** Equivalent allocators

    An entry that is absent and one that holds 0 behave the same. *)
Definition alloc_equiv (a b : UlaAllocator) : Prop := forall s, counter a s = counter b s.

#[export] Instance alloc_equiv_equivalence : Equivalence alloc_equiv.
Proof.
  split; [by intros ??|by intros a b H s|intros a b c H1 H2 s; by rewrite H1].
Qed.

#[export] Instance counter_proper : Proper (alloc_equiv ==> eq ==> eq) counter.
Proof. by intros a b H s s' <-. Qed.

#[export] Instance allocate_proper :
  Proper (alloc_equiv ==> eq ==> prod_relation alloc_equiv eq) allocate_in_slot.
Proof.
  intros a b H s s' <-. split.
  - intros t. by rewrite !counter_allocate, (H s), (H t).
  - cbv [allocate_in_slot]. rewrite (H s). by case_match.
Qed.

#[export] Instance bump_proper : Proper (alloc_equiv ==> eq ==> eq ==> alloc_equiv) bump_slot_at_least.
Proof. intros a b H s s' <- i i' <- t. by rewrite !counter_bump, (H s), (H t). Qed.

#[export] Instance run_ops_proper :
  Proper (alloc_equiv ==> eq ==> prod_relation alloc_equiv eq) run_ops.
Proof.
  intros a b H ops ops' <-. revert a b H.
  induction ops as [|[s|s i] ops IH]; intros a b H; simpl; [done| |].
  - pose proof (allocate_proper a b H s s eq_refl) as [H1 H2].
    destruct (allocate_in_slot a s) as [a1 r1], (allocate_in_slot b s) as [b1 r2].
    simpl in *. subst r2. destruct (IH _ _ H1) as [H3 H4].
    destruct (run_ops a1 ops), (run_ops b1 ops); simpl in *. by subst.
  - apply IH. by apply bump_proper.
Qed.

Lemma run_ops_app a ops1 ops2 :
  run_ops a (ops1 ++ ops2)
  = let '(a1, o1) := run_ops a ops1 in let '(a2, o2) := run_ops a1 ops2 in (a2, o1 ++ o2).
Proof.
  revert a. induction ops1 as [|[s|s i] ops IH]; intros a; simpl.
  - by destruct (run_ops a ops2).
  - destruct (allocate_in_slot a s) as [a1 r]. rewrite IH.
    destruct (run_ops a1 ops) as [a2 o1]. destruct (run_ops a2 ops2). by destruct r as [[]|].
  - by rewrite IH.
Qed.

(** ** Threads *)

(** Where a thread is in its loop: about to load the counter, about to
    compare-and-swap the value it loaded, or returned. *)
Inductive thread :=
| AllocLoad (slot : Z)
| AllocCas (slot current : Z)
| AllocDone (slot : Z) (r : Result Z AllocError)
| BumpLoad (slot idx : Z)
| BumpCas (slot idx current : Z)
| BumpDone (slot idx : Z).

Definition touch (a : UlaAllocator) (slot : Z) : UlaAllocator :=
  mkUlaAllocator (<[slot := counter a slot]> (per_network a)).

(** [AtomicU16::compare_exchange]: the new state, and the value found. *)
Definition compare_exchange (a : UlaAllocator) (slot current next : Z) : UlaAllocator * Result Z Z :=
  let found := counter a slot in
  if found =? current then (mkUlaAllocator (<[slot := next]> (per_network a)), Ok found)
  else (a, Err found).

(** The loop condition [while current < idx]. *)
Definition bump_enter (slot idx current : Z) : thread :=
  if current <? idx then BumpCas slot idx current else BumpDone slot idx.

(** One atomic access of a thread; [None] once it has returned. *)
Definition thread_step (a : UlaAllocator) (t : thread) : option (UlaAllocator * thread) :=
  match t with
  | AllocLoad slot =>
      let current := counter a slot in
      Some (touch a slot,
            match u16_checked_add current 1 with
            | None => AllocDone slot (Err Exhausted)
            | Some _ => AllocCas slot current
            end)
  | AllocCas slot current =>
      let next := current + 1 in
      let '(a, r) := compare_exchange a slot current next in
      Some (a, match r with Ok _ => AllocDone slot (Ok next) | Err _ => AllocLoad slot end)
  | BumpLoad slot idx =>
      Some (touch a slot, bump_enter slot idx (counter a slot))
  | BumpCas slot idx current =>
      let '(a, r) := compare_exchange a slot current idx in
      Some (a, match r with Ok _ => BumpDone slot idx | Err now => bump_enter slot idx now end)
  | AllocDone _ _ | BumpDone _ _ => None
  end.

Record conf := mkConf { shared : UlaAllocator; threads : list thread }.

(** Any thread takes its next step. *)
Inductive step : conf -> conf -> Prop :=
| step_thread a ts i t a' t' :
    ts !! i = Some t ->
    thread_step a t = Some (a', t') ->
    step (mkConf a ts) (mkConf a' (<[i := t']> ts)).

(** The threads of an initial configuration: calls about to start. *)
Definition start (op : alloc_op) : thread :=
  match op with OpAllocate s => AllocLoad s | OpBump s i => BumpLoad s i end.

Definition done (t : thread) : bool :=
  match t with AllocDone _ _ | BumpDone _ _ => true | _ => false end.

(** The addresses that returned calls have issued. *)
Definition issued_by (t : thread) : list (Z * Z) :=
  match t with AllocDone s (Ok i) => [(s, i)] | _ => [] end.
Definition issued_all (ts : list thread) : list (Z * Z) := ts ≫= issued_by.

(** ** Linearization *)

(** The call a thread executes, and the calls that have returned: a call takes
    effect in its last access. *)
Definition call_of (t : thread) : alloc_op :=
  match t with
  | AllocLoad s | AllocCas s _ | AllocDone s _ => OpAllocate s
  | BumpLoad s i | BumpCas s i _ | BumpDone s i => OpBump s i
  end.
Definition returned_by (t : thread) : list alloc_op := if done t then [call_of t] else [].
Definition returned_all (ts : list thread) : list alloc_op := ts ≫= returned_by.

(** A thread's local value is one that it may have read. *)
Definition thread_ok (t : thread) : Prop :=
  match t with
  | AllocCas _ c => c < u16_max
  | BumpCas _ i c => c < i
  | _ => True
  end.

Lemma counter_touch a s : alloc_equiv (touch a s) a.
Proof. intros t. unfold touch. rewrite counter_insert. case_decide; by subst. Qed.

(** Each access refines nothing or one whole operation. *)
Lemma thread_step_refines a t a' t' :
  thread_ok t -> thread_step a t = Some (a', t') ->
  thread_ok t' /\ alloc_equiv (fst (run_ops a (returned_by t'))) a' /\
  snd (run_ops a (returned_by t')) = issued_by t' /\ issued_by t = [] /\ returned_by t = [] /\ call_of t' = call_of t.
Proof.
  intros Hok Hst. destruct t as [s|s c|s r|s i|s i c|s i]; simpl in Hst; try discriminate.
  - injection Hst as <- <-. destruct (u16_checked_add (counter a s) 1) eqn:E; simpl.
    + apply u16_checked_add_Some in E as [-> E]. split_and!; [lia| |done..].
      symmetry. apply counter_touch.
    + unfold allocate_in_slot. rewrite E. simpl. by split_and!.
  - unfold compare_exchange in Hst.
    destruct (counter a s =? c) eqn:Hc; injection Hst as <- <-; simpl; [|done].
    apply Z.eqb_eq in Hc. subst c.
    unfold allocate_in_slot. simpl in Hok.
    destruct (u16_checked_add (counter a s) 1) eqn:E.
    + by apply u16_checked_add_Some in E as [-> _].
    + apply u16_checked_add_None in E. lia.
  - injection Hst as <- <-. unfold bump_enter. case_match; simpl; [|].
    + split_and!; [lia| |done..]. symmetry. apply counter_touch.
    + split_and!; [done| |done..]. intros u. rewrite counter_bump, counter_touch.
      case_decide; subst; lia.
  - simpl in Hok. unfold compare_exchange in Hst.
    destruct (counter a s =? c) eqn:Hc; injection Hst as <- <-; simpl.
    + split_and!; [done| |done..]. intros u. rewrite counter_bump, counter_insert.
      case_decide; subst; lia.
    + unfold bump_enter. case_match; simpl; (split_and!; [lia || done| |done..]); [done|].
      intros u. rewrite counter_bump. case_decide; subst; lia.
Qed.

Definition start_conf (a : UlaAllocator) (ops : list alloc_op) : conf := mkConf a (start <$> ops).

Lemma start_fresh ops :
  issued_all (start <$> ops) = [] /\ returned_all (start <$> ops) = [] /\
  call_of <$> (start <$> ops) = ops.
Proof.
  unfold issued_all, returned_all.
  induction ops as [|op ops (H1 & H2 & H3)]; [done|].
  rewrite !fmap_cons, !bind_cons, H1, H2, H3. by destruct op.
Qed.

Lemma linearizable_strong a calls c :
  rtc step (start_conf a calls) c ->
  Forall thread_ok (threads c) /\ call_of <$> threads c = calls /\
  exists ops, ops ≡ₚ returned_all (threads c) /\
              alloc_equiv (shared c) (fst (run_ops a ops)) /\
              issued_all (threads c) ≡ₚ snd (run_ops a ops).
Proof.
  revert c. destruct (start_fresh calls) as (Hf1 & Hf2 & Hf3).
  apply (rtc_ind_r _ (start_conf a calls)); simpl.
  - split_and!; [|done|].
    { apply Forall_fmap, Forall_true. by intros []. }
    exists []. simpl. by rewrite Hf1, Hf2.
  - intros c1 c2 _ Hs (Hok & Hc & ops & Ho & He & Hp).
    destruct Hs as [a1 ts i t a2 t' Hi Hst]. simpl in *.
    destruct (thread_step_refines _ _ _ _ (proj1 (Forall_lookup _ _) Hok _ _ Hi) Hst)
      as (Hok' & He' & Hi' & Hn & Hr & Hct).
    split_and!; [by apply Forall_insert| |].
    { rewrite list_fmap_insert, Hct, list_insert_id; [done|].
      by rewrite list_lookup_fmap, Hi. }
    exists (ops ++ returned_by t'). rewrite run_ops_app.
    destruct (run_ops a ops) as [b o] eqn:Eo; simpl in *.
    pose proof (run_ops_proper _ _ He (returned_by t') _ eq_refl) as [Hq1 Hq2].
    destruct (run_ops b (returned_by t')) as [b2 o2]; simpl in *.
    unfold issued_all, returned_all in *. split_and!.
    + by rewrite (bind_insert_Permutation _ _ _ _ _ Hi Hr), Ho.
    + etrans; [symmetry; exact He'|exact Hq1].
    + rewrite (bind_insert_Permutation _ _ _ _ _ Hi Hn), Hp, <- Hi', Hq2. done.
Qed.

(** ** Termination *)

(** What is left of a thread's loop: a thread whose loaded value is stale loops
    once more. *)
Definition fresh (a : UlaAllocator) (t : thread) : bool :=
  match t with
  | AllocCas s c | BumpCas s _ c => counter a s =? c
  | _ => true
  end.
Definition weight (a : UlaAllocator) (t : thread) : nat :=
  match t with
  | AllocLoad _ | BumpLoad _ _ => 2
  | AllocCas _ _ | BumpCas _ _ _ => if fresh a t then 1 else 3
  | AllocDone _ _ | BumpDone _ _ => 0
  end.
Definition unfinished (t : thread) : nat := if done t then 0 else 1.

(** A successful compare-and-swap makes at most every other thread's value
    stale, and ends its own loop. *)
Definition conf_measure (c : conf) : nat :=
  (sum_by unfinished (threads c) * (3 * length (threads c) + 4)
   + sum_by (weight (shared c)) (threads c))%nat.

Lemma thread_step_measure a t a' t' :
  thread_step a t = Some (a', t') ->
  unfinished t = 1%nat /\ 
  (unfinished t' = 0%nat \/ alloc_equiv a a' /\ unfinished t' = 1%nat /\ (weight a' t' < weight a t)%nat).
Proof.
  intros Hst. destruct t as [s|s c|s r|s i|s i c|s i]; simpl in Hst; try discriminate;
    (split; [done|]).
  - injection Hst as <- <-. destruct (u16_checked_add _ _); [right|by left].
    split_and!; [symmetry; apply counter_touch|done|].
    simpl. rewrite (counter_touch a s s), Z.eqb_refl. lia.
  - unfold compare_exchange in Hst. simpl.
    destruct (counter a s =? c) eqn:Hc; injection Hst as <- <-; [by left|right].
    split_and!; [done|done|simpl; lia].
  - injection Hst as <- <-. unfold bump_enter. case_match; [right|by left].
    split_and!; [symmetry; apply counter_touch|done|].
    simpl. rewrite (counter_touch a s s), Z.eqb_refl. lia.
  - unfold compare_exchange in Hst. simpl.
    destruct (counter a s =? c) eqn:Hc; injection Hst as <- <-; [by left|].
    unfold bump_enter. case_match; [right|by left].
    split_and!; [done|done|simpl]. rewrite Z.eqb_refl. lia.
Qed.

Lemma weight_proper a a' t : alloc_equiv a a' -> weight a t = weight a' t.
Proof. intros H. by destruct t; simpl; rewrite ?(H _). Qed.

Lemma weight_le a a' t : (weight a t <= weight a' t + 3)%nat.
Proof. destruct t; simpl; repeat case_match; lia. Qed.

Lemma step_measure c c' : step c c' -> (conf_measure c' < conf_measure c)%nat.
Proof.
  intros [a ts i t a' t' Hi Hst]. unfold conf_measure; simpl.
  rewrite length_insert.
  pose proof (sum_by_insert unfinished ts i t t' Hi) as Hu.
  pose proof (sum_by_insert (weight a') ts i t t' Hi) as Hw.
  pose proof (sum_by_le (weight a') (weight a) 3 ts (fun x _ => weight_le a' a x)) as Hle.
  destruct (thread_step_measure _ _ _ _ Hst) as [H1 [H2|(He & H2 & H3)]].
  - assert (weight a' t' <= 3)%nat by (destruct t'; simpl; repeat case_match; lia).
    assert (sum_by unfinished ts = S (sum_by unfinished (<[i:=t']> ts))) as -> by lia.
    nia.
  - pose proof (weight_proper a a' t He).
    assert (sum_by (weight a') ts = sum_by (weight a) ts) as Heq.
    { unfold sum_by. clear -He. induction ts as [|x ts IH]; simpl; [done|].
      by rewrite IH, (weight_proper a a' x He). }
    assert (sum_by unfinished (<[i:=t']> ts) = sum_by unfinished ts) as -> by lia.
    lia.
Qed.

Lemma unfinished_steps a ts i t :
  ts !! i = Some t -> done t = false -> exists c', step (mkConf a ts) c'.
Proof.
  intros Hi Hd. destruct (thread_step a t) as [[a' t']|] eqn:E.
  - exists (mkConf a' (<[i := t']> ts)). by econstructor.
  - destruct t; simpl in *; try discriminate;
      unfold compare_exchange in E; case_match; discriminate.
Qed.

(** ** Properties *)

(** C16: Concurrent [allocate_in_slot] and [bump_slot_at_least] calls are
    linearizable: whatever the interleaving of their atomic accesses, the calls
    that have returned took effect in some order as the sequential operations,
    with the same counters and the same issued indices. So no index of a block is
    issued twice, and none that the counter had passed before. *)
Theorem concurrent_calls_linearizable a calls c :
  rtc step (start_conf a calls) c ->
  exists ops,
    ops ≡ₚ returned_all (threads c) /\
    alloc_equiv (shared c) (fst (run_ops a ops)) /\
    issued_all (threads c) ≡ₚ snd (run_ops a ops) /\
    NoDup (issued_all (threads c)) /\
    (forall s i, (s, i) ∈ issued_all (threads c) -> counter a s < i <= counter (shared c) s).
Proof.
  intros Hr. destruct (linearizable_strong _ _ _ Hr) as (_ & _ & ops & Ho & He & Hp).
  destruct (run_ops_spec a ops) as (H1 & _ & H3).
  exists ops. split_and!; [done..|by rewrite Hp|].
  intros s i. rewrite Hp. intros Hin%H1. by rewrite (He s).
Qed.

Lemma concurrent_calls_linearizable_witness :
  exists c ops,
    rtc step (start_conf allocator_new [OpAllocate 5; OpAllocate 5; OpBump 5 7]) c /\
    issued_all (threads c) = [(5, 1); (5, 8)] /\ ops ≡ₚ returned_all (threads c).
Proof.
  pose (calls := [OpAllocate 5; OpAllocate 5; OpBump 5 7]).
  assert (exists c, rtc step (start_conf allocator_new calls) c /\
                    issued_all (threads c) = [(5, 1); (5, 8)]) as (c & Hr & Hi).
  { eexists. split.
    - (* both allocations load 0; the first one wins; the bump runs; the second retries *)
      repeat (eapply rtc_l; [first
        [ eapply (step_thread _ _ 0%nat); [reflexivity|vm_compute; reflexivity]
        | eapply (step_thread _ _ 2%nat); [reflexivity|vm_compute; reflexivity]
        | eapply (step_thread _ _ 1%nat); [reflexivity|vm_compute; reflexivity] ]
        | simpl ]).
      apply rtc_refl.
    - reflexivity. }
  destruct (concurrent_calls_linearizable allocator_new calls c Hr) as (ops & H1 & _).
  by exists c, ops.
Defined.

(** The compare-and-swap loops terminate under every scheduler: [N] concurrent
    calls take at most [N * (3 * N + 6)] atomic accesses in total, no call is ever
    stuck, and when no access is left every call has returned. *)
Theorem concurrent_calls_terminate a calls n c :
  nsteps step n (start_conf a calls) c ->
  (n <= length calls * (3 * length calls + 6))%nat /\
  (returned_all (threads c) = calls \/ exists c', step c c').
Proof.
  intros Hn.
  assert (n + conf_measure c <= conf_measure (start_conf a calls))%nat as Hm.
  { clear -Hn. induction Hn as [|n x y z Hs Hr IH]; [lia|]. pose proof (step_measure _ _ Hs). lia. }
  assert (conf_measure (start_conf a calls) <= length calls * (3 * length calls + 6))%nat as Hb.
  { unfold conf_measure, start_conf; simpl. rewrite length_fmap.
    assert (sum_by unfinished (start <$> calls) = length calls /\
            sum_by (weight a) (start <$> calls) = 2 * length calls)%nat as [-> ->].
    { unfold sum_by. clear. induction calls as [|op calls [IH1 IH2]]; [done|].
      rewrite fmap_cons. destruct op; simpl; rewrite IH1, IH2; split; lia. }
    nia. }
  split; [lia|].
  destruct (linearizable_strong a calls c (proj2 (rtc_nsteps _ _) (ex_intro _ n Hn))) as (_ & Hc & _).
  destruct (decide (Forall (fun t => done t = true) (threads c))) as [Hd|Hd].
  - left. unfold returned_all. rewrite <- Hc. clear -Hd.
    induction Hd as [|t ts Ht Hts IH]; [done|].
    rewrite bind_cons, fmap_cons, IH. unfold returned_by. by rewrite Ht.
  - right. apply (not_Forall_Exists (fun t => done t = true)) in Hd.
    apply Exists_exists in Hd as (t & Hin & Ht).
    apply list_elem_of_lookup in Hin as [i Hi]. destruct c as [b ts].
    apply (unfinished_steps b ts i t Hi). apply not_true_is_false, Ht.
Qed.

Lemma concurrent_calls_terminate_witness :
  exists c, nsteps step 2 (start_conf allocator_new [OpAllocate 5]) c /\
    (2 <= 9)%nat /\ returned_all (threads c) = [OpAllocate 5].
Proof.
  assert (exists c, nsteps step 2 (start_conf allocator_new [OpAllocate 5]) c /\
                    returned_all (threads c) = [OpAllocate 5]) as (c & Hn & Hr).
  { eexists. split.
    - eapply nsteps_l; [eapply (step_thread _ _ 0%nat); [reflexivity|vm_compute; reflexivity]|].
      eapply nsteps_l; [eapply (step_thread _ _ 0%nat); [reflexivity|vm_compute; reflexivity]|].
      apply nsteps_O.
    - reflexivity. }
  exists c. split_and!; [done| |done].
  exact (proj1 (concurrent_calls_terminate _ _ _ _ Hn)).
Defined.
