(* ===== verification/Policy.v ===== *)
(** * The visibility policy ([policy/model.rs], [policy/store.rs])

    Rules from source tags to destination tags, default-deny and symmetric; the
    validation of a new policy, and the store that replaces the current policy
    under an etag precondition. *)

From S2P Require Import Prelude NetAddr.

(** ** The model *)

Definition TAG_NET_PREFIX : string := "tag:net-".
Definition TAG_SYSTEM : string := "tag:system".
Definition TAG_NET_WILDCARD : string := "tag:net-*".

Definition STAR : Ascii.ascii := ascii_of "*".

Record AclRule := mkAclRule { action : string; src : list string; dst : list string }.
Record Policy := mkPolicy { acls : list AclRule }.

#[export] Instance AclRule_eq_dec : EqDecision AclRule.
Proof. solve_decision. Defined.
#[export] Instance Policy_eq_dec : EqDecision Policy.
Proof. solve_decision. Defined.

Definition default_action : string := "accept".
Definition accept (src dst : list string) : AclRule := mkAclRule default_action src dst.
Definition is_accept (r : AclRule) : bool := bool_decide (action r = "accept").

Definition policy_default : Policy := mkPolicy [].
Definition bootstrap : Policy := mkPolicy [accept [TAG_SYSTEM] [TAG_SYSTEM]].

Definition tag_matches (pattern tag : string) : bool :=
  if bool_decide (pattern = "*") then true
  else match strip_suffix_char STAR pattern with
       | Some prefix => starts_with prefix tag
       | None => bool_decide (pattern = tag)
       end.

Definition tags_match_any (patterns tags : list string) : bool :=
  existsb (fun pat =>
    if bool_decide (pat = "*") then true
    else existsb (fun tag => tag_matches pat tag) tags) patterns.

Definition allows_directed (p : Policy) (src_tags dst_tags : list string) : bool :=
  existsb (fun rule => tags_match_any (src rule) src_tags && tags_match_any (dst rule) dst_tags)
    (List.filter is_accept (acls p)).

Definition can_see (p : Policy) (a_tags b_tags : list string) : bool :=
  allows_directed p a_tags b_tags || allows_directed p b_tags a_tags.

(** ** Validation *)

Inductive PolicyValidationError := CrossTenantGlobSource (pattern : string).

#[export] Instance PolicyValidationError_eq_dec : EqDecision PolicyValidationError.
Proof. solve_decision. Defined.

Definition is_cross_tenant_glob_source (pattern : string) : bool :=
  if bool_decide (pattern = "*") then true
  else match strip_suffix_char STAR pattern with
       | None => false
       | Some prefix => starts_with prefix TAG_NET_PREFIX || starts_with TAG_NET_PREFIX prefix
       end.

Fixpoint validate_rules (rules : list AclRule) : Result unit PolicyValidationError :=
  match rules with
  | [] => Ok tt
  | rule :: rules =>
      match List.find is_cross_tenant_glob_source (src rule) with
      | Some pattern => Err (CrossTenantGlobSource pattern)
      | None => validate_rules rules
      end
  end.
Definition validate (p : Policy) : Result unit PolicyValidationError := validate_rules (acls p).

(** ** Lemmas on patterns *)

Lemma strip_star_app p : strip_suffix_char STAR (p +:+ "*") = Some p.
Proof. by apply strip_suffix_char_spec. Qed.

(** A pattern with a trailing star matches by prefix, any other one literally. *)
Lemma tag_matches_spec pattern tag :
  tag_matches pattern tag = true <->
  match strip_suffix_char STAR pattern with
  | Some p => exists r, tag = p +:+ r
  | None => pattern = tag
  end.
Proof.
  unfold tag_matches. case_bool_decide as Hs.
  - subst. replace (strip_suffix_char STAR "*") with (Some EmptyString) by reflexivity.
    split; [|done]. intros _. by exists tag.
  - case_match; [apply starts_with_spec|apply bool_decide_eq_true].
Qed.

Lemma cross_tenant_glob_spec pattern :
  is_cross_tenant_glob_source pattern = true <->
  exists p, strip_suffix_char STAR pattern = Some p /\
            ((exists r, TAG_NET_PREFIX = p +:+ r) \/ (exists r, p = TAG_NET_PREFIX +:+ r)).
Proof.
  unfold is_cross_tenant_glob_source. case_bool_decide as Hs.
  - subst. split; [|done]. intros _. exists EmptyString. split; [done|]. left. by eexists.
  - destruct (strip_suffix_char STAR pattern) as [p|].
    + rewrite orb_true_iff, !starts_with_spec. split; [by exists p|].
      by intros (? & [= <-] & ?).
    + split; [done|by intros (? & [=] & _)].
Qed.

Lemma validate_Ok p :
  validate p = Ok tt <->
  forall rule pat, rule ∈ acls p -> pat ∈ src rule -> is_cross_tenant_glob_source pat = false.
Proof.
  unfold validate. induction (acls p) as [|r rules IH]; simpl.
  { split; [|done]. intros _ ?? Hin. by apply elem_of_nil in Hin. }
  destruct (List.find _ (src r)) as [pat|] eqn:E.
  - apply find_Some_in in E as [Hin Hp]. split; [done|].
    intros H. rewrite (H r pat) in Hp; [done|by left|done].
  - rewrite IH. split.
    + intros H r' pat [->|Hin]%elem_of_cons Hpat; [by eapply find_None_all|by eapply H].
    + intros H r' pat Hin. apply H. by right.
Qed.

Lemma validate_Err p e :
  validate p = Err e ->
  exists pat rule, e = CrossTenantGlobSource pat /\ rule ∈ acls p /\ pat ∈ src rule /\
    is_cross_tenant_glob_source pat = true.
Proof.
  unfold validate. induction (acls p) as [|r rules IH]; simpl; [done|].
  destruct (List.find _ (src r)) as [pat|] eqn:E.
  - intros [= <-]. apply find_Some_in in E as [Hin Hp]. exists pat, r.
    split_and!; [done|by left|done|done].
  - intros H. destruct (IH H) as (pat & rule & ? & ? & ? & ?).
    exists pat, rule. split_and!; [done|by right|done|done].
Qed.

Lemma tags_match_any_spec patterns tags :
  tags_match_any patterns tags = true <->
  exists pat, pat ∈ patterns /\ (pat = "*" \/ exists tag, tag ∈ tags /\ tag_matches pat tag = true).
Proof.
  unfold tags_match_any. rewrite existsb_elem. split.
  - intros (pat & Hin & H). exists pat. split; [done|].
    case_bool_decide; [by left|right]. by apply existsb_elem.
  - intros (pat & Hin & H). exists pat. split; [done|].
    case_bool_decide; [done|]. apply existsb_elem. by destruct H.
Qed.

Lemma allows_directed_spec p a b :
  allows_directed p a b = true <->
  exists rule, rule ∈ acls p /\ action rule = "accept" /\
    tags_match_any (src rule) a = true /\ tags_match_any (dst rule) b = true.
Proof.
  unfold allows_directed. rewrite existsb_elem. split.
  - intros (r & Hin & [H1 H2]%andb_true_iff).
    apply list_elem_of_In, filter_In in Hin as [Hin Ha].
    exists r. split_and!; [by apply list_elem_of_In|by apply bool_decide_eq_true in Ha|done|done].
  - intros (r & Hin & Ha & H1 & H2). exists r. split; [|by rewrite H1, H2].
    apply list_elem_of_In, filter_In. split; [by apply list_elem_of_In|by apply bool_decide_eq_true].
Qed.

(** A tenant's network tag. *)
Definition tag_net (slug : string) : string := TAG_NET_PREFIX +:+ slug.

(** A source pattern is refused exactly if it spans two tenants. *)
Lemma glob_source_spans pat :
  is_cross_tenant_glob_source pat = true <->
  exists s1 s2, s1 <> s2 /\ tag_matches pat (tag_net s1) = true /\ tag_matches pat (tag_net s2) = true.
Proof.
  rewrite cross_tenant_glob_spec. setoid_rewrite tag_matches_spec. split.
  - intros (q & Hq & [[r Hr]|[r ->]]); rewrite Hq.
    + exists "a", "b". split_and!; [done| |]; unfold tag_net; rewrite Hr, string_app_assoc; by eexists.
    + exists r, (r +:+ "a"). split_and!.
      * intros H. apply (f_equal String.length) in H. rewrite string_app_length in H. simpl in H. lia.
      * exists EmptyString. unfold tag_net. by rewrite string_app_assoc, string_app_nil_r.
      * exists "a". unfold tag_net. by rewrite string_app_assoc.
  - intros (s1 & s2 & Hne & H1 & H2).
    destruct (strip_suffix_char STAR pat) as [q|] eqn:Hq.
    + exists q. split; [done|]. destruct H1 as [r Hr]. unfold tag_net in Hr.
      destruct (prefix_comparable _ _ _ _ Hr) as [[u Hu]|[u Hu]]; [right|left]; by exists u.
    + rewrite H1 in H2. apply string_app_inv_head in H2. done.
Qed.

(** ** The store *)

(** What the store needs of JSON serialisation. *)
Class PolicySerde := { policy_to_vec : Policy -> option (list Z) }.

Section Store.
Context `{PolicySerde}.
Open Scope Z_scope.

Record PolicySnapshot := mkPolicySnapshot { policy : Policy; etag : string }.

(** [inner]: the snapshot behind the lock. *)
Record PolicyStore := mkPolicyStore { inner : PolicySnapshot }.

Inductive PolicyReplaceError :=
| EtagMismatch (current provided : string)
| Invalid (e : PolicyValidationError).

Definition fnv1a64 (bytes : list Z) : Z :=
  let OFFSET := 0xcbf29ce484222325 in
  let PRIME := 0x00000100000001b3 in
  foldl (fun hash b => u64_wrapping_mul (Z.lxor hash b) PRIME) OFFSET bytes.

(** [{hash:016x}] between quotation marks. *)
Fixpoint hex_digits (n : nat) (z : Z) : string :=
  match n with
  | O => EmptyString
  | S n => hex_digits n (z / 16) +:+ String (digit_char (z mod 16)) EmptyString
  end.
Definition QUOTE : Ascii.ascii := Ascii.ascii_of_nat 34.
Definition quoted (s : string) : string :=
  String QUOTE (s +:+ String QUOTE EmptyString).

Definition etag_for (p : Policy) (nonce : Z) : string :=
  let serialized := default [] (policy_to_vec p) in
  let hash := fnv1a64 serialized in
  let hash := Z.lxor hash (u64_wrapping_mul nonce 0x100000001b3) in
  quoted (hex_digits 16 hash).

(** The static counter of [next_nonce], which starts at 1: its new value and
    the nonce drawn. *)
Definition NONCE_INIT : Z := 1.
Definition next_nonce (COUNTER : Z) : Z * Z := (u64_wrapping_add COUNTER 1, COUNTER).

Definition store_new (p : Policy) : PolicyStore :=
  mkPolicyStore (mkPolicySnapshot p (etag_for p 0)).
Definition store_empty : PolicyStore := store_new policy_default.
Definition store_bootstrap : PolicyStore := store_new bootstrap.

(** [load_from_file] on the outcome of reading and of parsing the file. *)
Inductive LoadError := ReadError (e : string) | ParseError (e : string) | InvalidFile (e : PolicyValidationError).
Definition load_from_file (raw : Result string string) (from_str : string -> Result Policy string)
    : Result PolicyStore LoadError :=
  let? raw := map_err ReadError raw in
  let? policy := map_err ParseError (from_str raw) in
  let? _ := map_err InvalidFile (validate policy) in
  Ok (store_new policy).

Definition snapshot (s : PolicyStore) : PolicySnapshot := inner s.
Definition current (s : PolicyStore) : Policy := policy (inner s).

(** [replace]: the static counter, the store and the outcome. The comparison
    and the exchange are made under one write lock. *)
Definition replace (COUNTER : Z) (s : PolicyStore) (if_match : string) (new_policy : Policy)
    : Z * PolicyStore * Result PolicySnapshot PolicyReplaceError :=
  match validate new_policy with
  | Err e => (COUNTER, s, Err (Invalid e))
  | Ok _ =>
      if bool_decide (etag (inner s) <> if_match) then
        (COUNTER, s, Err (EtagMismatch (etag (inner s)) if_match))
      else
        let '(COUNTER, nonce) := next_nonce COUNTER in
        let snapshot := mkPolicySnapshot new_policy (etag_for new_policy nonce) in
        (COUNTER, mkPolicyStore snapshot, Ok snapshot)
  end.

(** ** The etag *)

Lemma hex_digits_inj n a b :
  0 <= a < 16 ^ Z.of_nat n -> 0 <= b < 16 ^ Z.of_nat n -> hex_digits n a = hex_digits n b -> a = b.
Proof.
  revert a b. induction n as [|n IH]; intros a b Ha Hb He.
  { change (16 ^ Z.of_nat 0) with 1 in *. lia. }
  rewrite Nat2Z.inj_succ, Z.pow_succ_r in * by lia.
  simpl in He. apply string_snoc_inj in He as [Hd Hc].
  apply digit_char_inj in Hc; [|apply Z.mod_pos_bound; lia..].
  apply IH in Hd; [|split; [apply Z.div_pos; lia|apply Z.div_lt_upper_bound; lia]..].
  rewrite (Z.div_mod a 16), (Z.div_mod b 16) by lia. lia.
Qed.

Lemma quoted_inj s t : quoted s = quoted t -> s = t.
Proof. unfold quoted. intros [= Hs]. by apply string_snoc_inj in Hs as [-> _]. Qed.

Lemma fnv1a64_u64 bytes : is_u64 (fnv1a64 bytes).
Proof.
  unfold fnv1a64. destruct bytes as [|b bs] using rev_ind.
  - unfold is_u64, u64_max; simpl. lia.
  - rewrite foldl_app. simpl. apply u64_wrapping_mul_u64.
Qed.

Definition etag_hash (p : Policy) (nonce : Z) : Z :=
  Z.lxor (fnv1a64 (default [] (policy_to_vec p))) (u64_wrapping_mul nonce 0x100000001b3).

Lemma etag_for_eq p n p' n' :
  etag_for p n = etag_for p' n' <-> etag_hash p n = etag_hash p' n'.
Proof.
  assert (forall p n, 0 <= etag_hash p n < 16 ^ Z.of_nat 16) as Hb.
  { intros q m. change (16 ^ Z.of_nat 16) with (2 ^ 64). apply lxor_bound; [lia| |].
    - apply is_u64_lt, fnv1a64_u64.
    - apply is_u64_lt, u64_wrapping_mul_u64. }
  unfold etag_for. fold (etag_hash p n) (etag_hash p' n'). split; [|by intros ->].
  intros Hq. apply quoted_inj in Hq. by apply (hex_digits_inj 16) in Hq.
Qed.

(** The multiplier is odd, so a different nonce gives a different product. *)
Lemma nonce_mul_inj a b :
  is_u64 a -> is_u64 b ->
  u64_wrapping_mul a 0x100000001b3 = u64_wrapping_mul b 0x100000001b3 -> a = b.
Proof.
  rewrite !is_u64_lt. intros Ha Hb Hm. unfold u64_wrapping_mul in Hm.
  (* 0xce965057aff6957b is the inverse of the multiplier modulo 2^64 *)
  assert (forall x, 0 <= x < 2 ^ 64 ->
    ((x * 0x100000001b3) mod 2 ^ 64 * 0xce965057aff6957b) mod 2 ^ 64 = x) as Hinv.
  { intros x Hx. rewrite Zmult_mod_idemp_l, <- Z.mul_assoc, <- Zmult_mod_idemp_r.
    replace ((0x100000001b3 * 0xce965057aff6957b) mod 2 ^ 64) with 1 by (vm_compute; reflexivity).
    rewrite Z.mul_1_r. by apply Z.mod_small. }
  rewrite <- (Hinv a Ha), <- (Hinv b Hb). by rewrite Hm.
Qed.

Lemma etag_for_nonce_inj p n n' : is_u64 n -> is_u64 n' -> etag_for p n = etag_for p n' -> n = n'.
Proof.
  intros Hn Hn' He. apply etag_for_eq in He. unfold etag_hash in He.
  apply nonce_mul_inj; [done..|].
  rewrite <- (lxor_involutive (u64_wrapping_mul n _) (fnv1a64 (default [] (policy_to_vec p)))).
  rewrite <- (lxor_involutive (u64_wrapping_mul n' _) (fnv1a64 (default [] (policy_to_vec p)))).
  f_equal. by rewrite (Z.lxor_comm _ (fnv1a64 _)), (Z.lxor_comm (u64_wrapping_mul n' _)).
Qed.
End Store.

(** ** Properties *)

(** Validation refuses exactly the policies that let one source pattern cover two
    tenants: [validate] succeeds if and only if no source pattern of any rule
    matches the network tags of two different tenants. *)
Theorem validate_iff_no_spanning_source p :
  validate p = Ok tt <->
  forall rule pat s1 s2,
    rule ∈ acls p -> pat ∈ src rule ->
    tag_matches pat (tag_net s1) = true -> tag_matches pat (tag_net s2) = true -> s1 = s2.
Proof.
  rewrite validate_Ok. split.
  - intros H rule pat s1 s2 Hr Hp H1 H2. destruct (decide (s1 = s2)) as [|Hne]; [done|].
    specialize (H rule pat Hr Hp).
    rewrite (proj2 (glob_source_spans pat)) in H; [done|by exists s1, s2].
  - intros H rule pat Hr Hp. apply not_true_is_false.
    intros (s1 & s2 & Hne & H1 & H2)%glob_source_spans. apply Hne. by eapply H.
Qed.

(** Under a validated policy two tenants that carry only tenant tags see each
    other only if some accept rule names, literally and as a source, a tag that
    one of them carries: no wildcard joins tenants. *)
Theorem tenants_meet_only_by_name p a b :
  validate p = Ok tt ->
  (forall t, t ∈ a \/ t ∈ b -> exists slug, t = tag_net slug) ->
  can_see p a b = true ->
  exists rule t, rule ∈ acls p /\ action rule = "accept" /\ t ∈ src rule /\ (t ∈ a \/ t ∈ b).
Proof.
  intros Hv Ht Hs.
  assert (forall x y, (forall t, t ∈ x -> exists slug, t = tag_net slug) ->
    allows_directed p x y = true ->
    exists rule t, rule ∈ acls p /\ action rule = "accept" /\ t ∈ src rule /\ t ∈ x) as Hd.
  { intros x y Hx (rule & Hr & Ha & H1 & _)%allows_directed_spec.
    apply tags_match_any_spec in H1 as (pat & Hp & H1).
    pose proof (proj1 (validate_Ok p) Hv rule pat Hr Hp) as Hg.
    destruct H1 as [->|(t & Hin & Hm)]; [done|].
    destruct (Hx t Hin) as [slug ->].
    apply tag_matches_spec in Hm.
    destruct (strip_suffix_char STAR pat) as [q|] eqn:Hq.
    - destruct Hm as [r Hr']. unfold tag_net in Hr'.
      rewrite (proj2 (cross_tenant_glob_spec pat)) in Hg; [done|].
      exists q. split; [done|].
      destruct (prefix_comparable _ _ _ _ Hr') as [[u Hu]|[u Hu]]; [right|left]; by exists u.
    - subst. exists rule, (tag_net slug). by split_and!. }
  unfold can_see in Hs. apply orb_true_iff in Hs as [Hs|Hs]; apply Hd in Hs as (r & t & ? & ? & ? & ?);
    try (intros; apply Ht; auto); exists r, t; auto.
Qed.

Lemma tenants_meet_only_by_name_witness :
  let p := mkPolicy [accept ["tag:net-a"; TAG_SYSTEM] [TAG_NET_WILDCARD]] in
  validate p = Ok tt /\ can_see p ["tag:net-b"] ["tag:net-a"] = true /\
  exists rule t, rule ∈ acls p /\ action rule = "accept" /\ t ∈ src rule /\
    (t ∈ ["tag:net-b"] \/ t ∈ ["tag:net-a"]).
Proof.
  split_and!; [reflexivity|reflexivity|].
  apply tenants_meet_only_by_name; [reflexivity| |reflexivity].
  intros t [[->|[]%elem_of_nil]%elem_of_cons|[->|[]%elem_of_nil]%elem_of_cons]; [by exists "b"|by exists "a"].
Defined.

(** Visibility is symmetric, denied by an empty policy, independent of the order
    of the rules, and monotone in them; and the bootstrap policy grants exactly
    system-to-system visibility. *)
Theorem can_see_laws p a b :
  can_see p a b = can_see p b a /\
  can_see policy_default a b = false /\
  (forall p', acls p ≡ₚ acls p' -> can_see p a b = can_see p' a b) /\
  (forall r, can_see p a b = true -> can_see (mkPolicy (r :: acls p)) a b = true) /\
  (can_see bootstrap a b = true <-> TAG_SYSTEM ∈ a /\ TAG_SYSTEM ∈ b).
Proof.
  assert (forall q r x y, (forall rule, rule ∈ acls q -> rule ∈ acls r) ->
    allows_directed q x y = true -> allows_directed r x y = true) as Hmono.
  { intros q r x y H (rule & Hr & Hx)%allows_directed_spec. apply allows_directed_spec. eauto. }
  assert (forall q r, (forall rule, rule ∈ acls q -> rule ∈ acls r) ->
    can_see q a b = true -> can_see r a b = true) as Hmono'.
  { intros q r H. unfold can_see. rewrite !orb_true_iff. intros [|]; [left|right]; by eapply Hmono. }
  split_and!.
  - apply orb_comm.
  - done.
  - intros p' Hp. apply eq_true_iff_eq. split; apply Hmono'; intros rule; by rewrite Hp.
  - intros r. apply Hmono'. intros rule ?. by right.
  - unfold can_see, allows_directed, bootstrap, accept, tags_match_any. simpl.
    rewrite !orb_false_r.
    assert (forall x, existsb (tag_matches TAG_SYSTEM) x = true <-> TAG_SYSTEM ∈ x) as Hx.
    { intros x. rewrite existsb_elem. split.
      - intros (t & Hin & Ht). apply tag_matches_spec in Ht. simpl in Ht. by subst.
      - intros Hin. exists TAG_SYSTEM. done. }
    rewrite orb_true_iff, !andb_true_iff, !Hx. tauto.
Qed.

Section StoreProperties.
Context `{PolicySerde}.
Open Scope Z_scope.

(** [replace] installs a policy exactly when the policy validates and the caller
    named the current etag, and on any error leaves the store as it was; so a
    store that holds a valid policy always does. A second writer that read the
    same snapshot is refused unless the two contents happen to hash together,
    and always when the first writer left the content unchanged. *)
Theorem replace_is_compare_and_swap COUNTER s tag p COUNTER' s' r :
  replace COUNTER s tag p = (COUNTER', s', r) ->
  (is_ok r = true <-> validate p = Ok tt /\ tag = etag (inner s)) /\
  (is_ok r = true -> policy (inner s') = p /\ etag (inner s') = etag_for p COUNTER) /\
  (is_ok r = false -> s' = s /\ COUNTER' = COUNTER) /\
  (validate (policy (inner s)) = Ok tt -> validate (policy (inner s')) = Ok tt) /\
  (forall n q, is_ok r = true -> etag (inner s) = etag_for (policy (inner s)) n ->
    etag_hash p COUNTER <> etag_hash (policy (inner s)) n \/
      p = policy (inner s) /\ n <> COUNTER /\ is_u64 n /\ is_u64 COUNTER ->
    is_ok (snd (replace COUNTER' s' tag q)) = false).
Proof.
  unfold replace. destruct (validate p) as [[]|e] eqn:Hv.
  2: { intros [= <- <- <-]. split; [split; [done|by intros [? _]]|by split_and!]. }
  case_bool_decide as Ht.
  - intros [= <- <- <-]. split; [split; [done|by intros [_ ->]]|by split_and!].
  - simpl. intros [= <- <- <-]. simpl.
    split; [done|].
    split_and!; [done..|].
    intros n q _ He Hne. assert (tag = etag_for (policy (inner s)) n) as ->.
    { by rewrite <- He. }
    assert (etag_for p COUNTER <> etag_for (policy (inner s)) n) as Hd.
    { destruct Hne as [Hh|(-> & Hn & Hu1 & Hu2)].
      - by rewrite etag_for_eq.
      - intros Hx. apply etag_for_nonce_inj in Hx; [|done..]. by apply Hn. }
    by destruct (validate q) as [[]|]; [rewrite bool_decide_true|].
Qed.
End StoreProperties.

Lemma replace_is_compare_and_swap_witness :
  let _ : PolicySerde := {| policy_to_vec p := Some [Z.of_nat (length (acls p))] |} in
  exists c s r, replace 1 store_bootstrap (etag (inner store_bootstrap)) bootstrap = (c, s, r) /\
    is_ok r = true /\ policy (inner s) = bootstrap /\
    is_ok (snd (replace c s (etag (inner store_bootstrap)) policy_default)) = false.
Proof.
  intros He.
  destruct (replace 1 store_bootstrap (etag (inner store_bootstrap)) bootstrap) as [[c s] r] eqn:E.
  destruct (replace_is_compare_and_swap _ _ _ _ _ _ _ E) as (H1 & H2 & _ & _ & H5).
  assert (is_ok r = true) as Hr by (apply H1; split; reflexivity).
  exists c, s, r. split_and!; [done|done|by apply H2|].
  apply (H5 0%Z); [done|reflexivity|].
  right. unfold is_u64, u64_max. split_and!; [reflexivity|done|lia..].
Defined.
