(* ===== verification/Types.v ===== *)
(** * Shared data

    The data that the coordinator's components exchange: identifiers, the events
    of [roster/events.rs], the request and response bodies of
    [http/api/dto.rs], the fan-out events of [http/sse.rs], the roster entry of
    [roster/coordinator/mod.rs], and the library functions that the coordinator
    calls (UUID text, base64, JSON) as a class with its laws. *)

From S2P Require Import Prelude NetAddr.

Open Scope Z_scope.

(** A [Uuid] is its 128-bit value; its order is the order of its bytes. *)
Definition Uuid : Type := N.

(** ** Library functions the coordinator relies on *)

(** The [uuid] crate's text form and the [base64] crate's standard alphabet. *)
Class Externals := {
  uuid_to_string : Uuid -> string;
  uuid_parse : string -> Result Uuid string;
  b64_encode : list Z -> string;
  b64_decode : string -> Result (list Z) string;
}.

(** What the crates document: the text forms read back. *)
Class ExternalLaws `{Externals} := {
  uuid_parse_to_string : forall u, uuid_parse (uuid_to_string u) = Ok u;
  b64_decode_encode : forall b, Forall is_u8 b -> b64_decode (b64_encode b) = Ok b;
}.

Lemma uuid_to_string_inj `{ExternalLaws} u v : uuid_to_string u = uuid_to_string v -> u = v.
Proof.
  intros He. apply (f_equal uuid_parse) in He. rewrite !uuid_parse_to_string in He. congruence.
Qed.

(** ** Published events ([roster/events.rs]) *)

Record PeerJoined := mkPeerJoined {
  pj_peer_id : string;
  pj_wg_public_key : list Z;
  pj_ula : string;
  pj_listen_endpoint : string;
  pj_display_name : string;
  pj_network : string;
  pj_tags : list string;
  pj_hosted_app_ulas : list string;
  pj_joined_at_micros : Z;
  pj_kind : string;
  pj_parent : option string;
  pj_app_uuid : option string;
  pj_software_version : option string;
  pj_mesh_version : option string;
  pj_relay_only : bool;
}.

Record PeerHeartbeat := mkPeerHeartbeat {
  ph_peer_id : string;
  ph_observed_external : string;
  ph_hosted_app_ulas : list string;
  ph_software_version : option string;
  ph_mesh_version : option string;
  ph_at_micros : Z;
}.

Record PeerLeft := mkPeerLeft { pl_peer_id : string; pl_reason : string; pl_left_at_micros : Z }.

Record HolePunchInitiate := mkHolePunchInitiate {
  initiator_peer_id : string;
  target_peer_id : string;
  target_external_endpoint : string;
  hp_timestamp_micros : Z;
}.

Record RelayWake := mkRelayWake {
  recipient_peer_id : string;
  source_ula : string;
  rw_timestamp_micros : Z;
}.

#[export] Instance PeerJoined_eq_dec : EqDecision PeerJoined.
Proof. solve_decision. Defined.
#[export] Instance HolePunchInitiate_eq_dec : EqDecision HolePunchInitiate.
Proof. solve_decision. Defined.
#[export] Instance RelayWake_eq_dec : EqDecision RelayWake.
Proof. solve_decision. Defined.

(** The types that implement [MeshEvent]. *)
Inductive MeshEvent :=
| EvJoined (e : PeerJoined)
| EvHeartbeat (e : PeerHeartbeat)
| EvLeft (e : PeerLeft)
| EvHolePunch (e : HolePunchInitiate).

Definition event_type (e : MeshEvent) : string :=
  match e with
  | EvJoined _ => "peer_joined"
  | EvHeartbeat _ => "peer_heartbeat"
  | EvLeft _ => "peer_left"
  | EvHolePunch _ => "holepunch_initiate"
  end.

Definition PEER_SEGMENT : string := "platform.mesh.peers".

(** ** Wire objects ([http/api/dto.rs]) *)

Record PeerInfo := mkPeerInfo {
  pi_peer_id : string;
  pi_wg_public_key : string;
  pi_ula : string;
  pi_listen_endpoint : option string;
  pi_display_name : string;
  pi_network : string;
  pi_tags : list string;
  pi_hosted_app_ulas : list string;
  pi_joined_at_micros : Z;
  pi_kind : string;
  pi_parent : option string;
  pi_app_uuid : option string;
  pi_software_version : option string;
  pi_mesh_version : option string;
  pi_relay_only : bool;
  pi_connectivity : option string;
  pi_connectivity_age_ms : option Z;
}.
#[export] Instance PeerInfo_eq_dec : EqDecision PeerInfo.
Proof. solve_decision. Defined.

Definition default_kind : string := "peer".
Definition default_dataplane_healthy : bool := true.

Record RegisterRequest := mkRegisterRequest {
  rr_wg_public_key : string;
  rr_listen_endpoint : option string;
  rr_wg_listen_port : option Z;
  rr_display_name : string;
  rr_network : string;
  rr_tags : list string;
  rr_hosted_app_ulas : list string;
  rr_kind : string;
  rr_parent : option string;
  rr_app_uuid : option string;
  rr_requested_ula : option string;
  rr_software_version : option string;
  rr_mesh_version : option string;
  rr_relay_only : bool;
}.

Record RegisterResponse := mkRegisterResponse {
  rp_peer_id : string;
  rp_ula : string;
  rp_peers : list PeerInfo;
  rp_observed_ip : option string;
  rp_observed_endpoint : option string;
}.

Record PeerPathDto := mkPeerPathDto {
  pp_peer_id : string;
  pp_direct : bool;
  pp_last_rx_age_ms : Z;
  pp_last_handshake_direct : option bool;
  pp_last_handshake_age_ms : option Z;
  pp_handshake_rx_total : Z;
}.

Record NodeCommandDto := mkNodeCommandDto {
  command_id : string;
  verb : string;
  cmd_peer_id : string;
  nonce : string;
  issued_at : Z;
  expiry : Z;
  signature : string;
}.
#[export] Instance NodeCommandDto_eq_dec : EqDecision NodeCommandDto.
Proof. solve_decision. Defined.

Record HeartbeatRequest := mkHeartbeatRequest {
  hr_peer_id : string;
  hr_wg_listen_port : option Z;
  hr_hosted_app_ulas : list string;
  hr_software_version : option string;
  hr_mesh_version : option string;
  hr_relay_only : bool;
  hr_peer_paths : list PeerPathDto;
  hr_dataplane_healthy : bool;
  hr_executed_command_ids : list string;
}.

Record HeartbeatResponse := mkHeartbeatResponse {
  hp_peers : list PeerInfo;
  hp_observed_ip : option string;
  hp_observed_endpoint : option string;
  hp_pending_commands : list NodeCommandDto;
}.

Record DeregisterRequest := mkDeregisterRequest { dr_peer_id : string }.

Record TopologyMachine := mkTopologyMachine {
  tm_peer_id : string;
  tm_name : string;
  tm_ula : string;
  tm_tags : list string;
  tm_relay_only : bool;
  tm_software_version : option string;
  tm_mesh_version : option string;
  tm_connectivity : option string;
}.

Record TopologyEdge := mkTopologyEdge {
  te_from : string;
  te_to : string;
  te_direct : bool;
  te_age_ms : Z;
  te_last_handshake_direct : option bool;
  te_last_handshake_age_ms : option Z;
  te_handshake_rx_total : Z;
}.

Record TopologyResponse := mkTopologyResponse {
  tr_machines : list TopologyMachine;
  tr_edges : list TopologyEdge;
}.

(** ** Fan-out events ([http/sse.rs]) *)

Inductive PeerEvent :=
| Added (info : PeerInfo)
| Updated (info : PeerInfo)
| Removed (peer_id : string) (tags : list string)
| HolePunch (hp : HolePunchInitiate)
| Wake (rw : RelayWake).

Definition event_name (e : PeerEvent) : string :=
  match e with
  | Added _ => "peer_added"
  | Updated _ => "peer_updated"
  | Removed _ _ => "peer_removed"
  | HolePunch _ => "holepunch_initiate"
  | Wake _ => "relay_wake"
  end.

Definition holepunch_initiator (e : PeerEvent) : option string :=
  match e with HolePunch hp => Some (initiator_peer_id hp) | _ => None end.

Definition relay_wake_recipient (e : PeerEvent) : option string :=
  match e with Wake rw => Some (recipient_peer_id rw) | _ => None end.

Definition peer_tags_of (e : PeerEvent) : list string :=
  match e with
  | Added p | Updated p => pi_tags p
  | Removed _ tags => tags
  | HolePunch _ | Wake _ => []
  end.

(** ** Roster entries and errors ([roster/coordinator/mod.rs]) *)

Record PathEdge := mkPathEdge {
  direct : bool;
  last_rx_age_ms : Z;
  last_handshake_direct : option bool;
  last_handshake_age_ms : option Z;
  handshake_rx_total : Z;
}.
#[export] Instance PathEdge_eq_dec : EqDecision PathEdge.
Proof. solve_decision. Defined.

Record PeerEntry := mkPeerEntry {
  peer_id : Uuid;
  wg_public_key : list Z;
  ula : Ipv6Addr;
  peer_index : Z;
  listen_endpoint : option string;
  display_name : string;
  network : string;
  tags : list string;
  hosted_app_ulas : list string;
  joined_at_micros : Z;
  last_heartbeat : Z;
  observed_external : string;
  endpoint_is_reflexive : bool;
  kind : string;
  parent : option string;
  app_uuid : option string;
  software_version : option string;
  mesh_version : option string;
  relay_only : bool;
  paths : gmap Uuid PathEdge;
  dataplane_healthy : bool;
  pending_commands : list NodeCommandDto;
}.
#[export] Instance eta_PeerEntry : Eta PeerEntry := fun e =>
  mkPeerEntry (peer_id e) (wg_public_key e) (ula e) (peer_index e) (listen_endpoint e)
    (display_name e) (network e) (tags e) (hosted_app_ulas e) (joined_at_micros e)
    (last_heartbeat e) (observed_external e) (endpoint_is_reflexive e) (kind e) (parent e)
    (app_uuid e) (software_version e) (mesh_version e) (relay_only e) (paths e)
    (dataplane_healthy e) (pending_commands e).

Section Entry.
Context `{Externals}.

Definition to_info_with_connectivity (e : PeerEntry) (connectivity : option string)
    (connectivity_age_ms : option Z) : PeerInfo :=
  {| pi_peer_id := uuid_to_string (peer_id e);
     pi_wg_public_key := b64_encode (wg_public_key e);
     pi_ula := fmt_ipv6 (ula e);
     pi_listen_endpoint := listen_endpoint e;
     pi_display_name := display_name e;
     pi_network := network e;
     pi_tags := tags e;
     pi_hosted_app_ulas := hosted_app_ulas e;
     pi_joined_at_micros := joined_at_micros e;
     pi_kind := kind e;
     pi_parent := parent e;
     pi_app_uuid := app_uuid e;
     pi_software_version := software_version e;
     pi_mesh_version := mesh_version e;
     pi_relay_only := relay_only e;
     pi_connectivity := connectivity;
     pi_connectivity_age_ms := connectivity_age_ms |}.

Definition to_info (e : PeerEntry) : PeerInfo := to_info_with_connectivity e None None.

Definition to_joined_event (e : PeerEntry) : PeerJoined :=
  {| pj_peer_id := uuid_to_string (peer_id e);
     pj_wg_public_key := wg_public_key e;
     pj_ula := fmt_ipv6 (ula e);
     pj_listen_endpoint := default EmptyString (listen_endpoint e);
     pj_display_name := display_name e;
     pj_network := network e;
     pj_tags := tags e;
     pj_hosted_app_ulas := hosted_app_ulas e;
     pj_joined_at_micros := joined_at_micros e;
     pj_kind := kind e;
     pj_parent := parent e;
     pj_app_uuid := app_uuid e;
     pj_software_version := software_version e;
     pj_mesh_version := mesh_version e;
     pj_relay_only := relay_only e |}.
End Entry.

Inductive CoordinatorError :=
| InvalidPeerId (e : string)
| InvalidPubkey (len : Z)
| PubkeyDecode (e : string)
| InvalidRequestedUla (raw : string)
| Allocation
| UnknownPeer (id : Uuid)
| Unauthorized (reason : string)
| UlaConflict (ula : string)
| UlaNetworkMismatch (ula network : string).
#[export] Instance CoordinatorError_eq_dec : EqDecision CoordinatorError.
Proof. solve_decision. Defined.

Inductive RegisterOutcome := Created | Existed.
#[export] Instance RegisterOutcome_eq_dec : EqDecision RegisterOutcome.
Proof. solve_decision. Defined.

Definition decode_pubkey `{Externals} (s : string) : Result (list Z) CoordinatorError :=
  map_err PubkeyDecode (b64_decode s).

(** ** A concrete instance of the library functions

    It shows that the laws can hold and lets examples be evaluated; the texts
    are not those of the crates. *)
Module Concrete.
Fixpoint pos_to_string (p : positive) : string :=
  match p with
  | xH => EmptyString
  | xO p => String (ascii_of "0") (pos_to_string p)
  | xI p => String (ascii_of "1") (pos_to_string p)
  end.
Fixpoint pos_of_string (s : string) : positive :=
  match s with
  | EmptyString => xH
  | String c s => if bool_decide (c = ascii_of "0") then xO (pos_of_string s) else xI (pos_of_string s)
  end.
Definition uuid_text (u : Uuid) : string :=
  match u with N0 => "u" | Npos p => "u" +:+ String (ascii_of ":") (pos_to_string p) end.
Definition uuid_of_text (s : string) : Result Uuid string :=
  match strip_prefix "u" s with
  | Some EmptyString => Ok 0%N
  | Some (String _ r) => Ok (Npos (pos_of_string r))
  | None => Err "invalid uuid"
  end.
Definition bytes_text (b : list Z) : string :=
  String.string_of_list_ascii ((fun z => Ascii.ascii_of_N (Z.to_N z)) <$> b).

#[export] Instance externals : Externals := {|
  uuid_to_string := uuid_text;
  uuid_parse := uuid_of_text;
  b64_encode := bytes_text;
  b64_decode s := Ok (bytes_of_string s);
|}.

Lemma pos_string_roundtrip p : pos_of_string (pos_to_string p) = p.
Proof. induction p as [p IH|p IH|]; simpl; [by rewrite IH..|done]. Qed.

Lemma bytes_roundtrip b : Forall is_u8 b -> bytes_of_string (bytes_text b) = b.
Proof.
  unfold bytes_of_string, bytes_text. rewrite String.list_ascii_of_string_of_list_ascii.
  induction b as [|z b IH]; [done|]. intros [Hz Hb]%Forall_cons. rewrite !fmap_cons. f_equal; [|by apply IH].
  unfold is_u8, u8_max in Hz. rewrite Ascii.N_ascii_embedding by lia. lia.
Qed.

#[export] Instance external_laws : ExternalLaws.
Proof.
  split.
  - intros [|p]; [done|]. simpl. unfold uuid_of_text. simpl. by rewrite pos_string_roundtrip.
  - intros b Hb. simpl. by rewrite bytes_roundtrip.
Qed.
End Concrete.
