(* ===== verification/Reflexive.v ===== *)
(** * Reflexive endpoints ([nat/reflexive.rs])

    Which endpoint the coordinator stores for a peer, from what the peer
    reported and from the source address of its request. *)

From S2P Require Import Prelude NetAddr.

Open Scope Z_scope.

Definition is_unreachable_v4 (v4 : Ipv4Addr) : bool :=
  v4_is_loopback v4 || v4_is_private v4 || v4_is_link_local v4 || v4_is_unspecified v4
  || ((oct0 v4 =? 100) && (Z.land (oct1 v4) 192 =? 64)).

Definition is_unreachable_v6 (v6 : Ipv6Addr) : bool :=
  v6_is_loopback v6 || v6_is_unspecified v6 || v6_is_unique_local v6
  || (Z.land (seg0 v6) 0xffc0 =? 0xfe80).

Definition is_unreachable_for_peers (ip : IpAddr) : bool :=
  match ip with V4 v4 => is_unreachable_v4 v4 | V6 v6 => is_unreachable_v6 v6 end.

Definition is_public (ip : IpAddr) : bool := negb (is_unreachable_for_peers ip).

Record ResolvedEndpoint := mkResolvedEndpoint { endpoint : option string; reflexive : bool }.
#[export] Instance ResolvedEndpoint_eq_dec : EqDecision ResolvedEndpoint.
Proof. solve_decision. Defined.

Definition reflexive_endpoint (ip : IpAddr) (wg_port : Z) : string :=
  fmt_sock (sock_new ip wg_port).

(** [Option::filter(|s| !s.is_empty())] *)
Definition nonempty (s : option string) : option string :=
  match s with
  | Some r => if bool_decide (r = EmptyString) then None else Some r
  | None => None
  end.

Definition resolve_listen_endpoint (self_reported : option string) (observed : option SocketAddr)
    (wg_listen_port : option Z) (relay_only : bool) : ResolvedEndpoint :=
  if relay_only then mkResolvedEndpoint None false
  else
    let self_reported := nonempty self_reported in
    match self_reported with
    | Some reported => mkResolvedEndpoint (Some reported) false
    | None =>
        match observed, wg_listen_port with
        | Some obs, Some port =>
            if is_public (sock_ip obs) then
              mkResolvedEndpoint (Some (reflexive_endpoint (sock_ip obs) port)) true
            else mkResolvedEndpoint self_reported false
        | _, _ => mkResolvedEndpoint self_reported false
        end
    end.

Definition is_sticky_explicit_endpoint (_endpoint : string) : bool := true.

(** ** Lemmas *)

Lemma nonempty_Some s r : nonempty s = Some r <-> s = Some r /\ r <> EmptyString.
Proof.
  unfold nonempty. destruct s as [t|]; [|by split; [|intros [? _]]].
  case_bool_decide; split; try done.
  - intros [[= ->] ?]. done.
  - by intros [= ->].
  - by intros [[= ->] _].
Qed.

Lemma nonempty_None s : nonempty s = None <-> s = None \/ s = Some EmptyString.
Proof.
  unfold nonempty. destruct s as [t|]; [|split; auto].
  case_bool_decide; subst; split; auto; intros [|[= ->]]; done.
Qed.

Lemma resolve_reflexive s o p ro :
  reflexive (resolve_listen_endpoint s o p ro) = true ->
  ro = false /\ nonempty s = None /\
  exists obs port, o = Some obs /\ p = Some port /\ is_public (sock_ip obs) = true /\
    endpoint (resolve_listen_endpoint s o p ro) = Some (reflexive_endpoint (sock_ip obs) port).
Proof.
  unfold resolve_listen_endpoint. destruct ro; [done|]. simpl.
  destruct (nonempty s) as [r|]; [done|]. destruct o as [obs|]; [|done].
  destruct p as [port|]; [|done]. destruct (is_public (sock_ip obs)) eqn:E; [|done].
  intros _. split_and!; [done..|]. by exists obs, port.
Qed.

Lemma resolve_relay_only s o p : resolve_listen_endpoint s o p true = mkResolvedEndpoint None false.
Proof. done. Qed.

(** A high-bits mask selects an interval: [w] bits above bit [n]. *)
Lemma land_mask_range o k w n :
  0 <= w -> 0 <= n -> 0 <= o < 2 ^ (w + n) -> 0 <= k ->
  (Z.land o (Z.shiftl (Z.ones w) n) = Z.shiftl k n <-> k * 2 ^ n <= o < (k + 1) * 2 ^ n).
Proof.
  intros Hw Hn Ho Hk.
  assert (0 < 2 ^ n) as Hp by (apply Z.pow_pos_nonneg; lia).
  assert (Z.land o (Z.shiftl (Z.ones w) n) = Z.shiftl (o / 2 ^ n) n) as ->.
  { rewrite <- Z.shiftr_div_pow2 by lia.
    apply Z.bits_inj'. intros i Hi. rewrite Z.land_spec.
    destruct (decide (i < n)).
    - rewrite !Z.shiftl_spec_low by lia. by rewrite andb_false_r.
    - rewrite !Z.shiftl_spec, Z.shiftr_spec by lia. replace (i - n + n) with i by lia.
      destruct (decide (i - n < w)).
      + by rewrite Z.ones_spec_low, andb_true_r by lia.
      + rewrite Z.ones_spec_high by lia. rewrite andb_false_r.
        destruct (decide (o = 0)) as [->|]; [by rewrite Z.bits_0|].
        symmetry. apply Z.bits_above_log2; [lia|].
        apply Z.log2_lt_pow2; [lia|].
        apply Z.lt_le_trans with (2 ^ (w + n)); [lia|]. apply Z.pow_le_mono_r; lia. }
  rewrite !Z.shiftl_mul_pow2 by lia. split.
  - intros He. apply Z.mul_cancel_r in He; [|lia].
    pose proof (Z.div_mod o (2 ^ n)). pose proof (Z.mod_pos_bound o (2 ^ n)). nia.
  - intros Hr. f_equal. symmetry. apply Z.div_unique with (o - k * 2 ^ n); nia.
Qed.

(** ** Properties *)

(** An IPv4 address as a 32-bit number, and a CIDR range. *)
Definition u32_of (a : Ipv4Addr) : Z := ((oct0 a * 256 + oct1 a) * 256 + oct2 a) * 256 + oct3 a.
Definition in_cidr (a : Ipv4Addr) (base prefix_len : Z) : Prop :=
  base <= u32_of a < base + 2 ^ (32 - prefix_len).

(** [is_public] is exactly the complement of the documented ranges: for IPv4
    0.0.0.0/32, 10/8, 100.64/10, 127/8, 169.254/16, 172.16/12 and 192.168/16, for
    IPv6 the unspecified and loopback addresses, fc00::/7 and fe80::/10. *)
Theorem is_public_ranges :
  (forall a, wf_ipv4 a ->
    is_public (V4 a) = false <->
    in_cidr a 0 32 \/ in_cidr a (10 * 2 ^ 24) 8 \/ in_cidr a (100 * 2 ^ 24 + 64 * 2 ^ 16) 10 \/
    in_cidr a (127 * 2 ^ 24) 8 \/ in_cidr a (169 * 2 ^ 24 + 254 * 2 ^ 16) 16 \/
    in_cidr a (172 * 2 ^ 24 + 16 * 2 ^ 16) 12 \/ in_cidr a (192 * 2 ^ 24 + 168 * 2 ^ 16) 16) /\
  (forall a, wf_ipv6 a ->
    is_public (V6 a) = false <->
    a = Ipv6 0 0 0 0 0 0 0 0 \/ a = Ipv6 0 0 0 0 0 0 0 1 \/
    0xfc00 <= seg0 a <= 0xfdff \/ 0xfe80 <= seg0 a <= 0xfebf).
Proof.
  split.
  - intros [a b c d] Hw. unfold wf_ipv4, octets4 in Hw. simpl in Hw.
    repeat match goal with H : Forall _ (_ :: _) |- _ => inversion_clear H end.
    unfold is_u8, u8_max in *.
    unfold is_public, is_unreachable_for_peers, is_unreachable_v4, in_cidr, u32_of,
      v4_is_loopback, v4_is_private, v4_is_link_local, v4_is_unspecified; simpl.
    pose proof (land_mask_range b 1 2 6 ltac:(lia) ltac:(lia) ltac:(simpl; lia) ltac:(lia)) as Hm.
    change (Z.shiftl (Z.ones 2) 6) with 192 in Hm. change (Z.shiftl 1 6) with 64 in Hm.
    change (2 ^ 6) with 64 in Hm.
    destruct (Z.land b 192 =? 64) eqn:Hl; [apply Z.eqb_eq in Hl|apply Z.eqb_neq in Hl];
      (destruct (decide (Ipv4 a b c d = Ipv4 0 0 0 0)) as [Hz|Hz];
       [rewrite bool_decide_true by done; injection Hz as -> -> -> ->; lia
       |rewrite bool_decide_false by done;
        assert (~ (a = 0 /\ b = 0 /\ c = 0 /\ d = 0)) by (intros (-> & -> & -> & ->); done); lia]).
  - intros a Hw.
    assert (0 <= seg0 a < 65536) as Hs.
    { destruct a. unfold wf_ipv6 in Hw. apply Forall_cons in Hw as [Hw _].
      unfold is_u16, u16_max in Hw. simpl in *. lia. }
    unfold is_public, is_unreachable_for_peers, is_unreachable_v6, v6_is_loopback,
      v6_is_unspecified, v6_is_unique_local, v6_unspecified.
    pose proof (land_mask_range (seg0 a) 126 7 9 ltac:(lia) ltac:(lia) ltac:(simpl; lia) ltac:(lia)) as H7.
    pose proof (land_mask_range (seg0 a) 1018 10 6 ltac:(lia) ltac:(lia) ltac:(simpl; lia) ltac:(lia)) as H10.
    change (Z.shiftl (Z.ones 7) 9) with 0xfe00 in H7. change (Z.shiftl 126 9) with 0xfc00 in H7.
    change (Z.shiftl (Z.ones 10) 6) with 0xffc0 in H10. change (Z.shiftl 1018 6) with 0xfe80 in H10.
    change (2 ^ 9) with 512 in H7. change (2 ^ 6) with 64 in H10.
    repeat case_bool_decide; simpl; [tauto..|].
    destruct (Z.land (seg0 a) 0xfe00 =? 0xfc00) eqn:E1, (Z.land (seg0 a) 0xffc0 =? 0xfe80) eqn:E2;
      simpl; rewrite ?Z.eqb_eq, ?Z.eqb_neq in *; lia || (split; [done|intros [|[|]]; try done; lia]).
Qed.

(** The decision table of [resolve_listen_endpoint], row by row: a relay-only peer
    is never given an endpoint, an explicit one is kept verbatim, and the result
    is marked reflexive exactly when nothing explicit was reported and both a
    public source address and a port are known; it is then that address with
    that port. *)
Theorem resolve_listen_endpoint_table s o p ro :
  let r := resolve_listen_endpoint s o p ro in
  (ro = true -> r = mkResolvedEndpoint None false) /\
  (forall e, ro = false -> s = Some e -> e <> EmptyString -> r = mkResolvedEndpoint (Some e) false) /\
  (reflexive r = true <->
     ro = false /\ (s = None \/ s = Some EmptyString) /\
     exists obs port, o = Some obs /\ p = Some port /\ is_public (sock_ip obs) = true) /\
  (reflexive r = true -> forall obs port, o = Some obs -> p = Some port ->
     endpoint r = Some (fmt_sock (sock_new (sock_ip obs) port))) /\
  (endpoint r = None <-> reflexive r = false /\ (ro = true \/ s = None \/ s = Some EmptyString)).
Proof.
  intros r. subst r. split_and!.
  - by intros ->.
  - intros e -> -> He. unfold resolve_listen_endpoint.
    by rewrite (proj2 (nonempty_Some (Some e) e)).
  - rewrite <- nonempty_None. split.
    + intros (? & ? & obs & port & ? & ? & ? & _)%resolve_reflexive. by eauto 10.
    + intros (-> & Hs & obs & port & -> & -> & Hp). unfold resolve_listen_endpoint.
      by rewrite Hs, Hp.
  - intros (_ & _ & obs & port & -> & -> & _ & He)%resolve_reflexive ?? [= <-] [= <-]. by rewrite He.
  - rewrite <- nonempty_None. unfold resolve_listen_endpoint. destruct ro; [simpl; tauto|].
    destruct (nonempty s) as [e|]; [simpl; split; [done|intros [_ [|]]; done]|].
    destruct o as [obs|], p as [port|]; simpl; try tauto.
    destruct (is_public (sock_ip obs)); simpl; tauto || (split; [done|by intros [? _]]).
Qed.
