(* ===== verification/HolePunch.v ===== *)
(** * Hole-punch pacing ([nat/holepunch.rs])

    Which pairs of peers are told to punch, and how often: an escalating cooldown
    per pair, and a budget for pairs seen for the first time. *)


From S2P Require Import Prelude NetAddr Types.

Open Scope Z_scope.

(** ** Pacing *)

Definition PUNCH_REEMIT_COOLDOWN_MICROS : Z := 15000000.
Definition PUNCH_PAIR_TTL_MICROS : Z := 300000000.
Definition PUNCH_REEMIT_COOLDOWN_CAP_MICROS : Z := 300000000.
Definition MAX_NEW_EMITS_PER_WINDOW : Z := 8.
Definition COLD_START_WINDOW_MICROS : Z := 1000000.

Definition reemit_cooldown (streak : Z) : Z :=
  Z.min (default i64_max (i64_checked_shl PUNCH_REEMIT_COOLDOWN_MICROS streak))
    PUNCH_REEMIT_COOLDOWN_CAP_MICROS.

Definition PunchPair : Type := Uuid * Uuid.

Definition canonical_pair (a b : Uuid) : PunchPair :=
  if bool_decide (a <= b)%N then (a, b) else (b, a).

Record PunchPeer := mkPunchPeer { pp_id : Uuid; dial_endpoint : string }.

Record PunchState := mkPunchState { last_emit : Z; streak : Z }.
#[export] Instance PunchState_eq_dec : EqDecision PunchState.
Proof. solve_decision. Defined.

(** [pairs], and the two atomics of [cold_start]. *)
Record PunchTracker := mkPunchTracker {
  pairs : gmap PunchPair PunchState;
  window_start : Z;
  count : Z;
}.
#[export] Instance eta_PunchTracker : Eta PunchTracker :=
  fun t => mkPunchTracker (pairs t) (window_start t) (count t).

Definition tracker_new : PunchTracker := mkPunchTracker ∅ 0 0.

Definition take_cold_start_token (t : PunchTracker) (now_micros : Z) : PunchTracker * bool :=
  let t :=
    if COLD_START_WINDOW_MICROS <=? i64_saturating_sub now_micros (window_start t)
    then t <| window_start := now_micros |> <| count := 0 |>
    else t in
  let before := count t in
  (t <| count := u32_wrapping_add before 1 |>, before <? MAX_NEW_EMITS_PER_WINDOW).

(** [now_micros - last_emit] is an [i64] subtraction, which wraps in a release
    build. *)
Definition claim (t : PunchTracker) (pair : PunchPair) (now_micros : Z) : PunchTracker * bool :=
  match pairs t !! pair with
  | Some st =>
      if reemit_cooldown (streak st) <=? wrap_i64 (now_micros - last_emit st) then
        (t <| pairs := <[pair := mkPunchState now_micros (u32_saturating_add (streak st) 1)]> (pairs t) |>,
         true)
      else (t, false)
  | None =>
      let '(t, token) := take_cold_start_token t now_micros in
      if negb token then (t, false)
      else (t <| pairs := <[pair := mkPunchState now_micros 0]> (pairs t) |>, true)
  end.

Definition note_confirmed (t : PunchTracker) (pair : PunchPair) : PunchTracker :=
  t <| pairs := alter (fun st => mkPunchState (last_emit st) 0) pair (pairs t) |>.

Definition punch_contains (t : PunchTracker) (pair : PunchPair) : bool :=
  bool_decide (is_Some (pairs t !! pair)).

Definition punch_clear (t : PunchTracker) (pair : PunchPair) : PunchTracker * bool :=
  (t <| pairs := delete pair (pairs t) |>, punch_contains t pair).

Definition pair_mentions (id : Uuid) (p : PunchPair) : Prop := p.1 = id \/ p.2 = id.
#[export] Instance pair_mentions_dec id p : Decision (pair_mentions id p).
Proof. unfold pair_mentions. apply _. Defined.

Definition punch_remove_peer (t : PunchTracker) (id : Uuid) : PunchTracker * Z :=
  let kept := filter (fun kv => ~ pair_mentions id kv.1) (pairs t) in
  (t <| pairs := kept |>, Z.of_nat (size (pairs t)) - Z.of_nat (size kept)).

Definition reap_older_than (t : PunchTracker) (cutoff_micros : Z) : PunchTracker * Z :=
  let kept := filter (fun kv => cutoff_micros <= last_emit kv.2) (pairs t) in
  (t <| pairs := kept |>, Z.of_nat (size (pairs t)) - Z.of_nat (size kept)).

Section Emit.
Context `{Externals}.

(** [try_emit_pair] on the tracker: the events published and broadcast, in
    order; [None] when no work was done. *)
Definition try_emit_pair (t : PunchTracker) (a b : PunchPeer) (now_micros : Z)
    : PunchTracker * option (HolePunchInitiate * HolePunchInitiate) :=
  if bool_decide (pp_id a = pp_id b) then (t, None)
  else if bool_decide (dial_endpoint a = EmptyString) || bool_decide (dial_endpoint b = EmptyString)
  then (t, None)
  else
    let '(t, claimed) := claim t (canonical_pair (pp_id a) (pp_id b)) now_micros in
    if negb claimed then (t, None)
    else
      let ev_a :=
        {| initiator_peer_id := uuid_to_string (pp_id a);
           target_peer_id := uuid_to_string (pp_id b);
           target_external_endpoint := dial_endpoint b;
           hp_timestamp_micros := now_micros |} in
      let ev_b :=
        {| initiator_peer_id := uuid_to_string (pp_id b);
           target_peer_id := uuid_to_string (pp_id a);
           target_external_endpoint := dial_endpoint a;
           hp_timestamp_micros := now_micros |} in
      (t, Some (ev_a, ev_b)).
End Emit.

(** ** Lemmas *)

Lemma canonical_pair_comm a b : canonical_pair a b = canonical_pair b a.
Proof.
  unfold canonical_pair. repeat case_bool_decide; try done; [|lia].
  by replace a with b by lia.
Qed.

Lemma canonical_pair_inj a b c d :
  canonical_pair a b = canonical_pair c d -> (a = c /\ b = d) \/ (a = d /\ b = c).
Proof. unfold canonical_pair. repeat case_bool_decide; intros [=]; subst; auto. Qed.

Lemma canonical_pair_mentions id a b : pair_mentions id (canonical_pair a b) <-> a = id \/ b = id.
Proof. unfold canonical_pair, pair_mentions. case_bool_decide; simpl; tauto. Qed.

Lemma wrap_i64_range z : is_i64 (wrap_i64 z).
Proof.
  unfold wrap_i64, is_i64, i64_min, i64_max.
  pose proof (Z.mod_pos_bound (z + 2 ^ 63) (2 ^ 64) ltac:(lia)). lia.
Qed.

(** Up to a streak of 39 no bit is shifted out, so the cooldown is the capped
    exponential. *)
Lemma reemit_cooldown_eq s :
  0 <= s <= 39 ->
  reemit_cooldown s = Z.min (PUNCH_REEMIT_COOLDOWN_MICROS * 2 ^ s) PUNCH_REEMIT_COOLDOWN_CAP_MICROS.
Proof.
  intros Hs. unfold reemit_cooldown, i64_checked_shl.
  replace (s <? 64) with true by lia. simpl. f_equal.
  rewrite Z.shiftl_mul_pow2 by lia. apply wrap_i64_id.
  assert (0 < 2 ^ s) by (apply Z.pow_pos_nonneg; lia).
  assert (2 ^ s <= 2 ^ 39) by (apply Z.pow_le_mono_r; lia).
  change (2 ^ 39) with 549755813888 in *.
  unfold is_i64, i64_min, i64_max, PUNCH_REEMIT_COOLDOWN_MICROS in *. lia.
Qed.

Lemma reemit_cooldown_bounds s :
  0 <= s <= 39 -> PUNCH_REEMIT_COOLDOWN_MICROS <= reemit_cooldown s <= PUNCH_REEMIT_COOLDOWN_CAP_MICROS.
Proof.
  intros Hs. rewrite reemit_cooldown_eq by done.
  assert (1 <= 2 ^ s) by (change 1 with (2 ^ 0); apply Z.pow_le_mono_r; lia).
  unfold PUNCH_REEMIT_COOLDOWN_CAP_MICROS, PUNCH_REEMIT_COOLDOWN_MICROS in *. lia.
Qed.

Lemma reemit_cooldown_mono s s' : 0 <= s <= s' -> s' <= 39 -> reemit_cooldown s <= reemit_cooldown s'.
Proof.
  intros Hs Hs'. rewrite !reemit_cooldown_eq by lia.
  assert (2 ^ s <= 2 ^ s') by (apply Z.pow_le_mono_r; lia).
  unfold PUNCH_REEMIT_COOLDOWN_MICROS. lia.
Qed.

Lemma reemit_cooldown_cap s : reemit_cooldown s <= PUNCH_REEMIT_COOLDOWN_CAP_MICROS.
Proof. unfold reemit_cooldown. lia. Qed.

(** From a streak of 40 on the shift loses bits: the cooldown stops being the
    capped exponential, and can vanish altogether. *)
Lemma reemit_cooldown_lost :
  reemit_cooldown 40 < 0 /\ reemit_cooldown 58 = 0 /\ reemit_cooldown 63 = 0 /\
  reemit_cooldown 64 = PUNCH_REEMIT_COOLDOWN_CAP_MICROS.
Proof. by vm_compute. Qed.

(** A wall clock that the program can see: 0 to [2^62] microseconds. *)
Definition clock (z : Z) : Prop := 0 <= z < 2 ^ 62.

Lemma wrap_clock a b : clock a -> clock b -> wrap_i64 (a - b) = a - b.
Proof.
  unfold clock. change (2 ^ 62) with 4611686018427387904. intros Ha Hb.
  apply wrap_i64_id. unfold is_i64, i64_min, i64_max. lia.
Qed.

Lemma take_token_pairs t now : pairs (fst (take_cold_start_token t now)) = pairs t.
Proof. unfold take_cold_start_token. by case_match. Qed.

Lemma claim_tracked t p now st :
  pairs t !! p = Some st -> clock now -> clock (last_emit st) ->
  claim t p now =
    if reemit_cooldown (streak st) <=? now - last_emit st then
      (t <| pairs := <[p := mkPunchState now (u32_saturating_add (streak st) 1)]> (pairs t) |>, true)
    else (t, false).
Proof. intros Hp H1 H2. unfold claim. by rewrite Hp, wrap_clock. Qed.

Lemma claim_fresh t p now :
  pairs t !! p = None ->
  snd (claim t p now) = snd (take_cold_start_token t now) /\
  pairs (fst (claim t p now))
  = (if snd (claim t p now) then <[p := mkPunchState now 0]> (pairs t) else pairs t).
Proof.
  intros Hp. unfold claim. rewrite Hp. pose proof (take_token_pairs t now) as Ht.
  destruct (take_cold_start_token t now) as [t' []]; simpl in *; by rewrite Ht.
Qed.

(** ** The schedule of one pair *)

(** Attempts to claim one pair at the given times: the times granted. *)
Fixpoint granted (t : PunchTracker) (p : PunchPair) (times : list Z) : list Z :=
  match times with
  | [] => []
  | now :: times =>
      let '(t, ok) := claim t p now in
      if ok then now :: granted t p times else granted t p times
  end.

(** Successive times are at least the escalating cooldown apart, from [streak]
    on. *)
Fixpoint spaced (streak : Z) (last : Z) (gs : list Z) : Prop :=
  match gs with
  | [] => True
  | g :: gs =>
      (streak <= 39 -> Z.min (PUNCH_REEMIT_COOLDOWN_MICROS * 2 ^ streak)
                         PUNCH_REEMIT_COOLDOWN_CAP_MICROS <= g - last)
      /\ spaced (streak + 1) g gs
  end.

Lemma granted_spaced times t p st :
  pairs t !! p = Some st -> clock (last_emit st) -> Forall clock times ->
  0 <= streak st -> streak st + Z.of_nat (length times) < u32_max ->
  spaced (streak st) (last_emit st) (granted t p times).
Proof.
  revert t st. induction times as [|now times IH]; intros t st Hp Hl Hc Hs Hb; [done|].
  apply Forall_cons in Hc as [Hn Hc]. simpl in Hb.
  cbn [granted]. rewrite (claim_tracked t p now st Hp Hn Hl).
  destruct (reemit_cooldown (streak st) <=? now - last_emit st) eqn:E; [|apply IH; [done..|lia]].
  cbn [spaced]. split.
  - intros Hs'. rewrite <- reemit_cooldown_eq by lia. lia.
  - assert (u32_saturating_add (streak st) 1 = streak st + 1) as Hu
      by (unfold u32_saturating_add, u32_max in *; lia).
    rewrite Hu. eapply (IH _ (mkPunchState now (streak st + 1))); simpl;
      [apply lookup_insert_eq|done|done|lia|lia].
Qed.

(** ** The cold-start budget *)

(** How many of the attempts are granted to a pair that was not tracked. *)
Fixpoint new_grants (t : PunchTracker) (attempts : list (PunchPair * Z)) : Z :=
  match attempts with
  | [] => 0
  | (p, now) :: attempts =>
      let '(t', ok) := claim t p now in
      (if ok && bool_decide (pairs t !! p = None) then 1 else 0) + new_grants t' attempts
  end.

Lemma token_same_window t now :
  i64_saturating_sub now (window_start t) < COLD_START_WINDOW_MICROS ->
  0 <= count t < u32_max ->
  take_cold_start_token t now = (t <| count := count t + 1 |>, count t <? MAX_NEW_EMITS_PER_WINDOW).
Proof.
  intros Hw Hc. unfold take_cold_start_token.
  replace (COLD_START_WINDOW_MICROS <=? i64_saturating_sub now (window_start t)) with false by lia.
  unfold u32_wrapping_add. rewrite Z.mod_small; [done|]. unfold u32_max in Hc.
  change (2 ^ 32) with 4294967296. lia.
Qed.

Lemma token_new_window t now :
  COLD_START_WINDOW_MICROS <= i64_saturating_sub now (window_start t) ->
  take_cold_start_token t now = (mkPunchTracker (pairs t) now 1, true).
Proof.
  intros Hw. unfold take_cold_start_token.
  by replace (COLD_START_WINDOW_MICROS <=? i64_saturating_sub now (window_start t)) with true by lia.
Qed.

Lemma saturating_sub_clock a b : clock a -> clock b -> i64_saturating_sub a b = a - b.
Proof.
  unfold clock, i64_saturating_sub, clamp, i64_min, i64_max.
  change (2 ^ 62) with 4611686018427387904. lia.
Qed.

(** A claim leaves the budget alone, or takes one token from it. *)
Lemma claim_cases t p now :
  let '(t', ok) := claim t p now in
  (is_Some (pairs t !! p) /\ window_start t' = window_start t /\ count t' = count t)
  \/ (pairs t !! p = None /\ ok = snd (take_cold_start_token t now) /\
      window_start t' = window_start (fst (take_cold_start_token t now)) /\
      count t' = count (fst (take_cold_start_token t now))).
Proof.
  unfold claim. destruct (pairs t !! p) as [st|] eqn:Hp.
  - destruct (reemit_cooldown (streak st) <=? _); left; eauto.
  - destruct (take_cold_start_token t now) as [t' []]; right; by split_and!.
Qed.

Lemma new_grants_same_window attempts t :
  Forall (fun a => i64_saturating_sub a.2 (window_start t) < COLD_START_WINDOW_MICROS) attempts ->
  0 <= count t -> count t + Z.of_nat (length attempts) < u32_max ->
  new_grants t attempts <= Z.max 0 (MAX_NEW_EMITS_PER_WINDOW - count t).
Proof.
  revert t. induction attempts as [|[p now] attempts IH]; intros t Hf Hc Hb; [simpl; lia|].
  apply Forall_cons in Hf as [Hn Hf]. cbn [new_grants]. simpl in Hb, Hn.
  pose proof (claim_cases t p now) as Hcases. destruct (claim t p now) as [t' ok].
  destruct Hcases as [([st Hs] & Hw & Hcnt)|(Hs & Hok & Hw & Hcnt)].
  - rewrite bool_decide_false by (by rewrite Hs). rewrite andb_false_r.
    rewrite <- Hw in Hf. rewrite <- Hcnt in *. specialize (IH t' Hf Hc). lia.
  - rewrite token_same_window in Hok, Hw, Hcnt by (done || lia). simpl in *.
    rewrite <- Hw in Hf. specialize (IH t' Hf). rewrite Hcnt in IH.
    case_match; unfold MAX_NEW_EMITS_PER_WINDOW in *; lia.
Qed.

(** ** Properties *)

(** Attempts at any times to claim a pair that is not tracked, with no
    confirmation in between, are granted on an escalating schedule: from the
    first grant on, the grant number [k + 1] is at least
    [min (15 s * 2^k, 5 min)] after grant number [k], as long as [k <= 39]. *)
Theorem claim_schedule t p times :
  pairs t !! p = None -> Forall clock times ->
  Z.of_nat (length times) < u32_max ->
  match granted t p times with [] => True | g :: gs => spaced 0 g gs end.
Proof.
  intros Hp Hc Hb. revert t Hp. induction times as [|now times IH]; intros t Hp; [done|].
  apply Forall_cons in Hc as [Hn Hc]. simpl in Hb. cbn [granted].
  destruct (claim_fresh t p now Hp) as [_ Hps].
  destruct (claim t p now) as [t' []]; simpl in Hps.
  - apply (granted_spaced times t' p (mkPunchState now 0));
      [by rewrite Hps, lookup_insert_eq|done|done|done|simpl; lia].
  - apply IH; [done|lia|by rewrite Hps].
Qed.

Lemma claim_schedule_witness :
  let s := PUNCH_REEMIT_COOLDOWN_MICROS in
  granted tracker_new (1%N, 2%N) [0; 1; s; s + 1; 3 * s - 1; 3 * s; 7 * s] = [0; s; 3 * s; 7 * s] /\
  spaced 0 0 [s; 3 * s; 7 * s].
Proof.
  split; [vm_compute; reflexivity|].
  apply (claim_schedule tracker_new (1%N, 2%N) [0; 15000000; 45000000; 105000000]);
    [reflexivity| |reflexivity].
  repeat (apply Forall_cons; split; [by unfold clock|]). by apply Forall_nil.
Defined.

(** Escalation never starves a pair: whatever the streak, an attempt made at least
    [PUNCH_REEMIT_COOLDOWN_CAP_MICROS] after the last emit of a tracked pair is
    granted, and a confirmed pair is granted again after the base cooldown. *)
Theorem claim_never_starves t p now st :
  pairs t !! p = Some st -> clock now -> clock (last_emit st) ->
  (PUNCH_REEMIT_COOLDOWN_CAP_MICROS <= now - last_emit st -> snd (claim t p now) = true) /\
  (snd (claim (note_confirmed t p) p now) = true <-> PUNCH_REEMIT_COOLDOWN_MICROS <= now - last_emit st).
Proof.
  intros Hp Hn Hl. split.
  - intros Hc. rewrite (claim_tracked t p now st) by done.
    pose proof (reemit_cooldown_cap (streak st)). case_match; [done|lia].
  - assert (pairs (note_confirmed t p) !! p = Some (mkPunchState (last_emit st) 0)) as Hp'.
    { unfold note_confirmed; simpl. by rewrite lookup_alter_eq, Hp. }
    rewrite (claim_tracked _ p now _ Hp') by done. simpl.
    change (reemit_cooldown 0) with PUNCH_REEMIT_COOLDOWN_MICROS. case_match; simpl; split; (done || lia).
Qed.

Lemma claim_never_starves_witness :
  let t := tracker_new <| pairs := {[ (1%N, 2%N) := mkPunchState 7 50 ]} |> in
  snd (claim t (1%N, 2%N) 300000007) = true.
Proof.
  intros t.
  refine (proj1 (claim_never_starves t (1%N, 2%N) 300000007 (mkPunchState 7 50) _ _ _) _);
    [reflexivity|done|done|done].
Defined.

(** The cold-start budget bounds the burst of first emits: in any run of claim
    attempts whose times span less than one window, in order, at most two
    windows' worth (16) are granted to pairs that were not tracked, however many
    pairs there are. *)
Theorem cold_start_burst_bounded t attempts start :
  Forall (fun a => clock a.2 /\ start <= a.2 < start + COLD_START_WINDOW_MICROS) attempts ->
  clock start -> clock (window_start t) ->
  0 <= count t -> count t + Z.of_nat (length attempts) < u32_max ->
  new_grants t attempts <= 2 * MAX_NEW_EMITS_PER_WINDOW.
Proof.
  assert (forall attempts t, 0 <= count t ->
    Forall (fun a => clock a.2 /\ start <= a.2 < start + COLD_START_WINDOW_MICROS) attempts ->
    clock start -> clock (window_start t) -> count t + Z.of_nat (length attempts) < u32_max ->
    new_grants t attempts <= Z.max 0 (MAX_NEW_EMITS_PER_WINDOW - count t) + MAX_NEW_EMITS_PER_WINDOW) as Hgen.
  2: { intros Hf Hs Hw Hc Hb. specialize (Hgen attempts t Hc Hf Hs Hw Hb).
       unfold MAX_NEW_EMITS_PER_WINDOW in *. lia. }
  clear t attempts. induction attempts as [|[p now] attempts IH]; intros t Hc Hf Hs Hw Hb.
  { simpl. unfold MAX_NEW_EMITS_PER_WINDOW. lia. }
  apply Forall_cons in Hf as [[Hn Hr] Hf]. cbn [new_grants]. simpl in Hb, Hn, Hr.
  pose proof (claim_cases t p now) as Hcases. destruct (claim t p now) as [t' ok].
  destruct Hcases as [([st Hst] & Hw' & Hcnt)|(Hst & Hok & Hw' & Hcnt)].
  - rewrite bool_decide_false by (by rewrite Hst). rewrite andb_false_r.
    rewrite <- Hw' in Hw. rewrite <- Hcnt in *. specialize (IH t' Hc Hf Hs Hw). lia.
  - destruct (decide (COLD_START_WINDOW_MICROS <= i64_saturating_sub now (window_start t))) as [Hd|Hd].
    + rewrite token_new_window in Hok, Hw', Hcnt by done. simpl in *. subst ok.
      pose proof (new_grants_same_window attempts t') as Hsame.
      rewrite Hw', Hcnt in Hsame. rewrite bool_decide_true by done. simpl.
      assert (new_grants t' attempts <= 7); [|unfold MAX_NEW_EMITS_PER_WINDOW; lia].
      etrans; [apply Hsame; [|lia|lia]|unfold MAX_NEW_EMITS_PER_WINDOW; lia].
      eapply Forall_impl; [exact Hf|]. intros [q m] [Hm Hmr]; simpl in *.
      rewrite saturating_sub_clock by done. lia.
    + rewrite token_same_window in Hok, Hw', Hcnt by lia. simpl in *.
      rewrite <- Hw' in Hw. specialize (IH t'). rewrite Hcnt in IH.
      specialize (IH ltac:(lia) Hf Hs Hw ltac:(lia)).
      case_match; unfold MAX_NEW_EMITS_PER_WINDOW in *; lia.
Qed.

Lemma cold_start_burst_bounded_witness :
  let attempts := (fun i => ((0%N, N.of_nat i), 5000000)) <$> seq 1 40 in
  new_grants tracker_new attempts = 8 /\ new_grants tracker_new attempts <= 16.
Proof.
  split; [vm_compute; reflexivity|].
  apply (cold_start_burst_bounded tracker_new _ 5000000); [|done..].
  apply Forall_fmap, Forall_true. intros i. simpl. by unfold clock, COLD_START_WINDOW_MICROS.
Defined.

(** [try_emit_pair] emits both directions or nothing: when it emits, the two
    directives name the two peers with roles swapped, each carrying the other's
    endpoint and the same timestamp, the endpoints are not empty, the peers are
    different, and the canonical pair is tracked with that emit time. *)
Theorem try_emit_pair_symmetric `{Externals} t a b now t' ev_a ev_b :
  try_emit_pair t a b now = (t', Some (ev_a, ev_b)) ->
  pp_id a <> pp_id b /\ dial_endpoint a <> EmptyString /\ dial_endpoint b <> EmptyString /\
  initiator_peer_id ev_a = uuid_to_string (pp_id a) /\
  initiator_peer_id ev_b = uuid_to_string (pp_id b) /\
  target_peer_id ev_a = initiator_peer_id ev_b /\ target_peer_id ev_b = initiator_peer_id ev_a /\
  target_external_endpoint ev_a = dial_endpoint b /\ target_external_endpoint ev_b = dial_endpoint a /\
  hp_timestamp_micros ev_a = now /\ hp_timestamp_micros ev_b = now /\
  last_emit <$> pairs t' !! canonical_pair (pp_id b) (pp_id a) = Some now.
Proof.
  unfold try_emit_pair. case_bool_decide as Hid; [done|].
  case_match eqn:He; [done|]. apply orb_false_iff in He as [H1 H2].
  apply bool_decide_eq_false in H1, H2.
  destruct (claim t (canonical_pair (pp_id a) (pp_id b)) now) as [t1 ok] eqn:Hc.
  destruct ok; simpl; [|done]. intros [= <- <- <-]. simpl. split_and!; try done.
  rewrite canonical_pair_comm. unfold claim in Hc.
  destruct (pairs t !! _) as [st|].
  - case_match; [|done]. injection Hc as <-. simpl. by rewrite lookup_insert_eq.
  - destruct (take_cold_start_token t now) as [t2 []]; [|done]. injection Hc as <-. simpl.
    by rewrite lookup_insert_eq.
Qed.

Lemma try_emit_pair_symmetric_witness :
  exists t' ev_a ev_b,
    try_emit_pair (H := Concrete.externals) tracker_new (mkPunchPeer 1%N "a:1") (mkPunchPeer 2%N "b:2") 9 = (t', Some (ev_a, ev_b)) /\
    target_external_endpoint ev_a = "b:2".
Proof.
  eexists _, _, _. split; [reflexivity|].
  eapply (try_emit_pair_symmetric tracker_new (mkPunchPeer 1%N "a:1") (mkPunchPeer 2%N "b:2") 9).
  reflexivity.
Defined.

(** A pair at the capped cooldown may be reaped as stale as soon as it may be
    claimed again: the sweep and the next heartbeat race, and when the sweep comes
    first the pair starts over as a new one. *)
Lemma capped_pair_reaped t p now st :
  pairs t !! p = Some st -> 5 <= streak st <= 39 -> clock now -> clock (last_emit st) ->
  snd (claim t p now) = true -> now <> last_emit st + PUNCH_PAIR_TTL_MICROS ->
  pairs (fst (reap_older_than t (now - PUNCH_PAIR_TTL_MICROS))) !! p = None.
Proof.
  intros Hp Hs Hn Hl Hc Hne. rewrite (claim_tracked t p now st) in Hc by done.
  assert (PUNCH_REEMIT_COOLDOWN_CAP_MICROS <= reemit_cooldown (streak st)) as Hcap.
  { etrans; [|apply (reemit_cooldown_mono 5); lia]. by vm_compute. }
  unfold reap_older_than; simpl. apply map_lookup_filter_None. right.
  intros st' Hp'. simpl. assert (st' = st) as -> by congruence.
  unfold PUNCH_REEMIT_COOLDOWN_CAP_MICROS, PUNCH_PAIR_TTL_MICROS in *.
  case_match; [lia|done].
Qed.
