(* ===== verification/Stun.v ===== *)
(** * STUN: the coordinator's responder and the joiner's client
    ([nat/stun_server.rs] of the coordinator, [nat/stun.rs] of the joiner)

    Both ends of the binding exchange that tells a joiner the public mapping of
    its WireGuard socket. *)

From S2P Require Import Prelude NetAddr.

Open Scope Z_scope.

Definition STUN_BINDING_REQUEST : Z := 0x0001.
Definition STUN_BINDING_SUCCESS : Z := 0x0101.
Definition STUN_MAGIC_COOKIE : Z := 0x2112a442.
Definition ATTR_XOR_MAPPED_ADDRESS : Z := 0x0020.

(** [STUN_MAGIC_COOKIE.to_be_bytes()] *)
Definition cookie : list Z :=
  u16_to_be_bytes (Z.shiftr STUN_MAGIC_COOKIE 16) ++ u16_to_be_bytes (Z.land STUN_MAGIC_COOKIE 0xffff).

Definition xor_bytes (a b : list Z) : list Z := zip_with Z.lxor a b.

(** [u16::from_be_bytes([l[i], l[i + 1]])]; [None] is the panic of an index out of
    range. *)
Definition be16_at (l : list Z) (i : nat) : option Z :=
  a ← l !! i; b ← l !! S i; Some (u16_from_be_bytes a b).

(** ** The coordinator's side *)

Definition xor_port (port : Z) : Z := Z.lxor port (Z.shiftr STUN_MAGIC_COOKIE 16).

(** The XOR-ed attribute and its length. *)
Definition attribute_body (source : SocketAddr) (txid : list Z) : Z * list Z :=
  match source with
  | SockV4 ip port =>
      (8, [0; 0x01] ++ u16_to_be_bytes (xor_port port) ++ xor_bytes (octets4 ip) cookie)
  | SockV6 ip port _ _ =>
      (20, [0; 0x02] ++ u16_to_be_bytes (xor_port port) ++ xor_bytes (octets ip) (cookie ++ txid))
  end.

Definition build_binding_response (request : list Z) (source : SocketAddr) : option (list Z) :=
  if (length request <? 20)%nat then None
  else if negb (bool_decide (be16_at request 0 = Some STUN_BINDING_REQUEST)) then None
  else if negb (bool_decide (take 4 (drop 4 request) = cookie)) then None
  else
    let txid := take 12 (drop 8 request) in
    let '(attr_len, body) := attribute_body source txid in
    Some (u16_to_be_bytes STUN_BINDING_SUCCESS ++ u16_to_be_bytes (4 + attr_len) ++ cookie ++ txid
          ++ u16_to_be_bytes ATTR_XOR_MAPPED_ADDRESS ++ u16_to_be_bytes attr_len ++ body).

(** ** The joiner's side *)

(** [build_binding_request]: the id is drawn from the clock. *)
Definition txid_of (seed : Z) : list Z := (fun i => Z.land (Z.shiftr seed (i * 8)) 0xff) <$> seqZ 0 12.
Definition build_binding_request (seed : Z) : list Z * list Z :=
  let txid := txid_of seed in
  (u16_to_be_bytes STUN_BINDING_REQUEST ++ u16_to_be_bytes 0 ++ cookie ++ txid, txid).

(** The bytes [l[i..i + n]] one by one; [None] is the panic. *)
Definition bytes_at (l : list Z) (i n : nat) : option (list Z) :=
  if (i + n <=? length l)%nat then Some (take n (drop i l)) else None.

(** The attribute found at [vstart]. *)
Definition read_mapped (resp txid : list Z) (vstart alen : nat) : option (option SocketAddr) :=
  family ← resp !! (vstart + 1)%nat;
  xport ← be16_at resp (vstart + 2);
  let port := xor_port xport in
  if family =? 0x01 then
    b ← bytes_at resp (vstart + 4) 4;
    Some (match xor_bytes b cookie with
          | [w; x; y; z] => Some (SockV4 (Ipv4 w x y z) port)
          | _ => None
          end)
  else if (family =? 0x02) && (20 <=? alen)%nat then
    b ← bytes_at resp (vstart + 4) 16;
    Some ((fun ip => SockV6 ip port 0 0) <$> of_octets (xor_bytes b (cookie ++ txid)))
  else Some None.

(** The attribute loop. [None] is a panic or an exhausted fuel; neither happens
    ([parse_never_panics]). *)
Fixpoint parse_attributes (fuel : nat) (resp txid : list Z) (off : nat) : option (option SocketAddr) :=
  match fuel with
  | O => None
  | S fuel =>
      if (length resp <? off + 4)%nat then Some None
      else
        atype ← be16_at resp off;
        alen ← be16_at resp (off + 2);
        let alen := Z.to_nat alen in
        let vstart := (off + 4)%nat in
        if (length resp <? vstart + alen)%nat then Some None
        else if (atype =? ATTR_XOR_MAPPED_ADDRESS) && (8 <=? alen)%nat then read_mapped resp txid vstart alen
        else parse_attributes fuel resp txid (vstart + (alen + 3) / 4 * 4)%nat
  end.

Definition parse_xor_mapped_address (resp txid : list Z) : option (option SocketAddr) :=
  if (length resp <? 20)%nat then Some None
  else
    msg_type ← be16_at resp 0;
    if negb (msg_type =? STUN_BINDING_SUCCESS) then Some None
    else if negb (bool_decide (take 12 (drop 8 resp) = txid)) then Some None
    else parse_attributes (length resp) resp txid 20.

(** ** The responder's loop *)

Definition STUN_BUF : nat := 512.

(** [run_stun_server] on what [recv_from] returns, one datagram or an error ([None])
    after the other: the datagrams it sends, each with its destination. Whatever does
    not fit the buffer is cut off. *)
Definition stun_answer (received : option (list Z * SocketAddr)) : option (list Z * SocketAddr) :=
  '(datagram, src) ← received;
  resp ← build_binding_response (take STUN_BUF datagram) src;
  Some (resp, src).
Definition run_stun_server (received : list (option (list Z * SocketAddr))) : list (list Z * SocketAddr) :=
  omap stun_answer received.

(** ** Lemmas *)

Definition wf_source (s : SocketAddr) : Prop :=
  is_u16 (sock_port s) /\ match sock_ip s with V4 a => wf_ipv4 a | V6 a => wf_ipv6 a end.

Lemma be16_at_Some l i : (i + 2 <= length l)%nat -> is_Some (be16_at l i).
Proof.
  intros H. unfold be16_at. destruct (lookup_lt_is_Some_2 l i) as [a ->]; [lia|]. simpl.
  destruct (lookup_lt_is_Some_2 l (S i)) as [b ->]; [lia|]. by eexists.
Qed.

Lemma bytes_at_Some l i n : (i + n <= length l)%nat -> is_Some (bytes_at l i n).
Proof. intros H. unfold bytes_at. destruct (_ <=? _)%nat eqn:E; [by eexists|lia]. Qed.

Lemma read_mapped_Some resp txid vstart alen :
  (vstart + alen <= length resp)%nat -> (8 <= alen)%nat -> is_Some (read_mapped resp txid vstart alen).
Proof.
  intros Hl Ha. unfold read_mapped. destruct (lookup_lt_is_Some_2 resp (vstart + 1)) as [f ->]; [lia|]. cbn [mbind option_bind].
  destruct (be16_at_Some resp (vstart + 2)) as [p ->]; [lia|]. cbn [mbind option_bind].
  destruct (f =? 1).
  { destruct (bytes_at_Some resp (vstart + 4) 4) as [b ->]; [lia|]. simpl; eauto. }
  destruct ((f =? 2) && (20 <=? alen)%nat) eqn:E; [|by eexists; reflexivity].
  apply andb_true_iff in E as [_ E]. apply Nat.leb_le in E.
  destruct (bytes_at_Some resp (vstart + 4) 16) as [b ->]; [lia|]. simpl; eauto.
Qed.

Lemma parse_attributes_Some fuel resp txid off :
  (length resp < off + 4 * fuel)%nat -> (0 < fuel)%nat -> is_Some (parse_attributes fuel resp txid off).
Proof.
  revert off. induction fuel as [|fuel IH]; intros off Hf Hpos; [lia|]. cbn [parse_attributes].
  destruct (length resp <? off + 4)%nat eqn:E; [by eexists|]. apply Nat.ltb_ge in E.
  destruct (be16_at_Some resp off) as [t ->]; [lia|]. cbn [mbind option_bind].
  destruct (be16_at_Some resp (off + 2)) as [a ->]; [lia|]. cbn [mbind option_bind].
  destruct (length resp <? off + 4 + Z.to_nat a)%nat eqn:E2; [by eexists|]. apply Nat.ltb_ge in E2.
  destruct (_ && _) eqn:E3.
  - apply andb_true_iff in E3 as [_ E3]. apply Nat.leb_le in E3. by apply read_mapped_Some.
  - apply IH; lia.
Qed.

Lemma xor_bytes_involutive a b : (length a <= length b)%nat -> xor_bytes (xor_bytes a b) b = a.
Proof.
  revert b. induction a as [|x a IH]; intros [|y b] H; simpl in *; [done|done|lia|].
  unfold xor_bytes in *. simpl. rewrite lxor_involutive, IH by lia. done.
Qed.

Lemma xor_port_u16 p : is_u16 p -> is_u16 (xor_port p).
Proof. rewrite !is_u16_lt. intros H. apply lxor_bound; [lia|done|by vm_compute]. Qed.

Lemma xor_port_involutive p : xor_port (xor_port p) = p.
Proof. apply lxor_involutive. Qed.

(** An attribute on the wire, with its padding to four bytes. *)
Definition attribute (ty : Z) (value pad : list Z) : list Z :=
  u16_to_be_bytes ty ++ u16_to_be_bytes (Z.of_nat (length value)) ++ value ++ pad.
Definition padded (value pad : list Z) : Prop :=
  (length value + length pad = (length value + 3) / 4 * 4)%nat.

Lemma lookup_shift (pre l : list Z) i : (pre ++ l) !! (length pre + i)%nat = l !! i.
Proof. rewrite lookup_app_r by lia. by rewrite Nat.add_comm, Nat.add_sub. Qed.

Lemma be16_at_shift pre l i : be16_at (pre ++ l) (length pre + i) = be16_at l i.
Proof. unfold be16_at. by rewrite <- Nat.add_succ_r, !lookup_shift. Qed.

Lemma bytes_at_shift pre l i n : bytes_at (pre ++ l) (length pre + i) n = bytes_at l i n.
Proof.
  unfold bytes_at. rewrite length_app, <- Nat.add_assoc, drop_app_add.
  by replace (length pre + (i + n) <=? length pre + length l)%nat with (i + n <=? length l)%nat by lia.
Qed.

Lemma bytes_at_app l r n : length l = n -> bytes_at (l ++ r) 0 n = Some l.
Proof.
  intros <-. unfold bytes_at. rewrite length_app, drop_0, take_app_length.
  by replace (0 + length l <=? length l + length r)%nat with true by lia.
Qed.

Lemma read_mapped_shift pre l txid v alen :
  read_mapped (pre ++ l) txid (length pre + v) alen = read_mapped l txid v alen.
Proof.
  unfold read_mapped. by rewrite <- !Nat.add_assoc, lookup_shift, be16_at_shift, !bytes_at_shift.
Qed.

Lemma parse_attributes_shift fuel pre l txid off :
  parse_attributes fuel (pre ++ l) txid (length pre + off) = parse_attributes fuel l txid off.
Proof.
  revert off. induction fuel as [|fuel IH]; intros off; [done|]. cbn [parse_attributes].
  rewrite length_app, <- !Nat.add_assoc, !be16_at_shift.
  replace (length pre + length l <? length pre + (off + 4))%nat with (length l <? off + 4)%nat by lia.
  destruct (_ <? _)%nat; [done|]. destruct (be16_at l off) as [ty|]; [|done]. cbn [mbind option_bind].
  destruct (be16_at l (off + 2)) as [n|]; [|done]. cbn [mbind option_bind].
  rewrite <- (Nat.add_assoc (length pre)), read_mapped_shift.
  replace (length pre + length l <? length pre + (off + 4 + Z.to_nat n))%nat
    with (length l <? off + 4 + Z.to_nat n)%nat by lia.
  destruct (_ <? _)%nat; [done|]. destruct (_ && _); [done|].
  by rewrite <- (Nat.add_assoc (length pre)), IH.
Qed.

Lemma be16_at_head z l : is_u16 z -> be16_at (u16_to_be_bytes z ++ l) 0 = Some z.
Proof. intros H. unfold be16_at. simpl. by rewrite u16_be_roundtrip. Qed.

Lemma attribute_length ty value pad :
  length (attribute ty value pad) = (4 + (length value + length pad))%nat.
Proof. unfold attribute. rewrite !length_app. simpl. lia. Qed.

Lemma attribute_header ty value pad l :
  is_u16 ty -> is_u16 (Z.of_nat (length value)) ->
  be16_at (attribute ty value pad ++ l) 0 = Some ty
  /\ be16_at (attribute ty value pad ++ l) 2 = Some (Z.of_nat (length value)).
Proof.
  intros Ht Hv. unfold attribute. rewrite <- !app_assoc. split; [by apply be16_at_head|].
  rewrite (be16_at_shift (u16_to_be_bytes ty) _ 0 : be16_at _ 2 = _). by apply be16_at_head.
Qed.

(** An attribute of another type is stepped over. *)
Lemma parse_attribute_skip fuel ty value pad l txid :
  is_u16 ty -> ty <> ATTR_XOR_MAPPED_ADDRESS -> is_u16 (Z.of_nat (length value)) -> padded value pad ->
  parse_attributes (S fuel) (attribute ty value pad ++ l) txid 0 = parse_attributes fuel l txid 0.
Proof.
  intros Ht Hne Hv Hp. cbn [parse_attributes].
  destruct (attribute_header ty value pad l Ht Hv) as [E1 E2].
  pose proof (attribute_length ty value pad) as Hlen.
  rewrite length_app, !Nat.add_0_l, E1, E2. cbn [mbind option_bind]. rewrite Nat2Z.id.
  destruct (_ <? _)%nat eqn:E; [lia|]. clear E. destruct (_ <? _)%nat eqn:E; [lia|]. clear E.
  replace (ty =? ATTR_XOR_MAPPED_ADDRESS) with false by lia. cbn [andb].
  rewrite <- Hp, <- Hlen, <- (Nat.add_0_r (length (attribute _ _ _))).
  by rewrite parse_attributes_shift.
Qed.

Lemma read_mapped_body source txid l :
  wf_source source -> length txid = 12%nat ->
  read_mapped ((attribute_body source txid).2 ++ l) txid 0 (length (attribute_body source txid).2)
  = Some (Some (sock_new (sock_ip source) (sock_port source))).
Proof.
  intros [Hp Hip] Ht. pose proof (xor_port_u16 _ Hp) as Hx.
  destruct source as [ip port|ip port fl sc]; simpl in Hp, Hip, Hx.
  - unfold read_mapped. simpl. unfold be16_at. simpl. rewrite u16_be_roundtrip by done.
    unfold bytes_at. simpl. rewrite xor_port_involutive. simpl.
    rewrite !lxor_involutive. by destruct ip.
  - assert (length (octets ip) = length (cookie ++ txid)) as Hl by (rewrite octets_length, length_app, Ht; done).
    set (body := xor_bytes (octets ip) (cookie ++ txid)).
    assert (length body = 16)%nat as Hb by (unfold body, xor_bytes; rewrite length_zip_with, <- Hl, octets_length; done).
    assert (xor_bytes body (cookie ++ txid) = octets ip) as Hxor by (apply xor_bytes_involutive; lia).
    change (attribute_body _ _).2 with (0 :: 2 :: u16_to_be_bytes (xor_port port) ++ body).
    clearbody body. set (head := 0 :: 2 :: u16_to_be_bytes (xor_port port)).
    assert (be16_at (head ++ body ++ l) 2 = Some (xor_port port)) as Eport.
    { exact (eq_trans (be16_at_shift [0; 2] (u16_to_be_bytes (xor_port port) ++ body ++ l) 0) (be16_at_head _ _ Hx)). }
    assert (bytes_at (head ++ body ++ l) 4 16 = Some body) as Ebody.
    { exact (eq_trans (bytes_at_shift head (body ++ l) 0 16) (bytes_at_app _ _ _ Hb)). }
    change ((0 :: 2 :: u16_to_be_bytes (xor_port port) ++ body) ++ l) with (head ++ body ++ l).
    unfold read_mapped. cbn [Nat.add]. rewrite Eport, Ebody. simpl length. rewrite Hb.
    cbn -[xor_bytes cookie xor_port]. by rewrite Hxor, octets_roundtrip, xor_port_involutive.
Qed.

Lemma attribute_body_length source txid :
  length txid = 12%nat -> length (attribute_body source txid).2 = Z.to_nat (attribute_body source txid).1.
Proof.
  intros Ht. destruct source as [ip port|ip port fl sc]; [done|]. cbn [attribute_body fst snd].
  unfold xor_bytes. by rewrite !length_app, length_zip_with, octets_length, length_app, Ht.
Qed.

(** The attribute the responder builds is read back. *)
Lemma xor_mapped_address_read source txid l fuel :
  wf_source source -> length txid = 12%nat ->
  parse_attributes (S fuel) (attribute ATTR_XOR_MAPPED_ADDRESS (attribute_body source txid).2 [] ++ l) txid 0
  = Some (Some (sock_new (sock_ip source) (sock_port source))).
Proof.
  intros Hs Ht. set (value := (attribute_body source txid).2).
  assert (length value = 8 \/ length value = 20)%nat as Hv.
  { unfold value. rewrite attribute_body_length by done. destruct source; simpl; lia. }
  destruct (attribute_header ATTR_XOR_MAPPED_ADDRESS value [] l) as [E1 E2];
    [done|unfold is_u16, u16_max; lia|].
  pose proof (attribute_length ATTR_XOR_MAPPED_ADDRESS value []) as Hlen.
  cbn [parse_attributes]. rewrite length_app, !Nat.add_0_l, E1, E2. cbn [mbind option_bind].
  rewrite Nat2Z.id. destruct (_ <? _)%nat eqn:E; [lia|]. clear E. destruct (_ <? _)%nat eqn:E; [lia|]. clear E.
  replace (8 <=? length value)%nat with true by lia. cbn [Z.eqb ATTR_XOR_MAPPED_ADDRESS Pos.eqb andb].
  unfold attribute. rewrite <- !app_assoc, app_assoc.
  by apply (read_mapped_body source txid l).
Qed.

Definition attributes (l : list (Z * list Z * list Z)) : list Z :=
  concat ((fun '(ty, value, pad) => attribute ty value pad) <$> l).
(** Well-formed attributes of other types. *)
Definition other_attributes (l : list (Z * list Z * list Z)) : Prop :=
  Forall (fun '(ty, value, pad) => is_u16 ty /\ ty <> ATTR_XOR_MAPPED_ADDRESS
     /\ is_u16 (Z.of_nat (length value)) /\ padded value pad) l.

Lemma attributes_length l : (length l <= length (attributes l))%nat.
Proof.
  unfold attributes. induction l as [|[[ty value] pad] l IH]; [done|]. rewrite fmap_cons. cbn [concat].
  rewrite length_app, attribute_length. simpl. lia.
Qed.

Lemma parse_attributes_skip others fuel l txid :
  other_attributes others ->
  parse_attributes (length others + fuel) (attributes others ++ l) txid 0
  = parse_attributes fuel l txid 0.
Proof.
  induction 1 as [|[[ty value] pad] others (H1 & H2 & H3 & H4) _ IH]; [done|].
  unfold attributes. rewrite fmap_cons. cbn [concat length Nat.add].
  by rewrite <- app_assoc, parse_attribute_skip by done.
Qed.

(** The joiner's parser never panics and never runs out of steps: on any bytes
    at all, for any transaction id, every index it takes is in range and the
    attribute loop ends. *)
Theorem parse_never_panics resp txid : is_Some (parse_xor_mapped_address resp txid).
Proof.
  unfold parse_xor_mapped_address. destruct (_ <? _)%nat eqn:E; [by eexists|]. apply Nat.ltb_ge in E.
  destruct (be16_at_Some resp 0) as [ty ->]; [lia|]. cbn [mbind option_bind].
  destruct (negb _); [by eexists|]. destruct (negb _); [by eexists|].
  apply parse_attributes_Some; lia.
Qed.

(** The fixed part of a response. *)
Definition response_header (len : Z) (txid : list Z) : list Z :=
  u16_to_be_bytes STUN_BINDING_SUCCESS ++ u16_to_be_bytes len ++ cookie ++ txid.

Lemma txid_of_length seed : length (txid_of seed) = 12%nat.
Proof. done. Qed.

Lemma build_binding_response_eq seed source :
  build_binding_response (build_binding_request seed).1 source
  = Some (response_header (4 + (attribute_body source (txid_of seed)).1) (txid_of seed)
          ++ attribute ATTR_XOR_MAPPED_ADDRESS (attribute_body source (txid_of seed)).2 []).
Proof.
  pose proof (attribute_body_length source (txid_of seed) (txid_of_length seed)) as Hl.
  unfold attribute. rewrite Hl. unfold build_binding_response.
  change (take 12 (drop 8 (build_binding_request seed).1)) with (txid_of seed).
  destruct source; cbn -[txid_of cookie u16_to_be_bytes app]; rewrite !app_nil_r; unfold response_header;
    by rewrite <- !app_assoc.
Qed.

Lemma parse_response len txid l txid' :
  length txid = 12%nat ->
  parse_xor_mapped_address (response_header len txid ++ l) txid'
  = if bool_decide (txid' = txid) then parse_attributes (20 + length l) l txid 0 else Some None.
Proof.
  intros Ht. assert (length (response_header len txid) = 20)%nat as Hh.
  { unfold response_header. rewrite !length_app, Ht. done. }
  unfold parse_xor_mapped_address. rewrite length_app, Hh. destruct (_ <? _)%nat eqn:E; [lia|]. clear E.
  assert (be16_at (response_header len txid ++ l) 0 = Some STUN_BINDING_SUCCESS) as -> by done.
  cbn [mbind option_bind]. rewrite Z.eqb_refl. cbn [negb].
  assert (take 12 (drop 8 (response_header len txid ++ l)) = txid) as ->.
  { unfold response_header. rewrite <- !app_assoc. cbn -[take]. rewrite <- Ht. apply take_app_length. }
  destruct (decide (txid' = txid)) as [->|Hne].
  - rewrite !bool_decide_eq_true_2 by done. cbn [negb].
    rewrite <- Hh at 2. rewrite <- (Nat.add_0_r (length (response_header _ _))). apply parse_attributes_shift.
  - rewrite !bool_decide_eq_false_2 by congruence. done.
Qed.

(** The responder answers nobody but the sender of a request, and with 44 bytes at
    most: whoever forges a source gains a factor of 2.2. *)
Lemma stun_server_reflects received resp dst :
  (resp, dst) ∈ run_stun_server received ->
  exists request, Some (request, dst) ∈ received /\ (20 <= length request)%nat /\ (length resp <= 44)%nat.
Proof.
  unfold run_stun_server. rewrite list_elem_of_omap. intros ([[request src]|] & Hin & H); [|done].
  unfold stun_answer in H. simpl in H. destruct (build_binding_response _ src) as [r|] eqn:Hb; [|done].
  injection H as -> ->. exists request. split; [done|]. unfold build_binding_response in Hb.
  destruct (length (take STUN_BUF request) <? 20)%nat eqn:El; [done|]. apply Nat.ltb_ge in El.
  assert (length request >= 20)%nat as Hl by (rewrite length_take in El; lia). split; [lia|].
  destruct (negb _); [done|]. destruct (negb _); [done|]. set (txid := take 12 (drop 8 (take STUN_BUF request))) in *.
  assert (length txid = 12)%nat as Ht by (unfold txid; rewrite length_take, length_drop; lia).
  pose proof (attribute_body_length dst txid Ht) as Ha.
  destruct (attribute_body dst txid) as [n body] eqn:Eb. injection Hb as <-. cbn [fst snd] in Ha.
  assert (n <= 20) by (destruct dst; injection Eb as <- _; lia).
  repeat (rewrite ?length_app, ?Ht, ?Ha; cbn [length]). lia.
Qed.

(** The STUN exchange tells the joiner where it was seen: for the request of any
    clock reading arriving from any address, the responder answers, and the
    joiner reads back exactly the address and port the request came from, even
    when other attributes of any length and content come before the mapped
    address; a response to another transaction is refused. *)
Theorem stun_exchange seed source others :
  wf_source source -> other_attributes others ->
  let (request, txid) := build_binding_request seed in
  exists response, build_binding_response request source = Some response
  /\ let received := take 20 response ++ attributes others ++ drop 20 response in
     parse_xor_mapped_address received txid = Some (Some (sock_new (sock_ip source) (sock_port source)))
     /\ forall txid', txid' <> txid -> parse_xor_mapped_address received txid' = Some None.
Proof.
  intros Hs Ho. pose proof (build_binding_response_eq seed source) as Hr.
  pose proof (txid_of_length seed) as Ht. cbn [build_binding_request fst] in *.
  eexists. split; [exact Hr|]. cbn zeta.
  set (attr := attribute _ _ _). set (hdr := response_header _ _).
  assert (length hdr = 20)%nat as Hh by done. 
  rewrite take_app_length', drop_app_length' by done. unfold hdr. split.
  - rewrite parse_response, bool_decide_eq_true_2 by done.
    pose proof (attributes_length others). rewrite length_app.
    replace (20 + (length (attributes others) + length attr))%nat
      with (length others + S (19 + (length (attributes others) - length others) + length attr))%nat by lia.
    rewrite parse_attributes_skip by done. unfold attr. rewrite <- (app_nil_r (attribute _ _ _)).
    by apply xor_mapped_address_read.
  - intros txid' Hne. by rewrite parse_response, bool_decide_eq_false_2 by done.
Qed.

Lemma stun_exchange_witness :
  exists response,
    build_binding_response (txid_of 0 ++ (build_binding_request 1754700000123456789).1) (SockV4 (Ipv4 203 0 113 9) 51820) = None
    /\ build_binding_response (build_binding_request 1754700000123456789).1 (SockV6 (Ipv6 0x2001 0xdb8 0 0 0 0 0 7) 51820 3 4)
       = Some response
    /\ parse_xor_mapped_address (take 20 response ++ attributes [(0x8022, [1; 2; 3], [0])] ++ drop 20 response)
         (txid_of 1754700000123456789) = Some (Some (SockV6 (Ipv6 0x2001 0xdb8 0 0 0 0 0 7) 51820 0 0)).
Proof.
  destruct (stun_exchange 1754700000123456789 (SockV6 (Ipv6 0x2001 0xdb8 0 0 0 0 0 7) 51820 3 4)
      [(0x8022, [1; 2; 3], [0])]) as (response & H1 & H2 & _).
  - repeat constructor; simpl; unfold u16_max; lia.
  - repeat constructor; vm_compute; congruence.
  - exists response. split; [reflexivity|]. split; [exact H1|exact H2].
Defined.
