(* ===== verification/DirectFlags.v ===== *)
(** * Per-pair flags of the operator ([nat/direct_flags.rs])

    Which pairs are allowed to go direct and which are pinned to the relay; a
    flag is set on the unordered pair. *)

From S2P Require Import Prelude NetAddr Types HolePunch.

Record DirectPairFlags := mkDirectPairFlags {
  direct_on : gmap PunchPair bool;
  pinned_to_relay : gmap PunchPair bool;
}.
#[export] Instance eta_DirectPairFlags : Eta DirectPairFlags :=
  fun f => mkDirectPairFlags (direct_on f) (pinned_to_relay f).

Definition flags_new : DirectPairFlags := mkDirectPairFlags ∅ ∅.

(** [get(key).is_some_and(|v| *v)] *)
Definition flag_of (m : gmap PunchPair bool) (a b : Uuid) : bool :=
  default false (m !! canonical_pair a b).

Definition is_direct (f : DirectPairFlags) (a b : Uuid) : bool := flag_of (direct_on f) a b.
Definition is_pinned_to_relay (f : DirectPairFlags) (a b : Uuid) : bool :=
  flag_of (pinned_to_relay f) a b.

Definition set_flag (m : gmap PunchPair bool) (a b : Uuid) (on : bool) : gmap PunchPair bool :=
  let key := canonical_pair a b in
  if on then <[key := true]> m else delete key m.

Definition set_direct (f : DirectPairFlags) (a b : Uuid) (on : bool) : DirectPairFlags :=
  f <| direct_on := set_flag (direct_on f) a b on |>.
Definition set_pinned_to_relay (f : DirectPairFlags) (a b : Uuid) (on : bool) : DirectPairFlags :=
  f <| pinned_to_relay := set_flag (pinned_to_relay f) a b on |>.

Definition flags_remove_peer (f : DirectPairFlags) (id : Uuid) : DirectPairFlags :=
  mkDirectPairFlags
    (filter (fun kv => ~ pair_mentions id kv.1) (direct_on f))
    (filter (fun kv => ~ pair_mentions id kv.1) (pinned_to_relay f)).

Definition flags_len (f : DirectPairFlags) : Z := Z.of_nat (size (direct_on f)).

(** ** Lemmas *)

Lemma flag_of_comm m a b : flag_of m a b = flag_of m b a.
Proof. unfold flag_of. by rewrite canonical_pair_comm. Qed.

Lemma flag_of_set m a b on x y :
  flag_of (set_flag m a b on) x y
  = if decide (canonical_pair x y = canonical_pair a b) then on else flag_of m x y.
Proof.
  unfold flag_of, set_flag. case_decide as Hc.
  - rewrite Hc. destruct on; by rewrite ?lookup_insert_eq, ?lookup_delete_eq.
  - destruct on; by rewrite ?lookup_insert_ne, ?lookup_delete_ne.
Qed.

Lemma flag_of_remove m id a b :
  flag_of (filter (fun kv => ~ pair_mentions id kv.1) m) a b
  = if decide (a = id \/ b = id) then false else flag_of m a b.
Proof.
  unfold flag_of. rewrite map_lookup_filter. simpl.
  destruct (m !! canonical_pair a b) as [v|]; simpl; [|by case_decide].
  pose proof (canonical_pair_mentions id a b) as Hm.
  case_decide; case_guard; simpl; try done; tauto.
Qed.

(** ** Properties *)

(** The pair flags are a function of the unordered pair: each setter changes the
    one flag of the one pair, in both directions, and nothing else; removing a
    peer clears every flag of its pairs and no other flag. *)
Theorem direct_flags_laws f a b on x y id :
  let same := decide (canonical_pair x y = canonical_pair a b) in
  is_direct f x y = is_direct f y x /\
  is_pinned_to_relay f x y = is_pinned_to_relay f y x /\
  is_direct (set_direct f a b on) x y = (if same then on else is_direct f x y) /\
  is_pinned_to_relay (set_direct f a b on) x y = is_pinned_to_relay f x y /\
  is_pinned_to_relay (set_pinned_to_relay f a b on) x y = (if same then on else is_pinned_to_relay f x y) /\
  is_direct (set_pinned_to_relay f a b on) x y = is_direct f x y /\
  is_direct (flags_remove_peer f id) x y
    = (if decide (x = id \/ y = id) then false else is_direct f x y) /\
  is_pinned_to_relay (flags_remove_peer f id) x y
    = (if decide (x = id \/ y = id) then false else is_pinned_to_relay f x y).
Proof.
  unfold is_direct, is_pinned_to_relay, set_direct, set_pinned_to_relay, flags_remove_peer; simpl.
  split_and!; try done; apply flag_of_comm || apply flag_of_set || apply flag_of_remove.
Qed.
