(* ===== verification/Auth.v ===== *)
(** * Join-token validation ([auth/validate.rs]) and identity ([roster/identity.rs])

    The coordinator asks the auth service whether a join token is valid; the
    claims it answers with are the node's network and tags. *)

From S2P Require Import Prelude NetAddr Text Types.

Open Scope Z_scope.

(** ** Claims and errors *)

Record ValidatedClaims := mkValidatedClaims {
  vc_valid : bool;
  vc_subject : string;
  vc_network : string;
  vc_tags : list string;
  vc_requested_ulas : list string;
  vc_kind : string;
  vc_exp : Z;
}.
#[export] Instance ValidatedClaims_eq_dec : EqDecision ValidatedClaims.
Proof. solve_decision. Defined.

Inductive ValidationError :=
| Transport (e : string)
| Status (status : Z) (body : string)
| Decode (e : string)
| WrongKind (kind : string).

(** The auth service and the network between: the request failed, or was
    answered with a status and a body, whose bytes may fail to arrive. *)
Inductive HttpReply :=
| SendError (e : string)
| Reply (status : Z) (body : Result string string).

(** JSON decoding of the claims, with the decoder's error text. *)
Class ClaimsSerde := { claims_of_json : string -> Result ValidatedClaims string }.

(** [StatusCode::is_success] *)
Definition is_success (status : Z) : bool := (200 <=? status) && (status <=? 299).

(** [&s[..n]]: [None] is the panic when [n] is not a character boundary. *)
Definition is_char_boundary (s : string) (n : nat) : bool :=
  match bytes_of_string s !! n with
  | None => (n =? String.length s)%nat
  | Some b => negb (Z.land b 0xc0 =? 0x80)
  end.
Definition slice_to (s : string) (n : nat) : option string :=
  if is_char_boundary s n then Some (String.substring 0 n s) else None.

Definition EXCERPT_MAX : nat := 512.

Definition excerpt_str (s : string) : option string :=
  if (EXCERPT_MAX <? String.length s)%nat then
    (fun p => p +:+ "...<truncated>") <$> slice_to s EXCERPT_MAX
  else Some s.

Definition body_excerpt (body : Result string string) : option string :=
  match body with
  | Ok s => excerpt_str s
  | Err e => Some ("<body read failed: " +:+ e +:+ ">")
  end.

(** [validate] on the reply of the auth service; [None] when it panics. A body
    is taken to be UTF-8 text. *)
Definition validate_reply `{ClaimsSerde} (reply : HttpReply)
    : option (Result ValidatedClaims ValidationError) :=
  match reply with
  | SendError e => Some (Err (Transport e))
  | Reply status body =>
      if negb (is_success status) then
        (fun excerpt => Err (Status status excerpt)) <$> body_excerpt body
      else
        match body with
        | Err e => Some (Err (Transport e))
        | Ok bytes =>
            match claims_of_json bytes with
            | Err e =>
                (fun excerpt => Err (Decode (e +:+ " (body excerpt: " +:+ excerpt +:+ ")")))
                <$> excerpt_str bytes
            | Ok claims =>
                if vc_valid claims && negb (bool_decide (vc_kind claims = EmptyString))
                   && negb (bool_decide (vc_kind claims = "join"))
                then Some (Err (WrongKind (vc_kind claims)))
                else Some (Ok claims)
            end
        end
  end.

(** The question and who asks it: [http] of the source is the parameter [post]. *)
Record ValidateRequest := mkValidateRequest { vq_token : string; vq_wg_public_key : option string }.
Record AuthValidator := mkAuthValidator { validate_url : string }.

(** [AuthValidator::new]; the client is built or fails with a text. *)
Definition AuthValidator_new (auth_url : string) (built : Result unit string) : Result AuthValidator ValidationError :=
  match built with
  | Ok _ => Ok (mkAuthValidator (trim_end_slashes auth_url +:+ "/v1/validate"))
  | Err e => Err (Transport e)
  end.

Definition validate_token `{ClaimsSerde} (post : string -> ValidateRequest -> HttpReply) (v : AuthValidator)
    (token : string) (wg_public_key : option string) : option (Result ValidatedClaims ValidationError) :=
  validate_reply (post (validate_url v) (mkValidateRequest token wg_public_key)).

(** ** Identity *)

Definition SELF_ADVERTISABLE_CAPABILITY_TAGS : list string :=
  ["supervisor"; "firecracker"; "docker"; "builder"].

Record NodeIdentity := mkNodeIdentity { ni_network : string; ni_tags : list string }.
#[export] Instance NodeIdentity_eq_dec : EqDecision NodeIdentity.
Proof. solve_decision. Defined.

(** The loop of [stamp_identity] over the requested tags. *)
Fixpoint merge_capabilities (tags requested : list string) : list string :=
  match requested with
  | [] => tags
  | t :: requested =>
      if bool_decide (t ∈ SELF_ADVERTISABLE_CAPABILITY_TAGS) && negb (bool_decide (t ∈ tags))
      then merge_capabilities (tags ++ [t]) requested
      else merge_capabilities tags requested
  end.

Definition stamp_identity (req : RegisterRequest) (claims : option ValidatedClaims) : NodeIdentity :=
  match claims with
  | None => mkNodeIdentity (rr_network req) (rr_tags req)
  | Some c => mkNodeIdentity (vc_network c) (merge_capabilities (vc_tags c) (rr_tags req))
  end.

(** ** Lemmas *)

Lemma merge_capabilities_spec tags requested :
  exists extra,
    merge_capabilities tags requested = tags ++ extra /\ NoDup extra /\
    forall t, t ∈ extra <->
      t ∈ requested /\ t ∈ SELF_ADVERTISABLE_CAPABILITY_TAGS /\ t ∉ tags.
Proof.
  revert tags. induction requested as [|t req IH]; intros tags; simpl.
  { exists []. split_and!; [by rewrite app_nil_r|constructor|]. intros t.
    rewrite elem_of_nil. tauto. }
  case_match eqn:Hc.
  - apply andb_true_iff in Hc as [H1 H2]. apply bool_decide_eq_true in H1.
    apply negb_true_iff, bool_decide_eq_false in H2.
    destruct (IH (tags ++ [t])) as (extra & He & Hn & Hx).
    exists (t :: extra). split_and!.
    + by rewrite He, <- app_assoc.
    + constructor; [|done]. rewrite Hx, elem_of_app, elem_of_cons. tauto.
    + intros u. rewrite !elem_of_cons, Hx, elem_of_app, elem_of_cons, elem_of_nil.
      split; [intros [->|(? & ? & ?)]; split_and!; auto; tauto|]. intros ([->|] & ? & ?); [by left|].
      destruct (decide (u = t)); [by left|right]. tauto.
  - destruct (IH tags) as (extra & He & Hn & Hx). exists extra. split_and!; [done..|].
    intros u. rewrite Hx, elem_of_cons. split; [tauto|].
    intros ([->|] & ? & ?); [|tauto]. exfalso.
    rewrite bool_decide_true in Hc by done. by rewrite bool_decide_false in Hc by done.
Qed.

(** The excerpt panics exactly when a character straddles byte 512. *)
Lemma excerpt_str_panics s :
  excerpt_str s = None <->
  exists b, bytes_of_string s !! EXCERPT_MAX = Some b /\ Z.land b 0xc0 = 0x80.
Proof.
  assert (length (bytes_of_string s) = String.length s) as Hlen.
  { unfold bytes_of_string. rewrite length_fmap.
    induction s as [|c s IH]; [done|]. simpl. by rewrite IH. }
  unfold excerpt_str, slice_to, is_char_boundary.
  destruct (EXCERPT_MAX <? String.length s)%nat eqn:E.
  - apply Nat.ltb_lt in E. rewrite <- Hlen in E.
    destruct (lookup_lt_is_Some_2 _ _ E) as [b Hb]. rewrite Hb.
    destruct (Z.land b 192 =? 128) eqn:Eb; simpl; split; try done.
    + intros _. exists b. split; [done|lia].
    + intros (b' & [= <-] & Hx). lia.
  - apply Nat.ltb_ge in E. rewrite <- Hlen in E.
    rewrite lookup_ge_None_2 by done. split; [done|by intros (? & [=] & _)].
Qed.

(** ** Properties *)

(** Claims are authoritative: with claims, a node's network is the token's and its
    tags are the token's tags, in order, followed by the self-advertised
    capability tags it asked for, without repetition; nothing else that the
    request asks for gets in, so a tag that controls visibility can come only
    from the token. Without claims the request is taken at its word. *)
Theorem stamp_identity_authoritative req c :
  (exists extra, ni_tags (stamp_identity req (Some c)) = vc_tags c ++ extra /\ NoDup extra /\
     forall t, t ∈ extra <->
       t ∈ rr_tags req /\ t ∈ SELF_ADVERTISABLE_CAPABILITY_TAGS /\ t ∉ vc_tags c) /\
  ni_network (stamp_identity req (Some c)) = vc_network c /\
  (forall t slug, t ∈ ni_tags (stamp_identity req (Some c)) ->
     t = "tag:" +:+ slug -> t ∈ vc_tags c) /\
  stamp_identity req None = mkNodeIdentity (rr_network req) (rr_tags req).
Proof.
  destruct (merge_capabilities_spec (vc_tags c) (rr_tags req)) as (extra & He & Hn & Hx).
  split_and!; [by exists extra|done| |done].
  intros t slug Ht ->. simpl in Ht. rewrite He in Ht.
  apply elem_of_app in Ht as [|Ht]; [done|]. apply Hx in Ht as (_ & Ht & _).
  repeat (apply elem_of_cons in Ht as [Ht|Ht]; [done|]). by apply elem_of_nil in Ht.
Qed.

(** A join is accepted by the validator only on a success status whose body
    decodes to claims that are not of another kind than a join token; every
    other reply is an error or a panic, and it panics exactly when the excerpt
    of an error body would cut a character in two. *)
Theorem validate_reply_outcomes `{ClaimsSerde} reply :
  (forall c, validate_reply reply = Some (Ok c) <->
     exists status body, reply = Reply status (Ok body) /\ is_success status = true /\
       claims_of_json body = Ok c /\
       (vc_valid c = true -> vc_kind c = EmptyString \/ vc_kind c = "join")) /\
  (validate_reply reply = None <->
     exists status body, reply = Reply status (Ok body) /\ excerpt_str body = None /\
       (is_success status = false \/ is_ok (claims_of_json body) = false)).
Proof.
  destruct reply as [e|status body]; simpl.
  { split; [intros c|]; split; try done; by intros (? & ? & [=] & _). }
  destruct (is_success status) eqn:Hs; simpl.
  - destruct body as [body|e].
    2: { split; [intros c|]; split; try done; by intros (? & ? & [=] & _). }
    destruct (claims_of_json body) as [c0|e] eqn:Hj.
    + destruct (vc_valid c0 && _ && _) eqn:Hk; split; [intros c| |intros c|]; split; try done.
      * intros (? & ? & [= <- <-] & _ & Hj' & Hv). assert (c0 = c) as -> by congruence.
        apply andb_true_iff in Hk as [[Hk1 Hk2]%andb_true_iff Hk3].
        apply negb_true_iff, bool_decide_eq_false in Hk2, Hk3. by destruct (Hv Hk1).
      * intros (? & ? & [= <- <-] & _ & [|Hj']); [congruence|by rewrite Hj in Hj'].
      * intros [= <-]. exists status, body. split_and!; [done..|]. intros Hv. rewrite Hv in Hk.
        simpl in Hk. repeat case_bool_decide; auto; done.
      * intros (? & ? & [= <- <-] & _ & Hj' & Hv). congruence.
      * intros (? & ? & [= <- <-] & _ & [|Hj']); [congruence|by rewrite Hj in Hj'].
    + split; [intros c|]; split.
      * by destruct (excerpt_str body).
      * intros (? & ? & [= <- <-] & _ & Hj' & _). congruence.
      * destruct (excerpt_str body) eqn:Ex; [done|]. intros _. exists status, body.
        rewrite Hj. split_and!; auto.
      * by intros (? & ? & [= <- <-] & -> & _).
  - split; [intros c|]; split.
    + by destruct (body_excerpt body).
    + intros (? & ? & [= <- ->] & Hs' & _). congruence.
    + destruct body as [body|e]; simpl; [|done].
      destruct (excerpt_str body) eqn:Ex; [done|]. intros _. exists status, body. by auto.
    + by intros (? & ? & [= <- ->] & Hx & _); simpl; rewrite Hx.
Qed.

(** A body of 511 one-byte characters and one of two bytes. *)
Lemma excerpt_panics_example :
  let s := string_of_bytes (repeat 97 511 ++ [0xc3; 0xa9]) in
  String.length s = 513%nat /\ excerpt_str s = None.
Proof. by vm_compute. Qed.
