(* ===== verification/RelayFrame.v ===== *)
(** * Relay frames ([relay/frame.rs] of the coordinator and of the joiner)

    A frame on the relay socket is a 32-byte public key followed by the opaque
    payload. Both crates carry the same code, so one definition stands for both
    ends. *)

From S2P Require Import Prelude.

Definition PUBKEY_LEN : nat := 32.
Arguments PUBKEY_LEN : simpl never.

Definition encode_relay_frame (peer_pubkey payload : list Z) : list Z := peer_pubkey ++ payload.

Definition decode_relay_frame (buf : list Z) : option (list Z * list Z) :=
  if (length buf <? 33)%nat then None
  else Some (take PUBKEY_LEN buf, drop PUBKEY_LEN buf).

Lemma decode_relay_frame_Some buf pk payload :
  decode_relay_frame buf = Some (pk, payload) <->
  length pk = PUBKEY_LEN /\ payload <> [] /\ buf = encode_relay_frame pk payload.
Proof.
  unfold decode_relay_frame, encode_relay_frame, PUBKEY_LEN. destruct (length buf <? 33)%nat eqn:E.
  - apply Nat.ltb_lt in E. split; [done|]. intros (Hl & Hp & ->).
    rewrite length_app in E. destruct payload; [done|simpl in E; lia].
  - apply Nat.ltb_ge in E. split.
    + intros [= <- <-]. split_and!; [rewrite length_take; lia| |by rewrite take_drop].
      intros Hd. apply (f_equal length) in Hd. rewrite length_drop in Hd. simpl in Hd. lia.
    + intros (Hl & _ & ->). by rewrite take_app_length', drop_app_length'.
Qed.

(** The relay frame format round-trips and is unambiguous: what one end encodes
    for a 32-byte key and a non-empty payload the other end decodes to the same
    key and payload, and every buffer that decodes is the encoding of exactly
    what it decodes to. *)
Theorem relay_frame_roundtrip buf pk payload :
  decode_relay_frame buf = Some (pk, payload) <->
  length pk = PUBKEY_LEN /\ payload <> [] /\ buf = encode_relay_frame pk payload.
Proof. apply decode_relay_frame_Some. Qed.
