(* ===== verification/RelayRegistry.v ===== *)
(** * The relay registry ([relay/registry.rs])

    The live relay sockets of each public key, one per lane, with a short spool
    for keys that have none. A socket is known by the sending end of its bounded
    channel. *)

From S2P Require Import Prelude.

Open Scope Z_scope.

Inductive Lane := Hi | Lo.
#[export] Instance Lane_eq_dec : EqDecision Lane.
Proof. solve_decision. Defined.

(** The sending end of a channel: the identity of the channel. *)
Definition Sender : Type := N.

Record LaneConn := mkLaneConn { conn_id : Z; tx : Sender }.
#[export] Instance LaneConn_eq_dec : EqDecision LaneConn.
Proof. solve_decision. Defined.

Record PeerConns := mkPeerConns { hi : option LaneConn; lo : option LaneConn }.
#[export] Instance PeerConns_eq_dec : EqDecision PeerConns.
Proof. solve_decision. Defined.

Definition no_conns : PeerConns := mkPeerConns None None.
Definition slot (c : PeerConns) (lane : Lane) : option LaneConn :=
  match lane with Hi => hi c | Lo => lo c end.
Definition set_slot (c : PeerConns) (lane : Lane) (v : option LaneConn) : PeerConns :=
  match lane with Hi => mkPeerConns v (lo c) | Lo => mkPeerConns (hi c) v end.

Definition pick (c : PeerConns) (hi_prio : bool) : option Sender :=
  tx <$> (if hi_prio then match hi c with Some h => Some h | None => lo c end else lo c).

Definition conns_is_empty (c : PeerConns) : bool :=
  match hi c, lo c with None, None => true | _, _ => false end.

Record SpooledFrame := mkSpooledFrame { sf_at : Z; sf_hi_prio : bool; sf_frame : list Z }.

Definition SPOOL_CAP : nat := 16.
Lemma SPOOL_CAP_eq : SPOOL_CAP = 16%nat.
Proof. done. Qed.
#[global] Opaque SPOOL_CAP.
(** Instants are in microseconds. *)
Definition SPOOL_TTL : Z := 2000000.
Definition WAKE_COOLDOWN : Z := 5000000.

(** [sent] is the log of the frames that channels accepted, oldest first. *)
Record RelayRegistry := mkRelayRegistry {
  conns : gmap (list Z) PeerConns;
  spool : gmap (list Z) (list SpooledFrame);
  next_id : Z;
  wake_cooldown : gmap (list Z) Z;
  sent : list (Sender * list Z);
}.
#[export] Instance eta_RelayRegistry : Eta RelayRegistry := fun r =>
  mkRelayRegistry (conns r) (spool r) (next_id r) (wake_cooldown r) (sent r).

Definition registry_new : RelayRegistry := mkRelayRegistry ∅ ∅ 0 ∅ [].

(** What [try_send] on a bounded channel can answer. *)
Inductive SendOutcome := Accepted | Full | Closed.

(** The channels: what [try_send] answers, which may depend on everything sent
    so far, and whether the receiver is gone. Nothing more is assumed of them. *)
Class Channels := {
  try_send : list (Sender * list Z) -> Sender -> SendOutcome;
  is_closed : Sender -> bool;
}.

Section Registry.
Context `{Channels}.

(** [Instant::duration_since], which saturates at zero. *)
Definition duration_since (now earlier : Z) : Z := Z.max 0 (now - earlier).

Definition take_wake_slot (r : RelayRegistry) (now : Z) (dst : list Z) : RelayRegistry * bool :=
  match wake_cooldown r !! dst with
  | Some last =>
      if WAKE_COOLDOWN <=? duration_since now last
      then (r <| wake_cooldown := <[dst := now]> (wake_cooldown r) |>, true)
      else (r, false)
  | None => (r <| wake_cooldown := <[dst := now]> (wake_cooldown r) |>, true)
  end.

Definition push_spool (r : RelayRegistry) (now : Z) (pubkey : list Z) (hi_prio : bool)
    (frame : list Z) : RelayRegistry :=
  let q := default [] (spool r !! pubkey) in
  let q := if (SPOOL_CAP <=? length q)%nat then tail q else q in
  r <| spool := <[pubkey := q ++ [mkSpooledFrame now hi_prio frame]]> (spool r) |>.

Definition forward (r : RelayRegistry) (now : Z) (pubkey : list Z) (frame : list Z) (hi_prio : bool)
    : RelayRegistry * bool :=
  match conns r !! pubkey ≫= fun c => pick c hi_prio with
  | Some tx =>
      match try_send (sent r) tx with
      | Accepted => (r <| sent := sent r ++ [(tx, frame)] |>, true)
      | Full => (r, false)
      | Closed => (push_spool r now pubkey hi_prio frame, false)
      end
  | None => (push_spool r now pubkey hi_prio frame, false)
  end.

(** The flush loop of [register] over the frames held. *)
Fixpoint flush (r : RelayRegistry) (now : Z) (pubkey : list Z) (held : list SpooledFrame) : RelayRegistry :=
  match held with
  | [] => r
  | sf :: held =>
      if SPOOL_TTL <? duration_since now (sf_at sf) then flush r now pubkey held
      else flush (fst (forward r now pubkey (sf_frame sf) (sf_hi_prio sf))) now pubkey held
  end.

Definition register (r : RelayRegistry) (now : Z) (pubkey : list Z) (lane : Lane) (tx : Sender)
    : RelayRegistry * Z :=
  let id := next_id r in
  let r := r <| next_id := u64_wrapping_add id 1 |> in
  let entry := default no_conns (conns r !! pubkey) in
  let r := r <| conns := <[pubkey := set_slot entry lane (Some (mkLaneConn id tx))]> (conns r) |> in
  match spool r !! pubkey with
  | Some held => (flush (r <| spool := delete pubkey (spool r) |>) now pubkey held, id)
  | None => (r, id)
  end.

Definition unregister (r : RelayRegistry) (pubkey : list Z) (lane : Lane) (id : Z) : RelayRegistry :=
  match conns r !! pubkey with
  | None => r
  | Some entry =>
      let entry :=
        match slot entry lane with
        | Some c => if conn_id c =? id then set_slot entry lane None else entry
        | None => entry
        end in
      if conns_is_empty entry then r <| conns := delete pubkey (conns r) |>
      else r <| conns := <[pubkey := entry]> (conns r) |>
  end.

Definition drop_pubkey (r : RelayRegistry) (pubkey : list Z) : RelayRegistry :=
  r <| conns := delete pubkey (conns r) |> <| spool := delete pubkey (spool r) |>.

(** A connection whose receiver is gone. *)
Definition lane_dead (c : option LaneConn) : bool :=
  match c with Some l => is_closed (tx l) | None => false end.
Definition close_dead (c : PeerConns) : PeerConns :=
  mkPeerConns (if lane_dead (hi c) then None else hi c) (if lane_dead (lo c) then None else lo c).
Definition dead_count (c : PeerConns) : Z :=
  (if lane_dead (hi c) then 1 else 0) + (if lane_dead (lo c) then 1 else 0).

Definition reap_closed (r : RelayRegistry) : RelayRegistry * Z :=
  let swept := close_dead <$> conns r in
  (r <| conns := filter (fun kv => conns_is_empty kv.2 = false) swept |>,
   map_fold (fun _ c n => n + dead_count c) 0 (conns r)).

Definition unexpired (now : Z) (q : list SpooledFrame) : list SpooledFrame :=
  List.filter (fun sf => duration_since now (sf_at sf) <=? SPOOL_TTL) q.

Definition reap_expired_spool (r : RelayRegistry) (now : Z) : RelayRegistry * Z :=
  let kept := unexpired now <$> spool r in
  (r <| spool := filter (fun kv => kv.2 <> []) kept |>,
   map_fold (fun _ q n => n + (Z.of_nat (length q) - Z.of_nat (length (unexpired now q)))) 0 (spool r)).

Definition registry_len (r : RelayRegistry) : Z := Z.of_nat (size (conns r)).
End Registry.

(** ** Steps and invariant *)

Section Invariant.
Context `{Channels}.

(** Any operation, at any time, by any of the tasks that share the registry. *)
Inductive registry_step : RelayRegistry -> RelayRegistry -> Prop :=
| step_wake r now dst : registry_step r (fst (take_wake_slot r now dst))
| step_register r now pk lane tx :
    next_id r < u64_max -> registry_step r (fst (register r now pk lane tx))
| step_forward r now pk frame prio : registry_step r (fst (forward r now pk frame prio))
| step_unregister r pk lane id : registry_step r (unregister r pk lane id)
| step_drop r pk : registry_step r (drop_pubkey r pk)
| step_reap_closed r : registry_step r (fst (reap_closed r))
| step_reap_spool r now : registry_step r (fst (reap_expired_spool r now)).

(** The connection in a lane of a key. *)
Definition conn_at (r : RelayRegistry) (pk : list Z) (lane : Lane) : option LaneConn :=
  conns r !! pk ≫= fun c => slot c lane.

Record wf_registry (r : RelayRegistry) : Prop := {
  (* a key without a live socket has no entry *)
  wf_conns : forall pk c, conns r !! pk = Some c -> conns_is_empty c = false;
  wf_spool : forall pk q, spool r !! pk = Some q -> q <> [] /\ (length q <= SPOOL_CAP)%nat;
  (* connection ids are issued once *)
  wf_ids : forall pk lane c, conn_at r pk lane = Some c -> 0 <= conn_id c < next_id r;
  wf_ids_inj : forall pk lane c pk' lane' c',
    conn_at r pk lane = Some c -> conn_at r pk' lane' = Some c' ->
    conn_id c = conn_id c' -> pk = pk' /\ lane = lane';
  wf_next_id : 0 <= next_id r;
}.

(** Two registries with the same connections and the same next id. *)
Definition same_conns (r r' : RelayRegistry) : Prop := conns r' = conns r /\ next_id r' = next_id r.
Definition spool_ok (r : RelayRegistry) : Prop :=
  forall pk q, spool r !! pk = Some q -> q <> [] /\ (length q <= SPOOL_CAP)%nat.

Lemma wf_same_conns r r' : wf_registry r -> same_conns r r' -> spool_ok r' -> wf_registry r'.
Proof.
  intros [H1 H2 H3 H4 H5] [Hc Hn] Hs.
  split; unfold conn_at in *; rewrite ?Hc, ?Hn; done.
Qed.

(** Connections taken away, one by one or in groups, leave the rest. *)
Lemma wf_fewer_conns r r' :
  wf_registry r -> next_id r' = next_id r -> spool_ok r' ->
  (forall pk c, conns r' !! pk = Some c -> conns_is_empty c = false) ->
  (forall pk lane c, conn_at r' pk lane = Some c -> conn_at r pk lane = Some c) ->
  wf_registry r'.
Proof.
  intros [H1 H2 H3 H4 H5] Hn Hs Hc Hl. split; rewrite ?Hn; [done|done| | |done].
  - intros pk lane c Hx. eapply H3. by apply Hl.
  - intros pk lane c pk' lane' c' Hx Hy. apply H4; by apply Hl.
Qed.

Lemma push_spool_conns r now pk prio frame : same_conns r (push_spool r now pk prio frame).
Proof. done. Qed.

Lemma push_spool_back r now pk prio frame :
  exists q, spool (push_spool r now pk prio frame) !! pk = Some (q ++ [mkSpooledFrame now prio frame]).
Proof. unfold push_spool; simpl. eexists. by rewrite lookup_insert_eq. Qed.

Lemma push_spool_ok r now pk prio frame : spool_ok r -> spool_ok (push_spool r now pk prio frame).
Proof.
  intros Hs pk' q. unfold push_spool; simpl. rewrite lookup_insert.
  case_decide as Hpk; [|apply Hs].
  intros [= <-]. split; [by intros [_ [=]]%app_eq_nil|].
  rewrite length_app. simpl.
  assert (length (default [] (spool r !! pk)) <= SPOOL_CAP)%nat as Hl.
  { destruct (spool r !! pk) as [q|] eqn:Hq; simpl; [apply (Hs _ _ Hq)|lia]. }
  set (q := default [] (spool r !! pk)) in *.
  destruct (SPOOL_CAP <=? length q)%nat eqn:E; [rewrite length_tl|apply Nat.leb_gt in E];
    pose proof SPOOL_CAP_eq; lia.
Qed.

Lemma forward_same_conns r now pk frame prio : same_conns r (fst (forward r now pk frame prio)).
Proof. unfold forward. repeat case_match; done. Qed.

Lemma forward_spool_ok r now pk frame prio : spool_ok r -> spool_ok (fst (forward r now pk frame prio)).
Proof. intros Hs. unfold forward. repeat case_match; simpl; try done; by apply push_spool_ok. Qed.

(** [forward] changes the spool of no other key, and only by adding the frame. *)
Lemma forward_new_spool r now pk frame prio pk' q :
  spool (fst (forward r now pk frame prio)) !! pk' = Some q -> spool r !! pk' <> Some q ->
  pk' = pk /\ exists q0 prio, q = q0 ++ [mkSpooledFrame now prio frame].
Proof.
  assert (spool (push_spool r now pk prio frame) !! pk' = Some q -> spool r !! pk' <> Some q ->
    pk' = pk /\ exists q0 prio, q = q0 ++ [mkSpooledFrame now prio frame]) as Hps.
  { unfold push_spool; simpl. rewrite lookup_insert. case_decide; [|done].
    intros [= <-] _. by eauto. }
  unfold forward. destruct (conns r !! pk ≫= _) as [t|]; [|exact Hps].
  destruct (try_send (sent r) t); simpl; done || exact Hps.
Qed.

Lemma flush_same_conns held r now pk : same_conns r (flush r now pk held).
Proof.
  revert r. induction held as [|sf held IH]; intros r; simpl; [done|].
  case_match; [apply IH|].
  destruct (forward_same_conns r now pk (sf_frame sf) (sf_hi_prio sf)) as [H1 H2].
  destruct (IH (fst (forward r now pk (sf_frame sf) (sf_hi_prio sf)))) as [H3 H4].
  split; congruence.
Qed.

Lemma flush_spool_ok held r now pk : spool_ok r -> spool_ok (flush r now pk held).
Proof.
  revert r. induction held as [|sf held IH]; intros r Hs; simpl; [done|].
  case_match; apply IH; [done|]. by apply forward_spool_ok.
Qed.

Lemma slot_set_slot c lane v lane' :
  slot (set_slot c lane v) lane' = if decide (lane' = lane) then v else slot c lane'.
Proof. by destruct lane, lane'. Qed.

Lemma register_conns r now pk lane tx :
  conns (fst (register r now pk lane tx))
    = <[pk := set_slot (default no_conns (conns r !! pk)) lane (Some (mkLaneConn (next_id r) tx))]> (conns r)
  /\ next_id (fst (register r now pk lane tx)) = u64_wrapping_add (next_id r) 1
  /\ snd (register r now pk lane tx) = next_id r.
Proof.
  unfold register. simpl. destruct (spool r !! pk) as [held|]; simpl; [|done].
  match goal with |- context [flush ?r1 ?n1 ?k1 ?h1] =>
    destruct (flush_same_conns h1 r1 n1 k1) as [Hc Hn] end.
  by rewrite Hc, Hn.
Qed.

Lemma register_spool_ok r now pk lane tx : spool_ok r -> spool_ok (fst (register r now pk lane tx)).
Proof.
  intros Hs. unfold register. simpl. destruct (spool r !! pk) as [held|]; [|done]. simpl.
  apply flush_spool_ok. intros pk' q. simpl. rewrite lookup_delete_Some. intros [_ Hq]. by apply Hs in Hq.
Qed.

Lemma conn_at_register r now pk lane tx pk' lane' :
  conn_at (fst (register r now pk lane tx)) pk' lane'
  = if decide (pk' = pk /\ lane' = lane) then Some (mkLaneConn (next_id r) tx) else conn_at r pk' lane'.
Proof.
  unfold conn_at. destruct (register_conns r now pk lane tx) as [-> _].
  rewrite lookup_insert. destruct (decide (pk = pk')) as [->|Hne]; simpl.
  - rewrite slot_set_slot. repeat case_decide; try tauto.
    by destruct (conns r !! pk'), lane'.
  - by rewrite decide_False by (by intros [-> _]).
Qed.

Lemma wf_register r now pk lane tx :
  wf_registry r -> next_id r < u64_max -> wf_registry (fst (register r now pk lane tx)).
Proof.
  intros [H1 H2 H3 H4 H5] Hn. destruct (register_conns r now pk lane tx) as (Hc & Hi & _).
  assert (next_id (fst (register r now pk lane tx)) = next_id r + 1) as Hi'.
  { rewrite Hi. unfold u64_wrapping_add. apply Z.mod_small. unfold u64_max in Hn.
    change (2 ^ 64) with 18446744073709551616. lia. }
  split.
  - intros pk' c. rewrite Hc, lookup_insert. case_decide; [|by apply H1].
    intros [= <-]. destruct lane; simpl; [done|]. by destruct (hi _).
  - by apply register_spool_ok.
  - intros pk' lane' c. rewrite conn_at_register, Hi'. case_decide.
    + intros [= <-]. simpl. lia.
    + intros Hx%H3. lia.
  - intros p1 l1 c1 p2 l2 c2. rewrite !conn_at_register.
    repeat case_decide; [by destruct_and!; subst|intros [= <-] Hx He|intros Hx [= <-] He|apply H4];
      apply H3 in Hx; simpl in He; lia.
  - lia.
Qed.

Lemma conn_at_unregister r pk lane id pk' lane' :
  conn_at (unregister r pk lane id) pk' lane'
  = if decide (pk' = pk /\ lane' = lane /\ conn_id <$> conn_at r pk lane = Some id) then None
    else conn_at r pk' lane'.
Proof.
  unfold unregister, conn_at. destruct (conns r !! pk) as [e|] eqn:He; simpl.
  2: { case_decide as Hd; [|done]. by destruct Hd as (_ & _ & ?). }
  set (e' := match slot e lane with
             | Some c => if conn_id c =? id then set_slot e lane None else e
             | None => e end).
  assert (forall l, slot e' l = if decide (l = lane /\ conn_id <$> slot e lane = Some id) then None else slot e l) as Hs.
  { intros l. subst e'. destruct (slot e lane) as [c|] eqn:Hsl; simpl.
    - destruct (conn_id c =? id) eqn:Hid.
      + rewrite slot_set_slot. assert (conn_id c = id) as -> by lia.
        repeat case_decide; try done; tauto.
      + case_decide as Hd; [|done]. destruct Hd as [_ [=]]. lia.
    - case_decide as Hd; [|done]. by destruct Hd. }
  assert (conns_is_empty e' = true -> forall l, slot e' l = None) as Hemp.
  { destruct e' as [[] []]; try done. by intros _ []. }
  destruct (conns_is_empty e') eqn:Hee; simpl.
  - rewrite lookup_delete. destruct (decide (pk = pk')) as [<-|Hne]; simpl.
    + specialize (Hemp eq_refl lane'). rewrite He. simpl. rewrite Hs in Hemp.
      repeat case_decide; try done; tauto.
    + by rewrite decide_False by (by intros [-> _]).
  - rewrite lookup_insert. destruct (decide (pk = pk')) as [<-|Hne]; simpl.
    + rewrite Hs, He. simpl. repeat case_decide; try done; tauto.
    + by rewrite decide_False by (by intros [-> _]).
Qed.

Lemma wf_unregister r pk lane id : wf_registry r -> wf_registry (unregister r pk lane id).
Proof.
  intros Hwf. apply (wf_fewer_conns r); [done| | | |].
  - unfold unregister. by repeat case_match.
  - intros pk' q. unfold unregister. repeat case_match; simpl; apply (wf_spool _ Hwf).
  - intros pk' c. unfold unregister. destruct (conns r !! pk) as [e|] eqn:He; [|apply (wf_conns _ Hwf)].
    destruct (conns_is_empty _) eqn:Hem; simpl.
    + rewrite lookup_delete_Some. intros [_ Hx]. by apply (wf_conns _ Hwf) in Hx.
    + rewrite lookup_insert. case_decide; [|apply (wf_conns _ Hwf)]. by intros [= <-].
  - intros pk' l c. rewrite conn_at_unregister. by case_decide.
Qed.
End Invariant.

Section Properties.
Context `{Channels}.

Lemma reap_closed_lookup r pk :
  conns (fst (reap_closed r)) !! pk
  = match conns r !! pk with
    | Some c => if conns_is_empty (close_dead c) then None else Some (close_dead c)
    | None => None
    end.
Proof.
  unfold reap_closed; simpl. rewrite map_lookup_filter, lookup_fmap.
  destruct (conns r !! pk) as [c|]; simpl; [|done].
  destruct (conns_is_empty (close_dead c)) eqn:E; case_guard; simpl; congruence.
Qed.

Lemma conn_at_reap_closed r pk lane :
  conn_at (fst (reap_closed r)) pk lane
  = match conn_at r pk lane with
    | Some l => if is_closed (tx l) then None else Some l
    | None => None
    end.
Proof.
  unfold conn_at. rewrite reap_closed_lookup. destruct (conns r !! pk) as [c|]; simpl; [|done].
  assert (forall l, slot (close_dead c) l = match slot c l with
    | Some k => if is_closed (tx k) then None else Some k | None => None end) as Hs.
  { intros l. unfold close_dead, lane_dead. destruct c as [[] []], l; simpl; by repeat case_match. }
  destruct (conns_is_empty (close_dead c)) eqn:E; simpl; [|apply Hs].
  rewrite <- Hs. destruct (close_dead c) as [[] []]; by destruct lane.
Qed.

Lemma wf_reap_closed r : wf_registry r -> wf_registry (fst (reap_closed r)).
Proof.
  intros Hwf. apply (wf_fewer_conns r); [done|done|exact (wf_spool _ Hwf)| |].
  - intros pk c. rewrite reap_closed_lookup. repeat case_match; congruence.
  - intros pk lane c. rewrite conn_at_reap_closed. by repeat case_match.
Qed.

Lemma wf_drop r pk : wf_registry r -> wf_registry (drop_pubkey r pk).
Proof.
  intros Hwf. apply (wf_fewer_conns r); [done|done| | |].
  - intros pk' q. simpl. rewrite lookup_delete_Some. intros [_ Hq]. by apply (wf_spool _ Hwf) in Hq.
  - intros pk' c. simpl. rewrite lookup_delete_Some. intros [_ Hq]. by apply (wf_conns _ Hwf) in Hq.
  - intros pk' lane c. unfold conn_at; simpl. rewrite lookup_delete. by case_decide.
Qed.

Lemma filter_length_le {A} (f : A -> bool) l : (length (List.filter f l) <= length l)%nat.
Proof. induction l as [|x l IH]; simpl; [lia|]. case_match; simpl; lia. Qed.

Lemma wf_reap_spool r now : wf_registry r -> wf_registry (fst (reap_expired_spool r now)).
Proof.
  intros Hwf. apply (wf_same_conns r); [done|done|].
  intros pk q. unfold reap_expired_spool; simpl. rewrite map_lookup_filter_Some, lookup_fmap_Some.
  intros [(q0 & <- & Hq) Hne]. split; [done|].
  apply (wf_spool _ Hwf) in Hq as [_ Hq].
  pose proof (filter_length_le (fun sf => duration_since now (sf_at sf) <=? SPOOL_TTL) q0).
  unfold unexpired. lia.
Qed.

Lemma wf_registry_new : wf_registry registry_new.
Proof. split; try done. Qed.

Lemma wf_step r r' : wf_registry r -> registry_step r r' -> wf_registry r'.
Proof.
  intros Hwf Hs. revert Hwf. destruct Hs as [r now dst|r now pk lane tx Hn|r now pk frame prio
    |r pk lane id|r pk|r|r now]; intros Hwf.
  - apply (wf_same_conns r); [done| |unfold take_wake_slot; repeat case_match; exact (wf_spool _ Hwf)].
    unfold take_wake_slot. by repeat case_match.
  - by apply wf_register.
  - apply (wf_same_conns r); [done|apply forward_same_conns|apply forward_spool_ok; exact (wf_spool _ Hwf)].
  - by apply wf_unregister.
  - by apply wf_drop.
  - by apply wf_reap_closed.
  - by apply wf_reap_spool.
Qed.

(** In every registry that any sequence of operations can reach, no key has an entry
    without a live connection, no connection id is in use twice, and the spool of
    a key holds between one and sixteen frames. *)
Theorem registry_invariant r :
  rtc registry_step registry_new r ->
  (forall pk c, conns r !! pk = Some c -> conns_is_empty c = false) /\
  (forall pk lane c pk' lane' c', conn_at r pk lane = Some c -> conn_at r pk' lane' = Some c' ->
     conn_id c = conn_id c' -> pk = pk' /\ lane = lane') /\
  (forall pk q, spool r !! pk = Some q -> (1 <= length q <= 16)%nat).
Proof.
  intros Hr. assert (wf_registry r) as Hwf.
  { revert r Hr. apply (rtc_ind_r _ registry_new); [apply wf_registry_new|].
    intros r r' _ Hs Hwf. by eapply wf_step. }
  split_and!; [apply (wf_conns _ Hwf)|apply (wf_ids_inj _ Hwf)|].
  intros pk q Hq. apply (wf_spool _ Hwf) in Hq as [Hne Hl].
  pose proof SPOOL_CAP_eq. destruct q; [done|]. simpl in *. lia.
Qed.

(** [forward] accounts for every frame: the frame is handed to a live channel of the
    destination and the result is [true], or the result is [false] and the frame
    is either dropped, only because the chosen channel is full, or held at the
    back of the spool, only because there is no live channel for it. Bulk frames
    go to the [lo] connection alone; priority frames prefer [hi]. *)
Theorem forward_accounts r now pk frame prio :
  let '(r', ok) := forward r now pk frame prio in
  (ok = true -> exists c t, conns r !! pk = Some c /\ pick c prio = Some t /\
     try_send (sent r) t = Accepted /\ sent r' = sent r ++ [(t, frame)] /\ spool r' = spool r /\
     (prio = false -> tx <$> lo c = Some t) /\
     (prio = true -> tx <$> hi c = Some t \/ (hi c = None /\ tx <$> lo c = Some t))) /\
  (ok = false -> sent r' = sent r /\
     ((r' = r /\ exists c t, conns r !! pk = Some c /\ pick c prio = Some t /\ try_send (sent r) t = Full) \/
      ((forall c t, conns r !! pk = Some c -> pick c prio = Some t -> try_send (sent r) t = Closed) /\
       exists q, spool r' !! pk = Some (q ++ [mkSpooledFrame now prio frame])))) /\
  conns r' = conns r.
Proof.
  unfold forward. destruct (conns r !! pk) as [c|] eqn:Hc; simpl.
  2: { split_and!; [done| |done]. intros _. split; [done|]. right. split; [done|].
       apply push_spool_back. }
  destruct (pick c prio) as [t|] eqn:Hp; simpl.
  2: { split_and!; [done| |done]. intros _. split; [done|]. right.
       split; [intros ?? [= <-]; congruence|]. apply push_spool_back. }
  destruct (try_send (sent r) t) eqn:Ht.
  - split_and!; [|done|done]. intros _. exists c, t. split_and!; try done.
    + intros ->. done.
    + intros ->. unfold pick in Hp. destruct (hi c); [by left|by right].
  - split_and!; [done| |done]. intros _. split; [done|]. left. split; [done|]. by exists c, t.
  - split_and!; [done| |done]. intros _. split; [done|]. right.
    split; [intros ?? [= <-] Hp'; congruence|]. apply push_spool_back.
Qed.

(** A reconnect race cannot evict the newer socket: unregistering with the id that
    [register] returned removes that connection if it is still the one in its
    lane, and leaves every other connection alone, in particular the one that
    replaced it. *)
Theorem unregister_only_own r now1 now2 pk lane tx1 tx2 :
  wf_registry r -> next_id r + 1 < u64_max ->
  let '(r1, id1) := register r now1 pk lane tx1 in
  let '(r2, id2) := register r1 now2 pk lane tx2 in
  conn_at (unregister r1 pk lane id1) pk lane = None /\
  conn_at (unregister r2 pk lane id1) pk lane = Some (mkLaneConn id2 tx2) /\
  conn_at (unregister r2 pk lane id2) pk lane = None /\
  (forall pk' lane' id, (pk', lane') <> (pk, lane) ->
     conn_at (unregister r2 pk lane id) pk' lane' = conn_at r pk' lane').
Proof.
  intros Hwf Hn. pose proof (wf_next_id _ Hwf) as H0.
  destruct (register_conns r now1 pk lane tx1) as (_ & Hi1 & Hid1).
  assert (forall pk' lane', conn_at (fst (register r now1 pk lane tx1)) pk' lane'
    = if decide (pk' = pk /\ lane' = lane) then Some (mkLaneConn (next_id r) tx1) else conn_at r pk' lane') as Hc1.
  { intros. apply conn_at_register. }
  destruct (register r now1 pk lane tx1) as [r1 id1]. simpl in *. subst id1.
  assert (next_id r1 = next_id r + 1) as Hn1.
  { rewrite Hi1. unfold u64_wrapping_add. apply Z.mod_small. unfold u64_max in Hn.
    change (2 ^ 64) with 18446744073709551616. lia. }
  destruct (register_conns r1 now2 pk lane tx2) as (_ & _ & Hid2).
  assert (forall pk' lane', conn_at (fst (register r1 now2 pk lane tx2)) pk' lane'
    = if decide (pk' = pk /\ lane' = lane) then Some (mkLaneConn (next_id r1) tx2) else conn_at r1 pk' lane') as Hc2.
  { intros. apply conn_at_register. }
  destruct (register r1 now2 pk lane tx2) as [r2 id2]. simpl in *. subst id2.
  split_and!.
  - rewrite conn_at_unregister, Hc1, !(decide_True (P := pk = pk /\ lane = lane)) by done. by rewrite decide_True.
  - rewrite conn_at_unregister, Hc2, !(decide_True (P := pk = pk /\ lane = lane)) by done.
    rewrite decide_False; [done|]. simpl. intros (_ & _ & [= Hx]). lia.
  - rewrite conn_at_unregister, Hc2, !(decide_True (P := pk = pk /\ lane = lane)) by done. by rewrite decide_True.
  - intros pk' lane' id Hne. rewrite conn_at_unregister, !Hc2, !Hc1.
    assert (~ (pk' = pk /\ lane' = lane)) by (intros [-> ->]; done).
    rewrite (decide_False (P := pk' = pk /\ lane' = lane /\ _)) by tauto.
    by rewrite !decide_False.
Qed.

(** Attempts to wake one destination at the given times: the times granted. *)
Fixpoint wakes (r : RelayRegistry) (dst : list Z) (times : list Z) : list Z :=
  match times with
  | [] => []
  | now :: times =>
      let '(r, ok) := take_wake_slot r now dst in
      if ok then now :: wakes r dst times else wakes r dst times
  end.

Definition apart (d : Z) (l : list Z) : Prop :=
  forall i a b, l !! i = Some a -> l !! S i = Some b -> d <= b - a.

Lemma apart_cons d a l :
  (forall b, head l = Some b -> d <= b - a) -> apart d l -> apart d (a :: l).
Proof.
  intros Hh Hl [|i] x y; simpl; [|apply Hl].
  intros [= <-] Hy. apply Hh. by destruct l.
Qed.

Lemma wakes_after r dst times last :
  wake_cooldown r !! dst = Some last ->
  apart WAKE_COOLDOWN (wakes r dst times) /\
  (forall b, head (wakes r dst times) = Some b -> WAKE_COOLDOWN <= b - last).
Proof.
  revert r last. induction times as [|now times IH]; intros r last Hl; simpl.
  { by split; [intros ???|]. }
  unfold take_wake_slot. rewrite Hl.
  destruct (WAKE_COOLDOWN <=? duration_since now last) eqn:E; [|by apply IH].
  destruct (IH (r <| wake_cooldown := <[dst := now]> (wake_cooldown r) |>) now) as [H1 H2].
  { simpl. by rewrite lookup_insert_eq. }
  split; [by apply apart_cons|]. intros b [= <-].
  unfold duration_since, WAKE_COOLDOWN in *. lia.
Qed.

(** A destination is woken at most once per cooldown: whatever the attempts and
    whoever makes them, granted wakes of one destination are at least five
    seconds apart, and the first attempt ever is granted. *)
Theorem wake_rate_limited r dst times :
  apart WAKE_COOLDOWN (wakes r dst times) /\
  (wake_cooldown r !! dst = None -> head (wakes r dst times) = head times).
Proof.
  split.
  - destruct (wake_cooldown r !! dst) as [last|] eqn:E; [by eapply wakes_after|].
    destruct times as [|now times]; [by intros ???|]. simpl. unfold take_wake_slot. rewrite E.
    destruct (wakes_after (r <| wake_cooldown := <[dst := now]> (wake_cooldown r) |>) dst times now) as [H1 H2].
    { simpl. by rewrite lookup_insert_eq. }
    by apply apart_cons.
  - intros E. destruct times as [|now times]; [done|]. simpl. unfold take_wake_slot. by rewrite E.
Qed.

(** *** What a registration flushes *)

(** The held frames that are still fresh, split into those that a connection can
    take, with their channel, and those that none can. *)
Definition fresh_held (now : Z) (held : list SpooledFrame) : list SpooledFrame := unexpired now held.
Definition flushed (c : PeerConns) (now : Z) (held : list SpooledFrame) : list (Sender * list Z) :=
  omap (fun sf => (fun t => (t, sf_frame sf)) <$> pick c (sf_hi_prio sf)) (fresh_held now held).
Definition respooled (c : PeerConns) (now : Z) (held : list SpooledFrame) : list SpooledFrame :=
  (fun sf => mkSpooledFrame now (sf_hi_prio sf) (sf_frame sf))
  <$> List.filter (fun sf => match pick c (sf_hi_prio sf) with None => true | _ => false end)
        (fresh_held now held).

Lemma flush_accepting held r now pk c :
  (forall l t, try_send l t = Accepted) -> conns r !! pk = Some c ->
  (length (default [] (spool r !! pk)) + length held <= SPOOL_CAP)%nat ->
  sent (flush r now pk held) = sent r ++ flushed c now held /\
  default [] (spool (flush r now pk held) !! pk) = default [] (spool r !! pk) ++ respooled c now held.
Proof.
  intros Hacc. revert r. induction held as [|sf held IH]; intros r Hc Hl.
  { unfold flushed, respooled; simpl. by rewrite !app_nil_r. }
  simpl in Hl. unfold flushed, respooled, fresh_held, unexpired in *. cbn [flush List.filter].
  destruct (SPOOL_TTL <? duration_since now (sf_at sf)) eqn:Et.
  { replace (duration_since now (sf_at sf) <=? SPOOL_TTL) with false by lia. apply IH; [done|lia]. }
  replace (duration_since now (sf_at sf) <=? SPOOL_TTL) with true by lia.
  cbn [omap list_omap List.filter]. unfold forward. rewrite Hc. simpl.
  destruct (pick c (sf_hi_prio sf)) as [t|] eqn:Hp; simpl.
  - rewrite Hacc. simpl. pose proof (IH (r <| sent := sent r ++ [(t, sf_frame sf)] |>)) as IH'.
    destruct (IH' Hc) as [H1 H2]; [simpl; lia|]. split.
    + etrans; [exact H1|]. simpl. by rewrite <- app_assoc.
    + exact H2.
  - assert (default [] (spool (push_spool r now pk (sf_hi_prio sf) (sf_frame sf)) !! pk)
      = default [] (spool r !! pk) ++ [mkSpooledFrame now (sf_hi_prio sf) (sf_frame sf)]) as Hps.
    { unfold push_spool; simpl. rewrite lookup_insert_eq. simpl.
      destruct (SPOOL_CAP <=? length (default [] (spool r !! pk)))%nat eqn:E; [|done].
      apply Nat.leb_le in E. lia. }
    destruct (IH (push_spool r now pk (sf_hi_prio sf) (sf_frame sf))) as [H1 H2].
    + done.
    + rewrite Hps, length_app. simpl. lia.
    + split; [exact H1|]. etrans; [exact H2|]. by rewrite Hps, <- app_assoc.
Qed.

(** What a (re)registering socket receives: with channels that accept, [register]
    hands over exactly the held frames that are not expired and that one of the
    key's connections can take, in the order they were held; expired frames are
    dropped, and a fresh frame that still has no connection is held again, in
    order, with the time of the registration. *)
Theorem register_flushes_in_order r now pk lane tx :
  wf_registry r -> (forall l t, try_send l t = Accepted) ->
  let r' := fst (register r now pk lane tx) in
  let c := set_slot (default no_conns (conns r !! pk)) lane (Some (mkLaneConn (next_id r) tx)) in
  let held := default [] (spool r !! pk) in
  conns r' !! pk = Some c /\
  sent r' = sent r ++ flushed c now held /\
  default [] (spool r' !! pk) = respooled c now held.
Proof.
  intros Hwf Hacc r' c held.
  destruct (register_conns r now pk lane tx) as (Hc & _ & _).
  assert (conns r' !! pk = Some c) as Hc'.
  { subst r'. rewrite Hc. by rewrite lookup_insert_eq. }
  split; [done|]. subst r' held. unfold register in *. simpl in *.
  destruct (spool r !! pk) as [held|] eqn:Hs; simpl in *.
  - apply (wf_spool _ Hwf) in Hs as [_ Hl].
    match goal with |- context [flush ?r0 now pk held] =>
      destruct (flush_accepting held r0 now pk c Hacc) as [H1 H2] end.
    + simpl. by rewrite lookup_insert_eq.
    + simpl. by rewrite lookup_delete_eq.
    + simpl in *. rewrite lookup_delete_eq in H2. by rewrite H1, H2.
  - rewrite Hs. unfold flushed, respooled; simpl. by rewrite app_nil_r.
Qed.
End Properties.

(** ** Witnesses *)

Definition accepting : Channels := {| try_send _ _ := Accepted; is_closed _ := false |}.

Definition one_spooled : RelayRegistry :=
  fst (forward (H := accepting) registry_new 0 [7] [1; 2] true).

Lemma registry_invariant_witness :
  rtc (registry_step (H := accepting)) registry_new one_spooled /\
  (forall pk q, spool one_spooled !! pk = Some q -> (1 <= length q <= 16)%nat).
Proof.
  assert (rtc (registry_step (H := accepting)) registry_new one_spooled) as Hr.
  { eapply rtc_l; [apply step_forward|apply rtc_refl]. }
  split; [done|]. exact (proj2 (proj2 (registry_invariant (H := accepting) _ Hr))).
Defined.

Lemma unregister_only_own_witness :
  let r1 := fst (register (H := accepting) registry_new 0 [7] Lo 1%N) in
  let r2 := fst (register (H := accepting) r1 5 [7] Lo 2%N) in
  conn_at (unregister r2 [7] Lo 0) [7] Lo = Some (mkLaneConn 1 2%N).
Proof.
  exact (proj1 (proj2 (unregister_only_own (H := accepting) registry_new 0 5 [7] Lo 1%N 2%N
    wf_registry_new ltac:(reflexivity)))).
Defined.

(** A frame held at time 0 outlives its time to live: a registration of the wrong
    lane holds it again as new. *)
Lemma register_flushes_in_order_witness :
  let r0 := fst (forward (H := accepting) registry_new 0 [7] [4; 2] false) in
  let r1 := fst (register (H := accepting) r0 1900000 [7] Hi 1%N) in
  let r2 := fst (register (H := accepting) r1 3800000 [7] Lo 2%N) in
  sent r1 = [] /\ sent r2 = [(2%N, [4; 2])] /\
  default [] (spool r1 !! [7]) = [mkSpooledFrame 1900000 false [4; 2]].
Proof.
  split_and!; [reflexivity|reflexivity|].
  refine (proj2 (proj2 (register_flushes_in_order (H := accepting)
    (fst (forward (H := accepting) registry_new 0 [7] [4; 2] false)) 1900000 [7] Hi 1%N _ _)));
    [|reflexivity].
  eapply wf_step; [apply wf_registry_new|apply step_forward].
Defined.
