(* ===== verification/RosterStore.v ===== *)
(** * The durable roster ([roster/store.rs])

    A snapshot of the roster in one file, replaced by writing a temporary file
    and renaming it over the snapshot. *)

From S2P Require Import Prelude NetAddr Types.

Open Scope Z_scope.

(** JSON of a list of peers, and its law: what is written reads back. *)
Class RosterSerde := {
  peers_to_json : list PeerJoined -> option (list Z);
  peers_of_json : list Z -> option (list PeerJoined);
}.
Class RosterSerdeLaws `{RosterSerde} := {
  peers_json_roundtrip : forall ps b, peers_to_json ps = Some b -> peers_of_json b = Some ps;
}.

(** The contents of [roster.json] and [roster.tmp], when they exist. *)
Record Files := mkFiles { snapshot_file : option (list Z); tmp_file : option (list Z) }.

(** [NoopRosterStore] and [FileRosterStore]. *)
Inductive RosterStore :=
| NoopRosterStore
| FileRosterStore (files : Files).

(** How the operating system answers the calls of one [save]: creating the
    directory; writing the temporary file, which on failure (or on a crash in
    the middle) may leave anything in it; renaming it. *)
Inductive WriteOutcome := WriteOk | WriteFailed (left_behind : option (list Z)).
Record SaveIo := mkSaveIo { mkdir_ok : bool; write_outcome : WriteOutcome; rename_ok : bool }.
Definition io_ok : SaveIo := mkSaveIo true WriteOk true.

Section Store.
Context `{RosterSerde}.

Definition load (s : RosterStore) (read_ok : bool) : list PeerJoined :=
  match s with
  | NoopRosterStore => []
  | FileRosterStore f =>
      if read_ok then
        match snapshot_file f with
        | Some bytes => default [] (peers_of_json bytes)
        | None => []
        end
      else []
  end.

Definition save (s : RosterStore) (io : SaveIo) (peers : list PeerJoined) : RosterStore :=
  match s with
  | NoopRosterStore => NoopRosterStore
  | FileRosterStore f =>
      match peers_to_json peers with
      | None => s
      | Some buf =>
          if mkdir_ok io then
            match write_outcome io with
            | WriteFailed left_behind => FileRosterStore (mkFiles (snapshot_file f) left_behind)
            | WriteOk =>
                if rename_ok io then FileRosterStore (mkFiles (Some buf) None)
                else FileRosterStore (mkFiles (snapshot_file f) (Some buf))
            end
          else s
      end
  end.

Lemma save_load `{!RosterSerdeLaws} s io peers :
  load (save s io peers) true = load s true \/ load (save s io peers) true = peers.
Proof.
  destruct s as [|f]; [by left|]. simpl. destruct (peers_to_json peers) as [buf|] eqn:Hj; [|by left].
  destruct (mkdir_ok io); [|by left]. destruct (write_outcome io); [|by left].
  destruct (rename_ok io); [|by left]. right. simpl. by rewrite (peers_json_roundtrip peers).
Qed.

Lemma save_ok_load `{!RosterSerdeLaws} f peers buf :
  peers_to_json peers = Some buf -> load (save (FileRosterStore f) io_ok peers) true = peers.
Proof. intros Hj. simpl. rewrite Hj. simpl. by rewrite (peers_json_roundtrip peers). Qed.

(** Saving is atomic whatever fails: after any number of saves, each of which may
    fail or be cut short at any of its system calls, with any garbage left in
    the temporary file, the snapshot that a restart loads is the list of peers
    of one of the saves, or what was there before the first; and if the last
    save succeeded it is that one. *)
Theorem saves_are_atomic `{!RosterSerdeLaws} s saves :
  let s' := foldl (fun s '(io, peers) => save s io peers) s saves in
  (load s' true = load s true \/ exists io peers, (io, peers) ∈ saves /\ load s' true = peers) /\
  (forall f peers buf pre, s = FileRosterStore f -> saves = pre ++ [(io_ok, peers)] ->
     peers_to_json peers = Some buf -> load s' true = peers).
Proof.
  split.
  - revert s. induction saves as [|[io peers] saves IH]; intros s; simpl; [by left|].
    destruct (IH (save s io peers)) as [Hl|(io' & ps & Hin & Hl)].
    + destruct (save_load s io peers) as [He|He]; [left; congruence|].
      right. exists io, peers. split; [by left|congruence].
    + right. exists io', ps. split; [by right|done].
  - intros f peers buf pre -> -> Hj. rewrite foldl_app. simpl.
    assert (exists f', foldl (fun s '(io, peers) => save s io peers) (FileRosterStore f) pre
                       = FileRosterStore f') as [f' ->].
    { clear -pre. revert f. induction pre as [|[io ps] pre IH]; intros f; simpl; [by exists f|].
      destruct (peers_to_json ps); [|apply IH]. destruct (mkdir_ok io); [|apply IH].
      destruct (write_outcome io); [destruct (rename_ok io)|]; apply IH. }
    by eapply save_ok_load.
Qed.
End Store.

(** A concrete serialisation for examples: the list of peers as one number. *)
Module ConcreteRoster.
#[export] Instance PeerJoined_countable : Countable PeerJoined.
Proof.
  refine (inj_countable'
    (fun p => (pj_peer_id p, pj_wg_public_key p, pj_ula p, pj_listen_endpoint p, pj_display_name p,
               pj_network p, pj_tags p, pj_hosted_app_ulas p,
               (pj_joined_at_micros p, pj_kind p, pj_parent p, pj_app_uuid p,
                pj_software_version p, pj_mesh_version p, pj_relay_only p)))
    (fun '(a, b, c, d, e, f, g, h, (i, j, k, l, m, n, o)) =>
       mkPeerJoined a b c d e f g h i j k l m n o) _).
  by intros [].
Defined.

#[export] Instance roster_serde : RosterSerde := {|
  peers_to_json ps := Some [Zpos (encode ps)];
  peers_of_json b := match b with [Zpos p] => decode p | _ => None end;
|}.
#[export] Instance roster_serde_laws : RosterSerdeLaws.
Proof. split. intros ps b [= <-]. simpl. apply decode_encode. Qed.
End ConcreteRoster.

Lemma saves_are_atomic_witness :
  let st := FileRosterStore (mkFiles None None) in
  let fail := mkSaveIo true (WriteFailed (Some [99])) true in
  exists p : PeerJoined,
    load (H := ConcreteRoster.roster_serde)
      (save (H := ConcreteRoster.roster_serde)
        (save (H := ConcreteRoster.roster_serde) st fail [p; p]) io_ok [p]) true = [p].
Proof.
  intros st fail.
  pose (p := mkPeerJoined "a" [1] "fd5a::1" EmptyString "n" "net" [] [] 3 "peer" None None None None false).
  exists p.
  exact (proj2 (@saves_are_atomic ConcreteRoster.roster_serde ConcreteRoster.roster_serde_laws st [(fail, [p; p]); (io_ok, [p])])
    (mkFiles None None) [p] [Zpos (encode [p])] [(fail, [p; p])] eq_refl eq_refl eq_refl).
Defined.
