(* ===== verification/RosterStoreConc.v ===== *)
(** * Saves of the roster that overlap ([roster/store.rs])

    [Coordinator::persist_roster] is called by every handler that changes the membership
    and by the sweeper, on the threads of the server, and all of them write through
    the one temporary file. Here each [save] is a small state machine over a directory
    with inodes, and any number of them step in any order. When the writes of no two
    overlap, the saves are those of [RosterStore], one after the other in some order;
    when they do, the snapshot may end up unreadable without any call having failed
    first. *)

From S2P Require Import Prelude NetAddr Types RosterStore.

Open Scope Z_scope.

(** ** The directory *)

(** The files by inode, and the two names of the directory. *)
Record Dir := mkDir { inodes : list (list Z); snapshot_name : option nat; tmp_name : option nat }.
#[export] Instance eta_Dir : Eta Dir := fun d => mkDir (inodes d) (snapshot_name d) (tmp_name d).

Definition read_name (d : Dir) (name : option nat) : option (list Z) := i ← name; inodes d !! i.
(** The directory as [RosterStore] sees it. *)
Definition files_of (d : Dir) : Files := mkFiles (read_name d (snapshot_name d)) (read_name d (tmp_name d)).

(** Opening [roster.tmp] for writing: the file is emptied, or made. *)
Definition open_tmp (d : Dir) : Dir * nat :=
  match tmp_name d with
  | Some i => (d <| inodes := <[i := []]> (inodes d) |>, i)
  | None => let i := length (inodes d) in ((d <| inodes := inodes d ++ [[]] |>) <| tmp_name := Some i |>, i)
  end.
(** Writing [chunk] at an offset; a gap before it reads as zeros. *)
Definition write_at (content : list Z) (off : nat) (chunk : list Z) : list Z :=
  take off (content ++ replicate off 0) ++ chunk ++ drop (off + length chunk) content.
Definition write_inode (d : Dir) (i off : nat) (chunk : list Z) : Dir :=
  d <| inodes := alter (fun content => write_at content off chunk) i (inodes d) |>.
(** Renaming [roster.tmp] to [roster.json]; [None]: there is no [roster.tmp]. *)
Definition rename_tmp (d : Dir) : option Dir :=
  i ← tmp_name d; Some ((d <| snapshot_name := Some i |>) <| tmp_name := None |>).

(** ** One save *)

(** Where a [save] is: its buffer is serialised; the file is open and [off] bytes of it
    have been written; the write has returned; done. *)
Inductive Saver :=
| Ready (peers : list PeerJoined) (buf : list Z)
| Writing (fd : nat) (peers : list PeerJoined) (buf : list Z) (off : nat)
| Filled (peers : list PeerJoined) (buf : list Z)
| Returned.

(** What the next call does. A write takes [n] bytes of what is left. *)
Inductive Call := MkdirFails | Open | OpenFails | Write (n : nat) | WriteFails | Rename | RenameFails.

Definition next (c : Call) (d : Dir) (s : Saver) : option (Dir * Saver) :=
  match s, c with
  | Ready peers buf, MkdirFails => Some (d, Returned)
  | Ready peers buf, Open => let '(d, i) := open_tmp d in Some (d, Writing i peers buf 0)
  | Ready peers buf, OpenFails => Some (d, Returned)
  | Writing i peers buf off, Write n =>
      let chunk := take n (drop off buf) in
      let off' := (off + length chunk)%nat in
      Some (write_inode d i off chunk,
            if (off' <? length buf)%nat then Writing i peers buf off' else Filled peers buf)
  | Writing _ _ _ _, WriteFails => Some (d, Returned)
  | Filled _ _, Rename => Some (default d (rename_tmp d), Returned)
  | Filled _ _, RenameFails => Some (d, Returned)
  | _, _ => None
  end.

(** ** Many saves *)

Definition Conf : Type := Dir * list Saver.
Definition step_at (k : nat) (c : Call) (x : Conf) : option Conf :=
  s ← x.2 !! k; '(d, s') ← next c x.1 s; Some (d, <[k := s']> x.2).
Definition conc_step (x x' : Conf) : Prop := exists k c, step_at k c x = Some x'.
Fixpoint run_schedule (schedule : list (nat * Call)) (x : Conf) : option Conf :=
  match schedule with
  | [] => Some x
  | (k, c) :: schedule => x' ← step_at k c x; run_schedule schedule x'
  end.

Definition busy (s : Saver) : bool := match s with Writing _ _ _ _ | Filled _ _ => true | _ => false end.
(** No two saves are between opening the temporary file and renaming it. *)
Definition exclusive (l : list Saver) : Prop :=
  forall k k' s s', l !! k = Some s -> l !! k' = Some s' -> busy s = true -> busy s' = true -> k = k'.
Definition exclusive_step (x x' : Conf) : Prop := conc_step x x' /\ exclusive x'.2.

Section Refinement.
Context `{RosterSerde}.

(** ** Exclusive saves are the saves of [RosterStore] *)

Definition wf_dir (d : Dir) : Prop :=
  (forall i, snapshot_name d = Some i -> (i < length (inodes d))%nat) /\
  (forall i, tmp_name d = Some i -> (i < length (inodes d))%nat /\ snapshot_name d <> Some i).

Definition ready_for (l : list Saver) : Prop :=
  forall s, s ∈ l -> exists peers buf, s = Ready peers buf /\ peers_to_json peers = Some buf.

(** The buffers are those of the peers. *)
Definition serialised (s : Saver) : Prop :=
  match s with
  | Ready peers buf | Writing _ peers buf _ | Filled peers buf => peers_to_json peers = Some buf
  | Returned => True
  end.

(** What a busy save has made of the temporary file. *)
Definition owns (d : Dir) (s : Saver) : Prop :=
  match s with
  | Writing i _ buf off => tmp_name d = Some i /\ inodes d !! i = Some (take off buf) /\ (off <= length buf)%nat
  | Filled _ buf => read_name d (tmp_name d) = Some buf
  | _ => True
  end.

(** The peers that a save is for. *)
Definition peers_of (s : Saver) : option (list PeerJoined) :=
  match s with Ready peers _ | Writing _ peers _ _ | Filled peers _ => Some peers | Returned => None end.

(** The relation between the directory and the store after some whole saves. *)
Definition refines (x : Conf) (f : Files) : Prop :=
  wf_dir x.1 /\ (forall s, s ∈ x.2 -> serialised s /\ owns x.1 s) /\ exclusive x.2
  /\ snapshot_file f = snapshot_file (files_of x.1)
  /\ ((forall s, s ∈ x.2 -> busy s = false) -> tmp_file f = tmp_file (files_of x.1)).

Lemma write_at_append buf off n :
  (off <= length buf)%nat ->
  write_at (take off buf) off (take n (drop off buf)) = take (off + length (take n (drop off buf))) buf.
Proof.
  intros Hl. unfold write_at. rewrite take_app_le by (rewrite length_take; lia). rewrite take_take, Nat.min_id.
  rewrite (drop_ge (take off buf)) by (rewrite length_take; lia). rewrite app_nil_r.
  rewrite <- take_take_drop. f_equal. rewrite length_take. destruct (decide (n <= length (drop off buf))%nat).
  - by rewrite Nat.min_l by lia.
  - rewrite Nat.min_r by lia. rewrite !take_ge; [done|lia..].
Qed.
Lemma elem_of_update (l : list Saver) k s s' x :
  l !! k = Some s -> x ∈ <[k := s']> l -> x = s' \/ exists j, j <> k /\ l !! j = Some x.
Proof.
  intros Hk (j & Hj)%list_elem_of_lookup_1. destruct (decide (j = k)) as [->|Hne].
  - rewrite list_lookup_insert_eq in Hj by (by eapply lookup_lt_Some). left. congruence.
  - rewrite list_lookup_insert_ne in Hj by done. right. by exists j.
Qed.
Lemma elem_of_updated (l : list Saver) k s s' : l !! k = Some s -> s' ∈ <[k := s']> l.
Proof. intros Hk. apply list_elem_of_lookup_2 with k, list_lookup_insert_eq. by eapply lookup_lt_Some. Qed.
Lemma idle_before (l : list Saver) k s s' :
  l !! k = Some s -> busy s = false -> (forall x, x ∈ <[k := s']> l -> busy x = false) -> forall x, x ∈ l -> busy x = false.
Proof.
  intros Hk Hs Hall x (j & Hj)%list_elem_of_lookup_1. destruct (decide (j = k)) as [->|Hne]; [congruence|].
  apply Hall, list_elem_of_lookup_2 with j. by rewrite list_lookup_insert_ne.
Qed.

(** While save [k] is busy, the claims of the others are kept, since they have none. *)
Lemma keep_claims d d' (l : list Saver) k s s' :
  l !! k = Some s -> (forall x, x ∈ l -> serialised x /\ owns d x) ->
  (forall j x, j <> k -> l !! j = Some x -> busy x = false) ->
  serialised s' -> owns d' s' -> forall x, x ∈ <[k := s']> l -> serialised x /\ owns d' x.
Proof.
  intros Hk Hcl Hb Hs' Ho x Hx. destruct (elem_of_update _ _ _ _ _ Hk Hx) as [->|(j & Hne & Hj)]; [done|].
  pose proof (Hb _ _ Hne Hj) as Hidle. destruct (Hcl x) as [? _]; [by eapply list_elem_of_lookup_2|].
  split; [done|]. by destruct x.
Qed.

Lemma others_idle (l : list Saver) k s j x :
  exclusive l -> l !! k = Some s -> busy s = true -> j <> k -> l !! j = Some x -> busy x = false.
Proof. intros He Hk Hs Hne Hj. destruct (busy x) eqn:Hx; [|done]. by destruct Hne; eapply He. Qed.

Lemma read_snapshot_other d i content :
  snapshot_name d <> Some i -> read_name (d <| inodes := <[i := content]> (inodes d) |>) (snapshot_name d) = read_name d (snapshot_name d).
Proof.
  intros Hne. unfold read_name. simpl. destruct (snapshot_name d) as [j|]; [simpl|done].
  rewrite list_lookup_insert_ne; [done|congruence].
Qed.

Definition files_after (f : Files) (saves : list (SaveIo * list PeerJoined)) : RosterStore :=
  foldl (fun s '(io, peers) => save s io peers) (FileRosterStore f) saves.

Lemma wf_write d i off chunk : wf_dir d -> wf_dir (write_inode d i off chunk).
Proof.
  intros [H1 H2]. unfold write_inode. split; simpl; rewrite length_alter; [done|].
  intros j Hj. by apply H2.
Qed.

Lemma refine_open d l k peers buf f :
  refines (d, l) f -> l !! k = Some (Ready peers buf) ->
  exclusive (<[k := Writing (open_tmp d).2 peers buf 0]> l) ->
  refines ((open_tmp d).1, <[k := Writing (open_tmp d).2 peers buf 0]> l) f.
Proof.
  intros (Hwf & Hcl & Hex & Hsn & Htm) Hk Hex'. cbn [fst snd] in *. pose proof Hwf as [Hs Ht].
  assert (wf_dir (open_tmp d).1 /\ read_name (open_tmp d).1 (snapshot_name (open_tmp d).1) = read_name d (snapshot_name d)
    /\ tmp_name (open_tmp d).1 = Some (open_tmp d).2 /\ inodes (open_tmp d).1 !! (open_tmp d).2 = Some []) as (H1 & H2 & H3 & H4).
  { unfold open_tmp. destruct (tmp_name d) as [i|] eqn:Hti.
    - destruct (Ht i eq_refl) as [Hlt Hne]. simpl. split_and!.
      + split; simpl; rewrite length_insert; [done|]. rewrite Hti. intros j [= <-]. done.
      + by apply read_snapshot_other.
      + done.
      + by apply list_lookup_insert_eq.
    - simpl. split_and!; [|destruct (snapshot_name d) as [j|] eqn:Hsn'; [|done]|done|by apply list_lookup_middle].
      + split; simpl; rewrite length_app; simpl.
        * intros j Hj. apply Hs in Hj. lia.
        * intros j [= <-]. split; [lia|]. intros Hj. apply Hs in Hj. lia.
      + unfold read_name. simpl. rewrite lookup_app_l; [done|by apply Hs]. }
  split_and!; cbn [fst snd]; try done.
  - eapply keep_claims; [done|exact Hcl| | |].
    + intros j x Hne Hj. eapply (others_idle _ k (Writing (open_tmp d).2 peers buf 0)); [exact Hex'| |done|exact Hne|by rewrite list_lookup_insert_ne].
      apply list_lookup_insert_eq. by eapply lookup_lt_Some.
    + by apply (Hcl _ (list_elem_of_lookup_2 _ _ _ Hk)).
    + simpl. split; [done|]. split; [done|lia].
  - simpl. by rewrite Hsn, H2.
  - intros Hall. by specialize (Hall _ (elem_of_updated _ _ _ _ Hk)).
Qed.

Lemma refine_write d l k i peers buf off n f :
  refines (d, l) f -> l !! k = Some (Writing i peers buf off) ->
  let chunk := take n (drop off buf) in
  let s' := if (off + length chunk <? length buf)%nat then Writing i peers buf (off + length chunk)%nat else Filled peers buf in
  exclusive (<[k := s']> l) ->
  refines (write_inode d i off chunk, <[k := s']> l) f.
Proof.
  intros (Hwf & Hcl & Hex & Hsn & Htm) Hk chunk s' Hex'. cbn [fst snd] in *.
  destruct (Hcl _ (list_elem_of_lookup_2 _ _ _ Hk)) as [Hser (Hti & Hin & Hle)].
  destruct Hwf as [Hs Ht]. destruct (Ht _ Hti) as [Hlt Hne].
  assert (inodes (write_inode d i off chunk) !! i = Some (take (off + length chunk) buf)) as Hin'.
  { unfold write_inode. simpl. rewrite list_lookup_alter_eq, Hin. simpl. f_equal. by apply write_at_append. }
  assert (length chunk <= length buf - off)%nat as Hch by (unfold chunk; rewrite length_take, length_drop; lia).
  split_and!; cbn [fst snd]; try done.
  - apply wf_write. by split.
  - eapply keep_claims; [done|exact Hcl|intros j x; exact (others_idle l k _ j x Hex Hk eq_refl)| |].
    + unfold s'. by destruct (_ <? _)%nat.
    + unfold s'. destruct (_ <? _)%nat eqn:El.
      * apply Nat.ltb_lt in El. simpl. split_and!; [done|exact Hin'|lia].
      * apply Nat.ltb_ge in El. simpl. unfold read_name. simpl. rewrite Hti. simpl.
        change (inodes (write_inode d i off chunk) !! i = Some buf). rewrite Hin'. f_equal. apply take_ge. lia.
  - simpl. rewrite Hsn. unfold read_name. simpl. destruct (snapshot_name d) as [j|]; [simpl|done].
    rewrite list_lookup_alter_ne; [done|congruence].
  - intros Hall. specialize (Hall _ (elem_of_updated _ _ _ s' Hk)). exfalso. unfold s' in Hall. by destruct (_ <? _)%nat.
Qed.
(** A save that ends leaves the store as it is. *)
Lemma refine_end d d' l k s f :
  refines (d, l) f -> l !! k = Some s -> wf_dir d' ->
  (forall j x, j <> k -> l !! j = Some x -> owns d x -> owns d' x) ->
  exclusive (<[k := Returned]> l) ->
  forall f', snapshot_file f' = snapshot_file (files_of d') ->
    ((forall x, x ∈ <[k := Returned]> l -> busy x = false) -> tmp_file f' = tmp_file (files_of d')) ->
  refines (d', <[k := Returned]> l) f'.
Proof.
  intros (_ & Hcl & _) Hk Hwf Hothers Hex f' Hs Ht. cbn [fst snd] in *. split_and!; cbn [fst snd]; try done.
  intros x Hx. destruct (elem_of_update _ _ _ _ _ Hk Hx) as [->|(j & Hne & Hj)]; [done|].
  destruct (Hcl x) as [? ?]; [by eapply list_elem_of_lookup_2|]. split; [done|]. by eapply Hothers.
Qed.

Lemma no_claim d d' x : busy x = false -> owns d x -> owns d' x.
Proof. by destruct x. Qed.

Lemma refine_rename d l k peers buf f :
  refines (d, l) f -> l !! k = Some (Filled peers buf) -> exclusive (<[k := Returned]> l) ->
  exists f', files_after f [(io_ok, peers)] = FileRosterStore f'
    /\ refines (default d (rename_tmp d), <[k := Returned]> l) f'.
Proof.
  intros Hr Hk Hex'. pose proof Hr as (Hwf & Hcl & Hex & _). cbn [fst snd] in *.
  destruct (Hcl _ (list_elem_of_lookup_2 _ _ _ Hk)) as [Hser Ho]. simpl in Hser, Ho.
  unfold files_after. simpl. rewrite Hser. simpl. eexists. split; [done|].
  unfold read_name in Ho. unfold rename_tmp. destruct (tmp_name d) as [i|] eqn:Hti; [simpl in Ho|done]. simpl.
  destruct Hwf as [Hs Ht]. destruct (Ht _ Hti) as [Hlt _].
  eapply refine_end; [exact Hr|exact Hk| | |exact Hex'|..]; simpl.
  - split; simpl; [by intros j [= <-]|done].
  - intros j x Hne Hj. apply no_claim. exact (others_idle l k _ j x Hex Hk eq_refl Hne Hj).
  - by rewrite <- Ho.
  - done.
Qed.

Lemma refine_failed d l k s peers io tmp f :
  refines (d, l) f -> l !! k = Some s -> busy s = true -> exclusive (<[k := Returned]> l) ->
  files_after f [(io, peers)] = FileRosterStore (mkFiles (snapshot_file f) tmp) ->
  tmp = tmp_file (files_of d) ->
  exists f', files_after f [(io, peers)] = FileRosterStore f' /\ refines (d, <[k := Returned]> l) f'.
Proof.
  intros Hr Hk Hs Hex' Hf Htmp. pose proof Hr as (Hwf & _ & Hex & Hsn & _). cbn [fst snd] in *.
  eexists. split; [exact Hf|]. eapply refine_end; [exact Hr|exact Hk|exact Hwf| |exact Hex'|done|done].
  intros j x Hne Hj. apply no_claim. exact (others_idle l k _ j x Hex Hk Hs Hne Hj).
Qed.

(** Every step of an exclusive run is no save, or one whole save. *)
Lemma refine_step x x' f :
  refines x f -> exclusive_step x x' ->
  exists saves f', (forall io peers, (io, peers) ∈ saves -> Some peers ∈ peers_of <$> x.2)
    /\ files_after f saves = FileRosterStore f' /\ refines x' f'.
Proof.
  destruct x as [d l], x' as [d' l']. intros Hr ((k & c & Hst) & Hex'). pose proof Hr as (Hwf & Hcl & Hex & Hsn & Htm).
  unfold step_at in Hst. cbn [fst snd] in *. apply bind_Some in Hst as (s & Hk & Hst).
  apply bind_Some in Hst as ([d1 s1] & Hn & [= <- <-]).
  assert (forall io, Some (default [] (peers_of s)) = peers_of s -> forall io' peers', (io', peers') ∈ [(io : SaveIo, default [] (peers_of s))] ->
    Some peers' ∈ peers_of <$> l) as Hmem.
  { intros io Hp io' peers' [_ ->]%list_elem_of_singleton%pair_eq. rewrite Hp. apply list_elem_of_fmap_2. by eapply list_elem_of_lookup_2. }
  destruct (Hcl _ (list_elem_of_lookup_2 _ _ _ Hk)) as [Hser Ho].
  assert (forall io' peers', (io', peers') ∈ ([] : list (SaveIo * list PeerJoined)) -> Some peers' ∈ peers_of <$> l) as Hnil
    by (intros ? ? Hx; inversion Hx).
  destruct s as [peers buf|i peers buf off|peers buf|]; destruct c as [| | |n| | |]; try discriminate Hn; simpl in Hn.
  - injection Hn as <- <-. exists [], f. split; [done|]. split; [done|]. eapply refine_end; [exact Hr|exact Hk|done| |done|done|].
    + done.
    + intros Hall. apply Htm. by eapply idle_before.
  - destruct (open_tmp d) as [d2 i2] eqn:Eo. injection Hn as <- <-. exists [], f. split; [done|]. split; [done|].
    pose proof (refine_open d l k peers buf f Hr Hk) as H1. rewrite Eo in H1. by apply H1.
  - injection Hn as <- <-. exists [], f. split; [done|]. split; [done|]. eapply refine_end; [exact Hr|exact Hk|done| |done|done|].
    + done.
    + intros Hall. apply Htm. by eapply idle_before.
  - injection Hn as <- <-. exists [], f. split; [done|]. split; [done|]. by apply refine_write.
  - injection Hn as <- <-. destruct Ho as (Hti & Hin & _).
    destruct (refine_failed d l k _ peers (mkSaveIo true (WriteFailed (Some (take off buf))) true) (Some (take off buf)) f Hr Hk eq_refl Hex')
      as (f' & Hf & Hr').
    + unfold files_after. simpl. simpl in Hser. by rewrite Hser.
    + unfold files_of, read_name. simpl. by rewrite Hti.
    + eexists [(_, peers)], f'. split; [exact (Hmem _ eq_refl)|]. by split.
  - injection Hn as <- <-. destruct (refine_rename d l k peers buf f Hr Hk Hex') as (f' & Hf & Hr').
    exists [(io_ok, peers)], f'. split; [exact (Hmem _ eq_refl)|]. by split.
  - injection Hn as <- <-.
    destruct (refine_failed d l k _ peers (mkSaveIo true WriteOk false) (Some buf) f Hr Hk eq_refl Hex') as (f' & Hf & Hr').
    + unfold files_after. simpl. simpl in Hser. by rewrite Hser.
    + done.
    + eexists [(_, peers)], f'. split; [exact (Hmem _ eq_refl)|]. by split.
Qed.

Lemma step_peers x x' p : conc_step x x' -> Some p ∈ peers_of <$> x'.2 -> Some p ∈ peers_of <$> x.2.
Proof.
  destruct x as [d l], x' as [d' l']. intros (k & c & Hst). unfold step_at in Hst. cbn [fst snd] in *.
  apply bind_Some in Hst as (s & Hk & Hst). apply bind_Some in Hst as ([d1 s1] & Hn & [= <- <-]).
  intros (y & Hy & Hin)%list_elem_of_fmap. rewrite Hy. destruct (elem_of_update _ _ _ _ _ Hk Hin) as [->|(j & _ & Hj)].
  - assert (peers_of s1 = peers_of s) as ->.
    { destruct s, c; try discriminate Hn; simpl in Hn; try (injection Hn as <- <-; done).
      - destruct (open_tmp d). by injection Hn as <- <-.
      - injection Hn as <- <-. by destruct (_ <? _)%nat. }
    apply list_elem_of_fmap_2. by eapply list_elem_of_lookup_2.
  - apply list_elem_of_fmap_2. by eapply list_elem_of_lookup_2.
Qed.

Lemma refine_run x x' f :
  refines x f -> rtc exclusive_step x x' ->
  exists saves f', (forall io peers, (io, peers) ∈ saves -> Some peers ∈ peers_of <$> x.2)
    /\ files_after f saves = FileRosterStore f' /\ refines x' f'.
Proof.
  intros Hr Hrun. revert f Hr. induction Hrun as [x|x y z Hs _ IH]; intros f Hr.
  - exists [], f. split; [intros ? ? Hx; inversion Hx|]. by split.
  - destruct (refine_step _ _ _ Hr Hs) as (saves1 & f1 & Hin1 & Hf1 & Hr1).
    destruct (IH _ Hr1) as (saves2 & f2 & Hin2 & Hf2 & Hr2). exists (saves1 ++ saves2), f2. split_and!; [|..].
    + intros io peers [Hx|Hx]%elem_of_app; [by eapply Hin1|]. destruct Hs as [Hs _]. eapply step_peers; [exact Hs|]. by eapply Hin2.
    + unfold files_after in *. by rewrite foldl_app, Hf1.
    + done.
Qed.
Lemma refines_start d l : wf_dir d -> ready_for l -> refines (d, l) (files_of d).
Proof.
  intros Hwf Hl. split_and!; cbn [fst snd]; try done.
  - intros s Hs. by destruct (Hl s Hs) as (peers & buf & -> & Hj).
  - intros k k' s s' Hk _ Hb _. destruct (Hl s) as (peers & buf & -> & _); [by eapply list_elem_of_lookup_2|]. done.
Qed.

(** C32: Saves whose writes do not overlap are whole saves in some order: whatever order the
    savers step in and whichever of their calls fail, when no two are between opening
    the temporary file and renaming it at the same time, the two files are what the
    saves of [RosterStore] leave, each for the peers of one of the savers; at every
    moment in between, a crash included, the snapshot is that of the saves that have
    ended. So what a restart loads is always one of the rosters that were to be saved,
    complete, or what was there before. *)
Theorem exclusive_saves_refine `{!RosterSerdeLaws} d l d' l' :
  wf_dir d -> ready_for l -> rtc exclusive_step (d, l) (d', l') ->
  exists saves,
    (forall io peers, (io, peers) ∈ saves -> Some peers ∈ peers_of <$> l)
    /\ (exists f, files_after (files_of d) saves = FileRosterStore f
          /\ snapshot_file (files_of d') = snapshot_file f
          /\ ((forall s, s ∈ l' -> busy s = false) -> files_of d' = f))
    /\ (let found := load (FileRosterStore (files_of d')) true in
        found = load (FileRosterStore (files_of d)) true \/ Some found ∈ peers_of <$> l).
Proof.
  intros Hwf Hl Hrun. destruct (refine_run _ _ _ (refines_start d l Hwf Hl) Hrun) as (saves & f & Hin & Hf & Hr).
  exists saves. split; [exact Hin|]. destruct Hr as (_ & _ & _ & Hsn & Htm). cbn [fst snd] in *. split.
  - exists f. split; [done|]. split; [done|]. intros Hidle. specialize (Htm Hidle). destruct f, (files_of d'). simpl in *. by subst.
  - assert (load (FileRosterStore (files_of d')) true = load (files_after (files_of d) saves) true) as ->.
    { rewrite Hf. unfold load. by rewrite Hsn. }
    destruct (saves_are_atomic (FileRosterStore (files_of d)) saves) as [[He|(io & peers & Hs & He)] _]; [by left|right].
    unfold files_after. rewrite He. by eapply Hin.
Qed.
End Refinement.

(** ** Overlapping saves *)

Module Overlap.
(** A text that, as JSON does, has an end and refuses anything after it: a symbol for
    each peer, and a mark. *)
#[export] Existing Instance ConcreteRoster.PeerJoined_countable.
Definition text (ps : list PeerJoined) : list Z := ((fun p => Zpos (encode p)) <$> ps) ++ [0].
Fixpoint of_text (l : list Z) : option (list PeerJoined) :=
  match l with
  | [0] => Some []
  | Zpos n :: l => p ← decode n; ps ← of_text l; Some (p :: ps)
  | _ => None
  end.
#[export] Instance text_serde : RosterSerde := {| peers_to_json ps := Some (text ps); peers_of_json := of_text |}.
#[export] Instance text_serde_laws : RosterSerdeLaws.
Proof.
  split. intros ps b [= <-]. cbn [peers_of_json text_serde]. unfold text. induction ps as [|p ps IH]; [done|].
  rewrite fmap_cons. cbn [app of_text]. rewrite decode_encode. cbn [mbind option_bind]. by rewrite IH.
Qed.

Definition member : PeerJoined := mkPeerJoined "a" [1] "fd5a::1" EmptyString "n" "net" [] [] 3 "peer" None None None None false.
Definition saver (ps : list PeerJoined) : Saver := Ready ps (text ps).
Definition before : Dir := mkDir [text [member]] (Some 0%nat) None.
(** Two members, and one after the other has left. *)
Definition savers : list Saver := [saver [member; member]; saver [member]].
Lemma before_wf : wf_dir before.
Proof. split; simpl; [intros i [= <-]; lia|done]. Qed.
Lemma savers_ready : ready_for savers.
Proof.
  intros s [->|[->|Hs]%elem_of_cons]%elem_of_cons; [by eexists _, _|by eexists _, _|inversion Hs].
Qed.

Definition all : nat := 64.
Definition overlapping : list (nat * Call) :=
  [(0, Open); (1, Open); (0, Write all); (1, Write all); (0, Rename); (1, Rename)]%nat.
Definition in_turn : list (nat * Call) :=
  [(0, Open); (0, Write all); (0, Rename); (1, Open); (1, Write all); (1, Rename)]%nat.

(** Both saves open the temporary file before either has written it. Every call but the
    last rename, which finds nothing left to rename, succeeds; both saves return; and
    the snapshot is the shorter text with the end of the longer one behind it, which a
    restart cannot read: it starts with an empty roster. In turn, the same two saves
    leave the second roster. *)
Lemma overlapping_saves_lose_the_roster :
  (exists d, run_schedule overlapping (before, savers) = Some (d, [Returned; Returned])
    /\ load (FileRosterStore (files_of d)) true = [])
  /\ (exists d, run_schedule in_turn (before, savers) = Some (d, [Returned; Returned])
    /\ load (FileRosterStore (files_of d)) true = [member]).
Proof. split; eexists; (split; [vm_compute; reflexivity|vm_compute; reflexivity]). Qed.

(** ** The theorem on the run in turn *)

Definition busy_at (l : list Saver) (k : nat) : bool := match l !! k with Some s => busy s | None => false end.
Definition exclusive_b (l : list Saver) : bool :=
  forallb (fun k => forallb (fun k' => implb (busy_at l k && busy_at l k') (k =? k')%nat) (seq 0 (length l))) (seq 0 (length l)).
Lemma exclusive_b_sound l : exclusive_b l = true -> exclusive l.
Proof.
  intros H k k' s s' Hk Hk' Hs Hs'. unfold exclusive_b in H.
  assert (forall j x, l !! j = Some x -> In j (seq 0 (length l))) as Hin.
  { intros j x Hj. apply in_seq. apply lookup_lt_Some in Hj. lia. }
  pose proof (proj1 (forallb_forall _ _) (proj1 (forallb_forall _ _) H k (Hin _ _ Hk)) k' (Hin _ _ Hk')) as He.
  cbn beta in He. unfold busy_at in He. rewrite Hk, Hk', Hs, Hs' in He. simpl in He. lia.
Qed.

Fixpoint run_exclusive (schedule : list (nat * Call)) (x : Conf) : option Conf :=
  match schedule with
  | [] => Some x
  | (k, c) :: schedule =>
      x' ← step_at k c x; if exclusive_b x'.2 then run_exclusive schedule x' else None
  end.
Lemma run_exclusive_rtc schedule x x' : run_exclusive schedule x = Some x' -> rtc exclusive_step x x'.
Proof.
  revert x. induction schedule as [|[k c] schedule IH]; intros x; simpl; [intros [= <-]; apply rtc_refl|].
  destruct (step_at k c x) as [y|] eqn:Hs; [simpl|done]. destruct (exclusive_b y.2) eqn:He; [|done].
  intros Hr. eapply rtc_l; [|by apply IH]. split; [by exists k, c|by apply exclusive_b_sound].
Qed.

(** A crash after the first save and in the middle of the second: what is found is the
    first roster. *)
Definition cut_short : list (nat * Call) := (take 4 in_turn ++ [(1, Write 1); (1, WriteFails)])%nat.
Lemma exclusive_saves_refine_witness :
  exists d saves, run_exclusive cut_short (before, savers) = Some (d, [Returned; Returned])
    /\ load (FileRosterStore (files_of d)) true = [member; member]
    /\ files_after (files_of before) saves = FileRosterStore (files_of d).
Proof.
  destruct (run_exclusive cut_short (before, savers)) as [[d l]|] eqn:Er; [|vm_compute in Er; discriminate Er].
  assert (l = [Returned; Returned] /\ load (FileRosterStore (files_of d)) true = [member; member]) as [-> Hl].
  { pose (check := fun x : Conf => (x.2, load (FileRosterStore (files_of x.1)) true)).
    assert (Some (check (d, l)) = Some ([Returned; Returned], [member; member])) as E.
    { transitivity (check <$> run_exclusive cut_short (before, savers)); [rewrite Er; reflexivity|vm_compute; reflexivity]. }
    injection E as E1 E2. split; [exact E1|exact E2]. }
  destruct (exclusive_saves_refine before savers d [Returned; Returned] before_wf savers_ready (run_exclusive_rtc _ _ _ Er))
    as (saves & Hin & (f & Hf & _ & Hidle) & _).
  exists d, saves. split; [reflexivity|]. split; [exact Hl|]. rewrite Hf. f_equal. symmetry. apply Hidle.
  intros s [->|[->|Hs]%elem_of_cons]%elem_of_cons; [reflexivity|reflexivity|inversion Hs].
Defined.
End Overlap.
