(* ===== verification/Coordinator.v ===== *)
(** * The coordinator's state and queries ([roster/coordinator/mod.rs])

    [Inner], everything the coordinator keeps; the queries over it (snapshots,
    topology, metrics), the small operations on it, the command queue of
    [command_queue.rs], and the visibility queries of [roster/filter.rs]. The
    handlers that change the roster are in [Apply], [Registration] and
    [Heartbeat]. *)

From S2P Require Import Prelude NetAddr Types Allocator Policy HolePunch DirectFlags.
From S2P Require Import RelayRegistry RosterStore.

Open Scope Z_scope.

(** ** The environment of the operations *)

(** The order in which a concurrent map is iterated is unspecified: any
    enumeration of its entries. *)
Class Iteration := { iter_map : forall {A}, gmap Uuid A -> list (Uuid * A) }.
Class IterationLaws `{Iteration} := {
  iter_map_perm : forall A (m : gmap Uuid A), iter_map m ≡ₚ map_to_list m;
}.

(** What an operation reads of the outside: the monotonic clock and the wall
    clock (microseconds), the next fresh UUID, and how the file system answers
    when the roster is saved. The clocks stand still within one operation. *)
Record Env := mkEnv { now : Z; wall : Z; fresh_id : Uuid; save_io : SaveIo }.

(** ** State *)

Record PairRelayStat := mkPairRelayStat { bytes : Z; handshake_frames : Z }.

(** [published] and [broadcasts] are the logs of what was handed to the event
    publisher and to the subscribers, oldest first. *)
Record Inner := mkInner {
  roster : gmap Uuid PeerEntry;
  by_pubkey : gmap (list Z) Uuid;
  allocator : UlaAllocator;
  published : list MeshEvent;
  broadcasts : list PeerEvent;
  policy_store : PolicyStore;
  has_validator : bool;
  heartbeat_timeout : Z;
  punch_tracker : PunchTracker;
  direct_pair_flags : DirectPairFlags;
  proactive : bool;
  relay_forwarded_bytes : Z;
  holepunch_emitted : Z;
  relay_wake_emitted : Z;
  relay_pair_stats : gmap (Uuid * Uuid) PairRelayStat;
  relay : RelayRegistry;
  roster_store : RosterStore;
}.
#[export] Instance eta_Inner : Eta Inner := fun s =>
  mkInner (roster s) (by_pubkey s) (allocator s) (published s) (broadcasts s) (policy_store s)
    (has_validator s) (heartbeat_timeout s) (punch_tracker s) (direct_pair_flags s) (proactive s)
    (relay_forwarded_bytes s) (holepunch_emitted s) (relay_wake_emitted s) (relay_pair_stats s)
    (relay s) (roster_store s).

Definition with_policy_validator_store (timeout : Z) (policy : PolicyStore) (validator : bool)
    (store : RosterStore) : Inner :=
  {| roster := ∅; by_pubkey := ∅; allocator := allocator_new; published := []; broadcasts := [];
     policy_store := policy; has_validator := validator; heartbeat_timeout := timeout;
     punch_tracker := tracker_new; direct_pair_flags := flags_new; proactive := false;
     relay_forwarded_bytes := 0; holepunch_emitted := 0; relay_wake_emitted := 0;
     relay_pair_stats := ∅; relay := registry_new; roster_store := store |}.

Definition with_policy_and_validator (timeout : Z) (policy : PolicyStore) (validator : bool) : Inner :=
  with_policy_validator_store timeout policy validator NoopRosterStore.
Definition with_policy (timeout : Z) (policy : PolicyStore) : Inner :=
  with_policy_and_validator timeout policy false.
Definition coordinator_new `{PolicySerde} (timeout : Z) : Inner := with_policy timeout store_empty.

(** [publish_event] and [broadcast]: best-effort, never an error. *)
Definition publish_event (s : Inner) (e : MeshEvent) : Inner :=
  s <| published := published s ++ [e] |>.
Definition broadcast (s : Inner) (e : PeerEvent) : Inner :=
  s <| broadcasts := broadcasts s ++ [e] |>.

Section Operations.
Context {EX : Externals} {IT : Iteration} {RS : RosterSerde} {CH : Channels}.

(** The roster's entries, in the order of iteration. *)
Definition entries (s : Inner) : list PeerEntry := snd <$> iter_map (roster s).

(** An update of one entry through [get_mut]: nothing when it is absent. *)
Definition update_entry (s : Inner) (id : Uuid) (f : PeerEntry -> PeerEntry) : Inner :=
  s <| roster := alter f id (roster s) |>.

Definition persist_roster (s : Inner) (io : SaveIo) : Inner :=
  s <| roster_store := save (roster_store s) io (to_joined_event <$> entries s) |>.

(** ** Counters *)

Definition note_relay_forwarded (s : Inner) (n : Z) : Inner :=
  s <| relay_forwarded_bytes := u64_wrapping_add (relay_forwarded_bytes s) n |>.

Definition note_relay_pair_forwarded (s : Inner) (src_pubkey dst_pubkey : list Z) (n : Z)
    (hi_prio : bool) : Inner :=
  match by_pubkey s !! src_pubkey, by_pubkey s !! dst_pubkey with
  | Some src, Some dst =>
      let stat := default (mkPairRelayStat 0 0) (relay_pair_stats s !! (src, dst)) in
      let stat := mkPairRelayStat (u64_wrapping_add (bytes stat) n)
                    (if hi_prio then u64_wrapping_add (handshake_frames stat) 1
                     else handshake_frames stat) in
      s <| relay_pair_stats := <[(src, dst) := stat]> (relay_pair_stats s) |>
  | _, _ => s
  end.

Definition note_holepunch_emitted (s : Inner) : Inner :=
  s <| holepunch_emitted := u64_wrapping_add (holepunch_emitted s) 1 |>.
Definition note_relay_wake_emitted (s : Inner) : Inner :=
  s <| relay_wake_emitted := u64_wrapping_add (relay_wake_emitted s) 1 |>.

Definition proactive_on (s : Inner) : bool := proactive s.
Definition set_proactive (s : Inner) (on : bool) : Inner := s <| proactive := on |>.

(** ** Lookups *)

Definition is_registered_pubkey (s : Inner) (pk : list Z) : bool :=
  bool_decide (is_Some (by_pubkey s !! pk)).

Definition peer_for_pubkey (s : Inner) (pk : list Z) : option (Uuid * Ipv6Addr) :=
  id ← by_pubkey s !! pk;
  entry ← roster s !! id;
  Some (id, ula entry).

(** ** Connectivity *)

Definition edge (s : Inner) (vantage target : Uuid) : option (bool * Z) :=
  e ← roster s !! vantage;
  p ← paths e !! target;
  Some (direct p, last_rx_age_ms p).

Definition path_values (e : PeerEntry) : list PathEdge := snd <$> iter_map (paths e).
Definition any_direct (e : PeerEntry) : bool := existsb direct (path_values e).
Definition path_name (d : bool) : string := if d then "direct" else "relay".

(** [Iterator::min] *)
Definition list_min (l : list Z) : option Z :=
  match l with [] => None | x :: l => Some (foldl Z.min x l) end.

Definition self_connectivity (s : Inner) (id : Uuid) : option string :=
  entry ← roster s !! id;
  if bool_decide (paths entry = ∅) then None else Some (path_name (any_direct entry)).

Definition self_connectivity_aged (s : Inner) (id : Uuid) : option string * option Z :=
  match roster s !! id with
  | None => (None, None)
  | Some entry =>
      if negb (dataplane_healthy entry) then (Some "dead", None)
      else if bool_decide (paths entry = ∅) then (None, None)
      else (Some (path_name (any_direct entry)), list_min (last_rx_age_ms <$> path_values entry))
  end.

(** ** Snapshots *)

Definition snapshot_with_vantage (s : Inner) (vantage : option Uuid) : list PeerInfo :=
  (fun e =>
     let '(connectivity, age) :=
       match vantage with
       | None => self_connectivity_aged s (peer_id e)
       | Some v =>
           match edge s v (peer_id e) with
           | Some (d, age) => (Some (path_name d), Some age)
           | None => (None, None)
           end
       end in
     to_info_with_connectivity e connectivity age)
  <$> sort_by_key peer_index (entries s).

Definition roster_snapshot (s : Inner) : list PeerInfo := snapshot_with_vantage s None.

(** ** Reports of a peer *)

Definition edge_of_dto (p : PeerPathDto) : PathEdge :=
  mkPathEdge (pp_direct p) (pp_last_rx_age_ms p) (pp_last_handshake_direct p)
    (pp_last_handshake_age_ms p) (pp_handshake_rx_total p).

(** The loop of [record_peer_paths]: the edges gathered and the punch tracker. *)
Fixpoint record_paths (reporter : Uuid) (ps : list PeerPathDto)
    (edges : gmap Uuid PathEdge) (t : PunchTracker) : gmap Uuid PathEdge * PunchTracker :=
  match ps with
  | [] => (edges, t)
  | p :: ps =>
      match uuid_parse (pp_peer_id p) with
      | Err _ => record_paths reporter ps edges t
      | Ok target =>
          record_paths reporter ps (<[target := edge_of_dto p]> edges)
            (if pp_direct p then note_confirmed t (canonical_pair reporter target) else t)
      end
  end.

Definition record_peer_paths (s : Inner) (reporter : Uuid) (ps : list PeerPathDto) : Inner :=
  match roster s !! reporter with
  | None => s
  | Some _ =>
      let '(edges, t) := record_paths reporter ps ∅ (punch_tracker s) in
      update_entry (s <| punch_tracker := t |>) reporter (fun e => e <| paths := edges |>)
  end.

Definition record_dataplane_health (s : Inner) (reporter : Uuid) (healthy : bool) : Inner :=
  update_entry s reporter (fun e => e <| dataplane_healthy := healthy |>).

(** ** Sweeping *)

Definition reap_stale_resources (env : Env) (s : Inner) : Inner :=
  let r := fst (reap_closed (relay s)) in
  let r := fst (reap_expired_spool r (now env)) in
  let cutoff := wall env - PUNCH_PAIR_TTL_MICROS in
  s <| relay := r |> <| punch_tracker := fst (reap_older_than (punch_tracker s) cutoff) |>.

Definition stale_peers (s : Inner) (now : Z) : list Uuid :=
  omap (fun kv => if heartbeat_timeout s <? duration_since now (last_heartbeat kv.2)
                  then Some kv.1 else None)
    (iter_map (roster s)).

(** ** The command queue ([command_queue.rs]) *)

Definition enqueue_command (s : Inner) (id : Uuid) (command : NodeCommandDto) : Inner :=
  update_entry s id (fun e => e <| pending_commands := pending_commands e ++ [command] |>).

Definition drain_commands (s : Inner) (id : Uuid) : Inner * list NodeCommandDto :=
  match roster s !! id with
  | Some e => (update_entry s id (fun e => e <| pending_commands := [] |>), pending_commands e)
  | None => (s, [])
  end.

Definition ack_commands (s : Inner) (id : Uuid) (acked : list string) : Inner :=
  match acked with
  | [] => s
  | _ =>
      update_entry s id (fun e =>
        e <| pending_commands :=
               List.filter (fun c => negb (bool_decide (command_id c ∈ acked))) (pending_commands e) |>)
  end.

Definition pending_command_ids (s : Inner) (id : Uuid) : list string :=
  match roster s !! id with Some e => command_id <$> pending_commands e | None => [] end.

(** ** Visibility ([roster/filter.rs]) *)

Definition resync_all_peers (s : Inner) : Inner :=
  foldl (fun s info => broadcast s (Updated info)) s (roster_snapshot s).

Definition peer_tags (s : Inner) (id : Uuid) : option (list string) := tags <$> roster s !! id.

Definition viewer_can_see (s : Inner) (viewer_tags peer_tags : list string) : bool :=
  can_see (current (policy_store s)) viewer_tags peer_tags.

Definition can_relay (s : Inner) (src_pubkey dst_pubkey : list Z) : bool :=
  match by_pubkey s !! src_pubkey with
  | None => false
  | Some src_id =>
      match by_pubkey s !! dst_pubkey with
      | None => false
      | Some dst_id =>
          match peer_tags s src_id, peer_tags s dst_id with
          | Some src_tags, Some dst_tags => viewer_can_see s src_tags dst_tags
          | _, _ => false
          end
      end
  end.

Definition visible_peers (s : Inner) (viewer_id : Uuid) (viewer_tags : list string) : list PeerInfo :=
  to_info <$> sort_by_key peer_index
    (List.filter (fun e => negb (bool_decide (peer_id e = viewer_id))
                           && can_see (current (policy_store s)) viewer_tags (tags e))
       (entries s)).
End Operations.
