(* ===== verification/Apply.v ===== *)
(** * Applying roster events ([roster/apply.rs]) and restoring ([Coordinator::restore])

    The three functions through which every membership change of the roster
    goes. *)

From S2P Require Import Prelude NetAddr Types Allocator Policy HolePunch DirectFlags.
From S2P Require Import RelayRegistry RosterStore Coordinator.

Open Scope Z_scope.

Section Apply.
Context {EX : Externals} {IT : Iteration} {RS : RosterSerde} {CH : Channels}.

(** The text of [AddrParseError] for an IPv6 address. *)
Definition ADDR_PARSE_ERROR : string := "invalid IPv6 address syntax".

(** The entry that [apply_peer_joined] builds from an event. *)
Definition entry_of_joined (env : Env) (id : Uuid) (addr : Ipv6Addr) (event : PeerJoined) : PeerEntry :=
  {| peer_id := id;
     wg_public_key := pj_wg_public_key event;
     ula := addr;
     peer_index := seg3 addr;
     listen_endpoint :=
       if bool_decide (pj_listen_endpoint event = EmptyString) then None
       else Some (pj_listen_endpoint event);
     display_name := pj_display_name event;
     network := pj_network event;
     tags := pj_tags event;
     hosted_app_ulas := pj_hosted_app_ulas event;
     joined_at_micros := pj_joined_at_micros event;
     last_heartbeat := now env;
     observed_external := EmptyString;
     endpoint_is_reflexive := false;
     kind := pj_kind event;
     parent := pj_parent event;
     app_uuid := pj_app_uuid event;
     software_version := pj_software_version event;
     mesh_version := pj_mesh_version event;
     relay_only := pj_relay_only event;
     paths := ∅;
     dataplane_healthy := true;
     pending_commands := [] |}.

(** [roster.iter().any(|e| e.ula == addr && e.peer_id != id)] *)
Definition held_by_other (s : Inner) (addr : Ipv6Addr) (id : Uuid) : bool :=
  existsb (fun e => bool_decide (ula e = addr) && negb (bool_decide (peer_id e = id))) (entries s).

Definition apply_peer_joined (env : Env) (s : Inner) (event : PeerJoined)
    : Inner * Result PeerEntry CoordinatorError :=
  match uuid_parse (pj_peer_id event) with
  | Err e => (s, Err (InvalidPeerId e))
  | Ok id =>
      match parse_ipv6 (pj_ula event) with
      | None => (s, Err (InvalidPeerId ADDR_PARSE_ERROR))
      | Some addr =>
          if held_by_other s addr id then (s, Err (UlaConflict (fmt_ipv6 addr)))
          else
            let network_slot := seg2 addr in
            let index := seg3 addr in
            let entry := entry_of_joined env id addr event in
            let s := s <| roster := <[id := entry]> (roster s) |> in
            let s := s <| by_pubkey := <[pj_wg_public_key event := id]> (by_pubkey s) |> in
            let s := s <| allocator := bump_slot_at_least (allocator s) network_slot index |> in
            (s, Ok entry)
      end
  end.

Definition or_else {A} (new old : option A) : option A :=
  match new with Some _ => new | None => old end.

Definition apply_peer_heartbeat (env : Env) (s : Inner) (event : PeerHeartbeat) : Inner :=
  match uuid_parse (ph_peer_id event) with
  | Err _ => s
  | Ok id =>
      update_entry s id (fun e =>
        e <| last_heartbeat := now env |>
          <| observed_external := ph_observed_external event |>
          <| hosted_app_ulas := ph_hosted_app_ulas event |>
          <| software_version := or_else (ph_software_version event) (software_version e) |>
          <| mesh_version := or_else (ph_mesh_version event) (mesh_version e) |>)
  end.

(** The removal of a peer whose entry is [entry]. *)
Definition remove_entry (s : Inner) (id : Uuid) (entry : PeerEntry) : Inner :=
  let s := s <| roster := delete id (roster s) |> in
  let s := s <| by_pubkey := delete (wg_public_key entry) (by_pubkey s) |> in
  let s := s <| relay := drop_pubkey (relay s) (wg_public_key entry) |> in
  let s := s <| punch_tracker := fst (punch_remove_peer (punch_tracker s) id) |> in
  let s := s <| direct_pair_flags := flags_remove_peer (direct_pair_flags s) id |> in
  s <| relay_pair_stats := filter (fun kv => ~ pair_mentions id kv.1) (relay_pair_stats s) |>.

Definition apply_peer_left (s : Inner) (event : PeerLeft) : Inner :=
  match uuid_parse (pl_peer_id event) with
  | Err _ => s
  | Ok id =>
      match roster s !! id with
      | Some entry => remove_entry s id entry
      | None => s
      end
  end.

(** [restore] folds the stored snapshot back in; malformed or conflicting peers
    are skipped. *)
Definition restore (env : Env) (s : Inner) (read_ok : bool) : Inner :=
  foldl (fun s event => fst (apply_peer_joined env s event)) s (load (roster_store s) read_ok).
End Apply.
