(* ===== verification/Registration.v ===== *)
(** * Registration ([roster/coordinator/registration.rs])

    [register_authenticated] from the token to the roster entry: validation,
    authorisation of fixed infrastructure addresses, refresh or re-homing of a
    known key, eviction of a stale holder, allocation of an address. *)

From S2P Require Import Prelude NetAddr Contract Types Allocator Policy HolePunch DirectFlags.
From S2P Require Import RelayRegistry RosterStore Reflexive Auth Coordinator Apply.

Open Scope Z_scope.

Section Registration.
Context {EX : Externals} {IT : Iteration} {RS : RosterSerde} {CH : Channels} {CS : ClaimsSerde}.

(** [authenticate]: on the coordinator's validator, when it has one, and the
    reply that the auth service gives to this token and key. The outer [option]
    is [None] when validation panics. *)
Definition authenticate (s : Inner) (bearer : option string) (reply : HttpReply)
    : option (Result (option ValidatedClaims) CoordinatorError) :=
  if negb (has_validator s) then Some (Ok None)
  else
    match nonempty (trim <$> bearer) with
    | None => Some (Err (Unauthorized "missing join token (Authorization: Bearer)"))
    | Some token =>
        match validate_reply reply with
        | None => None
        | Some (Ok claims) =>
            if vc_valid claims then Some (Ok (Some claims))
            else Some (Err (Unauthorized "join token invalid or revoked"))
        | Some (Err (WrongKind kind)) =>
            Some (Err (Unauthorized ("join token has wrong kind: " +:+ kind)))
        | Some (Err (Transport e)) =>
            Some (Err (Unauthorized ("join token validation failed: auth service transport: " +:+ e)))
        | Some (Err (Status status body)) =>
            Some (Err (Unauthorized ("join token validation failed: auth service status "
              +:+ fmt_u status +:+ ": " +:+ body)))
        | Some (Err (Decode e)) =>
            Some (Err (Unauthorized ("join token validation failed: auth service response decode: " +:+ e)))
        end
    end.

Definition authorize_fixed_requested_ula (requested_ula : option string)
    (claims : option ValidatedClaims) : Result unit CoordinatorError :=
  match requested_ula with
  | None => Ok tt
  | Some raw =>
      match parse_ipv6 raw with
      | None => Err (InvalidRequestedUla raw)
      | Some addr =>
          if negb (is_fixed_infra_ula addr) then Ok tt
          else
            let authorized :=
              match claims with
              | Some claims =>
                  existsb (fun allowed => bool_decide (parse_ipv6 allowed = Some addr))
                    (vc_requested_ulas claims)
              | None => false
              end in
            if authorized then Ok tt
            else Err (Unauthorized ("requested fixed infra ULA " +:+ raw
                        +:+ " is not authorized by this join token"))
      end
  end.

(** The entry that [evict_stale_ula_holder] and [resolve_ula] look for. *)
Definition holder_of (s : Inner) (addr : Ipv6Addr) : option PeerEntry :=
  List.find (fun e => bool_decide (ula e = addr)) (entries s).

Definition evict_stale_ula_holder (env : Env) (s : Inner) (requested_ula : option string) : Inner :=
  match requested_ula with
  | None => s
  | Some raw =>
      match parse_ipv6 raw with
      | None => s
      | Some addr =>
          match peer_id <$> holder_of s addr with
          | None => s
          | Some holder_id =>
              let is_stale :=
                match roster s !! holder_id with
                | Some e => heartbeat_timeout s <? duration_since (now env) (last_heartbeat e)
                | None => false
                end in
              if negb is_stale then s
              else
                let event :=
                  {| pl_peer_id := uuid_to_string holder_id;
                     pl_reason := "evicted_stale_ula_holder";
                     pl_left_at_micros := wall env |} in
                let s := publish_event s (EvLeft event) in
                let tags := default [] (tags <$> roster s !! holder_id) in
                let s := broadcast s (Removed (uuid_to_string holder_id) tags) in
                let s := apply_peer_left s event in
                persist_roster s (save_io env)
          end
      end
  end.

(** An allocation's error becomes the coordinator's. *)
Definition lift_alloc (r : Result (Z * Ipv6Addr) AllocError) : Result (Z * Ipv6Addr) CoordinatorError :=
  map_err (fun _ => Allocation) r.

Definition resolve_ula (s : Inner) (network : string) (requested_ula : option string)
    : Inner * Result (Z * Ipv6Addr) CoordinatorError :=
  match requested_ula with
  | Some raw =>
      match parse_ipv6 raw with
      | None => (s, Err (InvalidRequestedUla raw))
      | Some addr =>
          if negb (Z.land (seg0 addr) 0xfe00 =? 0xfc00) then (s, Err (InvalidRequestedUla raw))
          else if (seg1 addr =? HOST_ULA_SLOT) && negb (is_fixed_infra_ula addr)
                  && negb (seg2 addr =? network_slot network)
          then (s, Err (UlaNetworkMismatch raw network))
          else if existsb (fun e => bool_decide (ula e = addr)) (entries s)
          then (s, Err (UlaConflict raw))
          else
            let index := seg3 addr in
            let slot := seg2 addr in
            (s <| allocator := bump_slot_at_least (allocator s) slot index |>, Ok (index, addr))
      end
  | None =>
      let '(a, r) := allocate (allocator s) network in
      (s <| allocator := a |>, lift_alloc r)
  end.

(** The fields of an entry that a re-registration overwrites. *)
Definition refresh_entry (env : Env) (req : RegisterRequest) (identity : NodeIdentity)
    (resolved : ResolvedEndpoint) (observed : option SocketAddr)
    (realloc : option (Z * Ipv6Addr)) (e : PeerEntry) : PeerEntry :=
  let e := e <| listen_endpoint := endpoint resolved |> in
  let e := e <| endpoint_is_reflexive := reflexive resolved |> in
  let e := e <| display_name := rr_display_name req |> in
  let e := e <| tags := ni_tags identity |> in
  let e := e <| hosted_app_ulas := rr_hosted_app_ulas req |> in
  let e := e <| kind := rr_kind req |> in
  let e := e <| parent := rr_parent req |> in
  let e := e <| app_uuid := rr_app_uuid req |> in
  let e := e <| software_version := or_else (rr_software_version req) (software_version e) |> in
  let e := e <| mesh_version := or_else (rr_mesh_version req) (mesh_version e) |> in
  let e := e <| relay_only := rr_relay_only req |> in
  let e := e <| last_heartbeat := now env |> in
  let e := match observed with
           | Some obs => e <| observed_external := fmt_sock obs |>
           | None => e
           end in
  match realloc with
  | Some (index, addr) =>
      let e := e <| network := ni_network identity |> in
      let e := e <| ula := addr |> in
      e <| peer_index := index |>
  | None => e
  end.

#[global] Arguments refresh_entry : simpl never.

Definition refresh_existing (env : Env) (s : Inner) (id : Uuid) (req : RegisterRequest)
    (claims : option ValidatedClaims) (resolved : ResolvedEndpoint) (observed : option SocketAddr)
    : Inner * Result PeerEntry CoordinatorError :=
  let identity := stamp_identity req claims in
  match roster s !! id with
  | None => (s, Err (UnknownPeer id))
  | Some old =>
      let old_network := network old in
      let rehome := bool_decide (is_Some claims) && negb (bool_decide (ni_network identity = old_network)) in
      let '(s, realloc) :=
        if rehome then
          let '(a, r) := allocate (allocator s) (ni_network identity) in
          let s := s <| allocator := a |> in
          match lift_alloc r with
          | Err e => (s, Err e)
          | Ok (new_index, new_ula) =>
              if held_by_other s new_ula id then (s, Err (UlaConflict (fmt_ipv6 new_ula)))
              else (s, Ok (Some (new_index, new_ula)))
          end
        else (s, Ok None) in
      match realloc with
      | Err e => (s, Err e)
      | Ok realloc =>
          let entry := refresh_entry env req identity resolved observed realloc old in
          let s := s <| roster := <[id := entry]> (roster s) |> in
          if rehome then
            let s := broadcast s (Removed (uuid_to_string id) (tags old)) in
            let s := broadcast s (Added (to_info entry)) in
            let s := persist_roster s (save_io env) in
            (s, Ok entry)
          else (broadcast s (Updated (to_info entry)), Ok entry)
      end
  end.

(** The first registration of a key, after the registration lock is taken. *)
Definition register_new (env : Env) (s : Inner) (req : RegisterRequest)
    (claims : option ValidatedClaims) (pubkey : list Z) (resolved : ResolvedEndpoint)
    (observed : option SocketAddr) : Inner * Result (PeerEntry * RegisterOutcome) CoordinatorError :=
  let identity := stamp_identity req claims in
  let s := evict_stale_ula_holder env s (rr_requested_ula req) in
  match resolve_ula s (ni_network identity) (rr_requested_ula req) with
  | (s, Err e) => (s, Err e)
  | (s, Ok (_, addr)) =>
      let id := fresh_id env in
      let event :=
        {| pj_peer_id := uuid_to_string id;
           pj_wg_public_key := pubkey;
           pj_ula := fmt_ipv6 addr;
           pj_listen_endpoint := default EmptyString (endpoint resolved);
           pj_display_name := rr_display_name req;
           pj_network := ni_network identity;
           pj_tags := ni_tags identity;
           pj_hosted_app_ulas := rr_hosted_app_ulas req;
           pj_joined_at_micros := wall env;
           pj_kind := rr_kind req;
           pj_parent := rr_parent req;
           pj_app_uuid := rr_app_uuid req;
           pj_software_version := rr_software_version req;
           pj_mesh_version := rr_mesh_version req;
           pj_relay_only := rr_relay_only req |} in
      let s := publish_event s (EvJoined event) in
      match apply_peer_joined env s event with
      | (s, Err e) => (s, Err e)
      | (s, Ok entry) =>
          let entry := entry <| endpoint_is_reflexive := reflexive resolved |> in
          let entry := match observed with
                       | Some obs => entry <| observed_external := fmt_sock obs |>
                       | None => entry
                       end in
          let s := update_entry s id (fun e =>
                     e <| endpoint_is_reflexive := reflexive resolved |>
                       <| observed_external := observed_external entry |>) in
          let s := broadcast s (Added (to_info entry)) in
          let s := persist_roster s (save_io env) in
          (s, Ok (entry, Created))
      end
  end.

Definition register_authenticated (env : Env) (s : Inner) (req : RegisterRequest)
    (bearer : option string) (reply : HttpReply) (observed : option SocketAddr)
    : option (Inner * Result (PeerEntry * RegisterOutcome) CoordinatorError) :=
  match authenticate s bearer reply with
  | None => None
  | Some (Err e) => Some (s, Err e)
  | Some (Ok claims) =>
      match authorize_fixed_requested_ula (rr_requested_ula req) claims with
      | Err e => Some (s, Err e)
      | Ok _ =>
          match decode_pubkey (rr_wg_public_key req) with
          | Err e => Some (s, Err e)
          | Ok pubkey =>
              if negb (length pubkey =? 32)%nat then
                Some (s, Err (InvalidPubkey (Z.of_nat (length pubkey))))
              else
                let resolved := resolve_listen_endpoint (rr_listen_endpoint req) observed
                                  (rr_wg_listen_port req) (rr_relay_only req) in
                match by_pubkey s !! pubkey with
                | Some existing_id =>
                    match refresh_existing env s existing_id req claims resolved observed with
                    | (s, Err e) => Some (s, Err e)
                    | (s, Ok entry) => Some (s, Ok (entry, Existed))
                    end
                | None => Some (register_new env s req claims pubkey resolved observed)
                end
          end
      end
  end.
End Registration.
