(* ===== verification/Heartbeat.v ===== *)
(** * Heartbeats, deregistration and sweeping
    ([roster/coordinator/heartbeat.rs], [roster/timeout.rs]) *)

From S2P Require Import Prelude NetAddr Types Allocator Policy HolePunch DirectFlags.
From S2P Require Import RelayRegistry RosterStore Reflexive Coordinator Apply.

Open Scope Z_scope.

Section Heartbeat.
Context {EX : Externals} {IT : Iteration} {RS : RosterSerde} {CH : Channels}.

Definition refresh_reflexive_endpoint (s : Inner) (id : Uuid) (observed_external : string)
    (wg_listen_port : option Z) (relay_only : bool) : Inner :=
  if relay_only then s
  else
    match parse_sock observed_external with
    | None => s
    | Some observed =>
        update_entry s id (fun e =>
          let has_sticky_explicit :=
            negb (endpoint_is_reflexive e)
            && match listen_endpoint e with Some l => is_sticky_explicit_endpoint l | None => false end in
          if has_sticky_explicit then e
          else
            let resolved := resolve_listen_endpoint None (Some observed) wg_listen_port false in
            if reflexive resolved && negb (bool_decide (endpoint resolved = listen_endpoint e))
            then e <| listen_endpoint := endpoint resolved |> <| endpoint_is_reflexive := true |>
            else e)
    end.

Definition punch_peer_for_pair (s : Inner) (e : PeerEntry) (other : Uuid) : option PunchPeer :=
  if bool_decide (observed_external e = EmptyString) then None
  else if relay_only e then None
  else if is_pinned_to_relay (direct_pair_flags s) (peer_id e) other then None
  else if negb (proactive s) && negb (is_direct (direct_pair_flags s) (peer_id e) other) then None
  else
    match nonempty (listen_endpoint e) with
    | None => None
    | Some dial => Some (mkPunchPeer (peer_id e) dial)
    end.

(** One turn of the loop of [try_emit_holepunch_pairs], for candidate [b]. *)
Definition emit_for (now_micros : Z) (a : PeerEntry) (s : Inner) (b : PeerEntry) : Inner :=
  match punch_peer_for_pair s a (peer_id b), punch_peer_for_pair s b (peer_id a) with
  | Some pa, Some pb =>
      let '(t, emitted) := try_emit_pair (punch_tracker s) pa pb now_micros in
      let s := s <| punch_tracker := t |> in
      match emitted with
      | Some (ev_a, ev_b) =>
          let s := publish_event s (EvHolePunch ev_a) in
          let s := broadcast s (HolePunch ev_a) in
          let s := publish_event s (EvHolePunch ev_b) in
          let s := broadcast s (HolePunch ev_b) in
          note_holepunch_emitted s
      | None => s
      end
  | _, _ => s
  end.

Definition try_emit_holepunch_pairs (env : Env) (s : Inner) (just_heartbeated : PeerEntry) : Inner :=
  let a_id := peer_id just_heartbeated in
  let candidates := List.filter (fun e => negb (bool_decide (peer_id e = a_id))) (entries s) in
  foldl (emit_for (wall env) just_heartbeated) s candidates.

Definition heartbeat (env : Env) (s : Inner) (id : Uuid) (observed_external : string)
    (wg_listen_port : option Z) (hosted_app_ulas : list string)
    (software_version mesh_version : option string) (relay_only : bool)
    : Inner * Result PeerEntry CoordinatorError :=
  match roster s !! id with
  | None => (s, Err (UnknownPeer id))
  | Some _ =>
      let event :=
        {| ph_peer_id := uuid_to_string id;
           ph_observed_external := observed_external;
           ph_hosted_app_ulas := hosted_app_ulas;
           ph_software_version := software_version;
           ph_mesh_version := mesh_version;
           ph_at_micros := wall env |} in
      let s := publish_event s (EvHeartbeat event) in
      let s := apply_peer_heartbeat env s event in
      let s := update_entry s id (fun e => e <| Types.relay_only := relay_only |>) in
      let s := refresh_reflexive_endpoint s id observed_external wg_listen_port relay_only in
      match roster s !! id with
      | None => (s, Err (UnknownPeer id))
      | Some snapshot =>
          let s := broadcast s (Updated (to_info snapshot)) in
          (try_emit_holepunch_pairs env s snapshot, Ok snapshot)
      end
  end.

Definition deregister (env : Env) (s : Inner) (id : Uuid) (reason : string) : Inner * bool :=
  match tags <$> roster s !! id with
  | None => (s, false)
  | Some tags =>
      let event := {| pl_peer_id := uuid_to_string id; pl_reason := reason;
                      pl_left_at_micros := wall env |} in
      let s := publish_event s (EvLeft event) in
      let s := apply_peer_left s event in
      let s := broadcast s (Removed (uuid_to_string id) tags) in
      (persist_roster s (save_io env), true)
  end.

(** ** The sweeper *)

Definition sweep_once (env : Env) (s : Inner) : Inner :=
  let s := reap_stale_resources env s in
  foldl (fun s id => fst (deregister env s id "heartbeat_timeout")) s (stale_peers s (now env)).

(** [timeout / 4] between one second and one minute, in microseconds. *)
Definition sweep_interval (timeout : Z) : Z := clamp 1000000 60000000 (timeout / 4).
End Heartbeat.
