(* ===== verification/CoordInv.v ===== *)
(** * The coordinator's invariant

    What holds of the coordinator's state whatever requests arrive in whatever
    order: the roster and the key index are a bijection, overlay addresses are
    unique and covered by the allocator's counters, and no per-pair state
    mentions a peer that has left. *)

From S2P Require Import Prelude NetAddr Contract Types Allocator Policy HolePunch DirectFlags.
From S2P Require Import RelayRegistry RosterStore Reflexive Auth Coordinator Apply.
From S2P Require Import Registration Heartbeat.

Open Scope Z_scope.

(** ** The invariant *)

Record wf_core (ro : gmap Uuid PeerEntry) (bp : gmap (list Z) Uuid) (al : UlaAllocator) : Prop := {
  core_id : forall id e, ro !! id = Some e -> peer_id e = id;
  core_key : forall pk id, bp !! pk = Some id <-> exists e, ro !! id = Some e /\ wg_public_key e = pk;
  core_ula : forall i j e f, ro !! i = Some e -> ro !! j = Some f -> ula e = ula f -> i = j;
  core_entry : forall id e, ro !! id = Some e ->
    wf_ipv6 (ula e) /\ peer_index e = seg3 (ula e) /\ peer_index e <= counter al (seg2 (ula e)) /\
    length (wg_public_key e) = 32%nat;
  core_alloc : wf_allocator al;
}.

(** Every pair that a map is keyed by is a pair of roster members. *)
Definition pairs_in {A} (ro : gmap Uuid PeerEntry) (m : gmap (Uuid * Uuid) A) : Prop :=
  forall p v, m !! p = Some v -> is_Some (ro !! p.1) /\ is_Some (ro !! p.2).

Record wf_inner (s : Inner) : Prop := {
  inner_core : wf_core (roster s) (by_pubkey s) (allocator s);
  inner_punch : pairs_in (roster s) (pairs (punch_tracker s));
  inner_stats : pairs_in (roster s) (relay_pair_stats s);
}.

(** ** Addresses that parse are well formed *)

Lemma to_digit_range radix c d : 0 < radix -> to_digit radix c = Some d -> 0 <= d < radix.
Proof.
  intros Hr. unfold to_digit.
  pose proof (N2Z.is_nonneg (Ascii.N_of_ascii c)) as Hc.
  set (n := Z.of_N (Ascii.N_of_ascii c)) in *.
  destruct ((48 <=? n) && (n <=? 57)) eqn:E1; [|destruct ((97 <=? n) && (n <=? 122)) eqn:E2;
    [|destruct ((65 <=? n) && (n <=? 90)) eqn:E3]];
    (destruct (_ <? radix) eqn:E; [intros [= <-]; lia|done]).
Qed.

Lemma read_digits_nonneg radix s v n :
  0 < radix -> 0 <= v -> 0 <= (read_digits radix s v n).1.1.
Proof.
  intros Hr. revert v n. induction s as [|c s IH]; intros v n Hv; simpl; [done|].
  destruct (to_digit radix c) as [d|] eqn:Hd; simpl; [|done].
  apply to_digit_range in Hd; [|done]. apply IH. nia.
Qed.

Lemma read_number_range radix max digits zero s v rest :
  0 < radix -> read_number radix max digits zero s = Some (v, rest) -> 0 <= v <= max.
Proof.
  intros Hr. unfold read_number.
  pose proof (read_digits_nonneg radix s 0 0 Hr ltac:(lia)) as Hn.
  destruct (read_digits radix s 0 0) as [[value count] r]. simpl in Hn.
  destruct (match digits with Some m => m <? count | None => false end); [done|].
  destruct (max <? value) eqn:Em; [done|]. destruct (count =? 0); [done|].
  destruct (negb zero && _ && _); [done|]. intros [= -> ->]. lia.
Qed.

Lemma read_separator_Some {A} sep i (p : Parser A) s r :
  read_separator sep i p s = Some r -> exists s', p s' = Some r.
Proof.
  unfold read_separator. destruct i; [by exists s|].
  destruct (read_char sep s) as [[u s']|]; [|done]. by exists s'.
Qed.

Lemma read_ipv4_addr_wf s a r : read_ipv4_addr s = Some (a, r) -> wf_ipv4 a.
Proof.
  unfold read_ipv4_addr.
  assert (forall i t v u, read_separator (ascii_of ".") i (read_number 10 u8_max (Some 3) false) t
                        = Some (v, u) -> is_u8 v) as Hnum.
  { intros i t v u H. apply read_separator_Some in H as [s' H].
    apply read_number_range in H; [|lia]. done. }
  repeat match goal with
  | |- match ?x with Some _ => _ | None => None end = _ -> _ => destruct x as [[? ?]|] eqn:?; [|done]
  end. intros [= <- _].
  repeat (apply Forall_cons; split; [by eapply Hnum|]). by apply Forall_nil.
Qed.

Lemma u16_of_octets_range a b : is_u8 a -> is_u8 b -> is_u16 (u16_from_be_bytes a b).
Proof.
  intros Ha Hb. rewrite u16_from_be_bytes_eq by done.
  unfold is_u8, u8_max, is_u16, u16_max in *. lia.
Qed.

Lemma read_groups_wf left i s : Forall is_u16 (read_groups left i s).1.1.
Proof.
  revert i s. induction left as [|left IH]; intros i s; [by apply Forall_nil|]. cbn [read_groups].
  set (group := match read_separator _ _ (read_number 16 u16_max (Some 4) true) s with
                | Some _ => _ | None => _ end).
  assert (Forall is_u16 group.1.1) as Hg.
  { subst group. destruct (read_separator _ _ (read_number 16 u16_max (Some 4) true) s) as [[g s']|] eqn:Hr;
      [|by apply Forall_nil].
    specialize (IH (S i) s'). destruct (read_groups left (S i) s') as [[gs v4] s'']. simpl in *.
    constructor; [|done]. apply read_separator_Some in Hr as [t Hr].
    apply read_number_range in Hr; [|lia]. done. }
  destruct left as [|left']; [done|].
  destruct (read_separator _ _ read_ipv4_addr s) as [[a s']|] eqn:Hr; [|done].
  apply read_separator_Some in Hr as [t Hr]. apply read_ipv4_addr_wf in Hr.
  destruct a as [a b c d]. unfold wf_ipv4, octets4 in Hr. simpl in *.
  repeat match goal with H : Forall _ (_ :: _) |- _ => inversion_clear H end.
  repeat (apply Forall_cons; split; [by apply u16_of_octets_range|]). by apply Forall_nil.
Qed.

Lemma of_segments_wf l a : of_segments l = Some a -> Forall is_u16 l -> wf_ipv6 a.
Proof.
  intros Ho Hf. unfold wf_ipv6.
  do 8 (destruct l as [|? l]; [done|]). destruct l; [|done].
  simpl in Ho. injection Ho as <-. exact Hf.
Qed.

Lemma parse_ipv6_wf s a : parse_ipv6 s = Some a -> wf_ipv6 a.
Proof.
  unfold parse_ipv6, parse_all, read_ipv6_addr.
  pose proof (read_groups_wf 8 0 s) as Hh.
  destruct (read_groups 8 0 s) as [[head v4] s1]. simpl in Hh.
  destruct (length head =? 8)%nat.
  { destruct (of_segments head) as [x|] eqn:Ho; [|done]. destruct s1; [|done].
    intros [= <-]. by eapply of_segments_wf. }
  destruct v4; [done|].
  destruct (read_char _ s1) as [[u s2]|]; [|done]. destruct (read_char _ s2) as [[u' s3]|]; [|done].
  pose proof (read_groups_wf (8 - (length head + 1)) 0 s3) as Ht.
  destruct (read_groups (8 - (length head + 1)) 0 s3) as [[tail v4'] s4]. simpl in Ht.
  destruct (of_segments _) as [x|] eqn:Ho; [|done]. destruct s4; [|done].
  intros [= <-]. eapply of_segments_wf; [done|].
  rewrite !Forall_app. split_and!; [done| |done].
  apply Forall_forall. intros z Hz. apply list_elem_of_In, repeat_spec in Hz. subst.
  unfold is_u16, u16_max. lia.
Qed.

Lemma wf_ipv6_segs a : wf_ipv6 a -> is_u16 (seg2 a) /\ is_u16 (seg3 a).
Proof.
  destruct a. unfold wf_ipv6, segments. simpl. intros H.
  repeat match goal with H : Forall _ (_ :: _) |- _ => inversion_clear H end. done.
Qed.

Lemma wf_address_for slot idx : is_u16 slot -> is_u16 idx -> wf_ipv6 (address_for slot idx).
Proof.
  intros Hs Hi. unfold wf_ipv6, address_for, segments. simpl.
  repeat (apply Forall_cons; split; [done || (unfold is_u16, u16_max; lia)|]). by apply Forall_nil.
Qed.

(** ** Preservation, part by part *)

Section Preservation.
Context {EX : Externals} {EXL : ExternalLaws} {IT : Iteration} {ITL : IterationLaws} {RS : RosterSerde} {CH : Channels} {CS : ClaimsSerde}.

Lemma entries_spec s e : e ∈ entries s <-> exists id, roster s !! id = Some e.
Proof.
  unfold entries. rewrite list_elem_of_fmap. split.
  - intros ([id x] & -> & Hin). rewrite iter_map_perm in Hin.
    apply elem_of_map_to_list in Hin. by exists id.
  - intros [id He]. exists (id, e). split; [done|].
    rewrite iter_map_perm. by apply elem_of_map_to_list.
Qed.

Lemma held_by_other_false s addr id :
  wf_core (roster s) (by_pubkey s) (allocator s) ->
  held_by_other s addr id = false <->
  forall j e, roster s !! j = Some e -> ula e = addr -> j = id.
Proof.
  intros Hwf. unfold held_by_other. rewrite <- not_true_iff_false, existsb_elem. split.
  - intros H j e Hj He. destruct (decide (j = id)) as [|Hne]; [done|]. exfalso. apply H.
    exists e. split; [apply entries_spec; by exists j|].
    rewrite (core_id _ _ _ Hwf _ _ Hj). by rewrite bool_decide_true, bool_decide_false by done.
  - intros H (e & [j Hj]%entries_spec & [Hu Hp]%andb_true_iff).
    apply bool_decide_eq_true in Hu. apply negb_true_iff, bool_decide_eq_false in Hp.
    apply Hp. rewrite (core_id _ _ _ Hwf _ _ Hj). by eapply H.
Qed.

(** Two entries that agree on what the invariant reads. *)
Definition same_core (e f : PeerEntry) : Prop :=
  peer_id e = peer_id f /\ wg_public_key e = wg_public_key f /\ ula e = ula f /\ peer_index e = peer_index f.

Lemma wf_core_alter ro bp al id f :
  wf_core ro bp al -> (forall e, same_core (f e) e) -> wf_core (alter f id ro) bp al.
Proof.
  intros [H1 H2 H3 H4 H5] Hf.
  assert (forall j e, alter f id ro !! j = Some e -> exists e0, ro !! j = Some e0 /\ same_core e e0) as Hl.
  { intros j e. rewrite lookup_alter. case_decide as Hj; subst.
    - intros (e0 & He0 & ->)%fmap_Some. exists e0. split; [done|apply Hf].
    - intros He. exists e. split; [done|]. by repeat split. }
  assert (forall j e0, ro !! j = Some e0 -> exists e, alter f id ro !! j = Some e /\ same_core e e0) as Hr.
  { intros j e0 He. rewrite lookup_alter. case_decide as Hj; subst.
    - exists (f e0). rewrite He. split; [done|apply Hf].
    - exists e0. split; [done|]. by repeat split. }
  split; [| | | |done].
  - intros j e He. apply Hl in He as (e0 & He0 & Hs). rewrite (proj1 Hs). by apply H1.
  - intros pk j. rewrite H2. split.
    + intros (e0 & He0 & Hk). destruct (Hr _ _ He0) as (e & He & Hs). exists e.
      split; [done|]. by rewrite (proj1 (proj2 Hs)).
    + intros (e & He & Hk). apply Hl in He as (e0 & He0 & Hs). exists e0.
      split; [done|]. by rewrite <- (proj1 (proj2 Hs)).
  - intros i j e1 e2 He1 He2 Hu. apply Hl in He1 as (f1 & Hf1 & Hs1), He2 as (f2 & Hf2 & Hs2).
    eapply H3; [done..|]. destruct Hs2 as (_ & _ & ? & _); destruct Hs1 as (_ & _ & ? & _); congruence.
  - intros j e He. apply Hl in He as (e0 & He0 & Ha & Hb & Hc & Hd).
    rewrite Hb, Hc, Hd. exact (H4 _ _ He0).
Qed.

Lemma is_Some_alter {A} (m : gmap Uuid A) f i j : is_Some (alter f i m !! j) <-> is_Some (m !! j).
Proof. rewrite lookup_alter. case_decide; [subst; apply fmap_is_Some|done]. Qed.

Lemma wf_update_entry s id f :
  wf_inner s -> (forall e, same_core (f e) e) -> wf_inner (update_entry s id f).
Proof.
  intros [H1 H2 H3] Hf. split; simpl.
  - by apply wf_core_alter.
  - intros p v Hp. rewrite !is_Some_alter. by eapply H2.
  - intros p v Hp. rewrite !is_Some_alter. by eapply H3.
Qed.

(** Whatever leaves the roster, the index, the allocator and the pair maps alone
    preserves the invariant. *)
Lemma wf_inner_same s s' :
  wf_inner s -> roster s' = roster s -> by_pubkey s' = by_pubkey s -> allocator s' = allocator s ->
  pairs (punch_tracker s') = pairs (punch_tracker s) -> relay_pair_stats s' = relay_pair_stats s ->
  wf_inner s'.
Proof. intros [H1 H2 H3] Hr Hb Ha Hp Hs. split; by rewrite ?Hr, ?Hb, ?Ha, ?Hp, ?Hs. Qed.

Lemma wf_core_grow ro bp al al' :
  wf_core ro bp al -> wf_allocator al' -> (forall s, counter al s <= counter al' s) -> wf_core ro bp al'.
Proof.
  intros [H1 H2 H3 H4 H5] Ha Hc. split; try done.
  intros id e He. destruct (H4 _ _ He) as (? & ? & ? & ?). split_and!; [done..| |done].
  specialize (Hc (seg2 (ula e))). lia.
Qed.

Lemma wf_core_remove ro bp al id e :
  wf_core ro bp al -> ro !! id = Some e -> wf_core (delete id ro) (delete (wg_public_key e) bp) al.
Proof.
  intros [H1 H2 H3 H4 H5] He. split; [| | | |done].
  - intros j f. rewrite lookup_delete_Some. intros [_ Hf]. by apply H1.
  - intros pk j. rewrite lookup_delete_Some, H2. split.
    + intros (Hpk & f & Hf & Hk). exists f. split; [|done]. rewrite lookup_delete_ne; [done|].
      intros <-. congruence.
    + intros (f & Hf & Hk). apply lookup_delete_Some in Hf as [Hj Hf].
      split; [|by exists f]. intros Hpk.
      assert (bp !! pk = Some id) as Hid by (apply H2; by exists e).
      assert (bp !! pk = Some j) as Hid' by (apply H2; by exists f). congruence.
  - intros i j e1 e2. rewrite !lookup_delete_Some. intros [_ ?] [_ ?]. by apply H3.
  - intros j f. rewrite lookup_delete_Some. intros [_ Hf]. by apply H4 in Hf.
Qed.

Lemma wf_core_insert ro bp al id e :
  wf_core ro bp al -> ro !! id = None -> bp !! wg_public_key e = None ->
  peer_id e = id -> wf_ipv6 (ula e) -> peer_index e = seg3 (ula e) ->
  length (wg_public_key e) = 32%nat ->
  (forall j f, ro !! j = Some f -> ula f <> ula e) ->
  wf_core (<[id := e]> ro) (<[wg_public_key e := id]> bp)
    (bump_slot_at_least al (seg2 (ula e)) (peer_index e)).
Proof.
  intros [H1 H2 H3 H4 H5] Hid Hk Hp Hw Hi Hlen Hu.
  destruct (wf_ipv6_segs _ Hw) as [Hs2 Hs3].
  split.
  - intros j f. rewrite lookup_insert. case_decide; [intros [= <-]; congruence|apply H1].
  - intros pk j. rewrite lookup_insert. destruct (decide (wg_public_key e = pk)) as [<-|Hne].
    + split.
      * intros [= <-]. exists e. by rewrite lookup_insert_eq.
      * intros (f & Hf & Hfk). rewrite lookup_insert in Hf. case_decide; [congruence|].
        assert (bp !! wg_public_key e = Some j) by (apply H2; by exists f). congruence.
    + rewrite H2. split.
      * intros (f & Hf & Hfk). exists f. split; [|done]. rewrite lookup_insert_ne; [done|].
        intros ->. congruence.
      * intros (f & Hf & Hfk). rewrite lookup_insert in Hf. case_decide; [|by exists f]. congruence.
  - intros i j e1 e2. rewrite !lookup_insert.
    repeat case_decide; subst; intros ? ?; simplify_eq; try done.
    + intros He. by exfalso; eapply Hu; eauto.
    + intros He. by exfalso; eapply Hu; eauto.
    + by apply H3.
  - intros j f. rewrite lookup_insert. case_decide.
    + intros [= <-]. split_and!; [done|done| |done]. rewrite counter_bump, decide_True by done. lia.
    + intros Hf. destruct (H4 _ _ Hf) as (? & ? & ? & ?). split_and!; [done..| |done].
      pose proof (counter_bump_le al (seg2 (ula e)) (peer_index e) (seg2 (ula f))). lia.
  - apply wf_bump; [|done]. by rewrite Hi.
Qed.

(** Re-homing: the entry moves to an unclaimed address. *)
Lemma wf_core_rehome ro bp al id e e' :
  wf_core ro bp al -> ro !! id = Some e ->
  peer_id e' = peer_id e -> wg_public_key e' = wg_public_key e ->
  wf_ipv6 (ula e') -> peer_index e' = seg3 (ula e') -> peer_index e' <= counter al (seg2 (ula e')) ->
  (forall j f, ro !! j = Some f -> ula f = ula e' -> j = id) ->
  wf_core (<[id := e']> ro) bp al.
Proof.
  intros [H1 H2 H3 H4 H5] He Hp Hk Hw Hi Hc Hu. split; [| | | |done].
  - intros j f. rewrite lookup_insert. case_decide; [|apply H1].
    intros [= <-]. subst. rewrite Hp. by apply H1.
  - intros pk j. rewrite H2. split.
    + intros (f & Hf & Hfk). destruct (decide (j = id)) as [->|].
      * exists e'. rewrite lookup_insert_eq. split; [done|]. congruence.
      * exists f. by rewrite lookup_insert_ne.
    + intros (f & Hf & Hfk). rewrite lookup_insert in Hf. case_decide.
      * simplify_eq. exists e. by rewrite <- Hk.
      * by exists f.
  - intros i j e1 e2. rewrite !lookup_insert. repeat case_decide; subst; intros ? ?; simplify_eq; try done.
    + intros Hx. symmetry. eapply Hu; eauto.
    + intros Hx. eapply Hu; eauto.
    + by apply H3.
  - intros j f. rewrite lookup_insert. case_decide; [|by apply H4].
    intros [= <-]. split_and!; [done..|]. rewrite Hk. by eapply H4.
Qed.
End Preservation.

(** ** Preservation, handler by handler *)

Section Handlers.
Context {EX : Externals} {EXL : ExternalLaws} {IT : Iteration} {ITL : IterationLaws}
  {RS : RosterSerde} {CH : Channels} {CS : ClaimsSerde}.

Lemma pairs_in_filter {A} (ro : gmap Uuid PeerEntry) (id : Uuid) (m : gmap (Uuid * Uuid) A) :
  pairs_in ro m -> pairs_in (delete id ro) (filter (fun kv => ~ pair_mentions id kv.1) m).
Proof.
  intros Hm p v. rewrite map_lookup_filter_Some. simpl. intros [Hp Hn].
  destruct (Hm _ _ Hp). unfold pair_mentions in Hn.
  rewrite !lookup_delete_ne by (intros ->; tauto). done.
Qed.

Lemma wf_remove_entry s id e :
  wf_inner s -> roster s !! id = Some e -> wf_inner (remove_entry s id e).
Proof.
  intros [H1 H2 H3] He. split; simpl.
  - by apply wf_core_remove.
  - by apply pairs_in_filter.
  - by apply pairs_in_filter.
Qed.

Lemma apply_peer_left_eq s id reason at_micros :
  apply_peer_left s (mkPeerLeft (uuid_to_string id) reason at_micros)
  = match roster s !! id with Some e => remove_entry s id e | None => s end.
Proof. unfold apply_peer_left. simpl. by rewrite uuid_parse_to_string. Qed.

Lemma wf_publish s e : wf_inner s -> wf_inner (publish_event s e).
Proof. intros H. by apply (wf_inner_same s). Qed.
Lemma wf_broadcast s e : wf_inner s -> wf_inner (broadcast s e).
Proof. intros H. by apply (wf_inner_same s). Qed.
Lemma wf_persist s io : wf_inner s -> wf_inner (persist_roster s io).
Proof. intros H. by apply (wf_inner_same s). Qed.

Lemma wf_apply_peer_left s e : wf_inner s -> wf_inner (apply_peer_left s e).
Proof.
  intros H. unfold apply_peer_left. destruct (uuid_parse _) as [id|]; [|done].
  destruct (roster s !! id) eqn:He; [|done]. by apply wf_remove_entry.
Qed.

Lemma wf_deregister env s id reason : wf_inner s -> wf_inner (deregister env s id reason).1.
Proof.
  intros H. unfold deregister. destruct (tags <$> roster s !! id); [|done]. simpl.
  by apply wf_persist, wf_broadcast, wf_apply_peer_left, wf_publish.
Qed.

Lemma wf_evict env s ru : wf_inner s -> wf_inner (evict_stale_ula_holder env s ru).
Proof.
  intros H. unfold evict_stale_ula_holder.
  destruct ru as [raw|]; [|done]. destruct (parse_ipv6 raw) as [addr|]; [|done].
  destruct (peer_id <$> holder_of s addr) as [h|]; [|done].
  destruct (negb _); [done|].
  by apply wf_persist, wf_apply_peer_left, wf_broadcast, wf_publish.
Qed.

(** Eviction only removes. *)
Lemma evict_shrinks env s ru :
  roster (evict_stale_ula_holder env s ru) ⊆ roster s /\
  by_pubkey (evict_stale_ula_holder env s ru) ⊆ by_pubkey s /\
  allocator (evict_stale_ula_holder env s ru) = allocator s.
Proof.
  unfold evict_stale_ula_holder.
  destruct ru as [raw|]; [|done]. destruct (parse_ipv6 raw) as [addr|]; [|done].
  destruct (peer_id <$> holder_of s addr) as [h|]; [|done].
  destruct (negb _); [done|]. simpl. rewrite apply_peer_left_eq. simpl.
  destruct (roster s !! h); [|done]. simpl. split_and!; [apply delete_subseteq..|done].
Qed.

Lemma wf_set_allocator s al :
  wf_inner s -> wf_allocator al -> (forall x, counter (allocator s) x <= counter al x) ->
  wf_inner (s <| allocator := al |>).
Proof. intros [H1 H2 H3] Ha Hc. split; simpl; [by eapply wf_core_grow|done|done]. Qed.

Lemma wf_allocate_core s net :
  wf_inner s -> wf_inner (s <| allocator := fst (allocate (allocator s) net) |>).
Proof.
  intros H. apply wf_set_allocator; [done| |].
  - apply wf_allocate, (core_alloc _ _ _ (inner_core _ H)).
  - intros x. apply counter_allocate_le.
Qed.

Lemma resolve_ula_wf s net ru : wf_inner s -> wf_inner (resolve_ula s net ru).1.
Proof.
  intros H. unfold resolve_ula. destruct ru as [raw|].
  - destruct (parse_ipv6 raw) as [addr|] eqn:Hp; [|done].
    destruct (negb (Z.land _ _ =? _)); [done|]. destruct (_ && _ && _); [done|].
    destruct (existsb _ _); [done|]. simpl. apply wf_set_allocator; [done| |].
    + apply wf_bump; [|apply (core_alloc _ _ _ (inner_core _ H))].
      by apply wf_ipv6_segs, (parse_ipv6_wf raw).
    + intros x. apply counter_bump_le.
  - pose proof (wf_allocate_core s net H) as Hw. destruct (allocate (allocator s) net) as [a r]. done.
Qed.

Lemma resolve_ula_same s net ru :
  roster (resolve_ula s net ru).1 = roster s /\ by_pubkey (resolve_ula s net ru).1 = by_pubkey s.
Proof.
  unfold resolve_ula. destruct ru as [raw|].
  - destruct (parse_ipv6 raw) as [addr|]; [|done].
    destruct (negb (Z.land _ _ =? _)); [done|]. destruct (_ && _ && _); [done|].
    by destruct (existsb _ _).
  - by destruct (allocate (allocator s) net).
Qed.

(** A new member under a fresh id and a fresh key. *)
Lemma wf_apply_peer_joined env s event :
  wf_inner s ->
  (forall id, uuid_parse (pj_peer_id event) = Ok id -> roster s !! id = None) ->
  by_pubkey s !! pj_wg_public_key event = None ->
  length (pj_wg_public_key event) = 32%nat ->
  wf_inner (apply_peer_joined env s event).1.
Proof.
  intros Hwf Hid Hpk Hlen. unfold apply_peer_joined.
  destruct (uuid_parse (pj_peer_id event)) as [id|]; [|done]. specialize (Hid id eq_refl).
  destruct (parse_ipv6 (pj_ula event)) as [addr|] eqn:Hp; [|done].
  destruct (held_by_other s addr id) eqn:Hh; [done|].
  rewrite (held_by_other_false s addr id) in Hh by apply (inner_core _ Hwf).
  destruct Hwf as [H1 H2 H3]. split; simpl.
  - apply (wf_core_insert _ _ _ id (entry_of_joined env id addr event)); simpl;
      [done|done|done|done|by eapply parse_ipv6_wf|done|done|].
    intros j f Hj Hu. rewrite (Hh j f Hj Hu) in Hj. congruence.
  - intros p v Hv. destruct (H2 _ _ Hv). split; by apply lookup_insert_is_Some'; right.
  - intros p v Hv. destruct (H3 _ _ Hv). split; by apply lookup_insert_is_Some'; right.
Qed.

Lemma wf_register_new env s req claims pubkey resolved observed :
  wf_inner s -> roster s !! fresh_id env = None -> by_pubkey s !! pubkey = None ->
  length pubkey = 32%nat ->
  wf_inner (register_new env s req claims pubkey resolved observed).1.
Proof.
  intros Hwf Hid Hpk Hlen. unfold register_new.
  pose proof (wf_evict env s (rr_requested_ula req) Hwf) as Hwe.
  destruct (evict_shrinks env s (rr_requested_ula req)) as (Hse & Hsb & _).
  set (s1 := evict_stale_ula_holder env s (rr_requested_ula req)) in *.
  pose proof (resolve_ula_wf s1 (ni_network (stamp_identity req claims)) (rr_requested_ula req) Hwe) as Hwr.
  destruct (resolve_ula_same s1 (ni_network (stamp_identity req claims)) (rr_requested_ula req)) as [Hr Hb].
  destruct (resolve_ula s1 _ _) as [s2 [[i addr]|e]]; simpl in *; [|done].
  match goal with |- context [apply_peer_joined env ?s3 ?ev] =>
    pose proof (wf_apply_peer_joined env s3 ev) as Hj;
    destruct (apply_peer_joined env s3 ev) as [s4 [entry|e]] end; simpl in *.
  - apply wf_persist, wf_broadcast, wf_update_entry; [|by repeat split].
    apply Hj; [by apply wf_publish| |rewrite Hb; by eapply lookup_weaken_None|done].
    intros id. rewrite uuid_parse_to_string. intros [= <-]. rewrite Hr. by eapply lookup_weaken_None.
  - apply Hj; [by apply wf_publish| |rewrite Hb; by eapply lookup_weaken_None|done].
    intros id. rewrite uuid_parse_to_string. intros [= <-]. rewrite Hr. by eapply lookup_weaken_None.
Qed.
End Handlers.

Section Handlers2.
Context {EX : Externals} {EXL : ExternalLaws} {IT : Iteration} {ITL : IterationLaws}
  {RS : RosterSerde} {CH : Channels} {CS : ClaimsSerde}.

Lemma refresh_entry_core env req identity resolved observed realloc e :
  let e' := refresh_entry env req identity resolved observed realloc e in
  peer_id e' = peer_id e /\ wg_public_key e' = wg_public_key e /\
  match realloc with
  | Some (i, a) => ula e' = a /\ peer_index e' = i
  | None => ula e' = ula e /\ peer_index e' = peer_index e
  end.
Proof. destruct observed, realloc as [[]|]; by repeat split. Qed.

Lemma allocate_facts s net i a :
  wf_allocator (allocator s) ->
  snd (allocate (allocator s) net) = Ok (i, a) ->
  wf_ipv6 a /\ i = seg3 a /\ i <= counter (fst (allocate (allocator s) net)) (seg2 a) /\
  a = address_for (network_slot net) i /\ counter (allocator s) (network_slot net) < i.
Proof.
  intros Hwf Ha. unfold allocate in *.
  apply allocate_in_slot_Ok in Ha as (-> & Hlt & ->).
  pose proof (network_slot_range net) as Hr. pose proof (Hwf (network_slot net)) as Hc.
  unfold is_u16 in *. split_and!; try done.
  - apply wf_address_for; unfold is_u16; lia.
  - rewrite counter_allocate. rewrite decide_True by done. simpl. lia.
  - lia.
Qed.

Lemma wf_refresh_existing env s id req claims resolved observed :
  wf_inner s -> wf_inner (refresh_existing env s id req claims resolved observed).1.
Proof.
  intros Hwf. unfold refresh_existing. destruct (roster s !! id) as [old|] eqn:Ho; [|done].
  set (identity := stamp_identity req claims).
  destruct (_ && _) eqn:Hrehome.
  - pose proof (wf_allocate_core s (ni_network identity) Hwf) as Hwa.
    pose proof (allocate_facts s (ni_network identity)) as Hf.
    destruct (allocate (allocator s) (ni_network identity)) as [a [[i addr]|e]]; simpl in *; [|done].
    destruct (held_by_other _ addr id) eqn:Hh; [done|]. simpl.
    destruct (Hf i addr (core_alloc _ _ _ (inner_core _ Hwf)) eq_refl) as (Hw & Hi & Hc & _).
    pose proof (proj1 (held_by_other_false _ addr id (inner_core _ Hwa)) Hh) as Hu.
    apply wf_persist, wf_broadcast, wf_broadcast.
    destruct (refresh_entry_core env req identity resolved observed (Some (i, addr)) old)
      as (E1 & E2 & E3 & E4).
    destruct Hwa as [H1 H2 H3]. split; simpl in *.
    + eapply wf_core_rehome; [done|done|done|done| | | |]; rewrite ?E3, ?E4; done.
    + intros p v Hp. destruct (H2 _ _ Hp). split; by apply lookup_insert_is_Some'; right.
    + intros p v Hp. destruct (H3 _ _ Hp). split; by apply lookup_insert_is_Some'; right.
  - simpl. apply wf_broadcast.
    destruct (refresh_entry_core env req identity resolved observed None old) as (E1 & E2 & E3 & E4).
    destruct Hwf as [H1 H2 H3]. destruct (core_entry _ _ _ H1 _ _ Ho) as (Hw & Hi & Hc & _).
    split; simpl.
    + eapply wf_core_rehome; [done|done|done|done| | | |]; rewrite ?E3, ?E4; try done.
      intros j f Hj Hu. by eapply (core_ula _ _ _ H1).
    + intros p v Hp. destruct (H2 _ _ Hp). split; by apply lookup_insert_is_Some'; right.
    + intros p v Hp. destruct (H3 _ _ Hp). split; by apply lookup_insert_is_Some'; right.
Qed.

Lemma wf_register_authenticated env s req bearer reply observed s' r :
  wf_inner s -> roster s !! fresh_id env = None ->
  register_authenticated env s req bearer reply observed = Some (s', r) -> wf_inner s'.
Proof.
  intros Hwf Hid. unfold register_authenticated.
  destruct (authenticate s bearer reply) as [[claims|e]|]; [|by intros [= <- _]|done].
  destruct (authorize_fixed_requested_ula _ _); [|by intros [= <- _]].
  destruct (decode_pubkey _) as [pubkey|]; [|by intros [= <- _]].
  destruct (length pubkey =? 32)%nat eqn:Hlen; simpl; [|by intros [= <- _]].
  apply Nat.eqb_eq in Hlen.
  destruct (by_pubkey s !! pubkey) as [id|] eqn:Hpk.
  - match goal with |- context [refresh_existing ?a ?b ?c ?d ?e ?f ?g] =>
      pose proof (wf_refresh_existing a b c d e f g Hwf) as Hw;
      destruct (refresh_existing a b c d e f g) as [s1 [entry|e1]] end;
      intros [= <- _]; done.
  - intros [= Heq]. pose proof (wf_register_new env s req claims pubkey
      (resolve_listen_endpoint (rr_listen_endpoint req) observed (rr_wg_listen_port req) (rr_relay_only req))
      observed Hwf Hid Hpk Hlen) as Hw. by rewrite Heq in Hw.
Qed.

Lemma wf_record_paths s reporter ps :
  wf_inner s -> wf_inner (record_peer_paths s reporter ps).
Proof.
  intros Hwf. unfold record_peer_paths. destruct (roster s !! reporter); [|done].
  assert (forall ps edges t, pairs_in (roster s) (pairs t) ->
    pairs_in (roster s) (pairs (record_paths reporter ps edges t).2)) as Hp.
  { clear. induction ps as [|p ps IH]; intros edges t Ht; simpl; [done|].
    destruct (uuid_parse _) as [target|]; [|by apply IH].
    apply IH. destruct (pp_direct p); [|done]. intros q v. simpl.
    rewrite lookup_alter. case_decide; [|apply Ht]. subst.
    intros (v0 & Hv & _)%fmap_Some. by eapply Ht. }
  specialize (Hp ps ∅ (punch_tracker s) (inner_punch _ Hwf)).
  destruct (record_paths reporter ps ∅ (punch_tracker s)) as [edges t]; simpl in Hp.
  apply wf_update_entry; [|by repeat split].
  destruct Hwf as [H1 H2 H3]. by split.
Qed.

(** *** Heartbeats *)

Lemma wf_apply_heartbeat env s ev : wf_inner s -> wf_inner (apply_peer_heartbeat env s ev).
Proof.
  intros Hwf. unfold apply_peer_heartbeat. destruct (uuid_parse _); [|done].
  apply wf_update_entry; [done|]. by repeat split.
Qed.

Lemma wf_refresh_reflexive s id obs port ro :
  wf_inner s -> wf_inner (refresh_reflexive_endpoint s id obs port ro).
Proof.
  intros Hwf. unfold refresh_reflexive_endpoint. destruct ro; [done|].
  destruct (parse_sock obs); [|done]. apply wf_update_entry; [done|].
  intros e. simpl. repeat case_match; by repeat split.
Qed.

Lemma claim_pairs_in ro t (p : PunchPair) now :
  pairs_in ro (pairs t) -> is_Some (ro !! p.1) -> is_Some (ro !! p.2) ->
  pairs_in ro (pairs (claim t p now).1).
Proof.
  intros Ht H1 H2. unfold claim. destruct (pairs t !! p) as [st|] eqn:Hp.
  - destruct (reemit_cooldown (streak st) <=? wrap_i64 (now - last_emit st)); simpl; [|done].
    intros q v. rewrite lookup_insert. case_decide; [by intros; subst|apply Ht].
  - pose proof (take_token_pairs t now) as Htk.
    destruct (take_cold_start_token t now) as [t' []]; simpl in *; rewrite Htk; [|done].
    intros q v. rewrite lookup_insert. case_decide; [by intros; subst|apply Ht].
Qed.

Lemma try_emit_pairs_in ro t a b now :
  pairs_in ro (pairs t) -> is_Some (ro !! pp_id a) -> is_Some (ro !! pp_id b) ->
  pairs_in ro (pairs (try_emit_pair t a b now).1).
Proof.
  intros Ht Ha Hb. unfold try_emit_pair. case_bool_decide; [done|].
  destruct (_ || _); [done|].
  pose proof (claim_pairs_in ro t (canonical_pair (pp_id a) (pp_id b)) now Ht) as Hc.
  unfold canonical_pair in *. case_bool_decide; simpl in *;
    destruct (claim t _ now) as [t' []]; simpl in *; tauto.
Qed.

Lemma punch_peer_id s e other p : punch_peer_for_pair s e other = Some p -> pp_id p = peer_id e.
Proof.
  unfold punch_peer_for_pair. case_bool_decide; [done|]. destruct (relay_only e); [done|].
  destruct (is_pinned_to_relay _ _ _); [done|]. destruct (_ && _); [done|].
  destruct (nonempty _); [|done]. by intros [= <-].
Qed.

Lemma wf_emit_for now a s b :
  wf_inner s -> is_Some (roster s !! peer_id a) -> is_Some (roster s !! peer_id b) ->
  wf_inner (emit_for now a s b) /\ roster (emit_for now a s b) = roster s.
Proof.
  intros Hwf Ha Hb. unfold emit_for.
  destruct (punch_peer_for_pair s a (peer_id b)) as [pa|] eqn:Hpa; [|done].
  destruct (punch_peer_for_pair s b (peer_id a)) as [pb|] eqn:Hpb; [|done].
  apply punch_peer_id in Hpa, Hpb.
  pose proof (try_emit_pairs_in (roster s) (punch_tracker s) pa pb now (inner_punch _ Hwf)) as Ht.
  rewrite Hpa, Hpb in Ht. specialize (Ht Ha Hb).
  destruct Hwf as [H1 H2 H3].
  destruct (try_emit_pair (punch_tracker s) pa pb now) as [t [[ev_a ev_b]|]]; simpl in *; by split.
Qed.

Lemma wf_emit_all env s e :
  wf_inner s -> is_Some (roster s !! peer_id e) -> wf_inner (try_emit_holepunch_pairs env s e).
Proof.
  intros Hwf He. unfold try_emit_holepunch_pairs.
  assert (forall b, b ∈ List.filter (fun b => negb (bool_decide (peer_id b = peer_id e))) (entries s) ->
    is_Some (roster s !! peer_id b)) as Hb.
  { intros b Hb. apply list_elem_of_In, filter_In in Hb as [Hb _].
    apply list_elem_of_In, entries_spec in Hb as [j Hj].
    rewrite (core_id _ _ _ (inner_core _ Hwf) _ _ Hj). by exists b. }
  revert Hb. generalize (List.filter (fun b => negb (bool_decide (peer_id b = peer_id e))) (entries s)).
  intros l. revert s Hwf He. induction l as [|b l IH]; intros s Hwf He Hb; simpl; [done|].
  destruct (wf_emit_for (wall env) e s b Hwf He) as [Hw Hr]; [apply Hb; by left|].
  apply IH; [done|by rewrite Hr|]. intros b' Hb'. rewrite Hr. apply Hb. by right.
Qed.

Lemma wf_heartbeat env s id obs port hosted sv mv ro :
  wf_inner s -> wf_inner (heartbeat env s id obs port hosted sv mv ro).1.
Proof.
  intros Hwf. unfold heartbeat. destruct (roster s !! id) as [e0|]; [|done].
  match goal with |- context [refresh_reflexive_endpoint ?s1 id obs port ro] =>
    assert (wf_inner (refresh_reflexive_endpoint s1 id obs port ro)) as Hw;
    [|generalize dependent (refresh_reflexive_endpoint s1 id obs port ro)] end.
  - apply wf_refresh_reflexive, wf_update_entry; [|by repeat split].
    by apply wf_apply_heartbeat, wf_publish.
  - intros s2 Hw. destruct (roster s2 !! id) as [e|] eqn:He; [|done]. simpl.
    apply wf_emit_all; [by apply wf_broadcast|]. simpl.
    rewrite (core_id _ _ _ (inner_core _ Hw) _ _ He). by exists e.
Qed.

Lemma wf_foldl_deregister env ids s reason :
  wf_inner s -> wf_inner (foldl (fun s id => (deregister env s id reason).1) s ids).
Proof. revert s. induction ids as [|id ids IH]; intros s H; simpl; [done|]. by apply IH, wf_deregister. Qed.

Lemma wf_reap env s : wf_inner s -> wf_inner (reap_stale_resources env s).
Proof.
  intros [H1 H2 H3]. split; simpl; [done| |done].
  intros p v. rewrite map_lookup_filter_Some. intros [Hp _]. by eapply H2.
Qed.

Lemma wf_sweep env s : wf_inner s -> wf_inner (sweep_once env s).
Proof. intros H. by apply wf_foldl_deregister, wf_reap. Qed.
End Handlers2.
