(* ===== verification/Membership.v ===== *)
(** * What the membership operations do

    The effect of heartbeats, deregistration, sweeping and registration on the
    roster and on everything that hangs off it. *)

From S2P Require Import Prelude NetAddr Contract Types Allocator Policy HolePunch DirectFlags.
From S2P Require Import RelayRegistry RosterStore Reflexive Auth Coordinator Apply.
From S2P Require Import Registration Heartbeat CoordInv.

Open Scope Z_scope.

Section Heartbeats.
Context {EX : Externals} {EXL : ExternalLaws} {IT : Iteration} {ITL : IterationLaws}
  {RS : RosterSerde} {CH : Channels} {CS : ClaimsSerde}.

(** ** Punch directives *)

(** Both sides of the pair may be told to punch. *)
Definition punch_permitted (s : Inner) (a b : PeerEntry) : Prop :=
  observed_external a <> EmptyString /\ observed_external b <> EmptyString /\
  relay_only a = false /\ relay_only b = false /\
  is_pinned_to_relay (direct_pair_flags s) (peer_id a) (peer_id b) = false /\
  (proactive s = true \/ is_direct (direct_pair_flags s) (peer_id a) (peer_id b) = true).

(** [hp] tells [a] to punch towards [b] at [b]'s endpoint. *)
Definition punch_from_to (hp : HolePunchInitiate) (a b : PeerEntry) : Prop :=
  initiator_peer_id hp = uuid_to_string (peer_id a) /\
  target_peer_id hp = uuid_to_string (peer_id b) /\
  listen_endpoint b = Some (target_external_endpoint hp) /\
  target_external_endpoint hp <> EmptyString.

(** [s'] is [s] after the directives [ps] between [a] and entries of [l]. *)
Definition punched (a : PeerEntry) (l : list PeerEntry) (s s' : Inner) (ps : list HolePunchInitiate) : Prop :=
  roster s' = roster s /\ by_pubkey s' = by_pubkey s /\ allocator s' = allocator s /\
  policy_store s' = policy_store s /\ relay s' = relay s /\ roster_store s' = roster_store s /\
  relay_pair_stats s' = relay_pair_stats s /\
  direct_pair_flags s' = direct_pair_flags s /\ proactive s' = proactive s /\
  published s' = published s ++ (EvHolePunch <$> ps) /\
  broadcasts s' = broadcasts s ++ (HolePunch <$> ps) /\
  forall hp, hp ∈ ps -> exists b, b ∈ l /\ punch_permitted s a b /\
    (punch_from_to hp a b \/ punch_from_to hp b a).

Lemma punch_peer_for_pair_Some s e other p :
  punch_peer_for_pair s e other = Some p ->
  observed_external e <> EmptyString /\ relay_only e = false /\
  is_pinned_to_relay (direct_pair_flags s) (peer_id e) other = false /\
  (proactive s = true \/ is_direct (direct_pair_flags s) (peer_id e) other = true) /\
  p = mkPunchPeer (peer_id e) (dial_endpoint p) /\
  listen_endpoint e = Some (dial_endpoint p) /\ dial_endpoint p <> EmptyString.
Proof.
  unfold punch_peer_for_pair. case_bool_decide; [done|]. destruct (relay_only e); [done|].
  destruct (is_pinned_to_relay _ _ _) eqn:?; [done|].
  destruct (negb (proactive s) && _) eqn:Hd; [done|].
  destruct (nonempty (listen_endpoint e)) as [dial|] eqn:Hn; [|done]. intros [= <-].
  apply nonempty_Some in Hn as [Hn ?]. split_and!; try done.
  apply andb_false_iff in Hd as [Hd|Hd]; apply negb_false_iff in Hd; auto.
Qed.

Lemma punched_nil a l s s' :
  s' = s \/ (exists t, s' = s <| punch_tracker := t |>) -> punched a l s s' [].
Proof.
  unfold punched. intros [->|[t ->]]; simpl; rewrite !app_nil_r; split_and!; try done;
    intros ? Hin; by apply elem_of_nil in Hin.
Qed.

Lemma punched_emit_for now a s b :
  exists ps, punched a [b] s (emit_for now a s b) ps.
Proof.
  unfold emit_for.
  destruct (punch_peer_for_pair s a (peer_id b)) as [pa|] eqn:Ha; [|exists []; apply punched_nil; by left].
  destruct (punch_peer_for_pair s b (peer_id a)) as [pb|] eqn:Hb; [|exists []; apply punched_nil; by left].
  apply punch_peer_for_pair_Some in Ha as (A1 & A2 & A3 & A4 & A5 & A6 & A7).
  apply punch_peer_for_pair_Some in Hb as (B1 & B2 & _ & _ & B5 & B6 & B7).
  pose proof (try_emit_pair_symmetric (punch_tracker s) pa pb now) as Hs.
  destruct (try_emit_pair (punch_tracker s) pa pb now) as [t [[ev_a ev_b]|]].
  2: { exists []. apply punched_nil. right. by exists t. }
  destruct (Hs t ev_a ev_b eq_refl) as (_ & _ & _ & I1 & I2 & T1 & T2 & E1 & E2 & _).
  exists [ev_a; ev_b]. unfold punched; simpl. rewrite <- !app_assoc. simpl. split_and!; try done.
  rewrite A5 in I1, E2. rewrite B5 in I2, E1. simpl in *.
  intros hp Hin. exists b. split; [by left|]. split; [by split_and!|].
  apply elem_of_cons in Hin as [->|Hin]; [left|right; apply list_elem_of_singleton in Hin as ->];
    unfold punch_from_to; split_and!; congruence.
Qed.

Lemma punched_trans a l l' s1 s2 s3 ps ps' :
  punched a l s1 s2 ps -> punched a l' s2 s3 ps' -> punched a (l ++ l') s1 s3 (ps ++ ps').
Proof.
  unfold punched, punch_permitted.
  intros (?&?&?&?&?&?&?& Hf &Hp&?&?&In1) (?&?&?&?&?&?&?&?&?&E1&E2&In2).
  split_and!; try congruence.
  - rewrite E1, fmap_app, app_assoc. congruence.
  - rewrite E2, fmap_app, app_assoc. congruence.
  - intros hp [Hin|Hin]%elem_of_app.
    + destruct (In1 hp Hin) as (b & Hb & ?). exists b. split; [apply elem_of_app; by left|done].
    + destruct (In2 hp Hin) as (b & Hb & Hx). exists b. split; [apply elem_of_app; by right|].
      by rewrite Hf, Hp in Hx.
Qed.

Lemma punched_all env s e :
  exists ps, punched e (List.filter (fun b => negb (bool_decide (peer_id b = peer_id e))) (entries s))
               s (try_emit_holepunch_pairs env s e) ps.
Proof.
  unfold try_emit_holepunch_pairs.
  generalize (List.filter (fun b => negb (bool_decide (peer_id b = peer_id e))) (entries s)).
  intros l. revert s. induction l as [|b l IH]; intros s; simpl.
  { exists []. apply punched_nil. by left. }
  destruct (punched_emit_for (wall env) e s b) as [ps Hps].
  destruct (IH (emit_for (wall env) e s b)) as [ps' Hps'].
  exists (ps ++ ps'). by eapply (punched_trans e [b] l).
Qed.

(** ** What a heartbeat leaves in the entry *)

(** The fields of an entry that no heartbeat touches. *)
Definition heartbeat_keeps (e e' : PeerEntry) : Prop :=
  same_core e' e /\ network e' = network e /\ tags e' = tags e /\ kind e' = kind e /\
  parent e' = parent e /\ app_uuid e' = app_uuid e /\ display_name e' = display_name e /\
  joined_at_micros e' = joined_at_micros e /\ paths e' = paths e /\
  dataplane_healthy e' = dataplane_healthy e /\ pending_commands e' = pending_commands e.

(** The endpoint after a heartbeat: it moves only to the public address that the
    heartbeat came from, and never away from an explicit one. *)
Definition heartbeat_endpoint (obs : string) (port : option Z) (ro : bool) (e e' : PeerEntry) : Prop :=
  (listen_endpoint e' = listen_endpoint e /\ endpoint_is_reflexive e' = endpoint_is_reflexive e) \/
  (ro = false /\ (endpoint_is_reflexive e = true \/ listen_endpoint e = None) /\
   exists o p, parse_sock obs = Some o /\ port = Some p /\ is_public (sock_ip o) = true /\
     listen_endpoint e' = Some (reflexive_endpoint (sock_ip o) p) /\ endpoint_is_reflexive e' = true).

Definition heartbeat_refreshes (env : Env) (obs : string) (port : option Z) (hosted : list string)
    (sv mv : option string) (ro : bool) (e e' : PeerEntry) : Prop :=
  heartbeat_keeps e e' /\ heartbeat_endpoint obs port ro e e' /\
  last_heartbeat e' = now env /\ observed_external e' = obs /\ hosted_app_ulas e' = hosted /\
  software_version e' = or_else sv (software_version e) /\
  mesh_version e' = or_else mv (mesh_version e) /\ relay_only e' = ro.

Lemma heartbeat_keeps_trans a b c : heartbeat_keeps a b -> heartbeat_keeps b c -> heartbeat_keeps a c.
Proof.
  unfold heartbeat_keeps, same_core. intros ((?&?&?&?)&?&?&?&?&?&?&?&?&?&?) ((?&?&?&?)&?&?&?&?&?&?&?&?&?&?).
  split_and!; congruence.
Qed.

(** Everything but the roster entry, the logs and the punch tracker stays. *)
Definition roster_only (s s' : Inner) : Prop :=
  by_pubkey s' = by_pubkey s /\ allocator s' = allocator s /\ policy_store s' = policy_store s /\
  relay s' = relay s /\ roster_store s' = roster_store s /\ relay_pair_stats s' = relay_pair_stats s /\
  direct_pair_flags s' = direct_pair_flags s /\ proactive s' = proactive s.

Lemma update_entry_Some s id f e :
  roster s !! id = Some e -> roster (update_entry s id f) = <[id := f e]> (roster s).
Proof.
  intros He. simpl. apply map_eq. intros j. rewrite lookup_alter, lookup_insert.
  case_decide; subst; by rewrite ?He.
Qed.

Lemma refresh_reflexive_effect s id obs port ro e :
  roster s !! id = Some e ->
  let s' := refresh_reflexive_endpoint s id obs port ro in
  roster_only s s' /\ published s' = published s /\ broadcasts s' = broadcasts s /\
  exists e', roster s' = <[id := e']> (roster s) /\ heartbeat_keeps e e' /\
    heartbeat_endpoint obs port ro e e' /\ last_heartbeat e' = last_heartbeat e /\
    observed_external e' = observed_external e /\ hosted_app_ulas e' = hosted_app_ulas e /\
    software_version e' = software_version e /\ mesh_version e' = mesh_version e /\
    relay_only e' = relay_only e.
Proof.
  intros He. unfold refresh_reflexive_endpoint.
  assert (roster s = <[id := e]> (roster s)) as Hid by (symmetry; by apply insert_id).
  assert (forall e', e' = e -> heartbeat_keeps e e' /\ heartbeat_endpoint obs port ro e e') as Hk.
  { intros ? ->. split; [by repeat split|by left]. }
  destruct ro.
  { split; [by repeat split|]. do 2 (split; [done|]). exists e. destruct (Hk e eq_refl). by split_and!. }
  destruct (parse_sock obs) as [o|] eqn:Ho.
  2: { split; [by repeat split|]. do 2 (split; [done|]). exists e. destruct (Hk e eq_refl). by split_and!. }
  split; [by repeat split|]. do 2 (split; [done|]).
  rewrite (update_entry_Some _ _ _ e He). eexists. split; [done|].
  destruct (negb (endpoint_is_reflexive e) && _) eqn:Hsticky; [destruct (Hk e eq_refl); by split_and!|].
  destruct (reflexive _ && _) eqn:Hr; [|destruct (Hk e eq_refl); by split_and!].
  apply andb_true_iff in Hr as [Hr _]. split; [by repeat split|]. split; [|done].
  right. split; [done|]. split.
  { apply andb_false_iff in Hsticky as [Hs|Hs]; [left; by apply negb_false_iff|right].
    by destruct (listen_endpoint e). }
  apply resolve_reflexive in Hr as (_ & _ & o' & p & [= <-] & -> & Hp & Heq).
  exists o, p. by split_and!.
Qed.

Lemma heartbeat_effect env s id obs port hosted sv mv ro e :
  wf_inner s -> roster s !! id = Some e ->
  exists s' e' ps, heartbeat env s id obs port hosted sv mv ro = (s', Ok e') /\
    roster s' = <[id := e']> (roster s) /\ roster_only s s' /\
    heartbeat_refreshes env obs port hosted sv mv ro e e' /\
    published s' = published s
      ++ EvHeartbeat (mkPeerHeartbeat (uuid_to_string id) obs hosted sv mv (wall env))
         :: (EvHolePunch <$> ps) /\
    broadcasts s' = broadcasts s ++ Updated (to_info e') :: (HolePunch <$> ps) /\
    forall hp, hp ∈ ps -> exists j b, roster s' !! j = Some b /\ j <> id /\
      punch_permitted s e' b /\ (punch_from_to hp e' b \/ punch_from_to hp b e').
Proof.
  intros Hwf He. unfold heartbeat. rewrite He.
  unfold apply_peer_heartbeat. simpl. rewrite uuid_parse_to_string.
  match goal with |- context [refresh_reflexive_endpoint ?s1 id obs port ro] => set (s1' := s1) end.
  assert (wf_inner s1') as Hw1.
  { subst s1'. do 2 (apply wf_update_entry; [|by repeat split]). by apply wf_publish. }
  assert (exists e1, roster s1' = <[id := e1]> (roster s) /\ heartbeat_keeps e e1 /\
    listen_endpoint e1 = listen_endpoint e /\ endpoint_is_reflexive e1 = endpoint_is_reflexive e /\
    last_heartbeat e1 = now env /\ observed_external e1 = obs /\ hosted_app_ulas e1 = hosted /\
    software_version e1 = or_else sv (software_version e) /\
    mesh_version e1 = or_else mv (mesh_version e) /\ relay_only e1 = ro) as (e1 & R1 & K1 & L1).
  { subst s1'. erewrite update_entry_Some; [|erewrite update_entry_Some by done; by apply lookup_insert_eq].
    erewrite update_entry_Some by done. rewrite insert_insert_eq. eexists. split; [done|]. by repeat split. }
  assert (roster s1' !! id = Some e1) as He1 by (rewrite R1; by apply lookup_insert_eq).
  pose proof (refresh_reflexive_effect s1' id obs port ro e1 He1) as (F1 & P1 & B1 & e2 & R2 & K2 & E2 & L2).
  pose proof (wf_refresh_reflexive s1' id obs port ro Hw1) as Hw2.
  set (s2 := refresh_reflexive_endpoint s1' id obs port ro) in *.
  rewrite R2, lookup_insert_eq.
  destruct (punched_all env (broadcast s2 (Updated (to_info e2))) e2)
    as (ps & Q1 & Q2 & Q3 & Q4 & Q5 & Q6 & Q7 & Q8 & Q9 & Q10 & Q11 & Q12).
  set (s3 := try_emit_holepunch_pairs env _ _) in *. simpl in *.
  destruct F1 as (F1 & F2 & F3 & F4 & F5 & F6 & F7 & F8).
  exists s3, e2, ps. split; [done|].
  assert (roster s2 = <[id := e2]> (roster s)) as Hr2 by by rewrite R2, R1, insert_insert_eq.
  split; [by rewrite Q1, Hr2|]. split.
  { unfold roster_only. rewrite Q2, Q3, Q4, Q5, Q6, Q7, Q8, Q9, F1, F2, F3, F4, F5, F6, F7, F8. by repeat split. }
  split.
  { destruct L1 as (L1 & L1' & L3 & L4 & L5 & L6 & L7 & L8), L2 as (M3 & M4 & M5 & M6 & M7 & M8).
    split; [by eapply heartbeat_keeps_trans|]. split; [|split_and!; congruence].
    unfold heartbeat_endpoint in *. by rewrite <- L1, <- L1'. }
  split; [rewrite Q10, P1; simpl; by rewrite <- app_assoc|].
  split; [rewrite Q11, B1; simpl; by rewrite <- app_assoc|].
  intros hp Hin. destruct (Q12 hp Hin) as (b & Hb & Hperm & Hft).
  apply list_elem_of_In, filter_In in Hb as [Hb Hne].
  apply list_elem_of_In, entries_spec in Hb as [j Hj]. exists j, b.
  simpl in Hj. rewrite Q1. split; [done|].
  assert (peer_id e2 = id) as Hid.
  { apply (core_id _ _ _ (inner_core _ Hw2)). by rewrite R2, lookup_insert_eq. }
  rewrite (core_id _ _ _ (inner_core _ Hw2) _ _ Hj), Hid in Hne.
  apply negb_true_iff, bool_decide_eq_false in Hne. split; [done|]. split; [|done].
  unfold punch_permitted in *; simpl in *. by rewrite F7, F8 in Hperm.
Qed.

(** A heartbeat of an unknown peer is refused and changes nothing. One of a known
    peer refreshes that entry and no other: the identity, address, network and
    tags stay; an endpoint moves only to the public address the heartbeat came
    from, and an explicit endpoint is never overwritten; one heartbeat event is
    published and one update broadcast, followed by the punch directives, each
    of which is between this peer and another one, permitted on both sides (an
    observed address, not relay-only, not pinned to the relay, and proactive mode
    or the pair's direct flag) and carries the other side's own endpoint. *)
Theorem heartbeat_functional env s id obs port hosted sv mv ro s' r :
  wf_inner s -> heartbeat env s id obs port hosted sv mv ro = (s', r) ->
  match roster s !! id with
  | None => s' = s /\ r = Err (UnknownPeer id)
  | Some e =>
      exists e' ps, r = Ok e' /\ roster s' = <[id := e']> (roster s) /\ roster_only s s' /\
        heartbeat_refreshes env obs port hosted sv mv ro e e' /\
        published s' = published s
          ++ EvHeartbeat (mkPeerHeartbeat (uuid_to_string id) obs hosted sv mv (wall env))
             :: (EvHolePunch <$> ps) /\
        broadcasts s' = broadcasts s ++ Updated (to_info e') :: (HolePunch <$> ps) /\
        forall hp, hp ∈ ps -> exists j b, roster s' !! j = Some b /\ j <> id /\
          punch_permitted s e' b /\ (punch_from_to hp e' b \/ punch_from_to hp b e')
  end.
Proof.
  intros Hwf Hh. destruct (roster s !! id) as [e|] eqn:He.
  - destruct (heartbeat_effect env s id obs port hosted sv mv ro e Hwf He) as (s1 & e' & ps & Heq & Hx).
    rewrite Heq in Hh. injection Hh as <- <-. by exists e', ps.
  - unfold heartbeat in Hh. rewrite He in Hh. by injection Hh as <- <-.
Qed.
End Heartbeats.

Section Departures.
Context {EX : Externals} {EXL : ExternalLaws} {IT : Iteration} {ITL : IterationLaws}
  {RS : RosterSerde} {CH : Channels} {CS : ClaimsSerde}.

(** Nothing in the state mentions peer [id] or its key [pk]. *)
Definition no_trace (s : Inner) (id : Uuid) (pk : list Z) : Prop :=
  roster s !! id = None /\ by_pubkey s !! pk = None /\ (forall k, by_pubkey s !! k <> Some id) /\
  conns (relay s) !! pk = None /\ spool (relay s) !! pk = None /\
  (forall p st, pairs (punch_tracker s) !! p = Some st -> ~ pair_mentions id p) /\
  (forall x, is_direct (direct_pair_flags s) id x = false /\
             is_pinned_to_relay (direct_pair_flags s) id x = false) /\
  (forall p st, relay_pair_stats s !! p = Some st -> ~ pair_mentions id p).

(** What belongs to others is as it was. *)
Definition others_kept (s s' : Inner) (id : Uuid) (pk : list Z) : Prop :=
  (forall j, j <> id -> roster s' !! j = roster s !! j) /\
  (forall k, k <> pk -> by_pubkey s' !! k = by_pubkey s !! k /\
     conns (relay s') !! k = conns (relay s) !! k /\ spool (relay s') !! k = spool (relay s) !! k) /\
  (forall p, ~ pair_mentions id p ->
     pairs (punch_tracker s') !! p = pairs (punch_tracker s) !! p /\
     relay_pair_stats s' !! p = relay_pair_stats s !! p) /\
  (forall x y, x <> id -> y <> id ->
     is_direct (direct_pair_flags s') x y = is_direct (direct_pair_flags s) x y /\
     is_pinned_to_relay (direct_pair_flags s') x y = is_pinned_to_relay (direct_pair_flags s) x y) /\
  allocator s' = allocator s /\ policy_store s' = policy_store s /\ proactive s' = proactive s.

Lemma map_filter_keep {A} (m : gmap (Uuid * Uuid) A) id p :
  ~ pair_mentions id p -> filter (fun kv => ~ pair_mentions id kv.1) m !! p = m !! p.
Proof.
  intros Hp. rewrite map_lookup_filter. destruct (m !! p); simpl; [|done].
  rewrite option_guard_True by done. done.
Qed.

Lemma remove_entry_effect s id e :
  wf_inner s -> roster s !! id = Some e ->
  no_trace (remove_entry s id e) id (wg_public_key e) /\
  others_kept s (remove_entry s id e) id (wg_public_key e).
Proof.
  intros Hwf He. pose proof (core_key _ _ _ (inner_core _ Hwf)) as Hk. split.
  - unfold no_trace, remove_entry; simpl. rewrite !lookup_delete_eq.
    do 2 (split; [done|]). split.
    { intros k. rewrite lookup_delete_Some, Hk. intros (Hne & f & Hf & Hfk). congruence. }
    do 2 (split; [done|]). split; [by intros p st [_ ?]%map_lookup_filter_Some|].
    split; [|by intros p st [_ ?]%map_lookup_filter_Some].
    intros x. unfold is_direct, is_pinned_to_relay, flags_remove_peer; simpl.
    rewrite !flag_of_remove. case_decide; [done|]. tauto.
  - unfold others_kept, remove_entry; simpl. split_and!; try done.
    + intros j Hj. by rewrite lookup_delete_ne.
    + intros k Hk'. by rewrite !lookup_delete_ne.
    + intros p Hp. by rewrite !map_filter_keep.
    + intros x y Hx Hy. unfold is_direct, is_pinned_to_relay, flags_remove_peer; simpl.
      rewrite !flag_of_remove. rewrite !decide_False by tauto. done.
Qed.

Lemma deregister_effect env s id reason e :
  roster s !! id = Some e ->
  let s1 := publish_event s (EvLeft (mkPeerLeft (uuid_to_string id) reason (wall env))) in
  deregister env s id reason
  = (persist_roster (broadcast (remove_entry s1 id e) (Removed (uuid_to_string id) (tags e))) (save_io env), true).
Proof. intros He. unfold deregister. rewrite He. simpl. by rewrite apply_peer_left_eq; simpl; rewrite He. Qed.

Lemma deregister_roster env s id reason j :
  roster (deregister env s id reason).1 !! j = if decide (j = id) then None else roster s !! j.
Proof.
  destruct (roster s !! id) as [e|] eqn:He.
  - rewrite (deregister_effect _ _ _ _ _ He). simpl. rewrite lookup_delete. by repeat case_decide; subst.
  - unfold deregister. rewrite He. simpl. by case_decide; subst.
Qed.

Lemma foldl_deregister_roster env reason ids s j :
  roster (foldl (fun s id => (deregister env s id reason).1) s ids) !! j
  = if decide (j ∈ ids) then None else roster s !! j.
Proof.
  revert s. induction ids as [|id ids IH]; intros s; cbn [foldl].
  { by rewrite decide_False by apply not_elem_of_nil. }
  rewrite IH, deregister_roster.
  destruct (decide (j ∈ ids)) as [Hin|Hn]; [by rewrite decide_True by by right|].
  destruct (decide (j = id)) as [->|Hne]; [by rewrite decide_True by by left|].
  rewrite decide_False; [done|]. by rewrite not_elem_of_cons.
Qed.

(** Deregistration leaves no trace and no collateral damage: it answers whether the
    peer was there; an absent peer changes nothing; after it, neither the roster,
    the key index, the relay's connections and spool, the punch tracker, the pair
    flags nor the relay counters mention the peer or its key, while everything
    that concerns other peers, the allocator (so the address is not handed out
    again) and the policy are untouched; a departure is published and the removal
    broadcast with the tags the peer had. *)
Theorem deregister_leaves_no_trace env s id reason s' b :
  wf_inner s -> deregister env s id reason = (s', b) ->
  b = bool_decide (is_Some (roster s !! id)) /\ (b = false -> s' = s) /\
  (forall e, roster s !! id = Some e ->
     no_trace s' id (wg_public_key e) /\ others_kept s s' id (wg_public_key e) /\
     published s' = published s ++ [EvLeft (mkPeerLeft (uuid_to_string id) reason (wall env))] /\
     broadcasts s' = broadcasts s ++ [Removed (uuid_to_string id) (tags e)] /\
     snd (deregister env s' id reason) = false).
Proof.
  intros Hwf Hd. destruct (roster s !! id) as [e|] eqn:He.
  - rewrite (deregister_effect _ _ _ _ _ He) in Hd. injection Hd as <- <-.
    rewrite bool_decide_true by done. do 2 (split; [done|]). intros ? [= <-].
    destruct (remove_entry_effect s id e Hwf He) as [Hn Ho].
    split; [exact Hn|]. split; [exact Ho|]. do 2 (split; [done|]).
    unfold deregister. simpl. by rewrite lookup_delete_eq.
  - unfold deregister in Hd. rewrite He in Hd. injection Hd as <- <-.
    rewrite bool_decide_false by by intros [? ?]. by repeat split.
Qed.

(** An entry that has been silent for longer than the timeout. *)
Definition silent (env : Env) (s : Inner) (e : PeerEntry) : Prop :=
  heartbeat_timeout s < duration_since (now env) (last_heartbeat e).

Lemma stale_peers_spec s t id :
  id ∈ stale_peers s t <->
  exists e, roster s !! id = Some e /\ heartbeat_timeout s < duration_since t (last_heartbeat e).
Proof.
  unfold stale_peers. rewrite list_elem_of_omap. split.
  - intros ([j e] & Hin & Hs). rewrite iter_map_perm in Hin. apply elem_of_map_to_list in Hin.
    simpl in Hs. destruct (_ <? _) eqn:Hlt; [|done]. injection Hs as ->. exists e.
    split; [done|lia].
  - intros (e & He & Hs). exists (id, e). rewrite iter_map_perm, elem_of_map_to_list. split; [done|].
    simpl. destruct (_ <? _) eqn:Hlt; [done|lia].
Qed.

(** C30: The sweeper removes exactly the silent peers: after a sweep a peer is in the
    roster, with the entry it had, if and only if it was there and its last
    heartbeat is no older than the timeout. *)
Theorem sweep_removes_exactly_silent env s id e :
  roster (sweep_once env s) !! id = Some e <-> roster s !! id = Some e /\ ~ silent env s e.
Proof.
  unfold sweep_once. rewrite foldl_deregister_roster.
  pose proof (stale_peers_spec (reap_stale_resources env s) (now env) id) as Hs.
  change (roster (reap_stale_resources env s)) with (roster s) in *.
  change (heartbeat_timeout (reap_stale_resources env s)) with (heartbeat_timeout s) in *.
  unfold silent. case_decide as Hin; rewrite Hs in Hin.
  - split; [done|]. intros [He Hns]. destruct Hin as (e' & He' & ?). by simplify_eq.
  - split; [|tauto]. intros He. split; [done|]. intros Hsl. apply Hin. by exists e.
Qed.
End Departures.
