(* ===== verification/MembershipConc.v ===== *)
(** * Members that come and go at the same time
    ([roster/coordinator/registration.rs], [heartbeat.rs], [roster/apply.rs])

    The handlers run on many threads and share the maps of [Inner] one access at a time.
    Registrations exclude each other with [registration_lock]; deregistrations, the
    sweeper and heartbeats do not take it. Here registering and deregistering are
    state machines, one step for each access to the roster or the key index that others
    can come between, together with the announcements and counters next to it, and any
    number of them step in any order. A handler that runs alone is the one of
    [Registration] and [Heartbeat]; whatever the interleaving, addresses stay unique,
    whenever no handler is in the middle the key index fits the roster, and no handler
    waits for ever. *)

From S2P Require Import Prelude NetAddr Contract Types Allocator Policy HolePunch DirectFlags.
From S2P Require Import RelayRegistry RosterStore Reflexive Auth Coordinator Apply Registration Heartbeat CoordInv Membership.

Open Scope Z_scope.

Section MembershipConc.
Context {EX : Externals} {EXL : ExternalLaws} {IT : Iteration} {ITL : IterationLaws}
  {RS : RosterSerde} {CH : Channels} {CS : ClaimsSerde}.

(** ** Registering *)

(** A registration that has passed the checks before the lock. *)
Record Registration := mkRegistration {
  g_env : Env;
  g_req : RegisterRequest;
  g_claims : option ValidatedClaims;
  g_pubkey : list Z;
  g_observed : option SocketAddr;
}.
Definition g_resolved (g : Registration) : ResolvedEndpoint :=
  resolve_listen_endpoint (rr_listen_endpoint (g_req g)) (g_observed g) (rr_wg_listen_port (g_req g)) (rr_relay_only (g_req g)).
Definition g_identity (g : Registration) : NodeIdentity := stamp_identity (g_req g) (g_claims g).

(** The event of a first registration. *)
Definition joined_event (g : Registration) (addr : Ipv6Addr) : PeerJoined :=
  let req := g_req g in
  {| pj_peer_id := uuid_to_string (fresh_id (g_env g));
     pj_wg_public_key := g_pubkey g;
     pj_ula := fmt_ipv6 addr;
     pj_listen_endpoint := default EmptyString (endpoint (g_resolved g));
     pj_display_name := rr_display_name req;
     pj_network := ni_network (g_identity g);
     pj_tags := ni_tags (g_identity g);
     pj_hosted_app_ulas := rr_hosted_app_ulas req;
     pj_joined_at_micros := wall (g_env g);
     pj_kind := rr_kind req;
     pj_parent := rr_parent req;
     pj_app_uuid := rr_app_uuid req;
     pj_software_version := rr_software_version req;
     pj_mesh_version := rr_mesh_version req;
     pj_relay_only := rr_relay_only req |}.

Inductive RegPc :=
| Locking | Looking
| FindingHolder | CheckingStale (holder : Uuid) | EvictRemoving (holder : Uuid)
| EvictUnindexing (holder : Uuid) (e : PeerEntry) | EvictClearing (holder : Uuid) (e : PeerEntry) | EvictPersisting
| Resolving | Checking (event : PeerJoined) | Inserting (id : Uuid) (e : PeerEntry) | Indexing (id : Uuid) (e : PeerEntry)
| Finishing (id : Uuid) (e : PeerEntry)
| RefreshPlanning (id : Uuid) | RefreshWriting (id : Uuid) (rehome : bool) (realloc : option (Z * Ipv6Addr))
| RegDone (r : Result (PeerEntry * RegisterOutcome) CoordinatorError).

(** [apply_peer_left] after [roster.remove]: the key index, then the rest. *)
Definition unindex (s : Inner) (e : PeerEntry) : Inner := s <| by_pubkey := delete (wg_public_key e) (by_pubkey s) |>.
Definition clear_rest (s : Inner) (id : Uuid) (e : PeerEntry) : Inner :=
  let s := s <| relay := drop_pubkey (relay s) (wg_public_key e) |> in
  let s := s <| punch_tracker := fst (punch_remove_peer (punch_tracker s) id) |> in
  let s := s <| direct_pair_flags := flags_remove_peer (direct_pair_flags s) id |> in
  s <| relay_pair_stats := filter (fun kv => ~ pair_mentions id kv.1) (relay_pair_stats s) |>.
Definition left_event (env : Env) (id : Uuid) (reason : string) : PeerLeft :=
  {| pl_peer_id := uuid_to_string id; pl_reason := reason; pl_left_at_micros := wall env |}.

(** The end of [register_authenticated] for a new member: the counter, the late fields,
    the broadcast and the save. *)
Definition finish (g : Registration) (s : Inner) (id : Uuid) (entry : PeerEntry) : Inner * PeerEntry :=
  let s := s <| allocator := bump_slot_at_least (allocator s) (seg2 (ula entry)) (seg3 (ula entry)) |> in
  let entry := entry <| endpoint_is_reflexive := reflexive (g_resolved g) |> in
  let entry := match g_observed g with
               | Some obs => entry <| observed_external := fmt_sock obs |>
               | None => entry
               end in
  let s := update_entry s id (fun e =>
             e <| endpoint_is_reflexive := reflexive (g_resolved g) |>
               <| observed_external := observed_external entry |>) in
  let s := broadcast s (Added (to_info entry)) in
  (persist_roster s (save_io (g_env g)), entry).

(** What a re-registration decides before it writes. Everything it reads here is changed
    under the lock only, except that members leave. *)
Definition refresh_plan (g : Registration) (s : Inner) (id : Uuid)
    : Inner * Result (bool * option (Z * Ipv6Addr)) CoordinatorError :=
  match roster s !! id with
  | None => (s, Err (UnknownPeer id))
  | Some old =>
      if bool_decide (is_Some (g_claims g)) && negb (bool_decide (ni_network (g_identity g) = network old)) then
        let '(a, r) := allocate (allocator s) (ni_network (g_identity g)) in
        let s := s <| allocator := a |> in
        match lift_alloc r with
        | Err e => (s, Err e)
        | Ok (new_index, new_ula) =>
            if held_by_other s new_ula id then (s, Err (UlaConflict (fmt_ipv6 new_ula)))
            else (s, Ok (true, Some (new_index, new_ula)))
        end
      else (s, Ok (false, None))
  end.
Definition refresh_write (g : Registration) (s : Inner) (id : Uuid) (rehome : bool) (realloc : option (Z * Ipv6Addr))
    : Inner * Result (PeerEntry * RegisterOutcome) CoordinatorError :=
  match roster s !! id with
  | None => (s, Err (UnknownPeer id))
  | Some old =>
      let entry := refresh_entry (g_env g) (g_req g) (g_identity g) (g_resolved g) (g_observed g) realloc old in
      let s := s <| roster := <[id := entry]> (roster s) |> in
      if rehome then
        let s := broadcast s (Removed (uuid_to_string id) (tags old)) in
        let s := broadcast s (Added (to_info entry)) in
        (persist_roster s (save_io (g_env g)), Ok (entry, Existed))
      else (broadcast s (Updated (to_info entry)), Ok (entry, Existed))
  end.

(** The next access of a registration on thread [k]; [None] when it waits or is done. The
    lock is released where the guard goes out of scope. *)
Definition reg_step (k : nat) (g : Registration) (s : Inner) (lock : option nat) (pc : RegPc)
    : option (Inner * option nat * RegPc) :=
  let go s pc := Some (s, lock, pc) in
  let return_ s r := Some (s, None, RegDone r) in
  match pc with
  | Locking => match lock with None => Some (s, Some k, Looking) | Some _ => None end
  | Looking =>
      go s (match by_pubkey s !! g_pubkey g with Some id => RefreshPlanning id | None => FindingHolder end)
  | FindingHolder =>
      go s (match (raw ← rr_requested_ula (g_req g); addr ← parse_ipv6 raw; peer_id <$> holder_of s addr) with
            | Some holder => CheckingStale holder
            | None => Resolving
            end)
  | CheckingStale holder =>
      let is_stale := match roster s !! holder with
                      | Some e => heartbeat_timeout s <? duration_since (now (g_env g)) (last_heartbeat e)
                      | None => false
                      end in
      if negb is_stale then go s Resolving
      else
        let s := publish_event s (EvLeft (left_event (g_env g) holder "evicted_stale_ula_holder")) in
        let tags := default [] (tags <$> roster s !! holder) in
        go (broadcast s (Removed (uuid_to_string holder) tags)) (EvictRemoving holder)
  | EvictRemoving holder =>
      match roster s !! holder with
      | Some e => go (s <| roster := delete holder (roster s) |>) (EvictUnindexing holder e)
      | None => go s EvictPersisting
      end
  | EvictUnindexing holder e => go (unindex s e) (EvictClearing holder e)
  | EvictClearing holder e => go (clear_rest s holder e) EvictPersisting
  | EvictPersisting => go (persist_roster s (save_io (g_env g))) Resolving
  | Resolving =>
      match resolve_ula s (ni_network (g_identity g)) (rr_requested_ula (g_req g)) with
      | (s, Err e) => return_ s (Err e)
      | (s, Ok (_, addr)) => go (publish_event s (EvJoined (joined_event g addr))) (Checking (joined_event g addr))
      end
  | Checking event =>
      match uuid_parse (pj_peer_id event) with
      | Err e => return_ s (Err (InvalidPeerId e))
      | Ok id =>
          match parse_ipv6 (pj_ula event) with
          | None => return_ s (Err (InvalidPeerId ADDR_PARSE_ERROR))
          | Some addr =>
              if held_by_other s addr id then return_ s (Err (UlaConflict (fmt_ipv6 addr)))
              else go s (Inserting id (entry_of_joined (g_env g) id addr event))
          end
      end
  | Inserting id e => go (s <| roster := <[id := e]> (roster s) |>) (Indexing id e)
  | Indexing id e => go (s <| by_pubkey := <[wg_public_key e := id]> (by_pubkey s) |>) (Finishing id e)
  | Finishing id e => let '(s, entry) := finish g s id e in return_ s (Ok (entry, Created))
  | RefreshPlanning id =>
      match refresh_plan g s id with
      | (s, Err e) => return_ s (Err e)
      | (s, Ok (rehome, realloc)) => go s (RefreshWriting id rehome realloc)
      end
  | RefreshWriting id rehome realloc => let '(s, r) := refresh_write g s id rehome realloc in return_ s r
  | RegDone _ => None
  end.

(** ** Deregistering *)

Inductive DelPc :=
| Reading | Removing (tags : list string) | Unindexing (tags : list string) (e : PeerEntry)
| Clearing (tags : list string) (e : PeerEntry) | Announcing (tags : list string) | DelDone (known : bool).

Definition del_step (env : Env) (id : Uuid) (reason : string) (s : Inner) (pc : DelPc) : option (Inner * DelPc) :=
  match pc with
  | Reading =>
      match tags <$> roster s !! id with
      | None => Some (s, DelDone false)
      | Some tags => Some (publish_event s (EvLeft (left_event env id reason)), Removing tags)
      end
  | Removing tags =>
      match roster s !! id with
      | Some e => Some (s <| roster := delete id (roster s) |>, Unindexing tags e)
      | None => Some (s, Announcing tags)
      end
  | Unindexing tags e => Some (unindex s e, Clearing tags e)
  | Clearing tags e => Some (clear_rest s id e, Announcing tags)
  | Announcing tags =>
      Some (persist_roster (broadcast s (Removed (uuid_to_string id) tags)) (save_io env), DelDone true)
  | DelDone _ => None
  end.

(** ** Alone, each is the handler *)

(** A registration run to its end without interference; sixteen accesses are enough. *)
Fixpoint reg_run (fuel : nat) (g : Registration) (s : Inner) (lock : option nat) (pc : RegPc)
    : option (Inner * Result (PeerEntry * RegisterOutcome) CoordinatorError) :=
  match pc, fuel with
  | RegDone r, _ => Some (s, r)
  | _, O => None
  | _, S fuel => '(s, lock, pc) ← reg_step 0 g s lock pc; reg_run fuel g s lock pc
  end.
Definition ACCESSES : nat := 16.
Fixpoint del_run (fuel : nat) (env : Env) (id : Uuid) (reason : string) (s : Inner) (pc : DelPc) : option (Inner * bool) :=
  match pc, fuel with
  | DelDone known, _ => Some (s, known)
  | _, O => None
  | _, S fuel => '(s, pc) ← del_step env id reason s pc; del_run fuel env id reason s pc
  end.

Lemma drop_entry_pieces s id e :
  clear_rest (unindex (s <| roster := delete id (roster s) |>) e) id e = remove_entry s id e.
Proof. reflexivity. Qed.

Lemma reg_run_S n g s lock pc s' lock' pc' :
  reg_step 0 g s lock pc = Some (s', lock', pc') -> reg_run (S n) g s lock pc = reg_run n g s' lock' pc'.
Proof. intros Hs. destruct pc; try discriminate Hs; cbn [reg_run]; by rewrite Hs. Qed.
Lemma reg_run_done n g s lock r : reg_run n g s lock (RegDone r) = Some (s, r).
Proof. by destruct n. Qed.
#[local] Opaque refresh_entry resolve_ula broadcast persist_roster publish_event update_entry.

(** From the check on, [apply_peer_joined] and what follows it. *)
Lemma reg_run_checking n g s addr :
  reg_run (4 + n) g s (Some 0%nat) (Checking (joined_event g addr))
  = Some (match apply_peer_joined (g_env g) s (joined_event g addr) with
          | (s, Err e) => (s, Err e)
          | (s, Ok entry) =>
              let entry := entry <| endpoint_is_reflexive := reflexive (g_resolved g) |> in
              let entry := match g_observed g with
                           | Some obs => entry <| observed_external := fmt_sock obs |>
                           | None => entry
                           end in
              let s := update_entry s (fresh_id (g_env g)) (fun e =>
                         e <| endpoint_is_reflexive := reflexive (g_resolved g) |>
                           <| observed_external := observed_external entry |>) in
              let s := broadcast s (Added (to_info entry)) in
              (persist_roster s (save_io (g_env g)), Ok (entry, Created))
          end).
Proof.
  assert (uuid_parse (pj_peer_id (joined_event g addr)) = Ok (fresh_id (g_env g))) as Hu by apply uuid_parse_to_string.
  unfold apply_peer_joined. rewrite Hu. destruct (parse_ipv6 (pj_ula (joined_event g addr))) as [a|] eqn:Ha.
  2: { erewrite (reg_run_S (3 + n)); [apply reg_run_done|]. cbn [reg_step]. by rewrite Hu, Ha. }
  destruct (held_by_other s a (fresh_id (g_env g))) eqn:Hh.
  { erewrite (reg_run_S (3 + n)); [apply reg_run_done|]. cbn [reg_step]. by rewrite Hu, Ha, Hh. }
  erewrite (reg_run_S (3 + n)); [|cbn [reg_step]; by rewrite Hu, Ha, Hh].
  erewrite (reg_run_S (2 + n)); [|reflexivity]. erewrite (reg_run_S (1 + n)); [|reflexivity].
  erewrite (reg_run_S n); [|reflexivity]. apply reg_run_done.
Qed.

Lemma reg_run_resolving n g s :
  reg_run (5 + n) g s (Some 0%nat) Resolving
  = Some (match resolve_ula s (ni_network (g_identity g)) (rr_requested_ula (g_req g)) with
          | (s, Err e) => (s, Err e)
          | (s, Ok (_, addr)) =>
              match apply_peer_joined (g_env g) (publish_event s (EvJoined (joined_event g addr))) (joined_event g addr) with
              | (s, Err e) => (s, Err e)
              | (s, Ok entry) =>
                  let entry := entry <| endpoint_is_reflexive := reflexive (g_resolved g) |> in
                  let entry := match g_observed g with
                               | Some obs => entry <| observed_external := fmt_sock obs |>
                               | None => entry
                               end in
                  let s := update_entry s (fresh_id (g_env g)) (fun e =>
                             e <| endpoint_is_reflexive := reflexive (g_resolved g) |>
                               <| observed_external := observed_external entry |>) in
                  let s := broadcast s (Added (to_info entry)) in
                  (persist_roster s (save_io (g_env g)), Ok (entry, Created))
              end
          end).
Proof.
  destruct (resolve_ula s _ _) as [s1 [[i addr]|e]] eqn:Hr.
  - erewrite (reg_run_S (4 + n)); [|cbn [reg_step]; by rewrite Hr]. apply reg_run_checking.
  - erewrite (reg_run_S (4 + n)); [|cbn [reg_step]; by rewrite Hr]. apply reg_run_done.
Qed.

(** The eviction, in at most five accesses. *)
Lemma reg_run_evict g s :
  exists n, (n <= 5)%nat /\ forall m, reg_run (S (n + m)) g s (Some 0%nat) FindingHolder
    = reg_run m g (evict_stale_ula_holder (g_env g) s (rr_requested_ula (g_req g))) (Some 0%nat) Resolving.
Proof.
  unfold evict_stale_ula_holder.
  destruct (rr_requested_ula (g_req g)) as [raw|] eqn:Er.
  2: { exists 0%nat. split; [lia|]. intros m. erewrite reg_run_S; [reflexivity|]. cbn [reg_step]. by rewrite Er. }
  destruct (parse_ipv6 raw) as [addr|] eqn:Ea.
  2: { exists 0%nat. split; [lia|]. intros m. erewrite reg_run_S; [reflexivity|]. cbn [reg_step]. rewrite Er. simpl. by rewrite Ea. }
  destruct (peer_id <$> holder_of s addr) as [h|] eqn:Eh.
  2: { exists 0%nat. split; [lia|]. intros m. erewrite reg_run_S; [reflexivity|]. cbn [reg_step]. rewrite Er. simpl. rewrite Ea. simpl. by rewrite Eh. }
  assert (forall m, reg_run (S m) g s (Some 0%nat) FindingHolder = reg_run m g s (Some 0%nat) (CheckingStale h)) as Hf.
  { intros m. erewrite reg_run_S; [reflexivity|]. cbn [reg_step]. rewrite Er. simpl. rewrite Ea. simpl. by rewrite Eh. }
  match goal with |- context [negb ?b] => destruct (negb b) eqn:Es end.
  { exists 1%nat. split; [lia|]. intros m. rewrite Hf. erewrite reg_run_S; [reflexivity|]. cbn [reg_step]. by rewrite Es. }
  set (s1 := broadcast _ _). assert (roster s1 = roster s) as Hr1 by done.
  assert (forall m, reg_run (S (S m)) g s (Some 0%nat) FindingHolder = reg_run m g s1 (Some 0%nat) (EvictRemoving h)) as Hc.
  { intros m. rewrite Hf. erewrite reg_run_S; [reflexivity|]. cbn [reg_step]. by rewrite Es. }
  unfold apply_peer_left. cbn [pl_peer_id]. rewrite uuid_parse_to_string. destruct (roster s1 !! h) as [e|] eqn:Ho.
  - exists 5%nat. split; [lia|]. intros m. etransitivity; [exact (Hc (4 + m)%nat)|].
    erewrite (reg_run_S (3 + m)); [|cbn [reg_step]; by rewrite Ho]. erewrite (reg_run_S (2 + m)); [|reflexivity].
    erewrite (reg_run_S (1 + m)); [|reflexivity]. erewrite (reg_run_S m); [|reflexivity]. reflexivity.
  - exists 3%nat. split; [lia|]. intros m. etransitivity; [exact (Hc (2 + m)%nat)|].
    erewrite (reg_run_S (1 + m)); [|cbn [reg_step]; by rewrite Ho]. erewrite (reg_run_S m); [|reflexivity]. reflexivity.
Qed.

Lemma reg_run_refreshing n g s id :
  reg_run (2 + n) g s (Some 0%nat) (RefreshPlanning id)
  = Some (match refresh_existing (g_env g) s id (g_req g) (g_claims g) (g_resolved g) (g_observed g) with
          | (s, Err e) => (s, Err e)
          | (s, Ok entry) => (s, Ok (entry, Existed))
          end).
Proof.
  assert (forall s' r, refresh_plan g s id = (s', Err r) -> reg_run (2 + n) g s (Some 0%nat) (RefreshPlanning id) = Some (s', Err r)) as Herr.
  { intros s' r Hp. erewrite (reg_run_S (1 + n)); [|cbn [reg_step]; by rewrite Hp]. apply reg_run_done. }
  assert (forall s' rehome realloc, refresh_plan g s id = (s', Ok (rehome, realloc)) ->
    reg_run (2 + n) g s (Some 0%nat) (RefreshPlanning id) = Some (refresh_write g s' id rehome realloc)) as Hok.
  { intros s' rehome realloc Hp. erewrite (reg_run_S (1 + n)); [|cbn [reg_step]; by rewrite Hp].
    destruct (refresh_write g s' id rehome realloc) as [s2 r] eqn:Hw.
    erewrite (reg_run_S n); [|cbn [reg_step]; by rewrite Hw]. apply reg_run_done. }
  unfold refresh_existing. destruct (roster s !! id) as [old|] eqn:Ho.
  2: { apply Herr. unfold refresh_plan. by rewrite Ho. }
  unfold refresh_plan in Herr, Hok. rewrite Ho in Herr, Hok. fold (g_identity g).
  destruct (bool_decide (is_Some (g_claims g)) && _).
  - destruct (allocate (allocator s) (ni_network (g_identity g))) as [a r].
    destruct (lift_alloc r) as [[i u]|e]; [|by apply Herr]. destruct (held_by_other _ _ _); [by apply Herr|].
    erewrite Hok by reflexivity. unfold refresh_write. cbn [roster]. change (roster (s <| allocator := a |>)) with (roster s).
    by rewrite Ho.
  - erewrite Hok by reflexivity. unfold refresh_write. by rewrite Ho.
Qed.

(** A registration that nothing interferes with does what [register_authenticated] does
    under the lock, in at most sixteen accesses. *)
Lemma registration_alone g s :
  reg_run ACCESSES g s None Locking
  = Some (match by_pubkey s !! g_pubkey g with
          | Some id =>
              match refresh_existing (g_env g) s id (g_req g) (g_claims g) (g_resolved g) (g_observed g) with
              | (s, Err e) => (s, Err e)
              | (s, Ok entry) => (s, Ok (entry, Existed))
              end
          | None => register_new (g_env g) s (g_req g) (g_claims g) (g_pubkey g) (g_resolved g) (g_observed g)
          end).
Proof.
  unfold ACCESSES. erewrite (reg_run_S 15); [|reflexivity].
  destruct (by_pubkey s !! g_pubkey g) as [id|] eqn:Hk.
  - erewrite (reg_run_S 14); [|cbn [reg_step]; by rewrite Hk]. exact (reg_run_refreshing 12 g s id).
  - erewrite (reg_run_S 14); [|cbn [reg_step]; by rewrite Hk].
    destruct (reg_run_evict g s) as (n & Hn & Hev). replace 14%nat with (S (n + (5 + (8 - n))))%nat by lia.
    rewrite Hev, reg_run_resolving. reflexivity.
Qed.

(** Likewise a deregistration, in at most five. *)
Lemma deregistration_alone env id reason s :
  del_run 5 env id reason s Reading = Some (deregister env s id reason).
Proof.
  unfold deregister. cbn [del_run del_step]. destruct (roster s !! id) as [e|] eqn:Ho; [|done].
  cbn [fmap option_fmap option_map mbind option_bind].
  assert (roster (publish_event s (EvLeft (left_event env id reason))) = roster s) as Hr by done.
  cbn [del_run del_step]. rewrite Hr, Ho. cbn [mbind option_bind del_run del_step].
  unfold apply_peer_left. cbn [pl_peer_id]. rewrite uuid_parse_to_string.
  change (roster (publish_event s (EvLeft {| pl_peer_id := uuid_to_string id; pl_reason := reason; pl_left_at_micros := wall env |})))
    with (roster s). rewrite Ho. reflexivity.
Qed.

(** ** Many at once *)

Inductive Thread :=
| Registers (g : Registration) (pc : RegPc)
| Deregisters (env : Env) (id : Uuid) (reason : string) (pc : DelPc).
Record Conf := mkConf { inner : Inner; lock : option nat; threads : list Thread }.

(** What identifies a member. *)
Record Member := mkMember { m_id : Uuid; m_key : list Z; m_ula : Ipv6Addr }.
Definition member_of (e : PeerEntry) : Member := mkMember (peer_id e) (wg_public_key e) (ula e).
Definition members (s : Inner) : gmap Uuid Member := member_of <$> roster s.

(** The accesses of the handlers that change nobody's identity, those of the heartbeat
    among them. *)
Definition keeps_members (s s' : Inner) : Prop := members s' = members s /\ by_pubkey s' = by_pubkey s.

Definition is_done (pc : RegPc) : bool := match pc with RegDone _ => true | _ => false end.

(** A new request: an id drawn for a registration is nobody's and named by no request
    yet; a deregistration names no id whose registration has not been answered. *)
Definition may_start (c : Conf) (t : Thread) : Prop :=
  match t with
  | Registers g pc =>
      pc = Locking /\ roster (inner c) !! fresh_id (g_env g) = None /\
      forall t', t' ∈ threads c -> match t' with
        | Registers g' _ => fresh_id (g_env g') <> fresh_id (g_env g)
        | Deregisters _ id _ _ => id <> fresh_id (g_env g)
        end
  | Deregisters env id reason pc =>
      pc = Reading /\
      forall g pc', Registers g pc' ∈ threads c -> is_done pc' = false -> id <> fresh_id (g_env g)
  end.

(** A handler's next access. *)
Inductive own_step (c : Conf) : Conf -> Prop :=
| own_register k g pc s lock' pc' :
    threads c !! k = Some (Registers g pc) ->
    reg_step k g (inner c) (lock c) pc = Some (s, lock', pc') ->
    own_step c (mkConf s lock' (<[k := Registers g pc']> (threads c)))
| own_deregister k env id reason pc s pc' :
    threads c !! k = Some (Deregisters env id reason pc) ->
    del_step env id reason (inner c) pc = Some (s, pc') ->
    own_step c (mkConf s (lock c) (<[k := Deregisters env id reason pc']> (threads c))).

Inductive conc_step (c : Conf) : Conf -> Prop :=
| conc_own c' : own_step c c' -> conc_step c c'
| conc_other s : keeps_members (inner c) s -> conc_step c (mkConf s (lock c) (threads c))
| conc_start t : may_start c t -> conc_step c (mkConf (inner c) (lock c) (threads c ++ [t])).

(** A coordinator at rest: members and keys correspond, addresses are unique. *)
Definition at_rest (s : Inner) : Prop :=
  (forall id e, roster s !! id = Some e -> peer_id e = id) /\
  (forall pk id, by_pubkey s !! pk = Some id <-> exists e, roster s !! id = Some e /\ wg_public_key e = pk) /\
  (forall i j e f, roster s !! i = Some e -> roster s !! j = Some f -> ula e = ula f -> i = j).
Definition finished (t : Thread) : bool :=
  match t with Registers _ pc => is_done pc | Deregisters _ _ _ pc => match pc with DelDone _ => true | _ => false end end.

(** ** The invariant in the middle *)

Definition critical (pc : RegPc) : bool := match pc with Locking | RegDone _ => false | _ => true end.
(** The key whose removal from the index a thread still owes, with the member's id. *)
Definition owed (t : Thread) : option (Uuid * list Z) :=
  match t with
  | Registers _ (EvictUnindexing h e) => Some (h, wg_public_key e)
  | Deregisters _ id _ (Unindexing _ e) => Some (id, wg_public_key e)
  | _ => None
  end.
(** The key a thread is about to put into the index. *)
Definition indexing (t : Thread) : option (Uuid * list Z) :=
  match t with Registers _ (Indexing id e) => Some (id, wg_public_key e) | _ => None end.

(** What a registration may rely on, under the lock. *)
Definition reg_ok (mem : gmap Uuid Member) (bp : gmap (list Z) Uuid) (g : Registration) (pc : RegPc) : Prop :=
  let fresh := fresh_id (g_env g) in
  let new := bp !! g_pubkey g = None /\ mem !! fresh = None in
  match pc with
  | Locking | Looking => mem !! fresh = None
  | FindingHolder | CheckingStale _ | EvictRemoving _ | EvictUnindexing _ _ | EvictClearing _ _ | EvictPersisting | Resolving => new
  | Checking event => new /\ exists addr, event = joined_event g addr
  | Inserting id e => new /\ id = fresh /\ wg_public_key e = g_pubkey g /\ peer_id e = id
      /\ forall j m, mem !! j = Some m -> m_ula m = ula e -> j = id
  | Indexing id e => id = fresh /\ wg_public_key e = g_pubkey g /\ bp !! g_pubkey g = None
      /\ exists m, mem !! id = Some m /\ m_key m = wg_public_key e
  | RefreshWriting id _ (Some (_, u)) => forall j m, mem !! j = Some m -> m_ula m = u -> j = id
  | _ => True
  end.

Record conc_inv (mem : gmap Uuid Member) (bp : gmap (list Z) Uuid) (lk : option nat) (ths : list Thread) : Prop := {
  inv_id : forall id m, mem !! id = Some m -> m_id m = id;
  inv_ula : forall i j m n, mem !! i = Some m -> mem !! j = Some n -> m_ula m = m_ula n -> i = j;
  inv_lock : forall k g pc, ths !! k = Some (Registers g pc) -> critical pc = true -> lk = Some k;
  inv_reg : forall k g pc, ths !! k = Some (Registers g pc) -> reg_ok mem bp g pc;
  inv_owed : forall k t id pk, ths !! k = Some t -> owed t = Some (id, pk) ->
    bp !! pk = Some id /\ forall i m, mem !! i = Some m -> m_key m <> pk;
  inv_owed_once : forall k k' t t' id id' pk, ths !! k = Some t -> ths !! k' = Some t' ->
    owed t = Some (id, pk) -> owed t' = Some (id', pk) -> k = k';
  inv_index : forall pk id, bp !! pk = Some id ->
    (exists m, mem !! id = Some m /\ m_key m = pk) \/ exists k t, ths !! k = Some t /\ owed t = Some (id, pk);
  inv_cover : forall id m, mem !! id = Some m ->
    bp !! m_key m = Some id \/ exists k t, ths !! k = Some t /\ indexing t = Some (id, m_key m);
  inv_fresh : forall k g pc, ths !! k = Some (Registers g pc) -> is_done pc = false ->
    forall k' t, k' <> k -> ths !! k' = Some t -> match t with
      | Registers g' _ => fresh_id (g_env g') <> fresh_id (g_env g)
      | Deregisters _ id _ _ => id <> fresh_id (g_env g)
      end;
}.

Lemma at_update (ths : list Thread) k t t' j x :
  ths !! k = Some t -> <[k := t']> ths !! j = Some x -> (j = k /\ x = t') \/ (j <> k /\ ths !! j = Some x).
Proof.
  intros Hk. destruct (decide (j = k)) as [->|Hne].
  - rewrite list_lookup_insert_eq by (by eapply lookup_lt_Some). intros [= <-]. by left.
  - rewrite list_lookup_insert_ne by done. by right.
Qed.
Lemma updated_at (ths : list Thread) k t t' : ths !! k = Some t -> <[k := t']> ths !! k = Some t'.
Proof. intros Hk. apply list_lookup_insert_eq. by eapply lookup_lt_Some. Qed.

(** Same role, same id: a thread keeps its request. *)
Definition same_request (t t' : Thread) : Prop :=
  match t, t' with
  | Registers g pc, Registers g' pc' => g' = g /\ (is_done pc = true -> is_done pc' = true)
  | Deregisters _ id _ _, Deregisters _ id' _ _ => id' = id
  | _, _ => False
  end.

Lemma fresh_update mem bp lk ths k t t' :
  conc_inv mem bp lk ths -> ths !! k = Some t -> same_request t t' ->
  forall j g pc, <[k := t']> ths !! j = Some (Registers g pc) -> is_done pc = false ->
  forall j' x, j' <> j -> <[k := t']> ths !! j' = Some x -> match x with
      | Registers g' _ => fresh_id (g_env g') <> fresh_id (g_env g)
      | Deregisters _ id _ _ => id <> fresh_id (g_env g)
      end.
Proof.
  intros Hi Hk Hsame j g pc Hj Hd j' x Hne Hx.
  assert (exists pc0, ths !! j = Some (Registers g pc0) /\ is_done pc0 = false) as (pc0 & Hj0 & Hd0).
  { destruct (at_update _ _ _ _ _ _ Hk Hj) as [[-> Et]|[_ Hj1]]; [|by exists pc]. rewrite <- Et in Hsame.
    destruct t as [g0 pc0|]; [|done]. destruct Hsame as [-> Hd1]. exists pc0. split; [done|].
    destruct (is_done pc0); [by rewrite Hd1 in Hd|done]. }
  destruct (at_update _ _ _ _ _ _ Hk Hx) as [[-> ->]|[_ Hx1]].
  - pose proof (inv_fresh _ _ _ _ Hi _ _ _ Hj0 Hd0 k t Hne Hk) as Hf.
    destruct t, t'; try done; [by destruct Hsame as [-> _]|by rewrite Hsame].
  - exact (inv_fresh _ _ _ _ Hi _ _ _ Hj0 Hd0 j' x Hne Hx1).
Qed.

(** *** The kinds of access *)

Section Accesses.
Context (mem : gmap Uuid Member) (bp : gmap (list Z) Uuid) (lk : option nat) (ths : list Thread) (k : nat) (t t' : Thread).
Context (Hinv : conc_inv mem bp lk ths) (Hk : ths !! k = Some t) (Hsame : same_request t t').

Lemma reg_ok_delete g pc id :
  id <> fresh_id (g_env g) -> reg_ok mem bp g pc -> reg_ok (delete id mem) bp g pc.
Proof.
  intros Hne. assert (forall j m, delete id mem !! j = Some m -> mem !! j = Some m) as Hsub
    by (intros j m [_ ?]%lookup_delete_Some; done).
  destruct pc; simpl; rewrite ?lookup_delete_ne by done; try done.
  - intros ((? & ?) & -> & ? & ? & Hu). split_and!; try done. intros j m Hj. by apply (Hu j m), Hsub.
  - intros (-> & ? & ? & m & Hm & ?). split_and!; try done. exists m. by rewrite lookup_delete_ne.
  - destruct realloc as [[i u]|]; [|done]. intros Hu j m Hj. by apply (Hu j m), Hsub.
Qed.
Lemma reg_ok_unindex g pc pk : reg_ok mem bp g pc -> reg_ok mem (delete pk bp) g pc.
Proof.
  assert (bp !! g_pubkey g = None -> delete pk bp !! g_pubkey g = None) as Hd.
  { intros Hn. destruct (decide (g_pubkey g = pk)) as [<-|Hne]; [apply lookup_delete_eq|by rewrite lookup_delete_ne]. }
  destruct pc; simpl; try done; naive_solver.
Qed.

(** An access that leaves members and index alone. *)
Lemma inv_quiet lk' :
  owed t' = owed t -> indexing t' = indexing t ->
  (forall g pc, t' = Registers g pc -> reg_ok mem bp g pc /\ (critical pc = true -> lk' = Some k)) ->
  (forall j g pc, j <> k -> ths !! j = Some (Registers g pc) -> critical pc = true -> lk' = Some j) ->
  conc_inv mem bp lk' (<[k := t']> ths).
Proof.
  intros Ho Hx Hreg Hlk. pose proof (updated_at ths k t t' Hk) as Hk'. split.
  - apply Hinv.
  - apply Hinv.
  - intros j g pc Hj Hc. destruct (at_update _ _ _ _ _ _ Hk Hj) as [[-> Et]|[Hne Hj1]]; [by apply (Hreg g pc)|by eapply Hlk].
  - intros j g pc Hj. destruct (at_update _ _ _ _ _ _ Hk Hj) as [[-> Et]|[Hne Hj1]]; [by apply (Hreg g pc)|by eapply Hinv].
  - intros j x id pk Hj Hox. destruct (at_update _ _ _ _ _ _ Hk Hj) as [[-> ->]|[Hne Hj1]];
      [rewrite Ho in Hox; by apply (inv_owed _ _ _ _ Hinv k t)|by apply (inv_owed _ _ _ _ Hinv j x)].
  - intros j j' x y id id' pk Hj Hj' Hox Hoy.
    destruct (at_update _ _ _ _ _ _ Hk Hj) as [[-> ->]|[_ Hj1]], (at_update _ _ _ _ _ _ Hk Hj') as [[-> ->]|[_ Hj2]];
      rewrite ?Ho in *; by eapply (inv_owed_once _ _ _ _ Hinv).
  - intros pk id Hb. destruct (inv_index _ _ _ _ Hinv _ _ Hb) as [?|(j & x & Hj & Hox)]; [by left|right].
    destruct (decide (j = k)) as [->|Hne]; [exists k, t'; rewrite Ho; split; [done|congruence]|].
    exists j, x. by rewrite list_lookup_insert_ne.
  - intros id m Hm. destruct (inv_cover _ _ _ _ Hinv _ _ Hm) as [?|(j & x & Hj & Hox)]; [by left|right].
    destruct (decide (j = k)) as [->|Hne]; [exists k, t'; rewrite Hx; split; [done|congruence]|].
    exists j, x. by rewrite list_lookup_insert_ne.
  - by apply (fresh_update mem bp lk ths k t t').
Qed.

(** Taking a member out of the roster; its key is owed to the index. *)
Lemma inv_remove id m :
  mem !! id = Some m -> owed t = None -> indexing t = None -> owed t' = Some (id, m_key m) -> indexing t' = None ->
  (forall j g pc, j <> k -> ths !! j = Some (Registers g pc) -> critical pc = true -> id <> fresh_id (g_env g)) ->
  (forall g pc, t' = Registers g pc -> reg_ok (delete id mem) bp g pc /\ (critical pc = true -> lk = Some k)) ->
  conc_inv (delete id mem) bp lk (<[k := t']> ths).
Proof.
  intros Hm Ho Hx Ho' Hx' Hother Hreg. pose proof (updated_at ths k t t' Hk) as Hk'.
  assert (forall j u, delete id mem !! j = Some u -> j <> id /\ mem !! j = Some u) as Hsub
    by (intros j u [? ?]%lookup_delete_Some; done).
  assert (forall j x i pk, ths !! j = Some x -> indexing x = Some (i, pk) -> bp !! pk = None /\ i <> id) as Hix.
  { intros j x i pk Hj Hi. destruct x as [g pc|]; [|done]. destruct pc; try done. injection Hi as -> <-.
    destruct (inv_reg _ _ _ _ Hinv _ _ _ Hj) as (Hf & Hke & Hb & _). rewrite Hke. split; [done|]. rewrite Hf. apply not_eq_sym.
    apply (Hother j g (Indexing i e)); [|done|done]. intros ->. rewrite Hj in Hk. injection Hk as <-. done. }
  assert (bp !! m_key m = Some id) as Hb.
  { destruct (inv_cover _ _ _ _ Hinv _ _ Hm) as [?|(j & x & Hj & Hox)]; [done|]. by destruct (Hix _ _ _ _ Hj Hox). }
  split.
  - intros j u [_ Hu]%Hsub. by eapply Hinv.
  - intros i j u v [_ Hu]%Hsub [_ Hv]%Hsub. by eapply Hinv.
  - intros j g pc Hj Hc. destruct (at_update _ _ _ _ _ _ Hk Hj) as [[-> Et]|[Hne Hj1]]; [by apply (Hreg g pc)|by eapply Hinv].
  - intros j g pc Hj. destruct (at_update _ _ _ _ _ _ Hk Hj) as [[-> Et]|[Hne Hj1]]; [by apply (Hreg g pc)|].
    pose proof (inv_reg _ _ _ _ Hinv _ _ _ Hj1) as Hr. destruct (critical pc) eqn:Hc.
    + apply reg_ok_delete; [by eapply Hother|done].
    + destruct pc; try discriminate Hc; simpl in *; [|done]. destruct (decide (fresh_id (g_env g) = id)) as [<-|Hn];
        [apply lookup_delete_eq|by rewrite lookup_delete_ne].
  - intros j x i pk Hj Hox. destruct (at_update _ _ _ _ _ _ Hk Hj) as [[-> ->]|[Hne Hj1]].
    + rewrite Ho' in Hox. injection Hox as <- <-. split; [done|]. intros i u [Hni Hu]%Hsub He.
      destruct (inv_cover _ _ _ _ Hinv _ _ Hu) as [Hbi|(j & x & Hj' & Hox)]; [rewrite He in Hbi; congruence|].
      destruct (Hix _ _ _ _ Hj' Hox) as [Hn _]. rewrite He in Hn. congruence.
    + destruct (inv_owed _ _ _ _ Hinv _ _ _ _ Hj1 Hox) as [? Hno]. split; [done|]. intros i' u [_ Hu]%Hsub. by eapply Hno.
  - assert (forall j x i, ths !! j = Some x -> owed x <> Some (i, m_key m)) as Hnone.
    { intros j x i Hj Hox. destruct (inv_owed _ _ _ _ Hinv _ _ _ _ Hj Hox) as [_ Hno]. by apply (Hno _ _ Hm). }
    intros j j' x y i i' pk Hj Hj' Hox Hoy.
    destruct (at_update _ _ _ _ _ _ Hk Hj) as [[-> ->]|[_ Hj1]], (at_update _ _ _ _ _ _ Hk Hj') as [[-> ->]|[_ Hj2]].
    + done.
    + rewrite Ho' in Hox. injection Hox as <- <-. by destruct (Hnone _ _ _ Hj2 Hoy).
    + rewrite Ho' in Hoy. injection Hoy as <- <-. by destruct (Hnone _ _ _ Hj1 Hox).
    + by eapply (inv_owed_once _ _ _ _ Hinv).
  - intros pk i Hbi. destruct (inv_index _ _ _ _ Hinv _ _ Hbi) as [(u & Hu & <-)|(j & x & Hj & Hox)].
    + destruct (decide (i = id)) as [->|Hne]; [|left; exists u; by rewrite lookup_delete_ne].
      right. exists k, t'. split; [done|]. rewrite Ho'. congruence.
    + right. exists j, x. rewrite list_lookup_insert_ne; [done|]. intros ->. congruence.
  - intros i u [Hne Hu]%Hsub. destruct (inv_cover _ _ _ _ Hinv _ _ Hu) as [?|(j & x & Hj & Hox)]; [by left|right].
    exists j, x. rewrite list_lookup_insert_ne; [done|]. intros ->. congruence.
  - by apply (fresh_update mem bp lk ths k t t').
Qed.

(** Paying the debt. *)
Lemma inv_unindex id pk :
  owed t = Some (id, pk) -> owed t' = None -> indexing t' = None -> indexing t = None ->
  (forall g pc, t' = Registers g pc -> reg_ok mem (delete pk bp) g pc /\ (critical pc = true -> lk = Some k)) ->
  conc_inv mem (delete pk bp) lk (<[k := t']> ths).
Proof.
  intros Ho Ho' Hx' Hx Hreg. pose proof (updated_at ths k t t' Hk) as Hk'.
  destruct (inv_owed _ _ _ _ Hinv _ _ _ _ Hk Ho) as [Hb Hno]. split.
  - apply Hinv.
  - apply Hinv.
  - intros j g pc Hj Hc. destruct (at_update _ _ _ _ _ _ Hk Hj) as [[-> Et]|[Hne Hj1]]; [by apply (Hreg g pc)|by eapply Hinv].
  - intros j g pc Hj. destruct (at_update _ _ _ _ _ _ Hk Hj) as [[-> Et]|[Hne Hj1]]; [by apply (Hreg g pc)|].
    by apply reg_ok_unindex, (inv_reg _ _ _ _ Hinv j).
  - intros j x i pk' Hj Hox. destruct (at_update _ _ _ _ _ _ Hk Hj) as [[-> ->]|[Hne Hj1]]; [congruence|].
    destruct (inv_owed _ _ _ _ Hinv _ _ _ _ Hj1 Hox) as [Hb' Hno']. split; [|done]. rewrite lookup_delete_ne; [done|].
    intros ->. apply Hne. by eapply (inv_owed_once _ _ _ _ Hinv).
  - intros j j' x y i i' pk' Hj Hj' Hox Hoy.
    destruct (at_update _ _ _ _ _ _ Hk Hj) as [[-> ->]|[_ Hj1]], (at_update _ _ _ _ _ _ Hk Hj') as [[-> ->]|[_ Hj2]]; try congruence.
    by eapply (inv_owed_once _ _ _ _ Hinv).
  - intros pk' i [Hne Hbi]%lookup_delete_Some. destruct (inv_index _ _ _ _ Hinv _ _ Hbi) as [?|(j & x & Hj & Hox)]; [by left|right].
    exists j, x. rewrite list_lookup_insert_ne; [done|]. intros ->. congruence.
  - intros i m Hm. destruct (inv_cover _ _ _ _ Hinv _ _ Hm) as [Hbi|(j & x & Hj & Hox)].
    + left. rewrite lookup_delete_ne; [done|]. intros Heq. by apply (Hno _ _ Hm).
    + right. exists j, x. rewrite list_lookup_insert_ne; [done|]. intros ->. congruence.
  - by apply (fresh_update mem bp lk ths k t t').
Qed.

(** Only this thread is between the lock's taking and its release. *)
Definition others_outside : Prop :=
  forall j g pc, j <> k -> ths !! j = Some (Registers g pc) -> critical pc = false.

Lemma reg_ok_outside mem' bp' g pc :
  critical pc = false -> (mem !! fresh_id (g_env g) = None -> is_done pc = false -> mem' !! fresh_id (g_env g) = None) ->
  reg_ok mem bp g pc -> reg_ok mem' bp' g pc.
Proof. destruct pc; simpl; try done. intros _ H Hn. by apply H. Qed.

Lemma inv_insert g id e :
  t = Registers g (Inserting id e) -> t' = Registers g (Indexing id e) -> others_outside ->
  conc_inv (<[id := member_of e]> mem) bp lk (<[k := t']> ths).
Proof.
  intros Et Et' Hout. pose proof (updated_at ths k t t' Hk) as Hk'. rewrite Et in Hk.
  destruct (inv_reg _ _ _ _ Hinv _ _ _ Hk) as ((Hb & Hf) & Hid & Hke & Hpid & Hu).
  pose proof (inv_lock _ _ _ _ Hinv _ _ _ Hk eq_refl) as Hl. rewrite <- Et in Hk.
  assert (mem !! id = None) as Hn by congruence. split.
  - intros j m [[<- <-]|[_ Hj]]%lookup_insert_Some; [done|by eapply Hinv].
  - intros i j m n [[<- <-]|[Hi Hm]]%lookup_insert_Some [[<- <-]|[Hj Hn']]%lookup_insert_Some He; try done.
    + symmetry. by apply (Hu j n).
    + by apply (Hu i m).
    + by eapply (inv_ula _ _ _ _ Hinv).
  - intros j g' pc Hj Hc. destruct (at_update _ _ _ _ _ _ Hk Hj) as [[-> _]|[Hne Hj1]]; [done|by eapply Hinv].
  - intros j g' pc Hj. destruct (at_update _ _ _ _ _ _ Hk Hj) as [[-> Ex]|[Hne Hj1]].
    + rewrite Et' in Ex. injection Ex as -> ->. split; [done|]. split; [done|]. split; [done|].
      exists (member_of e). split; [apply lookup_insert_eq|done].
    + eapply reg_ok_outside; [by eapply Hout| |by apply (inv_reg _ _ _ _ Hinv j)]. intros Hnf Hd.
      rewrite lookup_insert_ne; [done|]. rewrite Hid. intros Heq.
      rewrite Et in Hk. exact (inv_fresh _ _ _ _ Hinv _ _ _ Hk eq_refl j (Registers g' pc) Hne Hj1 (eq_sym Heq)).
  - intros j x i pk Hj Hox. destruct (at_update _ _ _ _ _ _ Hk Hj) as [[-> ->]|[Hne Hj1]]; [by rewrite Et' in Hox|].
    destruct (inv_owed _ _ _ _ Hinv _ _ _ _ Hj1 Hox) as [Hb' Hno]. split; [done|].
    intros j' m [[<- <-]|[_ Hm]]%lookup_insert_Some; [simpl; congruence|by eapply Hno].
  - intros j j' x y i i' pk Hj Hj' Hox Hoy.
    destruct (at_update _ _ _ _ _ _ Hk Hj) as [[-> ->]|[_ Hj1]], (at_update _ _ _ _ _ _ Hk Hj') as [[-> ->]|[_ Hj2]];
      rewrite ?Et' in *; try done. by eapply (inv_owed_once _ _ _ _ Hinv).
  - intros pk i Hbi. destruct (inv_index _ _ _ _ Hinv _ _ Hbi) as [(m & Hm & <-)|(j & x & Hj & Hox)].
    + left. exists m. rewrite lookup_insert_ne; [done|congruence].
    + right. exists j, x. rewrite list_lookup_insert_ne; [done|]. intros ->. rewrite Hk, Et in Hj. by injection Hj as <-.
  - intros i m [[<- <-]|[Hne Hm]]%lookup_insert_Some.
    + right. exists k, t'. split; [done|]. by rewrite Et'.
    + destruct (inv_cover _ _ _ _ Hinv _ _ Hm) as [?|(j & x & Hj & Hox)]; [by left|right].
      exists j, x. rewrite list_lookup_insert_ne; [done|]. intros ->. rewrite Hk, Et in Hj. by injection Hj as <-.
  - by apply (fresh_update mem bp lk ths k t t').
Qed.

Lemma inv_reindex g id e :
  t = Registers g (Indexing id e) -> t' = Registers g (Finishing id e) -> others_outside ->
  conc_inv mem (<[wg_public_key e := id]> bp) lk (<[k := t']> ths).
Proof.
  intros Et Et' Hout. pose proof (updated_at ths k t t' Hk) as Hk'. rewrite Et in Hk.
  destruct (inv_reg _ _ _ _ Hinv _ _ _ Hk) as (Hid & Hke & Hb & m0 & Hm0 & Hk0).
  pose proof (inv_lock _ _ _ _ Hinv _ _ _ Hk eq_refl) as Hl. rewrite <- Et in Hk. rewrite <- Hke in Hb. split.
  - apply Hinv.
  - apply Hinv.
  - intros j g' pc Hj Hc. destruct (at_update _ _ _ _ _ _ Hk Hj) as [[-> _]|[Hne Hj1]]; [done|by eapply Hinv].
  - intros j g' pc Hj. destruct (at_update _ _ _ _ _ _ Hk Hj) as [[-> Ex]|[Hne Hj1]].
    + rewrite Et' in Ex. by injection Ex as -> ->.
    + eapply reg_ok_outside; [by eapply Hout|done|by apply (inv_reg _ _ _ _ Hinv j)].
  - intros j x i pk Hj Hox. destruct (at_update _ _ _ _ _ _ Hk Hj) as [[-> ->]|[Hne Hj1]]; [by rewrite Et' in Hox|].
    destruct (inv_owed _ _ _ _ Hinv _ _ _ _ Hj1 Hox) as [Hb' Hno]. split; [|done]. rewrite lookup_insert_ne; [done|congruence].
  - intros j j' x y i i' pk Hj Hj' Hox Hoy.
    destruct (at_update _ _ _ _ _ _ Hk Hj) as [[-> ->]|[_ Hj1]], (at_update _ _ _ _ _ _ Hk Hj') as [[-> ->]|[_ Hj2]];
      rewrite ?Et' in *; try done. by eapply (inv_owed_once _ _ _ _ Hinv).
  - intros pk i [[<- <-]|[Hne Hbi]]%lookup_insert_Some; [left; by exists m0|].
    destruct (inv_index _ _ _ _ Hinv _ _ Hbi) as [?|(j & x & Hj & Hox)]; [by left|right].
    exists j, x. rewrite list_lookup_insert_ne; [done|]. intros ->. rewrite Hk, Et in Hj. by injection Hj as <-.
  - intros i m Hm. destruct (inv_cover _ _ _ _ Hinv _ _ Hm) as [Hbi|(j & x & Hj & Hox)].
    + left. rewrite lookup_insert_ne; [done|congruence].
    + destruct (decide (j = k)) as [->|Hne].
      * rewrite Hk in Hj. injection Hj as <-. rewrite Et in Hox. injection Hox as <- <-. left. apply lookup_insert_eq.
      * right. exists j, x. by rewrite list_lookup_insert_ne.
  - by apply (fresh_update mem bp lk ths k t t').
Qed.

(** Moving a member to another address. *)
Lemma inv_rehome g id rehome realloc r m u :
  t = Registers g (RefreshWriting id rehome realloc) -> t' = Registers g (RegDone r) -> others_outside ->
  mem !! id = Some m -> u = match realloc with Some (_, u) => u | None => m_ula m end ->
  conc_inv (<[id := mkMember id (m_key m) u]> mem) bp None (<[k := t']> ths).
Proof.
  intros Et Et' Hout Hm Hu. pose proof (updated_at ths k t t' Hk) as Hk'. rewrite Et in Hk.
  pose proof (inv_reg _ _ _ _ Hinv _ _ _ Hk) as Hr. simpl in Hr. rewrite <- Et in Hk.
  assert (forall j n, j <> id -> mem !! j = Some n -> m_ula n <> u) as Hfree.
  { intros j n Hne Hj He. apply Hne. destruct realloc as [[i u0]|]; [by apply (Hr j n Hj); congruence|].
    eapply (inv_ula _ _ _ _ Hinv); [exact Hj|exact Hm|congruence]. }
  split.
  - intros j n [[<- <-]|[_ Hj]]%lookup_insert_Some; [done|by eapply Hinv].
  - intros i j a b [[<- <-]|[Hi Ha]]%lookup_insert_Some [[<- <-]|[Hj Hb]]%lookup_insert_Some He; try done.
    + exfalso. by eapply (Hfree j b); [done|done|].
    + exfalso. by eapply (Hfree i a); [done|done|].
    + by eapply (inv_ula _ _ _ _ Hinv).
  - intros j g' pc Hj Hc. destruct (at_update _ _ _ _ _ _ Hk Hj) as [[-> Ex]|[Hne Hj1]].
    + rewrite Et' in Ex. by injection Ex as -> ->.
    + by rewrite (Hout j g' pc Hne Hj1) in Hc.
  - intros j g' pc Hj. destruct (at_update _ _ _ _ _ _ Hk Hj) as [[-> Ex]|[Hne Hj1]].
    + rewrite Et' in Ex. by injection Ex as -> ->.
    + eapply reg_ok_outside; [by eapply Hout| |by apply (inv_reg _ _ _ _ Hinv j)]. intros Hnf _.
      rewrite lookup_insert_ne; [done|congruence].
  - intros j x i pk Hj Hox. destruct (at_update _ _ _ _ _ _ Hk Hj) as [[-> ->]|[Hne Hj1]]; [by rewrite Et' in Hox|].
    destruct (inv_owed _ _ _ _ Hinv _ _ _ _ Hj1 Hox) as [Hb' Hno]. split; [done|].
    intros j' n [[<- <-]|[_ Hn]]%lookup_insert_Some; [simpl; by eapply Hno|by eapply Hno].
  - intros j j' x y i i' pk Hj Hj' Hox Hoy.
    destruct (at_update _ _ _ _ _ _ Hk Hj) as [[-> ->]|[_ Hj1]], (at_update _ _ _ _ _ _ Hk Hj') as [[-> ->]|[_ Hj2]];
      rewrite ?Et' in *; try done. by eapply (inv_owed_once _ _ _ _ Hinv).
  - intros pk i Hbi. destruct (inv_index _ _ _ _ Hinv _ _ Hbi) as [(n & Hn & <-)|(j & x & Hj & Hox)].
    + left. destruct (decide (i = id)) as [->|Hne].
      * eexists. split; [apply lookup_insert_eq|]. simpl. congruence.
      * exists n. by rewrite lookup_insert_ne.
    + right. exists j, x. rewrite list_lookup_insert_ne; [done|]. intros ->. rewrite Hk, Et in Hj. by injection Hj as <-.
  - intros i n [[<- <-]|[Hne Hn]]%lookup_insert_Some; simpl;
      [destruct (inv_cover _ _ _ _ Hinv _ _ Hm) as [?|(j & x & Hj & Hox)]
      |destruct (inv_cover _ _ _ _ Hinv _ _ Hn) as [?|(j & x & Hj & Hox)]]; try (by left); right;
      exists j, x; (rewrite list_lookup_insert_ne; [done|]; intros ->; rewrite Hk, Et in Hj; by injection Hj as <-).
  - by apply (fresh_update mem bp lk ths k t t').
Qed.
End Accesses.

(** *** The accesses of the source *)

#[local] Transparent refresh_entry resolve_ula broadcast persist_roster publish_event update_entry.

Lemma keeps_members_refl s s' : roster s' = roster s -> by_pubkey s' = by_pubkey s -> keeps_members s s'.
Proof. unfold keeps_members, members. by intros -> ->. Qed.
Lemma keeps_members_update s id f : (forall e, member_of (f e) = member_of e) -> keeps_members s (update_entry s id f).
Proof.
  intros Hf. split; [|done]. unfold members, update_entry. simpl. apply map_eq. intros j.
  rewrite !lookup_fmap, lookup_alter. case_decide; [subst|done]. destruct (roster s !! j); simpl; [by rewrite Hf|done].
Qed.

(** So a heartbeat's write is one of the other accesses. *)
Lemma heartbeat_keeps_members env s event : keeps_members s (apply_peer_heartbeat env s event).
Proof. unfold apply_peer_heartbeat. destruct (uuid_parse _) as [id|]; [|done]. by apply keeps_members_update. Qed.

Lemma member_lookup s id e : roster s !! id = Some e -> members s !! id = Some (member_of e).
Proof. intros He. unfold members. by rewrite lookup_fmap, He. Qed.
Lemma member_absent s id : members s !! id = None <-> roster s !! id = None.
Proof. unfold members. by rewrite lookup_fmap, fmap_None. Qed.

Lemma nobody_else s addr id :
  held_by_other s addr id = false -> (forall j m, members s !! j = Some m -> m_id m = j) ->
  forall j m, members s !! j = Some m -> m_ula m = addr -> j = id.
Proof.
  intros Hh Hid j m Hm Hu. pose proof (Hid _ _ Hm) as Hj. unfold members in Hm. rewrite lookup_fmap in Hm.
  apply fmap_Some in Hm as (e & He & ->). simpl in *. destruct (decide (j = id)) as [|Hne]; [done|].
  assert (held_by_other s addr id = true) as Hc; [|by rewrite Hc in Hh]. unfold held_by_other. apply existsb_elem.
  exists e. split; [apply entries_spec; by exists j|]. by rewrite bool_decide_true, Hj, bool_decide_false.
Qed.

Lemma finish_keeps g s id e : keeps_members s (finish g s id e).1.
Proof.
  unfold finish. cbn [fst]. match goal with |- context [update_entry ?s1 id ?f] => pose proof (keeps_members_update s1 id f) as [Hm Hb] end;
    [by intros e0; destruct e0|]. split; [exact Hm|exact Hb].
Qed.

Lemma refresh_plan_spec g s id :
  keeps_members s (refresh_plan g s id).1 /\
  ((forall j m, members s !! j = Some m -> m_id m = j) ->
   forall rehome realloc, (refresh_plan g s id).2 = Ok (rehome, realloc) ->
     reg_ok (members s) (by_pubkey s) g (RefreshWriting id rehome realloc)).
Proof.
  unfold refresh_plan. destruct (roster s !! id) as [old|]; [|by split].
  destruct (bool_decide _ && _); [|split; [done|by intros _ ? ? [= <- <-]]].
  destruct (allocate _ _) as [a r]. destruct (lift_alloc r) as [[i u]|e]; [|by split].
  destruct (held_by_other _ u id) eqn:Hh; [by split|]. split; [done|].
  intros Hid ? ? [= <- <-]. simpl. exact (nobody_else _ _ _ Hh Hid).
Qed.

Lemma refresh_entry_member g s id realloc old :
  roster s !! id = Some old -> m_id (member_of old) = id ->
  member_of (refresh_entry (g_env g) (g_req g) (g_identity g) (g_resolved g) (g_observed g) realloc old)
  = mkMember id (m_key (member_of old)) (match realloc with Some (_, u) => u | None => m_ula (member_of old) end).
Proof. intros _ <-. unfold refresh_entry, member_of. destruct (g_observed g), realloc as [[? ?]|]; done. Qed.

Lemma refresh_write_spec g s id rehome realloc :
  match roster s !! id with
  | None => keeps_members s (refresh_write g s id rehome realloc).1
  | Some old => members (refresh_write g s id rehome realloc).1
      = <[id := member_of (refresh_entry (g_env g) (g_req g) (g_identity g) (g_resolved g) (g_observed g) realloc old)]> (members s)
  end /\ by_pubkey (refresh_write g s id rehome realloc).1 = by_pubkey s.
Proof.
  unfold refresh_write. destruct (roster s !! id) as [old|]; [|done].
  destruct rehome; (split; [|done]); unfold members; simpl; by rewrite fmap_insert.
Qed.

(** A thread's own step when members and index stay. *)
Lemma reg_quiet s s' lk lk' ths k g pc pc' :
  conc_inv (members s) (by_pubkey s) lk ths -> ths !! k = Some (Registers g pc) ->
  keeps_members s s' -> (is_done pc = true -> is_done pc' = true) ->
  owed (Registers g pc') = owed (Registers g pc) -> indexing (Registers g pc') = indexing (Registers g pc) ->
  reg_ok (members s) (by_pubkey s) g pc' -> (critical pc' = true -> lk' = Some k) ->
  (lk' = lk \/ others_outside ths k) ->
  conc_inv (members s') (by_pubkey s') lk' (<[k := Registers g pc']> ths).
Proof.
  intros Hi Hk [-> ->] Hd Ho Hx Hr Hc Hlk. apply (inv_quiet _ _ lk _ k (Registers g pc)); try done.
  - by intros ? ? [= <- <-].
  - intros j g' pc0 Hne Hj Hcr. destruct Hlk as [->|Hout]; [by eapply Hi|]. by rewrite (Hout j g' pc0) in Hcr.
Qed.

Lemma outside_of mem bp lk ths k : conc_inv mem bp lk ths -> (lk = None \/ lk = Some k) -> others_outside ths k.
Proof.
  intros Hi Hlk j g pc Hne Hj. destruct (critical pc) eqn:Hc; [|done]. pose proof (inv_lock _ _ _ _ Hi _ _ _ Hj Hc).
  destruct Hlk; congruence.
Qed.

Lemma members_delete s s' id : roster s' = delete id (roster s) -> members s' = delete id (members s).
Proof. unfold members. intros ->. by rewrite fmap_delete. Qed.
Lemma members_insert s s' id e : roster s' = <[id := e]> (roster s) -> members s' = <[id := member_of e]> (members s).
Proof. unfold members. intros ->. by rewrite fmap_insert. Qed.

#[local] Opaque finish refresh_plan refresh_write clear_rest broadcast persist_roster publish_event resolve_ula held_by_other.

Lemma reg_step_inv s s' lk lk' ths k g pc pc' :
  conc_inv (members s) (by_pubkey s) lk ths -> ths !! k = Some (Registers g pc) ->
  reg_step k g s lk pc = Some (s', lk', pc') ->
  conc_inv (members s') (by_pubkey s') lk' (<[k := Registers g pc']> ths).
Proof.
  intros Hi Hk Hs. pose proof (inv_reg _ _ _ _ Hi _ _ _ Hk) as Hr. pose proof (inv_lock _ _ _ _ Hi _ _ _ Hk) as Hl.
  assert (forall s2 lk2 pc2, keeps_members s s2 -> (is_done pc = true -> is_done pc2 = true) ->
    owed (Registers g pc2) = owed (Registers g pc) -> indexing (Registers g pc2) = indexing (Registers g pc) ->
    reg_ok (members s) (by_pubkey s) g pc2 -> (critical pc2 = true -> lk2 = Some k) -> (lk2 = lk \/ others_outside ths k) ->
    conc_inv (members s2) (by_pubkey s2) lk2 (<[k := Registers g pc2]> ths)) as Q by (intros; by eapply reg_quiet).
  assert (critical pc = true -> others_outside ths k) as Hout.
  { intros Hc. apply (outside_of _ _ _ _ _ Hi). right. by apply Hl. }
  destruct pc as [| | |h|h|h e|h e| | |event|id e|id e|id e|id|id rehome realloc|r]; cbn [reg_step reg_ok critical] in Hs, Hr, Hl; try specialize (Hl eq_refl).
  - destruct lk; [done|]. injection Hs as <- <- <-. apply Q; try done. right. apply (outside_of _ _ _ _ _ Hi). by left.
  - injection Hs as <- <- <-. destruct (by_pubkey s !! g_pubkey g) as [id|] eqn:Hb; apply Q; try done; by left.
  - injection Hs as <- <- <-. destruct (raw ← _; _); apply Q; try done; by left.
  - destruct (negb _); injection Hs as <- <- <-; apply Q; try done; by left.
  - destruct (roster s !! h) as [e|] eqn:He; injection Hs as <- <- <-; [|apply Q; try done; by left].
    assert (h <> fresh_id (g_env g)) as Hne.
    { intros ->. destruct Hr as [_ Hr%member_absent]. congruence. }
    rewrite (members_delete s _ h) by reflexivity.
    apply (inv_remove (members s) (by_pubkey s) lk ths k (Registers g (EvictRemoving h)) _ Hi Hk) with (m := member_of e); try done.
    + by apply member_lookup.
    + intros j g' pc' Hj Hj' Hc. by rewrite (Hout eq_refl j g' pc' Hj Hj') in Hc.
    + intros ? ? [= <- <-]. split; [|done]. simpl. split; [apply Hr|]. rewrite lookup_delete_ne by done. apply Hr.
  - injection Hs as <- <- <-. apply (inv_unindex (members s) (by_pubkey s) lk ths k (Registers g (EvictUnindexing h e)) _ Hi Hk) with (id := h); try done.
    intros ? ? [= <- <-]. split; [|done]. by apply (reg_ok_unindex (members s) (by_pubkey s) g EvictPersisting).
  - injection Hs as <- <- <-. apply Q; try done; by left.
  - injection Hs as <- <- <-. apply Q; try done; by left.
  - pose proof (resolve_ula_same s (ni_network (g_identity g)) (rr_requested_ula (g_req g))) as [Hro Hbp].
    destruct (resolve_ula s _ _) as [s1 [[x addr]|e]]; injection Hs as <- <- <-; (apply Q; try done); [by apply keeps_members_refl| |by left|by apply keeps_members_refl|right; by apply Hout].
    simpl. split; [done|by eexists].
  - destruct Hr as [Hnew (addr0 & ->)].
    destruct (uuid_parse _) as [id|e] eqn:Hu; [|injection Hs as <- <- <-; apply Q; try done; right; by apply Hout].
    simpl in Hu. rewrite uuid_parse_to_string in Hu. injection Hu as <-.
    destruct (parse_ipv6 _) as [addr|]; [|injection Hs as <- <- <-; apply Q; try done; right; by apply Hout].
    destruct (held_by_other _ _ _) eqn:Hh; injection Hs as <- <- <-; (apply Q; try done); [right; by apply Hout| |by left].
    simpl. split_and!; try done; [apply Hnew..|]. exact (nobody_else _ _ _ Hh (inv_id _ _ _ _ Hi)).
  - injection Hs as <- <- <-. rewrite (members_insert s _ id e) by reflexivity.
    apply (inv_insert (members s) (by_pubkey s) lk ths k _ _ Hi Hk) with (g := g); try done. by apply Hout.
  - injection Hs as <- <- <-. apply (inv_reindex (members s) (by_pubkey s) lk ths k _ _ Hi Hk) with (g := g); try done. by apply Hout.
  - pose proof (finish_keeps g s id e) as Hf. destruct (finish g s id e) as [s1 e1]. injection Hs as <- <- <-.
    apply Q; try done. right. by apply Hout.
  - destruct (refresh_plan_spec g s id) as [Hkeep Hok]. specialize (Hok (inv_id _ _ _ _ Hi)).
    destruct (refresh_plan g s id) as [s1 [[rehome realloc]|e]]; injection Hs as <- <- <-; apply Q; try done; [by apply Hok|by left|right; by apply Hout].
  - destruct (refresh_write_spec g s id rehome realloc) as [Hm Hb]. destruct (refresh_write g s id rehome realloc) as [s1 r].
    injection Hs as <- <- <-. simpl in Hm, Hb. destruct (roster s !! id) as [old|] eqn:Ho; [|apply Q; try done; right; by apply Hout].
    pose proof (member_lookup _ _ _ Ho) as Hmem.
    rewrite Hm, Hb, (refresh_entry_member g s id realloc old Ho) by (by apply (inv_id _ _ _ _ Hi)).
    apply (inv_rehome (members s) (by_pubkey s) lk ths k _ _ Hi Hk) with (g := g) (rehome := rehome) (realloc := realloc) (r := r); try done. by apply Hout.
  - done.
Qed.

Lemma del_step_inv s s' lk ths k env id reason pc pc' :
  conc_inv (members s) (by_pubkey s) lk ths -> ths !! k = Some (Deregisters env id reason pc) ->
  del_step env id reason s pc = Some (s', pc') ->
  conc_inv (members s') (by_pubkey s') lk (<[k := Deregisters env id reason pc']> ths).
Proof.
  intros Hi Hk Hs.
  assert (forall s2 pc2, keeps_members s s2 ->
    owed (Deregisters env id reason pc2) = owed (Deregisters env id reason pc) ->
    conc_inv (members s2) (by_pubkey s2) lk (<[k := Deregisters env id reason pc2]> ths)) as Q.
  { intros s2 pc2 [-> ->] Ho. apply (inv_quiet _ _ lk _ k _ _ Hi Hk); try done. intros j g pc0 _. apply Hi. }
  destruct pc as [|tags|tags e|tags e|tags|known]; cbn [del_step] in Hs.
  - destruct (tags <$> roster s !! id); injection Hs as <- <-; by apply Q.
  - destruct (roster s !! id) as [e|] eqn:He; injection Hs as <- <-; [|by apply Q].
    rewrite (members_delete s _ id) by reflexivity.
    apply (inv_remove (members s) (by_pubkey s) lk ths k _ _ Hi Hk) with (m := member_of e); try done; [by apply member_lookup|].
    intros j g pc' Hj Hj' Hc. exact (inv_fresh _ _ _ _ Hi j g pc' Hj' ltac:(by destruct pc') k _ (not_eq_sym Hj) Hk).
  - injection Hs as <- <-. by apply (inv_unindex (members s) (by_pubkey s) lk ths k _ _ Hi Hk) with (id := id).
  - injection Hs as <- <-. by apply Q.
  - injection Hs as <- <-. by apply Q.
  - done.
Qed.

(** A new request. *)
Lemma start_inv c t :
  conc_inv (members (inner c)) (by_pubkey (inner c)) (lock c) (threads c) -> may_start c t ->
  conc_inv (members (inner c)) (by_pubkey (inner c)) (lock c) (threads c ++ [t]).
Proof.
  intros Hi Hst. set (ths := threads c) in *.
  assert (forall j x, (ths ++ [t]) !! j = Some x -> ths !! j = Some x \/ (j = length ths /\ x = t)) as Hat.
  { intros j x [Hj|[Hlen Hj]]%lookup_app_Some; [by left|right]. apply list_lookup_singleton_Some in Hj as [? ->]. split; [lia|done]. }
  assert (forall j x, ths !! j = Some x -> (ths ++ [t]) !! j = Some x) as Hold by (intros; by apply lookup_app_l_Some).
  assert (owed t = None /\ indexing t = None) as [Ho Hx] by (destruct t as [g pc|env id reason pc]; destruct Hst as [-> _]; done).
  assert (forall g pc, t = Registers g pc -> critical pc = false /\ reg_ok (members (inner c)) (by_pubkey (inner c)) g pc) as Hreg.
  { intros g pc ->. destruct Hst as (-> & Hn & _). split; [done|]. by apply member_absent. }
  split.
  - apply Hi.
  - apply Hi.
  - intros k g pc [Hk|[-> <-]]%Hat Hc; [by eapply Hi|]. destruct (Hreg g pc eq_refl). congruence.
  - intros k g pc [Hk|[-> <-]]%Hat; [by eapply Hi|]. by apply Hreg.
  - intros k x id pk [Hk|[-> ->]]%Hat Hox; [by eapply Hi|congruence].
  - intros k k' x y id id' pk [Hk|[-> ->]]%Hat [Hk'|[-> ->]]%Hat Hox Hoy; try congruence. by eapply (inv_owed_once _ _ _ _ Hi).
  - intros pk id Hb. destruct (inv_index _ _ _ _ Hi _ _ Hb) as [?|(k & x & Hk & Hox)]; [by left|right]. exists k, x. auto.
  - intros id m Hm. destruct (inv_cover _ _ _ _ Hi _ _ Hm) as [?|(k & x & Hk & Hox)]; [by left|right]. exists k, x. auto.
  - intros k g pc [Hk|[-> Et]]%Hat Hd k' x Hne [Hk'|[-> ->]]%Hat.
    + by eapply (inv_fresh _ _ _ _ Hi).
    + destruct t as [g' pc'|env id reason pc']; destruct Hst as [_ Hst].
      * destruct Hst as [_ Hall]. apply not_eq_sym. apply (Hall (Registers g pc)). by eapply list_elem_of_lookup_2.
      * apply (Hst g pc); [by eapply list_elem_of_lookup_2|done].
    + rewrite <- Et in Hst. destruct Hst as (_ & _ & Hall). apply (Hall x). by eapply list_elem_of_lookup_2.
    + done.
Qed.

Definition wf_conf (c : Conf) : Prop := conc_inv (members (inner c)) (by_pubkey (inner c)) (lock c) (threads c).

Lemma conc_step_inv c c' : wf_conf c -> conc_step c c' -> wf_conf c'.
Proof.
  intros Hi [? [k g pc s lk' pc' Hk Hs|k env id reason pc s pc' Hk Hs]|s [Hm Hb]|t Hst]; unfold wf_conf; simpl.
  - by eapply reg_step_inv.
  - by eapply del_step_inv.
  - by rewrite Hm, Hb.
  - by apply start_inv.
Qed.

(** What [CoordInv] keeps of the coordinator is more. *)
Lemma wf_at_rest s : wf_inner s -> at_rest s.
Proof. intros [[Hid Hkey Hu _ _] _ _]. done. Qed.

Lemma at_rest_inv s : at_rest s -> wf_conf (mkConf s None []).
Proof.
  intros (Hid & Hkey & Hu). unfold wf_conf. simpl.
  assert (forall i m, members s !! i = Some m -> exists e, roster s !! i = Some e /\ m = member_of e) as Hmem.
  { intros i m Hm. unfold members in Hm. rewrite lookup_fmap in Hm. apply fmap_Some in Hm as (e & He & ->). by exists e. }
  split; try done.
  - intros i m (e & He & ->)%Hmem. by apply Hid.
  - intros i j m n (e & He & ->)%Hmem (f & Hf & ->)%Hmem. by apply Hu.
  - intros pk i (e & He & <-)%Hkey. left. exists (member_of e). split; [by apply member_lookup|done].
  - intros i m (e & He & ->)%Hmem. left. apply Hkey. by exists e.
Qed.

Lemma inv_at_rest c : wf_conf c -> Forall (fun t => finished t = true) (threads c) -> at_rest (inner c).
Proof.
  intros Hi Hf. rewrite Forall_lookup in Hf.
  assert (forall k t, threads c !! k = Some t -> owed t = None /\ indexing t = None) as Hnone.
  { intros k t Hk. specialize (Hf k t Hk). destruct t as [g pc|env id reason pc]; destruct pc; by try discriminate Hf. }
  split_and!.
  - intros id e He. by apply (inv_id _ _ _ _ Hi id (member_of e)), member_lookup.
  - intros pk id. split.
    + intros Hb. destruct (inv_index _ _ _ _ Hi _ _ Hb) as [(m & Hm & Hpk)|(k & t & Hk & Ho)].
      * unfold members in Hm. rewrite lookup_fmap in Hm. apply fmap_Some in Hm as (e & He & ->). by exists e.
      * destruct (Hnone k t Hk). congruence.
    + intros (e & He & <-). destruct (inv_cover _ _ _ _ Hi _ _ (member_lookup _ _ _ He)) as [Hb|(k & t & Hk & Hx)]; [done|].
      destruct (Hnone k t Hk). congruence.
  - intros i j e f He Hfj Heq. by apply (inv_ula _ _ _ _ Hi i j (member_of e) (member_of f)); [apply member_lookup..|].
Qed.

(** C34: Whatever the interleaving. A coordinator at rest starts; requests to register and
    to deregister arrive at any time and their handlers take their accesses to the
    shared maps in any order, with heartbeats and other handlers in between; ids drawn
    for new members are fresh. Then in every state that can be reached, in the middle of
    handlers too, no two members share an overlay address and each member is filed under
    its own id; no two registrations are between taking the lock and releasing it; and
    in every state in which all handlers have answered, the key index names exactly the
    members. *)
Theorem interleaving_keeps_membership s c :
  at_rest s -> rtc conc_step (mkConf s None []) c ->
  (forall i j e f, roster (inner c) !! i = Some e -> roster (inner c) !! j = Some f -> ula e = ula f -> i = j)
  /\ (forall id e, roster (inner c) !! id = Some e -> peer_id e = id)
  /\ (forall k k' g g' pc pc', threads c !! k = Some (Registers g pc) -> threads c !! k' = Some (Registers g' pc') ->
        critical pc = true -> critical pc' = true -> k = k')
  /\ (Forall (fun t => finished t = true) (threads c) -> at_rest (inner c)).
Proof.
  intros Hs Hrun. assert (wf_conf c) as Hi.
  { apply at_rest_inv in Hs. induction Hrun as [|x y z Hst _ IH]; [done|]. apply IH. by eapply conc_step_inv. }
  split_and!.
  - intros i j e f He Hf Heq. by apply (inv_ula _ _ _ _ Hi i j (member_of e) (member_of f)); [apply member_lookup..|].
  - intros id e He. by apply (inv_id _ _ _ _ Hi id (member_of e)), member_lookup.
  - intros k k' g g' pc pc' Hk Hk' Hc Hc'. pose proof (inv_lock _ _ _ _ Hi _ _ _ Hk Hc).
    pose proof (inv_lock _ _ _ _ Hi _ _ _ Hk' Hc'). congruence.
  - by apply inv_at_rest.
Qed.

(** ** Every handler answers *)

(** The accesses a handler has left at most. *)
Definition reg_left (pc : RegPc) : nat :=
  match pc with
  | Locking => 13 | Looking => 12 | FindingHolder => 11 | CheckingStale _ => 10 | EvictRemoving _ => 9
  | EvictUnindexing _ _ => 8 | EvictClearing _ _ => 7 | EvictPersisting => 6 | Resolving => 5 | Checking _ => 4
  | Inserting _ _ => 3 | Indexing _ _ => 2 | Finishing _ _ => 1
  | RefreshPlanning _ => 2 | RefreshWriting _ _ _ => 1 | RegDone _ => 0
  end.
Definition del_left (pc : DelPc) : nat :=
  match pc with Reading => 5 | Removing _ => 4 | Unindexing _ _ => 3 | Clearing _ _ => 2 | Announcing _ => 1 | DelDone _ => 0 end.
Definition left_of (t : Thread) : nat :=
  match t with Registers _ pc => reg_left pc | Deregisters _ _ _ pc => del_left pc end.

Lemma reg_step_spec k g s lk pc :
  match reg_step k g s lk pc with
  | Some (_, lk', pc') => (reg_left pc' < reg_left pc)%nat
      /\ (lk' = None \/ critical pc' = true /\ (lk' = Some k \/ lk' = lk /\ critical pc = true))
  | None => is_done pc = true \/ pc = Locking /\ lk <> None
  end.
Proof.
  destruct pc; cbn [reg_step]; try (split; [simpl; lia|tauto]).
  - destruct lk; [by right|]. split; [simpl; lia|tauto].
  - destruct (by_pubkey s !! _); (split; [simpl; lia|tauto]).
  - destruct (raw ← _; _); (split; [simpl; lia|tauto]).
  - destruct (negb _); (split; [simpl; lia|tauto]).
  - destruct (roster s !! _); (split; [simpl; lia|tauto]).
  - destruct (resolve_ula s _ _) as [? [[? ?]|?]]; (split; [simpl; lia|tauto]).
  - destruct (uuid_parse _) as [id|]; [|split; [simpl; lia|tauto]].
    destruct (parse_ipv6 _) as [a|]; [|split; [simpl; lia|tauto]]. destruct (held_by_other _ _ _); (split; [simpl; lia|tauto]).
  - destruct (refresh_plan g s id) as [? [[? ?]|?]]; (split; [simpl; lia|tauto]).
  - match goal with |- context [refresh_write ?a ?b ?c ?d ?r] => destruct (refresh_write a b c d r) end. split; [simpl; lia|tauto].
  - by left.
Qed.
Lemma del_step_spec env id reason s pc :
  match del_step env id reason s pc with
  | Some (_, pc') => (del_left pc' < del_left pc)%nat
  | None => exists known, pc = DelDone known
  end.
Proof. destruct pc; simpl; try lia; [destruct (tags <$> roster s !! id)|destruct (roster s !! id)|by eexists]; simpl; lia. Qed.

(** A lock that is held has its holder. *)
Definition lock_held (c : Conf) : Prop :=
  forall k, lock c = Some k -> exists g pc, threads c !! k = Some (Registers g pc) /\ critical pc = true.

Lemma own_step_held c c' : wf_conf c -> lock_held c -> own_step c c' -> lock_held c'.
Proof.
  intros Hi Hh [k g pc s lk' pc' Hk Hs|k env id reason pc s pc' Hk Hs] j; simpl.
  - pose proof (reg_step_spec k g (inner c) (lock c) pc) as Hsp. rewrite Hs in Hsp. destruct Hsp as [_ Hlk]. intros ->.
    assert (j = k /\ critical pc' = true) as [-> Hc].
    { destruct Hlk as [?|(Hc & [[= ->]|[Heq Hc0]])]; [done|done|]. split; [|done].
      pose proof (inv_lock _ _ _ _ Hi _ _ _ Hk Hc0). congruence. }
    exists g, pc'. split; [by eapply updated_at|done].
  - intros Hj. destruct (Hh j Hj) as (g & pc0 & Hat & Hc). exists g, pc0. split; [|done].
    rewrite list_lookup_insert_ne; [done|]. intros ->. congruence.
Qed.
Lemma conc_step_held c c' : wf_conf c -> lock_held c -> conc_step c c' -> lock_held c'.
Proof.
  intros Hi Hh [? Hown|s _|t _]; [by eapply own_step_held|done|]. intros k Hk. destruct (Hh k Hk) as (g & pc & Hat & Hc).
  exists g, pc. split; [|done]. simpl. by apply lookup_app_l_Some.
Qed.

(** Nobody waits for ever: a handler that has not answered can go on, or the one that holds
    the lock can. *)
Lemma can_go_on c : wf_conf c -> lock_held c -> Forall (fun t => finished t = true) (threads c) \/ exists c', own_step c c'.
Proof.
  intros Hi Hh. destruct (decide (Forall (fun t => finished t = true) (threads c))) as [|Hn]; [by left|right].
  apply not_Forall_Exists in Hn; [|apply _]. apply Exists_exists in Hn as (t & Hin & Hf). simpl in Hf. apply list_elem_of_lookup in Hin as [k Hk].
  destruct t as [g pc|env id reason pc].
  - assert (exists j g' pc', threads c !! j = Some (Registers g' pc') /\ is_done pc' = false
      /\ (pc' = Locking -> lock c = None)) as (j & g' & pc' & Hj & Hd & Hlk).
    { destruct (lock c) as [j|] eqn:El.
      - destruct (Hh j El) as (g' & pc' & Hj & Hc). exists j, g', pc'. split; [done|]. destruct pc'; try discriminate Hc; by split.
      - exists k, g, pc. split; [done|]. split; [|done]. by destruct (is_done pc) eqn:E; [destruct Hf; simpl|]. }
    pose proof (reg_step_spec j g' (inner c) (lock c) pc') as Hsp.
    destruct (reg_step _ _ _ _ _) as [[[s lk'] pc'']|] eqn:Es; [|].
    + eexists. by eapply own_register.
    + destruct Hsp as [?|[-> Hne]]; [congruence|]. by destruct Hne; apply Hlk.
  - pose proof (del_step_spec env id reason (inner c) pc) as Hsp. destruct (del_step _ _ _ _ _) as [[s pc']|] eqn:Es.
    + eexists. by eapply own_deregister.
    + destruct Hsp as [known ->]. by destruct Hf.
Qed.

Definition remaining (c : Conf) : nat := sum_list_with left_of (threads c).
Lemma remaining_update (ths : list Thread) k t t' :
  ths !! k = Some t -> (left_of t' < left_of t)%nat -> (sum_list_with left_of (<[k := t']> ths) < sum_list_with left_of ths)%nat.
Proof.
  revert k. induction ths as [|x ths IH]; intros k; [done|]. destruct k as [|k]; simpl.
  - intros [= ->]. lia.
  - intros Hk Hlt. specialize (IH k Hk Hlt). lia.
Qed.
Lemma own_step_remaining c c' : own_step c c' -> (remaining c' < remaining c)%nat.
Proof.
  intros [k g pc s lk' pc' Hk Hs|k env id reason pc s pc' Hk Hs]; unfold remaining; simpl; eapply remaining_update; try exact Hk; simpl.
  - pose proof (reg_step_spec k g (inner c) (lock c) pc) as Hsp. rewrite Hs in Hsp. apply Hsp.
  - pose proof (del_step_spec env id reason (inner c) pc) as Hsp. by rewrite Hs in Hsp.
Qed.
Lemma remaining_bound c : (remaining c <= 13 * length (threads c))%nat.
Proof.
  unfold remaining. induction (threads c) as [|t l IH]; simpl; [lia|].
  assert (left_of t <= 13)%nat by (destruct t as [? pc|? ? ? pc]; destruct pc; simpl; lia). lia.
Qed.
Lemma own_steps_bound n c c' : nsteps own_step n c c' -> (n + remaining c' <= remaining c)%nat.
Proof. induction 1 as [|n x y z Hs _ IH]; [done|]. apply own_step_remaining in Hs. lia. Qed.

Lemma own_run c : wf_conf c -> lock_held c -> exists c', rtc own_step c c' /\ Forall (fun t => finished t = true) (threads c').
Proof.
  remember (remaining c) as n eqn:En. revert c En. induction (lt_wf n) as [n _ IH]. intros c -> Hi Hh.
  destruct (can_go_on c Hi Hh) as [?|[c1 Hs]]; [by exists c; split; [apply rtc_refl|]|].
  pose proof (own_step_remaining _ _ Hs) as Hlt.
  destruct (IH _ Hlt c1 eq_refl) as (c' & Hr & Hf); [by eapply conc_step_inv; [|apply conc_own]|by eapply own_step_held|].
  exists c'. split; [by eapply rtc_l|done].
Qed.

(** C27: The handlers never wait for each other for ever. From every state that
    requests arriving in any order can lead to, the handlers that have been
    started take at most thirteen accesses each, in whatever order; as long as one has
    not answered, some handler can go on, so they can all be run to their answers; and
    the coordinator that is then at rest has unique addresses and an index that names
    exactly its members. *)
Theorem handlers_always_answer s c :
  at_rest s -> rtc conc_step (mkConf s None []) c ->
  (forall n c', nsteps own_step n c c' -> (n <= 13 * length (threads c))%nat)
  /\ (forall c', rtc own_step c c' -> Forall (fun t => finished t = true) (threads c') \/ exists c'', own_step c' c'')
  /\ exists c', rtc own_step c c' /\ Forall (fun t => finished t = true) (threads c') /\ at_rest (inner c').
Proof.
  intros Hs Hrun. assert (wf_conf c /\ lock_held c) as [Hi Hh].
  { apply at_rest_inv in Hs. assert (lock_held (mkConf s None [])) as Hh by done.
    induction Hrun as [|x y z Hst _ IH]; [done|]. apply IH; [by eapply conc_step_inv|by eapply conc_step_held]. }
  assert (forall c', rtc own_step c c' -> wf_conf c' /\ lock_held c') as Hown.
  { intros c' Hr. clear Hrun. induction Hr as [|x y z Hst _ IH]; [done|].
    apply IH; [by eapply conc_step_inv; [|apply conc_own]|by eapply own_step_held]. }
  split_and!.
  - intros n c' Hn. pose proof (own_steps_bound _ _ _ Hn). pose proof (remaining_bound c). lia.
  - intros c' Hr. destruct (Hown c' Hr). by apply can_go_on.
  - destruct (own_run c Hi Hh) as (c' & Hr & Hf). exists c'. split; [done|]. split; [done|]. apply inv_at_rest; [|done]. by apply Hown.
Qed.
End MembershipConc.
