(* ===== verification/Joining.v ===== *)
(** * What registration grants

    Who may join, under which identity and at which address, and what a
    registration that is refused leaves behind. *)

From S2P Require Import Prelude NetAddr AddrText Contract Types Allocator Policy HolePunch.
From S2P Require Import DirectFlags RelayRegistry RosterStore Reflexive Auth Coordinator Apply.
From S2P Require Import Registration Heartbeat CoordInv Membership.

Open Scope Z_scope.

Section Joining.
Context {EX : Externals} {EXL : ExternalLaws} {IT : Iteration} {ITL : IterationLaws}
  {RS : RosterSerde} {CH : Channels} {CS : ClaimsSerde}.

(** ** Specifications *)

(** The claims under which a request was let in. *)
Definition admitted (s : Inner) (bearer : option string) (reply : HttpReply)
    (claims : option ValidatedClaims) : Prop :=
  if has_validator s then
    exists c token, claims = Some c /\ vc_valid c = true /\
      nonempty (trim <$> bearer) = Some token /\ validate_reply reply = Some (Ok c)
  else claims = None.

(** The address that may be granted to a new member of [network]: the next one of
    the network's own block, or the requested one, a unique local address that is
    in the network's block when it is a host address, fixed infrastructure
    excepted. *)
Definition address_granted (s : Inner) (network : string) (requested : option string) (a : Ipv6Addr) : Prop :=
  match requested with
  | None => exists i, a = address_for (network_slot network) i /\
              counter (allocator s) (network_slot network) < i <= u16_max
  | Some raw => parse_ipv6 raw = Some a /\ v6_is_unique_local a = true /\
              (seg1 a = HOST_ULA_SLOT -> is_fixed_infra_ula a = true \/ seg2 a = network_slot network)
  end.

(** A requested fixed infrastructure address is listed in the token. *)
Definition infra_authorised (requested : option string) (claims : option ValidatedClaims) : Prop :=
  forall raw a, requested = Some raw -> parse_ipv6 raw = Some a -> is_fixed_infra_ula a = true ->
    exists c allowed, claims = Some c /\ allowed ∈ vc_requested_ulas c /\ parse_ipv6 allowed = Some a.

(** The peers that a request for an address may evict: its holder, when silent. *)
Definition evictable (env : Env) (s : Inner) (requested : option string) (h : Uuid) : Prop :=
  exists raw e, requested = Some raw /\ roster s !! h = Some e /\
    parse_ipv6 raw = Some (ula e) /\ silent env s e.

(** ** Lemmas *)

Lemma authenticate_Ok s bearer reply claims :
  authenticate s bearer reply = Some (Ok claims) <-> admitted s bearer reply claims.
Proof.
  unfold authenticate, admitted. destruct (has_validator s); simpl; [|split; [by intros [= <-]|by intros ->]].
  split.
  - destruct (nonempty _) as [token|]; [|done].
    destruct (validate_reply reply) as [[c|[]]|]; try done.
    destruct (vc_valid c) eqn:Hv; [|done]. intros [= <-]. by exists c, token.
  - intros (c & token & -> & Hv & -> & ->). by rewrite Hv.
Qed.

Lemma authorize_Ok requested claims :
  authorize_fixed_requested_ula requested claims = Ok tt -> infra_authorised requested claims.
Proof.
  intros H raw a -> Hp Hf. unfold authorize_fixed_requested_ula in H. rewrite Hp, Hf in H. simpl in H.
  destruct claims as [c|]; [|done]. destruct (existsb _ _) eqn:E; [|done].
  apply existsb_elem in E as (allowed & Hin & Ha). apply bool_decide_eq_true in Ha. by exists c, allowed.
Qed.

Lemma evict_effect env s requested :
  wf_inner s ->
  let s' := evict_stale_ula_holder env s requested in
  s' = s \/ exists h, evictable env s requested h /\ roster s' = delete h (roster s) /\ no_trace s' h
    (default [] (wg_public_key <$> roster s !! h)).
Proof.
  intros Hwf. unfold evict_stale_ula_holder. destruct requested as [raw|]; [|by left].
  destruct (parse_ipv6 raw) as [addr|] eqn:Hp; [|by left].
  destruct (holder_of s addr) as [e|] eqn:Hh; simpl; [|by left].
  unfold holder_of in Hh. apply find_Some_in in Hh as [He Hu]. apply bool_decide_eq_true in Hu.
  apply entries_spec in He as [h He]. rewrite (core_id _ _ _ (inner_core _ Hwf) _ _ He), He. simpl.
  destruct (_ <? _) eqn:Hlt; simpl; [right|by left]. exists h.
  rewrite apply_peer_left_eq. simpl. rewrite He.
  split; [exists raw, e; subst; split_and!; try done; unfold silent; lia|].
  split; [done|]. apply (remove_entry_effect s h e Hwf He).
Qed.

Lemma resolve_ula_Ok s network requested s' i a :
  wf_inner s -> resolve_ula s network requested = (s', Ok (i, a)) ->
  address_granted s network requested a /\ wf_ipv6 a /\ i = seg3 a /\ roster s' = roster s /\ by_pubkey s' = by_pubkey s.
Proof.
  intros Hwf. pose proof (resolve_ula_same s network requested) as [Hr Hb].
  unfold resolve_ula, address_granted in *. destruct requested as [raw|].
  - destruct (parse_ipv6 raw) as [addr|] eqn:Hp; [|done].
    destruct (Z.land (seg0 addr) 0xfe00 =? 0xfc00) eqn:Hu; [|done]. simpl in *.
    destruct (_ && _ && _) eqn:Hm; [done|].
    destruct (existsb _ _) eqn:Hc; [done|]. intros [= <- <- <-].
    split_and!; [done|done| |by eapply parse_ipv6_wf|done|done|done].
    intros Hs. apply Z.eqb_eq in Hs. rewrite Hs in Hm. simpl in Hm.
    apply andb_false_iff in Hm as [Hm|Hm]; apply negb_false_iff in Hm; [by left|right; lia].
  - pose proof (allocate_facts s network i a (core_alloc _ _ _ (inner_core _ Hwf))) as Hf.
    destruct (allocate (allocator s) network) as [al [[i' a']|e]] eqn:Ha; [|done].
    simpl in *. intros [= <- <- <-]. destruct (Hf eq_refl) as (Hw & Hi & _ & Heq & Hlt).
    split_and!; try done. exists i'. split_and!; [done|done|].
    apply wf_ipv6_segs in Hw as [_ Hs]. unfold is_u16 in Hs. lia.
Qed.

(** The roster after a successful join of a new key: some silent holder of the
    requested address may be gone, and the entry is there. *)
Definition joined (env : Env) (s s' : Inner) (requested : option string) (entry : PeerEntry) : Prop :=
  exists gone, (forall h, gone = Some h -> evictable env s requested h) /\
    roster s' = <[fresh_id env := entry]>
      (match gone with Some h => delete h (roster s) | None => roster s end).

Lemma alter_inserted (m : gmap Uuid PeerEntry) id e f : alter f id (<[id := e]> m) = <[id := f e]> m.
Proof. apply map_eq. intros j. rewrite lookup_alter, !lookup_insert. by repeat case_decide. Qed.

Lemma register_new_Ok env s req claims pubkey resolved observed s' entry outcome :
  wf_inner s -> roster s !! fresh_id env = None ->
  register_new env s req claims pubkey resolved observed = (s', Ok (entry, outcome)) ->
  let identity := stamp_identity req claims in
  outcome = Created /\ peer_id entry = fresh_id env /\ wg_public_key entry = pubkey /\
  network entry = ni_network identity /\ tags entry = ni_tags identity /\
  listen_endpoint entry = nonempty (endpoint resolved) /\ endpoint_is_reflexive entry = reflexive resolved /\
  address_granted s (ni_network identity) (rr_requested_ula req) (ula entry) /\
  joined env s s' (rr_requested_ula req) entry /\ by_pubkey s' !! pubkey = Some (fresh_id env).
Proof.
  intros Hwf Hid. unfold register_new.
  pose proof (wf_evict env s (rr_requested_ula req) Hwf) as Hwe.
  pose proof (evict_effect env s (rr_requested_ula req) Hwf) as Hev.
  pose proof (evict_shrinks env s (rr_requested_ula req)) as (_ & _ & Hal).
  set (s1 := evict_stale_ula_holder env s (rr_requested_ula req)) in *.
  set (identity := stamp_identity req claims).
  destruct (resolve_ula s1 (ni_network identity) (rr_requested_ula req)) as [s2 [[i addr]|e]] eqn:Hres; [|done].
  apply (resolve_ula_Ok s1) in Hres as (Hgr & Hw & -> & Hro & Hbp); [|done].
  unfold apply_peer_joined; simpl. rewrite uuid_parse_to_string, parse_fmt_ipv6 by done.
  destruct (held_by_other _ addr (fresh_id env)); [done|].
  intros [= <- <- <-]. split; [done|].
  assert (address_granted s (ni_network identity) (rr_requested_ula req) addr) as Hgr'.
  { unfold address_granted in *. by rewrite <- Hal. }
  assert (forall m : gmap Uuid PeerEntry, roster s2 = m -> exists gone,
    (forall h, gone = Some h -> evictable env s (rr_requested_ula req) h) /\
    m = match gone with Some h => delete h (roster s) | None => roster s end) as Hgone.
  { intros m <-. rewrite Hro. destruct Hev as [->|(h & Hh & Hd & _)].
    - by exists None.
    - exists (Some h). split; [by intros ? [= <-]|done]. }
  destruct (Hgone _ eq_refl) as (gone & Hg1 & Hg2).
  assert (listen_endpoint (entry_of_joined env (fresh_id env) addr
    {| pj_peer_id := uuid_to_string (fresh_id env); pj_wg_public_key := pubkey; pj_ula := fmt_ipv6 addr;
       pj_listen_endpoint := default EmptyString (endpoint resolved); pj_display_name := rr_display_name req;
       pj_network := ni_network identity; pj_tags := ni_tags identity;
       pj_hosted_app_ulas := rr_hosted_app_ulas req; pj_joined_at_micros := wall env; pj_kind := rr_kind req;
       pj_parent := rr_parent req; pj_app_uuid := rr_app_uuid req;
       pj_software_version := rr_software_version req; pj_mesh_version := rr_mesh_version req;
       pj_relay_only := rr_relay_only req |}) = nonempty (endpoint resolved)) as Hep.
  { simpl. destruct (endpoint resolved) as [x|]; simpl; [|done]. by case_bool_decide. }
  destruct observed as [obs|]; simpl in *;
    (split_and!; try done; [|by apply lookup_insert_eq]; exists gone; split; [done|]; rewrite <- Hg2;
     etrans; [apply alter_inserted|done]).
Qed.

(** The address after a re-registration: kept, or, when a token moves the peer to
    another network, the next free one of that network's block. *)
Definition kept_or_rehomed (s : Inner) (claims : option ValidatedClaims) (identity : NodeIdentity)
    (old entry : PeerEntry) : Prop :=
  (ula entry = ula old /\ network entry = network old /\
   (is_Some claims -> ni_network identity = network old)) \/
  (is_Some claims /\ ni_network identity <> network old /\ network entry = ni_network identity /\
   exists i, ula entry = address_for (network_slot (network entry)) i /\
     counter (allocator s) (network_slot (network entry)) < i <= u16_max).

Lemma refresh_existing_effect env s id req claims resolved observed s' r old :
  wf_inner s -> roster s !! id = Some old ->
  refresh_existing env s id req claims resolved observed = (s', r) ->
  by_pubkey s' = by_pubkey s /\
  match r with
  | Err _ => roster s' = roster s /\ published s' = published s /\ broadcasts s' = broadcasts s
  | Ok entry =>
      roster s' = <[id := entry]> (roster s) /\ peer_id entry = id /\
      wg_public_key entry = wg_public_key old /\
      tags entry = ni_tags (stamp_identity req claims) /\
      pending_commands entry = pending_commands old /\
      last_heartbeat entry = now env /\
      kept_or_rehomed s claims (stamp_identity req claims) old entry
  end.
Proof.
  intros Hwf Ho. pose proof (core_id _ _ _ (inner_core _ Hwf) _ _ Ho) as Hid.
  unfold refresh_existing. rewrite Ho. set (identity := stamp_identity req claims).
  destruct (bool_decide (is_Some claims) && negb (bool_decide (ni_network identity = network old))) eqn:Hre.
  - apply andb_true_iff in Hre as [H1 H2]. apply bool_decide_eq_true in H1.
    apply negb_true_iff, bool_decide_eq_false in H2.
    pose proof (allocate_facts s (ni_network identity)) as Hf.
    destruct (allocate (allocator s) (ni_network identity)) as [a [[i addr]|e]]; simpl in *; [|by intros [= <- <-]].
    destruct (Hf i addr (core_alloc _ _ _ (inner_core _ Hwf)) eq_refl) as (Hw & Hi & _ & Ha & Hlt).
    destruct (held_by_other _ addr id); [by intros [= <- <-]|].
    intros [= <- <-]. split; [done|]. split; [done|].
    apply wf_ipv6_segs in Hw as [_ Hs]. unfold is_u16 in Hs.
    assert (kept_or_rehomed s claims identity old
      (refresh_entry env req identity resolved observed (Some (i, addr)) old)) as Hk.
    { right. split_and!; [done|done|by destruct observed|]. exists i.
      assert (network (refresh_entry env req identity resolved observed (Some (i, addr)) old) = ni_network identity
        /\ ula (refresh_entry env req identity resolved observed (Some (i, addr)) old) = addr) as [-> ->]
        by by destruct observed.
      split_and!; [done|done|lia]. }
    split_and!; try done; by destruct observed.
  - intros [= <- <-]. split; [done|]. split; [done|].
    assert (kept_or_rehomed s claims identity old
      (refresh_entry env req identity resolved observed None old)) as Hk.
    { left. split_and!; [by destruct observed..|]. intros Hc.
      rewrite (bool_decide_true _ Hc) in Hre. simpl in Hre. apply negb_false_iff in Hre.
      by apply bool_decide_eq_true in Hre. }
    split_and!; try done; by destruct observed.
Qed.

(** C3: Who joins, and where: a new key is admitted only under a token that the auth
    service vouched for (when the coordinator has a validator), gets the
    network and tags of [stamp_identity], and an address that is the next of its
    own network's block or the one it asked for, which is a unique local address,
    is inside its network's block if it is an ordinary host address, and is
    listed in the token if it is fixed infrastructure. No other member has the
    address; the key is indexed; every other entry is as it was, but for a silent
    holder of the requested address. *)
Theorem register_admits_new_member env s req bearer reply observed s' entry :
  wf_inner s -> roster s !! fresh_id env = None ->
  register_authenticated env s req bearer reply observed = Some (s', Ok (entry, Created)) ->
  exists claims, admitted s bearer reply claims /\
    decode_pubkey (rr_wg_public_key req) = Ok (wg_public_key entry) /\
    length (wg_public_key entry) = 32%nat /\
    by_pubkey s !! wg_public_key entry = None /\ by_pubkey s' !! wg_public_key entry = Some (fresh_id env) /\
    peer_id entry = fresh_id env /\
    network entry = ni_network (stamp_identity req claims) /\ tags entry = ni_tags (stamp_identity req claims) /\
    address_granted s (network entry) (rr_requested_ula req) (ula entry) /\
    infra_authorised (rr_requested_ula req) claims /\
    joined env s s' (rr_requested_ula req) entry /\
    (forall j e, roster s' !! j = Some e -> ula e = ula entry -> j = fresh_id env).
Proof.
  intros Hwf Hid Hreg. pose proof (wf_register_authenticated _ _ _ _ _ _ _ _ Hwf Hid Hreg) as Hwf'.
  unfold register_authenticated in Hreg.
  destruct (authenticate s bearer reply) as [[claims|e]|] eqn:Ha; [|done..].
  apply authenticate_Ok in Ha.
  destruct (authorize_fixed_requested_ula _ _) as [[]|] eqn:Hau; [|done]. apply authorize_Ok in Hau.
  destruct (decode_pubkey _) as [pubkey|] eqn:Hd; [|done].
  destruct (length pubkey =? 32)%nat eqn:Hlen; simpl in Hreg; [|done]. apply Nat.eqb_eq in Hlen.
  destruct (by_pubkey s !! pubkey) as [id|] eqn:Hpk.
  { by destruct (refresh_existing _ _ _ _ _ _ _) as [? [|]]. }
  injection Hreg as Hreg. apply register_new_Ok in Hreg; [|done..].
  destruct Hreg as (_ & Hp & Hk & Hn & Ht & _ & _ & Hg & Hj & Hb).
  exists claims. rewrite Hn, Hk. split_and!; try done.
  intros j e Hje Hu. destruct Hj as (gone & _ & Hro).
  apply (core_ula _ _ _ (inner_core _ Hwf') j (fresh_id env) e entry); [done|by rewrite Hro; apply lookup_insert_eq|done].
Qed.

(** A key is a peer: registering a known key never makes a second member. On success
    the entry keeps its id, key and queued commands, its tags are those of the
    request or token, and its address is kept unless a token moves it to another
    network, where it gets the next address of that network's block; no other
    entry changes. On failure the roster is as it was. *)
Theorem register_known_key env s req bearer reply observed s' r id pk :
  wf_inner s -> decode_pubkey (rr_wg_public_key req) = Ok pk -> by_pubkey s !! pk = Some id ->
  register_authenticated env s req bearer reply observed = Some (s', r) ->
  by_pubkey s' = by_pubkey s /\
  match r with
  | Err _ => roster s' = roster s /\ published s' = published s /\ broadcasts s' = broadcasts s
  | Ok (entry, outcome) =>
      outcome = Existed /\
      exists claims old, admitted s bearer reply claims /\ roster s !! id = Some old /\
        infra_authorised (rr_requested_ula req) claims /\
        roster s' = <[id := entry]> (roster s) /\ peer_id entry = id /\ wg_public_key entry = pk /\
        tags entry = ni_tags (stamp_identity req claims) /\
        pending_commands entry = pending_commands old /\ last_heartbeat entry = now env /\
        kept_or_rehomed s claims (stamp_identity req claims) old entry
  end.
Proof.
  intros Hwf Hd Hpk. unfold register_authenticated.
  destruct (authenticate s bearer reply) as [[claims|e]|] eqn:Ha; [|by intros [= <- <-]|done].
  apply authenticate_Ok in Ha.
  destruct (authorize_fixed_requested_ula _ _) as [[]|] eqn:Hau; [|by intros [= <- <-]].
  apply authorize_Ok in Hau. rewrite Hd, Hpk.
  destruct (length pk =? 32)%nat; simpl; [|by intros [= <- <-]].
  apply (core_key _ _ _ (inner_core _ Hwf)) in Hpk as (old & Ho & Hk).
  match goal with |- context [refresh_existing ?a ?b ?c ?d ?e ?f ?g] =>
    destruct (refresh_existing a b c d e f g) as [s1 r1] eqn:Hr end.
  apply (refresh_existing_effect _ _ _ _ _ _ _ _ _ old) in Hr as [Hb Hr]; [|done|done].
  destruct r1 as [entry|e]; intros [= <- <-]; [|done].
  destruct Hr as (? & ? & Hk' & ? & ? & ? & ?). split; [done|]. split; [done|].
  exists claims, old. rewrite Hk'. by split_and!.
Qed.

Lemma register_new_Err env s req claims pubkey resolved observed s' e :
  wf_inner s ->
  register_new env s req claims pubkey resolved observed = (s', Err e) ->
  roster s' = roster (evict_stale_ula_holder env s (rr_requested_ula req)) /\
  by_pubkey s' = by_pubkey (evict_stale_ula_holder env s (rr_requested_ula req)).
Proof.
  intros Hwf. unfold register_new. set (s1 := evict_stale_ula_holder env s (rr_requested_ula req)).
  set (identity := stamp_identity req claims).
  pose proof (resolve_ula_same s1 (ni_network identity) (rr_requested_ula req)) as [Hr Hb].
  destruct (resolve_ula s1 (ni_network identity) (rr_requested_ula req)) as [s2 [[i addr]|e']]; simpl in *;
    [|by intros [= <- _]].
  unfold apply_peer_joined; simpl. rewrite uuid_parse_to_string.
  destruct (parse_ipv6 (fmt_ipv6 addr)) as [addr'|]; [|by intros [= <- _]].
  destruct (held_by_other _ addr' (fresh_id env)); [by intros [= <- _]|]. by destruct observed.
Qed.

(** A refused registration admits nobody: no entry is added or changed, and an entry
    can disappear only when it was the silent holder of the requested address;
    without a token that the auth service vouches for nothing changes at all. *)
Theorem refused_join_admits_nobody env s req bearer reply observed s' e :
  wf_inner s ->
  register_authenticated env s req bearer reply observed = Some (s', Err e) ->
  roster s' ⊆ roster s /\ by_pubkey s' ⊆ by_pubkey s /\
  (forall h x, roster s !! h = Some x -> roster s' !! h = None -> evictable env s (rr_requested_ula req) h) /\
  ((forall claims, ~ admitted s bearer reply claims) -> s' = s).
Proof.
  intros Hwf. unfold register_authenticated.
  assert (roster s ⊆ roster s /\ by_pubkey s ⊆ by_pubkey s /\
    (forall h x, roster s !! h = Some x -> roster s !! h = None -> evictable env s (rr_requested_ula req) h) /\
    ((forall claims, ~ admitted s bearer reply claims) -> s = s)) as Hs.
  { split_and!; try done. intros h x H1 H2. congruence. }
  destruct (authenticate s bearer reply) as [[claims|e']|] eqn:Ha; [|by intros [= <- _]|done].
  apply authenticate_Ok in Ha.
  destruct (authorize_fixed_requested_ula _ _); [|by intros [= <- _]].
  destruct (decode_pubkey _) as [pubkey|]; [|by intros [= <- _]].
  destruct (length pubkey =? 32)%nat; simpl; [|by intros [= <- _]].
  destruct (by_pubkey s !! pubkey) as [id|] eqn:Hpk.
  - apply (core_key _ _ _ (inner_core _ Hwf)) in Hpk as (old & Ho & _).
    match goal with |- context [refresh_existing ?a ?b ?c ?d ?e ?f ?g] =>
      destruct (refresh_existing a b c d e f g) as [s1 r1] eqn:Hr end.
    apply (refresh_existing_effect _ _ _ _ _ _ _ _ _ old) in Hr as [Hb Hr]; [|done|done].
    destruct r1; [done|]. intros [= <- _]. destruct Hr as (-> & _). rewrite Hb.
    split_and!; try done; [|intros Hn; by destruct (Hn claims)]. intros h x H1 H2. congruence.
  - intros [= Hr]. apply register_new_Err in Hr as [-> ->]; [|done].
    pose proof (evict_shrinks env s (rr_requested_ula req)) as (H1 & H2 & _).
    split; [done|]. split; [done|]. split; [|intros Hn; by destruct (Hn claims)].
    intros h x Hh Hgone. destruct (evict_effect env s (rr_requested_ula req) Hwf) as [He|(h' & He & Hd & _)].
    + rewrite He in Hgone. congruence.
    + rewrite Hd in Hgone. apply lookup_delete_None in Hgone as [->|]; [done|congruence].
Qed.

(** What is answered is what is stored, under the key of the request; the other
    members are among those there were. *)
Lemma register_Ok_effect env s req bearer reply observed s' entry outcome :
  wf_inner s -> roster s !! fresh_id env = None ->
  register_authenticated env s req bearer reply observed = Some (s', Ok (entry, outcome)) ->
  roster s' !! peer_id entry = Some entry /\ decode_pubkey (rr_wg_public_key req) = Ok (wg_public_key entry)
  /\ (is_Some (roster s !! peer_id entry) \/ peer_id entry = fresh_id env)
  /\ forall j f, j <> peer_id entry -> roster s' !! j = Some f -> roster s !! j = Some f.
Proof.
  intros Hwf Hid. unfold register_authenticated.
  destruct (authenticate s bearer reply) as [[claims|e]|]; [|done..].
  destruct (authorize_fixed_requested_ula _ _) as [[]|]; [|done].
  destruct (decode_pubkey _) as [pubkey|]; [|done].
  destruct (length pubkey =? 32)%nat; simpl; [|done].
  destruct (by_pubkey s !! pubkey) as [id|] eqn:Hpk.
  - apply (core_key _ _ _ (inner_core _ Hwf)) in Hpk as (old & Ho & Hk).
    match goal with |- context [refresh_existing ?a ?b ?c ?d ?e ?f ?g] =>
      destruct (refresh_existing a b c d e f g) as [s1 [e1|]] eqn:Hr end; [|done].
    apply (refresh_existing_effect _ _ _ _ _ _ _ _ _ old) in Hr as [_ (Hr & Hp & Hk' & _)]; [|done|done].
    intros [= <- <- _]. rewrite Hr, Hp, Hk', Hk. split; [apply lookup_insert_eq|]. split; [done|]. split.
    { left. by exists old. }
    intros j f Hj. by rewrite lookup_insert_ne.
  - intros [= Hr]. apply register_new_Ok in Hr as (_ & Hp & -> & _ & _ & _ & _ & _ & (gone & _ & Hj) & _); [|done..].
    rewrite Hj, Hp. split; [apply lookup_insert_eq|]. split; [done|]. split; [by right|].
    intros j f Hne. rewrite lookup_insert_ne by done. destruct gone; [|done]. by intros [_ ?]%lookup_delete_Some.
Qed.

Lemma register_Ok_stored env s req bearer reply observed s' entry outcome :
  wf_inner s -> roster s !! fresh_id env = None ->
  register_authenticated env s req bearer reply observed = Some (s', Ok (entry, outcome)) ->
  roster s' !! peer_id entry = Some entry.
Proof. intros Hwf Hid Hr. by destruct (register_Ok_effect _ _ _ _ _ _ _ _ _ Hwf Hid Hr). Qed.

(** Granting a requested address outside the host range still moves the host
    allocator of the block that its third segment happens to name: one request
    with the last index in its fourth segment leaves that network, which need
    not be the requester's, without addresses. *)
Lemma app_address_exhausts_network s other net raw a :
  parse_ipv6 raw = Some a -> v6_is_unique_local a = true -> seg1 a <> HOST_ULA_SLOT ->
  seg2 a = network_slot net -> seg3 a = u16_max ->
  (forall id e, roster s !! id = Some e -> ula e <> a) ->
  exists s', resolve_ula s other (Some raw) = (s', Ok (u16_max, a)) /\
    snd (allocate (allocator s') net) = Err Exhausted.
Proof.
  intros Hp Hu H1 H2 H3 Hfree. unfold resolve_ula. rewrite Hp.
  unfold v6_is_unique_local in Hu. rewrite Hu. simpl.
  destruct (seg1 a =? HOST_ULA_SLOT) eqn:E; [lia|]. simpl.
  destruct (existsb _ _) eqn:Hex.
  { apply existsb_elem in Hex as (e & [id He]%entries_spec & Ha). apply bool_decide_eq_true in Ha.
    by apply Hfree in He. }
  eexists. split; [by rewrite H3|]. simpl. unfold allocate. apply allocate_in_slot_Err.
  rewrite counter_bump, H2, ?H3, decide_True by done. lia.
Qed.
End Joining.
