(* ===== verification/Restart.v ===== *)
(** * Restarting the coordinator

    The roster that was persisted, restored into a fresh coordinator
    ([Coordinator::restore], [apply_peer_joined]). *)

From S2P Require Import Prelude NetAddr AddrText Contract Types Allocator Policy HolePunch.
From S2P Require Import DirectFlags RelayRegistry RosterStore Reflexive Auth Coordinator Apply.
From S2P Require Import Registration Heartbeat CoordInv Membership.

Open Scope Z_scope.

Section Restart.
Context {EX : Externals} {EXL : ExternalLaws} {IT : Iteration} {ITL : IterationLaws}
  {RS : RosterSerde} {RSL : RosterSerdeLaws} {CH : Channels} {CS : ClaimsSerde}.

(** What is left of an entry after the trip through its event. *)
Definition restored (env : Env) (e : PeerEntry) : PeerEntry :=
  entry_of_joined env (peer_id e) (ula e) (to_joined_event e).

(** The part of an entry that survives: identity, address and profile. *)
Definition same_member (e f : PeerEntry) : Prop :=
  same_core f e /\ network f = network e /\ tags f = tags e /\ kind f = kind e /\ parent f = parent e /\
  app_uuid f = app_uuid e /\ display_name f = display_name e /\ joined_at_micros f = joined_at_micros e /\
  hosted_app_ulas f = hosted_app_ulas e /\ software_version f = software_version e /\
  mesh_version f = mesh_version e /\ relay_only f = relay_only e /\
  listen_endpoint f = nonempty (listen_endpoint e).

Lemma restored_same env e : peer_index e = seg3 (ula e) -> same_member e (restored env e).
Proof.
  intros Hi. unfold same_member, same_core, restored; simpl. split_and!; try done.
  destruct (listen_endpoint e) as [l|]; simpl; [|done]. by case_bool_decide.
Qed.

Lemma apply_joined_event env s e :
  wf_ipv6 (ula e) -> held_by_other s (ula e) (peer_id e) = false ->
  fst (apply_peer_joined env s (to_joined_event e))
  = s <| roster := <[peer_id e := restored env e]> (roster s) |>
      <| by_pubkey := <[wg_public_key e := peer_id e]> (by_pubkey s) |>
      <| allocator := bump_slot_at_least (allocator s) (seg2 (ula e)) (seg3 (ula e)) |>.
Proof.
  intros Hw Hh. unfold apply_peer_joined. simpl. rewrite uuid_parse_to_string, parse_fmt_ipv6 by done.
  by rewrite Hh.
Qed.

(** Entries that can be members together. *)
Definition compatible (l : list PeerEntry) : Prop :=
  NoDup (peer_id <$> l) /\ NoDup (wg_public_key <$> l) /\ NoDup (ula <$> l) /\
  forall e, e ∈ l -> wf_ipv6 (ula e) /\ peer_index e = seg3 (ula e) /\ length (wg_public_key e) = 32%nat.

Lemma restore_entries env l s :
  wf_inner s -> compatible l ->
  (forall e, e ∈ l -> roster s !! peer_id e = None /\ by_pubkey s !! wg_public_key e = None /\
     forall j f, roster s !! j = Some f -> ula f <> ula e) ->
  let s' := foldl (fun s event => fst (apply_peer_joined env s event)) s (to_joined_event <$> l) in
  wf_inner s' /\
  (forall id, id ∉ peer_id <$> l -> roster s' !! id = roster s !! id) /\
  (forall e, e ∈ l -> roster s' !! peer_id e = Some (restored env e)).
Proof.
  revert s. induction l as [|e l IH]; intros s Hwf Hc Hnew.
  { split; [done|]. split; [done|]. intros e He. by apply elem_of_nil in He. }
  destruct Hc as (Hn1 & Hn2 & Hn3 & Hok). rewrite fmap_cons in Hn1. rewrite fmap_cons in Hn2. rewrite fmap_cons in Hn3.
  apply NoDup_cons in Hn1 as [Hi1 Hn1], Hn2 as [Hi2 Hn2], Hn3 as [Hi3 Hn3].
  destruct (Hok e) as (Hw & Hidx & Hlen); [by left|].
  destruct (Hnew e) as (Hr & Hk & Hu); [by left|].
  assert (held_by_other s (ula e) (peer_id e) = false) as Hh.
  { apply held_by_other_false; [apply (inner_core _ Hwf)|]. intros j f Hj Hf. by apply Hu in Hj. }
  rewrite fmap_cons. cbn [foldl]. rewrite apply_joined_event by done.
  set (s1 := s <| roster := _ |> <| by_pubkey := _ |> <| allocator := _ |>).
  assert (wf_inner s1) as Hwf1.
  { pose proof (wf_apply_peer_joined env s (to_joined_event e) Hwf) as Hj.
    rewrite apply_joined_event in Hj by done. apply Hj; simpl; [|done|done].
    intros id. rewrite uuid_parse_to_string. by intros [= <-]. }
  destruct (IH s1 Hwf1) as (Hw' & Hother & Hin).
  - split_and!; try done. intros f Hf. apply Hok. by right.
  - intros f Hf. destruct (Hnew f) as (Hr' & Hk' & Hu'); [by right|]. subst s1; simpl.
    assert (peer_id f <> peer_id e) by (intros Hx; apply Hi1; rewrite <- Hx; by apply list_elem_of_fmap_2).
    assert (wg_public_key f <> wg_public_key e) by (intros Hx; apply Hi2; rewrite <- Hx; by apply list_elem_of_fmap_2).
    rewrite !lookup_insert_ne by done. split_and!; [done..|].
    intros j g. rewrite lookup_insert. case_decide; [|by apply Hu'].
    intros [= <-]. simpl. intros Hx. apply Hi3. rewrite Hx. by apply list_elem_of_fmap_2.
  - split; [done|]. split.
    + intros id Hid. rewrite fmap_cons in Hid. apply not_elem_of_cons in Hid as [Hne Hid].
      rewrite Hother by done. subst s1; simpl. by rewrite lookup_insert_ne.
    + intros f [->|Hf]%elem_of_cons; [|by apply Hin].
      rewrite Hother by done. subst s1; simpl. by apply lookup_insert_eq.
Qed.

Lemma iter_map_ids s : NoDup (fst <$> iter_map (roster s)).
Proof. rewrite iter_map_perm. apply NoDup_fst_map_to_list. Qed.

Lemma entries_compatible s : wf_inner s -> compatible (entries s).
Proof.
  intros Hwf. pose proof (inner_core _ Hwf) as Hc.
  assert (NoDup (entries s)) as Hnd.
  { apply NoDup_fmap_1 with (f := peer_id). unfold entries. rewrite <- list_fmap_compose.
    assert (peer_id ∘ snd <$> iter_map (roster s) = fst <$> iter_map (roster s)) as ->; [|apply iter_map_ids].
    apply list_fmap_ext. intros i [id e] Hi. simpl.
    apply list_elem_of_lookup_2 in Hi. rewrite iter_map_perm in Hi. apply elem_of_map_to_list in Hi.
    by apply (core_id _ _ _ Hc). }
  assert (forall {A} (f : PeerEntry -> A),
    (forall i j x y, roster s !! i = Some x -> roster s !! j = Some y -> f x = f y -> i = j) ->
    NoDup (f <$> entries s)) as Hf.
  { intros A f Hinj. apply NoDup_fmap_2_strong; [|done].
    intros x y [i Hx]%entries_spec [j Hy]%entries_spec Hxy.
    assert (i = j) as -> by by eapply Hinj. congruence. }
  split_and!.
  - apply Hf. intros i j x y Hx Hy. rewrite (core_id _ _ _ Hc _ _ Hx), (core_id _ _ _ Hc _ _ Hy). done.
  - apply Hf. intros i j x y Hx Hy Hk.
    assert (by_pubkey s !! wg_public_key x = Some i) by (apply (core_key _ _ _ Hc); by exists x).
    assert (by_pubkey s !! wg_public_key x = Some j) by (apply (core_key _ _ _ Hc); by exists y). congruence.
  - apply Hf. intros i j x y Hx Hy. by apply (core_ula _ _ _ Hc).
  - intros e [i He]%entries_spec. destruct (core_entry _ _ _ Hc _ _ He) as (? & ? & _ & ?). done.
Qed.

Lemma wf_inner_new timeout policy validator store :
  wf_inner (with_policy_validator_store timeout policy validator store).
Proof.
  assert (wf_core ∅ ∅ allocator_new) as Hc.
  { split; [done| |done|done|apply wf_allocator_new]. intros pk id. split; [done|by intros (? & [=] & _)]. }
  by split.
Qed.

(** The restored entry keeps its endpoint but not the mark that it was discovered
    from the peer's source address, so no later heartbeat can move it. *)
Lemma restored_endpoint_is_stuck env s id e l obs port ro :
  listen_endpoint e = Some l -> l <> EmptyString -> roster s !! id = Some (restored env e) ->
  listen_endpoint <$> roster (refresh_reflexive_endpoint s id obs port ro) !! id = Some (Some l).
Proof.
  intros Hl Hne Hr.
  assert (listen_endpoint (restored env e) = Some l) as He.
  { simpl. rewrite Hl. simpl. by rewrite bool_decide_false. }
  destruct (refresh_reflexive_effect s id obs port ro _ Hr) as (_ & _ & _ & e' & -> & _ & Hep & _).
  rewrite lookup_insert_eq. simpl. destruct Hep as [[-> _]|(_ & [|Hn] & _)]; [by rewrite He|done|].
  by rewrite Hn in He.
Qed.

(** C19: A restart brings the roster back: when the last membership change was saved, a
    fresh coordinator that restores the file satisfies the invariant, has the
    same members under the same keys, each with its identity, address, network,
    tags and profile, and a full heartbeat timeout ahead of it; and its allocator
    will hand out none of the restored addresses. *)
Theorem restart_restores_roster env env' s timeout policy validator f buf :
  wf_inner s -> roster_store s = FileRosterStore f -> save_io env = io_ok ->
  peers_to_json (to_joined_event <$> entries s) = Some buf ->
  let s' := restore env' (with_policy_validator_store timeout policy validator
                            (roster_store (persist_roster s (save_io env)))) true in
  wf_inner s' /\ by_pubkey s' = by_pubkey s /\
  (forall id, is_Some (roster s' !! id) <-> is_Some (roster s !! id)) /\
  (forall id e, roster s !! id = Some e -> exists e', roster s' !! id = Some e' /\ same_member e e' /\
     last_heartbeat e' = now env') /\
  (forall net i a al, allocate (allocator s') net = (al, Ok (i, a)) ->
     forall id e, roster s !! id = Some e -> ula e <> a).
Proof.
  intros Hwf Hf Hio Hj s'.
  pose proof (entries_compatible s Hwf) as Hc.
  pose proof (restore_entries env' (entries s)
    (with_policy_validator_store timeout policy validator (roster_store (persist_roster s (save_io env))))
    (wf_inner_new _ _ _ _) Hc) as Hr.
  assert (load (roster_store (persist_roster s (save_io env))) true = to_joined_event <$> entries s) as Hl.
  { rewrite Hio. simpl roster_store. rewrite Hf. by eapply save_ok_load. }
  assert (s' = foldl (fun s event => fst (apply_peer_joined env' s event))
    (with_policy_validator_store timeout policy validator (roster_store (persist_roster s (save_io env))))
    (to_joined_event <$> entries s)) as Hs' by (rewrite <- Hl; done).
  rewrite <- Hs' in Hr. clearbody s'.
  destruct Hr as (Hw & Hother & Hin).
  { intros e _. simpl. split_and!; [by apply lookup_empty..|]. intros j g Hg. by rewrite lookup_empty in Hg. }
  assert (forall id e, roster s !! id = Some e -> roster s' !! id = Some (restored env' e)) as Hin'.
  { intros id e He. rewrite <- (core_id _ _ _ (inner_core _ Hwf) _ _ He).
    apply Hin, entries_spec. by exists id. }
  assert (forall id e', roster s' !! id = Some e' -> exists e, roster s !! id = Some e /\ e' = restored env' e) as Hout.
  { intros id e' He'. destruct (decide (id ∈ peer_id <$> entries s)) as [Hid|Hid].
    - apply list_elem_of_fmap in Hid as (e & -> & [j Hj']%entries_spec).
      rewrite (core_id _ _ _ (inner_core _ Hwf) _ _ Hj') in *. exists e. split; [done|].
      rewrite (Hin' _ _ Hj') in He'. congruence.
    - rewrite Hother in He' by done. simpl in He'. by rewrite lookup_empty in He'. }
  split; [exact Hw|]. split.
  { apply map_eq. intros pk. apply option_eq. intros id.
    rewrite (core_key _ _ _ (inner_core _ Hw)), (core_key _ _ _ (inner_core _ Hwf)). split.
    - intros (e' & He' & Hk). apply Hout in He' as (e & He & ->). by exists e.
    - intros (e & He & Hk). exists (restored env' e). split; [by apply Hin'|done]. }
  split; [|split].
  - intros id. split; [intros [e' (e & He & _)%Hout]; by exists e|].
    intros [e He]. exists (restored env' e). by apply Hin'.
  - intros id e He. exists (restored env' e). split; [by apply Hin'|]. split; [|done].
    apply restored_same. by eapply (core_entry _ _ _ (inner_core _ Hwf)).
  - intros net i a al Hal id e He Hu.
    pose proof (allocate_facts s' net i a (core_alloc _ _ _ (inner_core _ Hw))) as Hfa.
    rewrite Hal in Hfa. destruct (Hfa eq_refl) as (Hwa & Hi & _ & Ha & Hlt).
    destruct (core_entry _ _ _ (inner_core _ Hw) _ _ (Hin' _ _ He)) as (_ & Hidx & Hcov & _).
    change (ula (restored env' e)) with (ula e) in *. rewrite Hidx, Hu, <- Hi in Hcov.
    assert (seg2 a = network_slot net) as Hs by by rewrite Ha. rewrite Hs in Hcov. lia.
Qed.
End Restart.
