(* ===== verification/RelayRoute.v ===== *)
(** * The relay endpoint ([http/relay.rs])

    Routing of one uplink frame under the access policy, and the life of a relay
    socket: admission, registration, uplink, unregistration. *)

From S2P Require Import Prelude NetAddr Types Policy RelayFrame RelayRegistry RosterStore.
From S2P Require Import Coordinator.

Open Scope Z_scope.

Definition RELAY_HI_CAP : Z := 1024.
Definition RELAY_LO_CAP : Z := 256.
Definition lane_channel_cap (lane : Lane) : Z :=
  match lane with Hi => RELAY_HI_CAP | Lo => RELAY_LO_CAP end.

Definition LANE_HI : string := "hi".
Definition parse_lane (lane : option string) : Lane :=
  if bool_decide (lane = Some LANE_HI) then Hi else Lo.

(** Unpadded URL-safe base64. *)
Class UrlCodec := { b64url_decode : string -> option (list Z) }.

(** What arrives on the socket. *)
Inductive WsMessage := WsBinary (buf : list Z) | WsClose | WsPing | WsPong | WsText.

Inductive RelayAdmission :=
| BadPubkey (* 400 *)
| UnknownPubkey (* 403 *)
| Upgrade (my_pubkey : list Z) (lane : Lane). (* 101 *)

Section Relay.
Context {EX : Externals} {IT : Iteration} {RS : RosterSerde} {CH : Channels} {UC : UrlCodec}.

(** [route_uplink]: the state after one frame from [my_pubkey], and the downlink
    frame when it was forwarded. *)
Definition route_uplink (env : Env) (s : Inner) (my_pubkey buf : list Z) : Inner * option (list Z) :=
  match decode_relay_frame buf with
  | None => (s, None)
  | Some (dst, payload) =>
      if negb (can_relay s my_pubkey dst) then (s, None)
      else
        let hi_prio := match head payload with Some t => (1 <=? t) && (t <=? 3) | None => false end in
        let is_init := bool_decide (head payload = Some 1) in
        let downlink := encode_relay_frame my_pubkey payload in
        let '(r, forwarded) := forward (relay s) (now env) dst downlink hi_prio in
        let s := s <| relay := r |> in
        if forwarded then
          let n := Z.of_nat (length downlink) in
          let s := note_relay_forwarded s n in
          let s := note_relay_pair_forwarded s my_pubkey dst n hi_prio in
          (s, Some downlink)
        else if is_init && proactive_on s then
          match peer_for_pubkey s dst, peer_for_pubkey s my_pubkey with
          | Some (recipient, _), Some (_, source) =>
              let '(r, granted) := take_wake_slot (relay s) (now env) dst in
              let s := s <| relay := r |> in
              if granted then
                let s := broadcast s (Wake {| recipient_peer_id := uuid_to_string recipient;
                                              source_ula := fmt_ipv6 source;
                                              rw_timestamp_micros := wall env |}) in
                (note_relay_wake_emitted s, None)
              else (s, None)
          | _, _ => (s, None)
          end
        else (s, None)
  end.

Definition relay_ws_handler (s : Inner) (pubkey : string) (lane : option string) : RelayAdmission :=
  match b64url_decode pubkey with
  | None => BadPubkey
  | Some my_pubkey =>
      if negb (length my_pubkey =? 32)%nat then BadPubkey
      else if negb (is_registered_pubkey s my_pubkey) then UnknownPubkey
      else Upgrade my_pubkey (parse_lane lane)
  end.

(** The read loop of [relay_conn]: every binary message is routed; a close frame
    or the end of the stream ends it. *)
Fixpoint relay_read_loop (env : Env) (s : Inner) (my_pubkey : list Z) (msgs : list WsMessage) : Inner :=
  match msgs with
  | [] => s
  | WsBinary buf :: msgs => relay_read_loop env (fst (route_uplink env s my_pubkey buf)) my_pubkey msgs
  | WsClose :: _ => s
  | _ :: msgs => relay_read_loop env s my_pubkey msgs
  end.

(** The send task of [relay_conn]: frames of the connection's channel and a ping at
    every tick go out until a send fails or the channel is closed. *)
Inductive SendEvent := FrameQueued (frame : list Z) (sent : bool) | PingDue (sent : bool) | ChannelClosed.
Inductive WsOut := OutBinary (frame : list Z) | OutPing.
Fixpoint send_task (events : list SendEvent) : list WsOut :=
  match events with
  | [] | ChannelClosed :: _ => []
  | FrameQueued frame sent :: events => if sent then OutBinary frame :: send_task events else []
  | PingDue sent :: events => if sent then OutPing :: send_task events else []
  end.

(** [relay_conn] with no other task in between: the channel [tx] is created with
    the capacity of the lane. *)
Definition relay_conn (env : Env) (s : Inner) (my_pubkey : list Z) (lane : Lane) (tx : Sender)
    (msgs : list WsMessage) : Inner :=
  let '(r, id) := register (relay s) (now env) my_pubkey lane tx in
  let s := s <| relay := r |> in
  let s := relay_read_loop env s my_pubkey msgs in
  s <| relay := unregister (relay s) my_pubkey lane id |>.

(** ** Lemmas *)

Definition queued_frames (events : list SendEvent) : list (list Z) :=
  omap (fun e => match e with FrameQueued frame _ => Some frame | _ => None end) events.
Definition frames_out (out : list WsOut) : list (list Z) :=
  omap (fun o => match o with OutBinary frame => Some frame | OutPing => None end) out.

(** A socket is sent the frames of its channel in their order, none twice, none left
    out before the first failure. *)
Lemma send_task_in_order events : frames_out (send_task events) `prefix_of` queued_frames events.
Proof.
  induction events as [|[frame []|[]|] events IH]; cbn [send_task]; try apply prefix_nil.
  - by apply prefix_cons.
  - done.
Qed.

Lemma can_relay_spec s src dst :
  can_relay s src dst = true <->
  exists i j a b, by_pubkey s !! src = Some i /\ by_pubkey s !! dst = Some j /\
    roster s !! i = Some a /\ roster s !! j = Some b /\ viewer_can_see s (tags a) (tags b) = true.
Proof.
  unfold can_relay, peer_tags. split.
  - destruct (by_pubkey s !! src) as [i|] eqn:Hi; [|done].
    destruct (by_pubkey s !! dst) as [j|] eqn:Hj; [|done].
    destruct (roster s !! i) as [a|] eqn:Ha; [|done]. simpl.
    destruct (roster s !! j) as [b|] eqn:Hb; [|done]. simpl. eauto 10.
  - intros (i & j & a & b & -> & -> & -> & -> & H). done.
Qed.

(** Routing changes the relay registry, the relay counters and the broadcast
    log, and nothing else. *)
Lemma route_uplink_frame env s pk buf :
  let s' := fst (route_uplink env s pk buf) in
  roster s' = roster s /\ by_pubkey s' = by_pubkey s /\ allocator s' = allocator s /\
  punch_tracker s' = punch_tracker s /\ published s' = published s /\
  direct_pair_flags s' = direct_pair_flags s /\ policy_store s' = policy_store s /\
  roster_store s' = roster_store s.
Proof.
  unfold route_uplink. destruct (decode_relay_frame buf) as [[dst payload]|]; [|done].
  destruct (negb _); [done|].
  destruct (forward _ _ _ _ _) as [r []]; simpl.
  - unfold note_relay_pair_forwarded. simpl.
    destruct (by_pubkey s !! pk); [|done]. by destruct (by_pubkey s !! dst).
  - destruct (_ && _); [|done]. unfold peer_for_pubkey. simpl.
    destruct (_ ≫= _) as [[]|]; [|done]. destruct (_ ≫= _) as [[]|]; [|done].
    by destruct (take_wake_slot _ _ _) as [r' []].
Qed.
End Relay.

(** ** Properties *)

Section RelayProperties.
Context {EX : Externals} {IT : Iteration} {RS : RosterSerde} {CH : Channels} {UC : UrlCodec}.

(** C5: The relay enforces the policy and cannot be used to forge a source: if an uplink
    frame has any effect at all, it decodes to a destination key and a payload,
    sender and destination are registered and the current policy lets their tags
    see each other; what is handed to a socket, spooled or returned is the
    payload prefixed with the sender's own key, and it goes to a connection of
    that destination or to its spool. *)
Theorem route_uplink_enforces_policy env s my_pubkey buf s' out :
  route_uplink env s my_pubkey buf = (s', out) ->
  (s' = s /\ out = None) \/
  exists dst payload i j a b,
    buf = encode_relay_frame dst payload /\ length dst = PUBKEY_LEN /\
    by_pubkey s !! my_pubkey = Some i /\ by_pubkey s !! dst = Some j /\
    roster s !! i = Some a /\ roster s !! j = Some b /\
    can_see (current (policy_store s)) (tags a) (tags b) = true /\
    (forall frame, out = Some frame ->
       frame = my_pubkey ++ payload /\
       exists c t prio, conns (relay s) !! dst = Some c /\ pick c prio = Some t /\
         sent (relay s') = sent (relay s) ++ [(t, frame)] /\ spool (relay s') = spool (relay s)) /\
    (out = None ->
       sent (relay s') = sent (relay s) /\
       forall pk q, spool (relay s') !! pk = Some q -> spool (relay s) !! pk <> Some q ->
         pk = dst /\ exists q0 prio, q = q0 ++ [mkSpooledFrame (now env) prio (my_pubkey ++ payload)]).
Proof.
  unfold route_uplink. destruct (decode_relay_frame buf) as [[dst payload]|] eqn:Hd;
    [|intros [= <- <-]; by left].
  destruct (can_relay s my_pubkey dst) eqn:Hc; simpl; [|intros [= <- <-]; by left].
  apply decode_relay_frame_Some in Hd as (Hlen & _ & ->).
  apply can_relay_spec in Hc as (i & j & a & b & Hi & Hj & Ha & Hb & Hv).
  set (prio := match head payload with Some t => _ | None => false end).
  intros Hr. right. exists dst, payload, i, j, a, b. do 7 (split; [done|]).
  pose proof (forward_accounts (relay s) (now env) dst (encode_relay_frame my_pubkey payload) prio) as Hf.
  pose proof (forward_new_spool (relay s) (now env) dst (my_pubkey ++ payload) prio) as Hsp.
  unfold encode_relay_frame in *.
  destruct (forward (relay s) (now env) dst (my_pubkey ++ payload) prio) as [r [|]]; simpl in *.
  - destruct Hf as (Hok & _ & _). destruct (Hok eq_refl) as (c & t & H1 & H2 & _ & H4 & H5 & _).
    injection Hr as <- <-. split; [|done]. intros frame [= <-]. split; [done|].
    exists c, t, prio. split_and!; [done|done| |];
      unfold note_relay_pair_forwarded; simpl; by rewrite Hi, Hj.
  - destruct Hf as (_ & Hno & _). destruct (Hno eq_refl) as [Hsent _].
    assert (out = None /\ sent (relay s') = sent r /\ spool (relay s') = spool r) as (-> & Hs1 & Hs2).
    { revert Hr. destruct (_ && _); [|by intros [= <- <-]].
      destruct (peer_for_pubkey _ dst) as [[]|]; [|by intros [= <- <-]].
      destruct (peer_for_pubkey _ my_pubkey) as [[]|]; [|by intros [= <- <-]].
      unfold take_wake_slot.
      destruct (wake_cooldown r !! dst); [destruct (WAKE_COOLDOWN <=? _)|]; by intros [= <- <-]. }
    split; [done|]. intros _. rewrite Hs1, Hs2. split; [done|]. exact Hsp.
Qed.

(** A wake directive is broadcast only for a handshake initiation that could not be
    delivered, with proactive mode on; it is addressed to the destination's peer
    id, names the sender's own overlay address, and no frame is broadcast
    otherwise. *)
Theorem route_uplink_wakes_only_initiations env s my_pubkey buf :
  let s' := fst (route_uplink env s my_pubkey buf) in
  broadcasts s' = broadcasts s \/
  exists dst payload recipient source a b,
    buf = encode_relay_frame dst (1 :: payload) /\ proactive s = true /\
    can_relay s my_pubkey dst = true /\ snd (route_uplink env s my_pubkey buf) = None /\
    by_pubkey s !! dst = Some recipient /\ roster s !! recipient = Some a /\
    by_pubkey s !! my_pubkey = Some source /\ roster s !! source = Some b /\
    broadcasts s' = broadcasts s ++ [Wake (mkRelayWake (uuid_to_string recipient) (fmt_ipv6 (ula b)) (wall env))].
Proof.
  unfold route_uplink. destruct (decode_relay_frame buf) as [[dst payload]|] eqn:Hd; [|by left].
  destruct (can_relay s my_pubkey dst) eqn:Hc; simpl; [|by left].
  apply decode_relay_frame_Some in Hd as (Hlen & _ & ->).
  destruct (forward _ _ _ _ _) as [r [|]]; simpl.
  - left. unfold note_relay_pair_forwarded. simpl.
    destruct (by_pubkey s !! my_pubkey); [|done]. by destruct (by_pubkey s !! dst).
  - case_bool_decide as Hh; simpl; [|by left].
    unfold proactive_on; simpl. destruct (proactive s) eqn:Hp; simpl; [|by left].
    unfold peer_for_pubkey; simpl.
    destruct (by_pubkey s !! dst) as [recipient|] eqn:Hj; simpl; [|by left].
    destruct (roster s !! recipient) as [a|] eqn:Ha; simpl; [|by left].
    destruct (by_pubkey s !! my_pubkey) as [source|] eqn:Hi; simpl; [|by left].
    destruct (roster s !! source) as [b|] eqn:Hb; simpl; [|by left].
    destruct (take_wake_slot r (now env) dst) as [r' [|]]; simpl; [|by left].
    right. destruct payload as [|t payload]; [done|]. injection Hh as ->.
    exists dst, payload, recipient, source, a, b. by split_and!.
Qed.
End RelayProperties.
