(* ===== verification/Topology.v ===== *)
(** * Topology and metrics ([Coordinator::topology], [render_metrics])

    The machine graph that the admin API serves, folded from the paths that the
    peers report, and the text of the metrics endpoint. *)

From S2P Require Import Prelude NetAddr Types HolePunch RosterStore RelayRegistry Coordinator.

Open Scope Z_scope.

Definition RUNNER_ULA_HEXTET : Z := 0x1f02.

Definition is_machine (e : PeerEntry) : bool :=
  let runner_ula := seg1 (ula e) =? RUNNER_ULA_HEXTET in
  let runner_tag := existsb (fun t => bool_decide (t = "runner")) (tags e) in
  let runner_kind := bool_decide (kind e = "runner") in
  negb (runner_ula || runner_tag || runner_kind).

(** [a < b] on strings: lexicographic on bytes. *)
Definition str_lt (a b : string) : bool := String.ltb a b.

(** The freshest handshake seen so far: the [and_modify] of [topology]. *)
Definition merge_edge (acc edge : PathEdge) : PathEdge :=
  let fresher :=
    match last_handshake_age_ms acc, last_handshake_age_ms edge with
    | None, Some _ => true
    | Some acc_age, Some new_age => new_age <? acc_age
    | _, _ => false
    end in
  {| direct := direct acc || direct edge;
     last_rx_age_ms := Z.min (last_rx_age_ms acc) (last_rx_age_ms edge);
     last_handshake_direct := if fresher then last_handshake_direct edge else last_handshake_direct acc;
     last_handshake_age_ms := if fresher then last_handshake_age_ms edge else last_handshake_age_ms acc;
     handshake_rx_total := u64_saturating_add (handshake_rx_total acc) (handshake_rx_total edge) |}.

Section Topology.
Context {EX : Externals} {IT : Iteration} {RS : RosterSerde} {CH : Channels}.

Definition edge_key (a b : string) : string * string := if str_lt a b then (a, b) else (b, a).

(** One edge of a reporter, folded into the pairs. *)
Definition add_edge (machine_ids : list Uuid) (reporter : PeerEntry)
    (pairs : gmap (string * string) PathEdge) (te : Uuid * PathEdge) : gmap (string * string) PathEdge :=
  let '(target, edge) := te in
  if negb (bool_decide (target ∈ machine_ids)) then pairs
  else
    let key := edge_key (uuid_to_string (peer_id reporter)) (uuid_to_string target) in
    match pairs !! key with
    | Some acc => <[key := merge_edge acc edge]> pairs
    | None => <[key := edge]> pairs
    end.

Definition topology_pairs (machines : list PeerEntry) : gmap (string * string) PathEdge :=
  foldl (fun pairs reporter =>
           foldl (add_edge (peer_id <$> machines) reporter) pairs (iter_map (paths reporter)))
    ∅ machines.

(** Stable insertion by the (from, to) pair. *)
Definition edge_le (x y : TopologyEdge) : bool :=
  str_lt (te_from x) (te_from y) ||
  (bool_decide (te_from x = te_from y) && negb (str_lt (te_to y) (te_to x))).
Fixpoint insert_edge (x : TopologyEdge) (l : list TopologyEdge) : list TopologyEdge :=
  match l with
  | [] => [x]
  | y :: l' => if edge_le x y then x :: l else y :: insert_edge x l'
  end.

Definition topology (s : Inner) : TopologyResponse :=
  let entries := sort_by_key peer_index (List.filter is_machine (entries s)) in
  let machines :=
    (fun e =>
       {| tm_peer_id := uuid_to_string (peer_id e);
          tm_name := display_name e;
          tm_ula := fmt_ipv6 (ula e);
          tm_tags := tags e;
          tm_relay_only := relay_only e;
          tm_software_version := software_version e;
          tm_mesh_version := mesh_version e;
          tm_connectivity := fst (self_connectivity_aged s (peer_id e)) |}) <$> entries in
  let edges :=
    (fun '((from, to), e) =>
       {| te_from := from; te_to := to; te_direct := direct e; te_age_ms := last_rx_age_ms e;
          te_last_handshake_direct := last_handshake_direct e;
          te_last_handshake_age_ms := last_handshake_age_ms e;
          te_handshake_rx_total := handshake_rx_total e |}) <$> map_to_list (topology_pairs entries) in
  {| tr_machines := machines; tr_edges := foldr insert_edge [] edges |}.

(** ** Metrics *)

Definition NL : string := String (Ascii.ascii_of_nat 10) EmptyString.
Definition BACKSLASH : Ascii.ascii := Ascii.ascii_of_nat 92.
Definition DQUOTE : string := String (Ascii.ascii_of_nat 34) EmptyString.

(** Escaping acts on three ASCII characters, so it acts byte by byte. *)
Fixpoint escape_label (raw : string) : string :=
  match raw with
  | EmptyString => EmptyString
  | String c r =>
      let rest := escape_label r in
      if bool_decide (c = BACKSLASH) then String BACKSLASH (String BACKSLASH rest)
      else if bool_decide (c = Ascii.ascii_of_nat 34) then
        String BACKSLASH (String (Ascii.ascii_of_nat 34) rest)
      else if bool_decide (c = Ascii.ascii_of_nat 10) then
        String BACKSLASH (String (Ascii.ascii_of_nat 110) rest)
      else String c rest
  end.

(** The rows of the per-pair counters in the order of their keys. *)
Definition pair_le (p q : Uuid * Uuid) : bool :=
  ((p.1 <? q.1)%N) || ((p.1 =? q.1)%N && (p.2 <=? q.2)%N).
Fixpoint insert_row (x : (Uuid * Uuid) * PairRelayStat) (l : list ((Uuid * Uuid) * PairRelayStat)) :=
  match l with
  | [] => [x]
  | y :: l' => if pair_le x.1 y.1 then x :: l else y :: insert_row x l'
  end.

Definition name_of (s : Inner) (id : Uuid) : string :=
  match roster s !! id with Some e => escape_label (display_name e) | None => EmptyString end.

Definition metric_row (s : Inner) (name : string) (p : Uuid * Uuid) (value : Z) : string :=
  name +:+ "{src_id=" +:+ DQUOTE +:+ uuid_to_string p.1 +:+ DQUOTE
  +:+ ",dst_id=" +:+ DQUOTE +:+ uuid_to_string p.2 +:+ DQUOTE
  +:+ ",src=" +:+ DQUOTE +:+ name_of s p.1 +:+ DQUOTE
  +:+ ",dst=" +:+ DQUOTE +:+ name_of s p.2 +:+ DQUOTE +:+ "} " +:+ fmt_u value +:+ NL.

Definition metric_header (name help : string) : string :=
  "# HELP " +:+ name +:+ " " +:+ help +:+ NL +:+ "# TYPE " +:+ name +:+ " counter" +:+ NL.

Definition string_concat (l : list string) : string := foldr String.append EmptyString l.

Definition render_metrics (s : Inner) : string :=
  let out :=
    metric_header "relay_forwarded_bytes_total" "Bytes forwarded over the relay floor."
    +:+ "relay_forwarded_bytes_total " +:+ fmt_u (relay_forwarded_bytes s) +:+ NL
    +:+ metric_header "holepunch_emitted_total" "HolePunchInitiate directives emitted."
    +:+ "holepunch_emitted_total " +:+ fmt_u (holepunch_emitted s) +:+ NL
    +:+ metric_header "relay_wake_emitted_total" "RelayWake rendezvous nudges emitted."
    +:+ "relay_wake_emitted_total " +:+ fmt_u (relay_wake_emitted s) +:+ NL in
  if bool_decide (relay_pair_stats s = ∅) then out
  else
    let rows := foldr insert_row [] (map_to_list (relay_pair_stats s)) in
    out
    +:+ metric_header "relay_pair_bytes_total" "Relay-forwarded bytes per directed peer pair."
    +:+ string_concat ((fun r => metric_row s "relay_pair_bytes_total" r.1 (bytes r.2)) <$> rows)
    +:+ metric_header "relay_pair_handshake_frames_total"
          "Relay-forwarded WG handshake-class frames per directed peer pair."
    +:+ string_concat ((fun r => metric_row s "relay_pair_handshake_frames_total" r.1 (handshake_frames r.2)) <$> rows).
End Topology.

(** ** Lemmas *)

Section TopologyLemmas.
Context {EX : Externals} {IT : Iteration} {RS : RosterSerde} {CH : Channels}.

(** Everything that the machines report about machines, in order, by pair. *)
Definition reports_of (ids : list Uuid) (r : PeerEntry) : list ((string * string) * PathEdge) :=
  omap (fun '(t, e) => if bool_decide (t ∈ ids)
          then Some (edge_key (uuid_to_string (peer_id r)) (uuid_to_string t), e) else None)
    (iter_map (paths r)).
Definition reports (ms : list PeerEntry) : list ((string * string) * PathEdge) :=
  ms ≫= reports_of (peer_id <$> ms).

Definition between (k : string * string) (l : list ((string * string) * PathEdge)) : list PathEdge :=
  omap (fun '(k', e) => if bool_decide (k' = k) then Some e else None) l.

Definition merged (l : list PathEdge) : option PathEdge :=
  match l with [] => None | e :: l => Some (foldl merge_edge e l) end.

Definition add_report (pairs : gmap (string * string) PathEdge) (ke : (string * string) * PathEdge)
    : gmap (string * string) PathEdge :=
  match pairs !! ke.1 with
  | Some acc => <[ke.1 := merge_edge acc ke.2]> pairs
  | None => <[ke.1 := ke.2]> pairs
  end.

Lemma foldl_add_edge ids r pairs l :
  foldl (add_edge ids r) pairs l
  = foldl add_report pairs
      (omap (fun '(t, e) => if bool_decide (t ∈ ids)
          then Some (edge_key (uuid_to_string (peer_id r)) (uuid_to_string t), e) else None) l).
Proof.
  revert pairs. induction l as [|[t e] l IH]; intros pairs; simpl; [done|].
  rewrite IH. by case_bool_decide.
Qed.

Lemma topology_pairs_eq ms : topology_pairs ms = foldl add_report ∅ (reports ms).
Proof.
  unfold topology_pairs, reports. generalize (peer_id <$> ms). intros ids.
  generalize (∅ : gmap (string * string) PathEdge).
  induction ms as [|r ms IH]; intros m; simpl; [done|].
  by rewrite foldl_add_edge, foldl_app, IH.
Qed.

Lemma merged_snoc l e :
  merged (l ++ [e]) = Some (match merged l with Some acc => merge_edge acc e | None => e end).
Proof. destruct l as [|x l]; [done|]. simpl. by rewrite foldl_app. Qed.

Lemma between_app k l1 l2 : between k (l1 ++ l2) = between k l1 ++ between k l2.
Proof. unfold between. apply omap_app. Qed.

Lemma foldl_add_report_lookup l k :
  foldl add_report ∅ l !! k = merged (between k l).
Proof.
  induction l as [|[k' e] l IH] using rev_ind; [done|].
  rewrite foldl_app, between_app. cbn [foldl].
  set (m := foldl add_report ∅ l) in *. unfold add_report; simpl.
  destruct (m !! k') as [acc|] eqn:Hm; rewrite lookup_insert; case_decide as Hk; subst;
    rewrite ?bool_decide_true, ?bool_decide_false by done; rewrite ?app_nil_r; try done;
    by rewrite merged_snoc, <- IH, Hm.
Qed.

Lemma merge_fold_direct e l : direct (foldl merge_edge e l) = existsb direct (e :: l).
Proof.
  revert e. induction l as [|x l IH]; intros e; simpl; [by rewrite orb_false_r|].
  rewrite IH. simpl. by rewrite orb_assoc.
Qed.

Lemma merge_fold_age e l :
  last_rx_age_ms (foldl merge_edge e l) = foldl Z.min (last_rx_age_ms e) (last_rx_age_ms <$> l).
Proof. revert e. induction l as [|x l IH]; intros e; simpl; [done|]. by rewrite IH. Qed.

Lemma insert_edge_perm x l : insert_edge x l ≡ₚ x :: l.
Proof.
  induction l as [|y l IH]; simpl; [done|]. case_match; [done|].
  rewrite IH. apply Permutation_swap.
Qed.
Lemma sort_edges_perm l : foldr insert_edge [] l ≡ₚ l.
Proof. induction l as [|x l IH]; simpl; [done|]. by rewrite insert_edge_perm, IH. Qed.

Lemma elem_of_reports ms k e :
  (k, e) ∈ reports ms <->
  exists r t, r ∈ ms /\ t ∈ peer_id <$> ms /\ (t, e) ∈ iter_map (paths r) /\
    k = edge_key (uuid_to_string (peer_id r)) (uuid_to_string t).
Proof.
  unfold reports. rewrite list_elem_of_bind. split.
  - intros (r & Hin & Hr). unfold reports_of in Hin. apply list_elem_of_omap in Hin as ([t e'] & Ht & Hk).
    case_bool_decide; [|done]. simplify_eq. eauto 10.
  - intros (r & t & Hr & Ht & He & ->). exists r. split; [|done].
    apply list_elem_of_omap. exists (t, e). split; [done|]. by rewrite bool_decide_true.
Qed.

(** The machines that [topology] considers. *)
Definition topology_machines (s : Inner) : list PeerEntry :=
  sort_by_key peer_index (List.filter is_machine (entries s)).

Lemma topology_machine_spec s e :
  e ∈ topology_machines s <-> e ∈ entries s /\ is_machine e = true.
Proof.
  unfold topology_machines. rewrite sort_by_key_perm.
  rewrite !list_elem_of_In, filter_In. done.
Qed.

Lemma elem_of_topology_edges s te :
  te ∈ tr_edges (topology s) <->
  exists es, between (te_from te, te_to te) (reports (topology_machines s)) = es /\ es <> [] /\
    exists m, merged es = Some m /\
      te_direct te = direct m /\ te_age_ms te = last_rx_age_ms m /\
      te_last_handshake_direct te = last_handshake_direct m /\
      te_last_handshake_age_ms te = last_handshake_age_ms m /\
      te_handshake_rx_total te = handshake_rx_total m.
Proof.
  unfold topology; simpl. rewrite sort_edges_perm, list_elem_of_fmap.
  fold (topology_machines s). split.
  - intros ([[from to] m] & -> & Hin). apply elem_of_map_to_list in Hin.
    rewrite topology_pairs_eq, foldl_add_report_lookup in Hin. simpl.
    eexists. split; [done|]. split; [by intros He; rewrite He in Hin|]. by exists m.
  - intros (es & Hes & _ & m & Hm & H1 & H2 & H3 & H4 & H5).
    exists ((te_from te, te_to te), m). split.
    + destruct te; simpl in *. congruence.
    + apply elem_of_map_to_list. rewrite topology_pairs_eq, foldl_add_report_lookup. by rewrite Hes.
Qed.
End TopologyLemmas.

(** ** Properties *)

(** The topology is sound and complete for what machines report about machines: a
    pair is an edge exactly if some machine's current paths name another machine
    of the pair; the edge is direct exactly if one of those reports is direct,
    its age is the least reported one, and no runner is a machine or an end of an
    edge. *)
Theorem topology_faithful {EX : Externals} {EXL : ExternalLaws} {IT : Iteration} {RS : RosterSerde}
    {CH : Channels} s te :
  let ms := topology_machines s in
  let reported r t e :=
    r ∈ ms /\ (exists m, m ∈ ms /\ peer_id m = t) /\ (t, e) ∈ iter_map (paths r) /\
    edge_key (uuid_to_string (peer_id r)) (uuid_to_string t) = (te_from te, te_to te) in
  (te ∈ tr_edges (topology s) ->
     (exists r t e, reported r t e) /\
     (te_direct te = true <-> exists r t e, reported r t e /\ direct e = true) /\
     (exists r t e, reported r t e /\ te_age_ms te = last_rx_age_ms e) /\
     (forall r t e, reported r t e -> te_age_ms te <= last_rx_age_ms e)) /\
  (forall r t e, reported r t e ->
     exists te', te' ∈ tr_edges (topology s) /\ te_from te' = te_from te /\ te_to te' = te_to te) /\
  (forall m, m ∈ ms -> is_machine m = true) /\
  tm_peer_id <$> tr_machines (topology s) = uuid_to_string ∘ peer_id <$> ms.
Proof.
  intros ms reported.
  assert (forall e, e ∈ between (te_from te, te_to te) (reports ms) <-> exists r t, reported r t e) as Hb.
  { intros e. unfold between. rewrite list_elem_of_omap. split.
    - intros ([k e'] & Hin & Hk). case_bool_decide; [|done]. simplify_eq.
      apply elem_of_reports in Hin as (r & t & Hr & Ht & He & Hk).
      apply list_elem_of_fmap in Ht as (m & -> & Hm). exists r, (peer_id m).
      split_and!; [done|by exists m|done|done].
    - intros (r & t & Hr & (m & Hm & Ht) & He & Hk). exists ((te_from te, te_to te), e).
      split; [|by rewrite bool_decide_true]. apply elem_of_reports. exists r, t.
      split_and!; [done| |done|done]. apply list_elem_of_fmap. by exists m. }
  split_and!.
  - intros Hin. apply elem_of_topology_edges in Hin as (es & Hes & Hne & m & Hm & H1 & H2 & _).
    fold ms in Hes. rewrite Hes in Hb. destruct es as [|e es]; [done|]. injection Hm as <-.
    rewrite merge_fold_direct in H1. rewrite merge_fold_age in H2. split_and!.
    + destruct (proj1 (Hb e)) as (r & t & Hr); [by left|]. by exists r, t, e.
    + rewrite H1, existsb_elem. split.
      * intros (x & Hx & Hd). apply Hb in Hx as (r & t & Hr). by exists r, t, x.
      * intros (r & t & x & Hr & Hd). exists x. split; [|done]. apply Hb. by exists r, t.
    + pose proof (foldl_min_in (last_rx_age_ms e) (last_rx_age_ms <$> es)) as Hx.
      rewrite <- H2, <- fmap_cons in Hx. apply list_elem_of_fmap in Hx as (x & Hd & Hx).
      apply Hb in Hx as (r & t & Hr). by exists r, t, x.
    + intros r t x Hr. assert (x ∈ e :: es) as Hx by (apply Hb; by exists r, t).
      rewrite H2. apply foldl_min_le. rewrite <- fmap_cons. by apply list_elem_of_fmap_2.
  - intros r t e Hr.
    assert (e ∈ between (te_from te, te_to te) (reports ms)) as He by (apply Hb; by exists r, t).
    destruct (between (te_from te, te_to te) (reports ms)) as [|x es] eqn:Hes; [by apply elem_of_nil in He|].
    set (m := foldl merge_edge x es).
    exists (mkTopologyEdge (te_from te) (te_to te) (direct m) (last_rx_age_ms m)
      (last_handshake_direct m) (last_handshake_age_ms m) (handshake_rx_total m)).
    split; [|done]. apply elem_of_topology_edges. simpl. fold ms.
    exists (x :: es). split; [done|]. split; [done|]. by exists m.
  - intros m Hm. by apply topology_machine_spec in Hm as [_ ?].
  - unfold topology; simpl. fold (topology_machines s). fold ms. rewrite <- list_fmap_compose. done.
Qed.

(** The reader of a quoted label: the text up to the closing quotation mark,
    with its escapes undone, and what follows. *)
Fixpoint scan_label (s : string) : option (string * string) :=
  match s with
  | EmptyString => None
  | String c r =>
      if bool_decide (c = Ascii.ascii_of_nat 34) then Some (EmptyString, r)
      else if bool_decide (c = BACKSLASH) then
        match r with
        | String d r =>
            let unescaped :=
              if bool_decide (d = BACKSLASH) then Some BACKSLASH
              else if bool_decide (d = Ascii.ascii_of_nat 34) then Some (Ascii.ascii_of_nat 34)
              else if bool_decide (d = Ascii.ascii_of_nat 110) then Some (Ascii.ascii_of_nat 10)
              else None in
            match unescaped, scan_label r with
            | Some u, Some (t, rest) => Some (String u t, rest)
            | _, _ => None
            end
        | EmptyString => None
        end
      else match scan_label r with Some (t, rest) => Some (String c t, rest) | None => None end
  end.

(** A peer's display name cannot break out of its metrics label: reading the quoted
    label back stops exactly at the closing quotation mark and yields the name,
    whatever characters it holds, and the escaped text has no newline. *)
Theorem escape_label_roundtrip raw rest :
  scan_label (escape_label raw +:+ String (Ascii.ascii_of_nat 34) rest) = Some (raw, rest) /\
  Ascii.ascii_of_nat 10 ∉ String.list_ascii_of_string (escape_label raw).
Proof.
  split.
  - induction raw as [|c raw IH]; [done|]. cbn [escape_label].
    repeat case_bool_decide; subst; rewrite !string_app_cons; cbn [scan_label];
      rewrite ?IH; try done.
    by rewrite !bool_decide_false.
  - induction raw as [|c raw IH]; simpl; [by apply not_elem_of_nil|].
    repeat case_bool_decide; simpl; rewrite ?not_elem_of_cons; split_and!; done.
Qed.
