(* ===== verification/Stream.v ===== *)
(** * The peer-event stream ([http/api/stream.rs])

    What one subscriber is sent: a filter over the fan-out events that keeps the
    set of peers the subscriber knows of, and turns each event into the frame
    that keeps that set right under the current policy. *)

From S2P Require Import Prelude NetAddr Types Policy.

(** JSON of the payload of an event. *)
Class EventJson := { data_payload : PeerEvent -> Result string string }.

Section Stream.
Context {EX : Externals} {EJ : EventJson}.

(** [to_sse_frame]: event name and data. *)
Definition to_sse_frame (event : PeerEvent) : string * string :=
  match data_payload event with
  | Ok json => (event_name event, json)
  | Err _ => ("error", "serialisation failed")
  end.

Record ViewerFilter := mkViewerFilter {
  viewer_id : Uuid;
  viewer_tags : list string;
  revealed : gset string;
}.
#[export] Instance eta_ViewerFilter : Eta ViewerFilter :=
  fun f => mkViewerFilter (viewer_id f) (viewer_tags f) (revealed f).

(** [ViewerFilter::apply], under the policy current at that moment: the filter
    and the event of the frame, if there is one. *)
Definition apply (p : Policy) (f : ViewerFilter) (event : PeerEvent) : ViewerFilter * option PeerEvent :=
  match event with
  | Added info | Updated info =>
      if bool_decide (pi_peer_id info = uuid_to_string (viewer_id f)) then (f, None)
      else
        let visible := can_see p (viewer_tags f) (pi_tags info) in
        if visible then
          if bool_decide (pi_peer_id info ∉ revealed f) then
            (f <| revealed := {[pi_peer_id info]} ∪ revealed f |>, Some (Added info))
          else (f, Some (Updated info))
        else if bool_decide (pi_peer_id info ∈ revealed f) then
          (f <| revealed := revealed f ∖ {[pi_peer_id info]} |>,
           Some (Removed (pi_peer_id info) (pi_tags info)))
        else (f, None)
  | Removed peer_id tags =>
      if bool_decide (peer_id ∈ revealed f) then
        (f <| revealed := revealed f ∖ {[peer_id]} |>, Some (Removed peer_id tags))
      else (f, None)
  | HolePunch hp =>
      if bool_decide (initiator_peer_id hp = uuid_to_string (viewer_id f)) then (f, Some event)
      else (f, None)
  | Wake rw =>
      if bool_decide (recipient_peer_id rw = uuid_to_string (viewer_id f)) then (f, Some event)
      else (f, None)
  end.

(** What the broadcast channel hands to a subscriber: an event, or the news that
    it lagged and lost some. *)
Inductive Received := Event (e : PeerEvent) | Lagged (n : Z).

(** One item of the live part of [peer_event_stream]; an unfiltered subscriber
    has no filter. *)
Definition live_item (p : Policy) (filter : option ViewerFilter) (next : Received)
    : option ViewerFilter * option PeerEvent :=
  match next with
  | Event event =>
      match filter with
      | Some f => let '(f, frame) := apply p f event in (Some f, frame)
      | None => (None, Some event)
      end
  | Lagged _ => (filter, None)
  end.

(** [peer_event_stream]: first the snapshot, each peer as added, then the live
    events; each is handled under the policy of its moment. *)
Fixpoint run_items (filter : option ViewerFilter) (items : list (Policy * Received))
    : option ViewerFilter * list PeerEvent :=
  match items with
  | [] => (filter, [])
  | (p, next) :: items =>
      let '(filter, frame) := live_item p filter next in
      let '(filter, frames) := run_items filter items in
      (filter, match frame with Some e => e :: frames | None => frames end)
  end.

Definition peer_event_stream (viewer : option (Uuid * list string)) (p : Policy)
    (bootstrap : list PeerInfo) (live : list (Policy * Received)) : list (string * string) :=
  let filter := (fun '(id, tags) => mkViewerFilter id tags ∅) <$> viewer in
  to_sse_frame <$>
    snd (run_items filter (((fun info => (p, Event (Added info))) <$> bootstrap) ++ live)).

(** ** The subscriber's side *)

(** What a client that replays frames believes: [None] when a frame makes no
    sense to it (an update or a removal of a peer it was never told of, or a
    second addition). *)
Definition replay_frame (known : gset string) (e : PeerEvent) : option (gset string) :=
  match e with
  | Added info => if decide (pi_peer_id info ∈ known) then None else Some ({[pi_peer_id info]} ∪ known)
  | Updated info => if decide (pi_peer_id info ∈ known) then Some known else None
  | Removed id _ => if decide (id ∈ known) then Some (known ∖ {[id]}) else None
  | HolePunch _ | Wake _ => Some known
  end.
Fixpoint replay (known : gset string) (frames : list PeerEvent) : option (gset string) :=
  match frames with
  | [] => Some known
  | e :: frames => match replay_frame known e with Some k => replay k frames | None => None end
  end.

(** What a frame tells the viewer is nothing it may not know. *)
Definition frame_allowed (p : Policy) (f : ViewerFilter) (e : PeerEvent) : Prop :=
  match e with
  | Added info | Updated info =>
      pi_peer_id info <> uuid_to_string (viewer_id f) /\
      can_see p (viewer_tags f) (pi_tags info) = true
  | Removed id _ => id ∈ revealed f
  | HolePunch hp => initiator_peer_id hp = uuid_to_string (viewer_id f)
  | Wake rw => recipient_peer_id rw = uuid_to_string (viewer_id f)
  end.

Lemma apply_id p f e : viewer_id (apply p f e).1 = viewer_id f /\ viewer_tags (apply p f e).1 = viewer_tags f.
Proof. unfold apply. repeat case_match; done. Qed.

Lemma apply_replay p f e :
  match (apply p f e).2 with
  | Some frame => replay_frame (revealed f) frame = Some (revealed (apply p f e).1) /\ frame_allowed p f frame
  | None => revealed (apply p f e).1 = revealed f
  end.
Proof.
  unfold apply. destruct e as [info|info|id tags|hp|rw].
  1, 2: case_bool_decide; simpl; [done|]; destruct (can_see _ _ _) eqn:Hc;
    [case_bool_decide; simpl|case_bool_decide; simpl; [|done]];
    (split; [by case_decide|done]).
  - case_bool_decide; simpl; [|done]. split; [by case_decide|done].
  - by case_bool_decide.
  - by case_bool_decide.
Qed.

Lemma apply_revealed_not_viewer p f e :
  uuid_to_string (viewer_id f) ∉ revealed f -> uuid_to_string (viewer_id f) ∉ revealed (apply p f e).1.
Proof.
  intros H. unfold apply. destruct e as [info|info|id tags|hp|rw]; repeat case_match; simpl; try done;
    rewrite ?not_elem_of_union, ?not_elem_of_difference, ?not_elem_of_singleton;
    split_and?; auto.
  all: match goal with Hd : bool_decide _ = false |- _ => apply bool_decide_eq_false in Hd end; congruence.
Qed.

Lemma revealed_update p f i id :
  id <> uuid_to_string (viewer_id f) ->
  id ∈ revealed (apply p f (Updated i)).1 <->
  (id = pi_peer_id i /\ can_see p (viewer_tags f) (pi_tags i) = true) \/
  (id <> pi_peer_id i /\ id ∈ revealed f).
Proof.
  intros Hid. unfold apply. case_bool_decide as Hv; simpl.
  - split; [intros; right; split; [congruence|done]|intros [[-> _]|[_ ?]]; done].
  - destruct (decide (id = pi_peer_id i)) as [->|Hne];
      (destruct (can_see _ _ _) eqn:Hc; case_bool_decide as Hr; simpl;
       rewrite ?elem_of_union, ?elem_of_difference, ?elem_of_singleton; intuition congruence).
Qed.

Lemma run_items_app filter a b :
  run_items filter (a ++ b)
  = let '(g, before) := run_items filter a in let '(h, after) := run_items g b in (h, before ++ after).
Proof.
  revert filter. induction a as [|[p next] a IH]; intros filter; cbn [app run_items].
  { by destruct (run_items filter b). }
  destruct (live_item p filter next) as [f1 frame]. rewrite IH. destruct (run_items f1 a) as [g before].
  destruct (run_items g b) as [h after]. by destruct frame.
Qed.

(** One item: what it does to the filter, and the frame it makes. *)
Lemma live_item_filtered p f next :
  exists g, (live_item p (Some f) next).1 = Some g /\ viewer_id g = viewer_id f /\ viewer_tags g = viewer_tags f
    /\ (uuid_to_string (viewer_id f) ∉ revealed f -> uuid_to_string (viewer_id f) ∉ revealed g)
    /\ match (live_item p (Some f) next).2 with
       | Some frame => replay_frame (revealed f) frame = Some (revealed g) /\ frame_allowed p f frame
       | None => revealed g = revealed f
       end.
Proof.
  destruct next as [e|n]; [|by exists f]. cbn [live_item].
  pose proof (apply_replay p f e) as Hr. pose proof (apply_id p f e) as [Hi Ht].
  pose proof (apply_revealed_not_viewer p f e) as Hnv. destruct (apply p f e) as [g frame]. by exists g.
Qed.

Lemma run_items_filtered f items :
  exists g, (run_items (Some f) items).1 = Some g /\ viewer_id g = viewer_id f /\ viewer_tags g = viewer_tags f
    /\ replay (revealed f) (run_items (Some f) items).2 = Some (revealed g)
    /\ (uuid_to_string (viewer_id f) ∉ revealed f -> uuid_to_string (viewer_id f) ∉ revealed g).
Proof.
  revert f. induction items as [|[p next] items IH]; intros f; [by exists f|]. cbn [run_items].
  destruct (live_item_filtered p f next) as (g & Hg & Hi & Ht & Hn & Hr).
  destruct (live_item p (Some f) next) as [f1 frame]. cbn [fst snd] in *. subst f1.
  destruct (IH g) as (h & Hh & Hhi & Hht & Hhr & Hhn). destruct (run_items (Some g) items) as [f2 frames].
  cbn [fst snd] in *. exists h. rewrite Hhi, Hht, <- Hi. split_and!; try done; [|by rewrite Hi in *; auto].
  destruct frame as [fr|]; cbn [replay]; [destruct Hr as [-> _]; done|by rewrite <- Hr].
Qed.

(** C17: The stream keeps a replaying client exact and tells it nothing it may not see:
    over any run of events, with the policy changing at will and events lost to
    lag, the frames make sense to a client that replays them from what it knew,
    and the client then knows exactly the filter's revealed set. And each item of
    the run is answered under the very policy that is in force when it is handled:
    its frame, if it makes one, stands between those of the items before and those
    of the items after it, and is allowed by that policy: an addition or update is of
    another peer that it shows to the viewer, a removal is of a peer the viewer was
    told of, a punch or wake directive is addressed to the viewer. After an event
    about another member, the viewer knows of it exactly if that policy shows it. *)
Theorem stream_replays_exactly f items :
  let '(f', frames) := run_items (Some f) items in
  (exists g, f' = Some g /\ viewer_id g = viewer_id f /\ viewer_tags g = viewer_tags f /\
     replay (revealed f) frames = Some (revealed g) /\
     (uuid_to_string (viewer_id f) ∉ revealed f -> uuid_to_string (viewer_id f) ∉ revealed g)) /\
  forall pre p next post, items = pre ++ (p, next) :: post ->
    exists g g' told after,
      (run_items (Some f) pre).1 = Some g /\ live_item p (Some g) next = (Some g', told) /\
      frames = (run_items (Some f) pre).2 ++ option_list told ++ after /\
      viewer_id g = viewer_id f /\ viewer_tags g = viewer_tags f /\
      (forall frame, told = Some frame -> frame_allowed p g frame) /\
      (forall info, next = Event (Added info) \/ next = Event (Updated info) ->
         pi_peer_id info <> uuid_to_string (viewer_id f) ->
         pi_peer_id info ∈ revealed g' <-> can_see p (viewer_tags f) (pi_tags info) = true).
Proof.
  pose proof (run_items_filtered f items) as Hrun. destruct (run_items (Some f) items) as [f' frames] eqn:Er.
  split; [done|]. intros pre p next post ->. rewrite run_items_app in Er.
  destruct (run_items_filtered f pre) as (g & Hg & Hi & Ht & _).
  destruct (run_items (Some f) pre) as [f1 before]. cbn [fst snd] in *. subst f1. cbn [run_items] in Er.
  destruct (live_item_filtered p g next) as (g' & Hg' & _ & _ & _ & Hr).
  destruct (live_item p (Some g) next) as [f2 told] eqn:Hl. cbn [fst snd] in *. subst f2.
  destruct (run_items (Some g') post) as [h after]. injection Er as _ <-.
  exists g, g', told, after. rewrite Hi, Ht in *. split_and!; try done; [by destruct told| |].
  - intros frame ->. apply Hr.
  - intros info Hn Hne. rewrite <- Ht.
    assert (g' = (apply p g (Updated info)).1) as ->.
    { destruct Hn as [-> | ->]; cbn [live_item] in Hl; change (apply p g (Added info)) with (apply p g (Updated info)) in Hl;
        destruct (apply p g (Updated info)); by injection Hl as ->. }
    rewrite revealed_update by (by rewrite Hi). split; [by intros [[_ ?]|[? _]]|by left].
Qed.

(** ** Convergence after a change of policy *)

(** The filter after updates of the given peers, all under one policy. *)
Definition after_updates (p : Policy) (f : ViewerFilter) (infos : list PeerInfo) : ViewerFilter :=
  foldl (fun f i => (apply p f (Updated i)).1) f infos.

Lemma run_updates p f infos :
  (run_items (Some f) ((fun i => (p, Event (Updated i))) <$> infos)).1 = Some (after_updates p f infos).
Proof.
  revert f. induction infos as [|i infos IH]; intros f; [done|].
  specialize (IH (apply p f (Updated i)).1). unfold after_updates in *.
  rewrite fmap_cons. cbn [run_items foldl]. unfold live_item.
  destruct (apply p f (Updated i)) as [f1 frame]. cbn [fst] in *. rewrite <- IH.
  by destruct (run_items (Some f1) _) as [f' frames].
Qed.

Lemma revealed_updates p infos f id :
  NoDup (pi_peer_id <$> infos) -> id <> uuid_to_string (viewer_id f) ->
  id ∈ revealed (after_updates p f infos) <->
    (exists i, i ∈ infos /\ pi_peer_id i = id /\ can_see p (viewer_tags f) (pi_tags i) = true) \/
    ((id ∉ pi_peer_id <$> infos) /\ id ∈ revealed f).
Proof.
  revert f. induction infos as [|i infos IH]; intros f Hnd Hid; cbn [after_updates foldl fmap list_fmap].
  { split; [intros; right; split; [by apply not_elem_of_nil|done]|].
    intros [(? & Hin & _)|[_ ?]]; [by apply elem_of_nil in Hin|done]. }
  rewrite fmap_cons in Hnd. apply NoDup_cons in Hnd as [Hni Hnd].
  pose proof (apply_id p f (Updated i)) as [Hi Ht].
  fold (after_updates p (apply p f (Updated i)).1 infos).
  rewrite IH by (done || by rewrite Hi). rewrite revealed_update, Ht by done.
  rewrite elem_of_cons. split.
  - intros [(j & Hj & Hji & Hjc)|[Hn [[-> Hc]|[Hn' Hr]]]].
    + left. exists j. split_and!; [by right|done|done].
    + left. exists i. split_and!; [by left|done|done].
    + right. tauto.
  - intros [(j & [->|Hj]%elem_of_cons & Hji & Hjc)|[Hn Hr]].
    + right. split; [by rewrite <- Hji|]. left. done.
    + left. by exists j.
    + right. tauto.
Qed.

(** C18: A policy change reaches every subscriber: after the update that [resync_all_peers]
    broadcasts for each roster member, in any order, a subscriber that was told
    only of roster members knows exactly the peers that the new policy shows it,
    itself excepted, whatever it was shown before. *)
Theorem resync_converges p f infos :
  NoDup (pi_peer_id <$> infos) ->
  (forall id, id ∈ revealed f -> id ∈ pi_peer_id <$> infos) ->
  exists g, (run_items (Some f) ((fun i => (p, Event (Updated i))) <$> infos)).1 = Some g /\
    forall id, id <> uuid_to_string (viewer_id f) ->
      id ∈ revealed g <->
      exists i, i ∈ infos /\ pi_peer_id i = id /\ can_see p (viewer_tags f) (pi_tags i) = true.
Proof.
  intros Hnd Hsub. exists (after_updates p f infos). split; [apply run_updates|].
  intros id Hid. rewrite revealed_updates by done. split; [|by left].
  intros [|[Hn Hr]]; [done|]. by apply Hsub in Hr.
Qed.
End Stream.
