(* ===== verification/Api.v ===== *)
(** * The HTTP handlers ([http/api], [http/*_api.rs], [http/admin_auth.rs])

    Each handler from its extracted inputs to the new state and the response,
    and the router that dispatches to them. *)

From S2P Require Import Prelude NetAddr Types Allocator Policy HolePunch DirectFlags.
From S2P Require Import RelayRegistry RosterStore Reflexive Auth Coordinator Apply.
From S2P Require Import Registration Heartbeat CoordInv RelayRoute Topology Stream.

Open Scope Z_scope.

(** [HeaderValue::to_str] of the [http] crate: the text of a value, when it has one. *)
Class HeaderCodec := { to_str : list Z -> option string }.

(** The headers that the handlers read, as they were sent. *)
Record HeaderMap := mkHeaderMap { authorization : option (list Z); if_match : option (list Z) }.

Inductive Body :=
| Empty
| ApiError (error : string)
| BodyRegister (r : RegisterResponse)
| BodyHeartbeat (r : HeartbeatResponse)
| BodyRoster (peers : list PeerInfo)
| BodyTopology (t : TopologyResponse)
| BodyText (text : string)
| BodyPolicy (policy : Policy) (etag : string)
| BodyPending (pending : list string)
| BodyProactive (on : bool)
| BodyStream (viewer : option (Uuid * list string)) (snapshot : list PeerInfo)
| BodyRelay (my_pubkey : list Z) (lane : Lane).

Record Response := mkResponse { status : Z; etag_header : option string; body : Body }.

Definition respond (status : Z) (body : Body) : Response := mkResponse status None body.
Definition err (status : Z) (message : string) : Response := respond status (ApiError message).

(** The state behind the handlers: the static counter of the policy etags, the
    coordinator, and the operator's token. *)
Record ApiState := mkApiState { counter : Z; coordinator : Inner; admin_token : option string }.
#[export] Instance eta_ApiState : Eta ApiState :=
  fun a => mkApiState (counter a) (coordinator a) (admin_token a).

Record DirectBody := mkDirectBody { db_direct : option bool; db_pin_to_relay : option bool }.

Section Api.
Context {EX : Externals} {IT : Iteration} {RS : RosterSerde} {CH : Channels} {CS : ClaimsSerde}
  {UC : UrlCodec} {PS : PolicySerde} {HC : HeaderCodec}.

(** ** Errors *)

(** [Display for CoordinatorError] *)
Definition coord_err_text (e : CoordinatorError) : string :=
  match e with
  | InvalidPeerId e => "invalid peer id: " +:+ e
  | InvalidPubkey n => "invalid wireguard public key (expected 32 bytes, got " +:+ fmt_u n +:+ ")"
  | PubkeyDecode e => "invalid base64 in wg_public_key: " +:+ e
  | InvalidRequestedUla raw => "invalid requested ULA: " +:+ raw
  | Allocation => "ULA index space exhausted (65535 peers per network)"
  | UnknownPeer id => "peer not found: " +:+ uuid_to_string id
  | Unauthorized reason => "unauthorized join: " +:+ reason
  | UlaConflict u => "requested ULA already claimed by another peer: " +:+ u
  | UlaNetworkMismatch u network =>
      "requested ULA " +:+ u +:+ " is outside network `" +:+ network +:+ "`'s address block"
  end.

Definition coord_err_status (e : CoordinatorError) : Z :=
  match e with
  | UnknownPeer _ => 404
  | Allocation => 503
  | InvalidPeerId _ | InvalidPubkey _ | PubkeyDecode _ | InvalidRequestedUla _ => 400
  | Unauthorized _ => 401
  | UlaConflict _ | UlaNetworkMismatch _ _ => 409
  end.

Definition coord_err_to_response (e : CoordinatorError) : Response :=
  err (coord_err_status e) (coord_err_text e).

(** ** Tokens *)

(** The text after [Bearer ] of the authorization header. *)
Definition presented_bearer (headers : HeaderMap) : option string :=
  v ← authorization headers; t ← to_str v; strip_prefix "Bearer " t.

Definition bearer_token (headers : HeaderMap) : option string :=
  trim <$> presented_bearer headers.

Definition check_admin_bearer (expected : option string) (headers : HeaderMap) (api_label : string)
    : option Response :=
  match expected with
  | None => Some (err 401 (api_label +:+ " admin API disabled (MESH_ADMIN_TOKEN unset)"))
  | Some expected =>
      match presented_bearer headers with
      | Some tok =>
          if bool_decide (tok = expected) then None
          else Some (err 401 "invalid or missing admin token")
      | None => Some (err 401 "invalid or missing admin token")
      end
  end.

Definition check_admin (a : ApiState) (headers : HeaderMap) (api_label : string) : option Response :=
  check_admin_bearer (admin_token a) headers api_label.

(** [SocketAddr::ip] and its text *)
Definition sock_ip_text (s : SocketAddr) : string :=
  match s with SockV4 ip _ => fmt_ipv4 ip | SockV6 ip _ _ _ => fmt_ipv6 ip end.

(** ** Peer handlers *)

(** [None] is a panic in validation. *)
Definition register_handler (env : Env) (s : Inner) (observed : option SocketAddr)
    (headers : HeaderMap) (reply : HttpReply) (req : RegisterRequest) : option (Inner * Response) :=
  '(s, r) ← register_authenticated env s req (bearer_token headers) reply observed;
  Some (match r with
        | Ok (entry, _) =>
            (s, respond 200 (BodyRegister
                  {| rp_peer_id := uuid_to_string (peer_id entry);
                     rp_ula := fmt_ipv6 (ula entry);
                     rp_peers := visible_peers s (peer_id entry) (tags entry);
                     rp_observed_ip := sock_ip_text <$> observed;
                     rp_observed_endpoint := listen_endpoint entry |}))
        | Err e => (s, coord_err_to_response e)
        end).

Definition heartbeat_handler (env : Env) (s : Inner) (observed_addr : option SocketAddr)
    (req : HeartbeatRequest) : Inner * Response :=
  match uuid_parse (hr_peer_id req) with
  | Err e => (s, coord_err_to_response (InvalidPeerId e))
  | Ok id =>
      let observed := default EmptyString (fmt_sock <$> observed_addr) in
      match heartbeat env s id observed (hr_wg_listen_port req) (hr_hosted_app_ulas req)
              (hr_software_version req) (hr_mesh_version req) (hr_relay_only req) with
      | (s, Ok entry) =>
          let s := record_peer_paths s (peer_id entry) (hr_peer_paths req) in
          let s := record_dataplane_health s (peer_id entry) (hr_dataplane_healthy req) in
          let s := ack_commands s (peer_id entry) (hr_executed_command_ids req) in
          let '(s, pending_commands) := drain_commands s (peer_id entry) in
          (s, respond 200 (BodyHeartbeat
                {| hp_peers := visible_peers s (peer_id entry) (tags entry);
                   hp_observed_ip := sock_ip_text <$> observed_addr;
                   hp_observed_endpoint := listen_endpoint entry;
                   hp_pending_commands := pending_commands |}))
      | (s, Err e) => (s, coord_err_to_response e)
      end
  end.

Definition deregister_handler (env : Env) (s : Inner) (req : DeregisterRequest) : Inner * Response :=
  match uuid_parse (dr_peer_id req) with
  | Err e => (s, coord_err_to_response (InvalidPeerId e))
  | Ok id => (fst (deregister env s id "client_deregister"), respond 204 Empty)
  end.

Definition metrics_handler (s : Inner) : Response := respond 200 (BodyText (render_metrics s)).

(** ** Operator handlers *)

Definition peers_handler (a : ApiState) (headers : HeaderMap) (vantage : option string) : Response :=
  match check_admin a headers "roster" with
  | Some resp => resp
  | None =>
      let vantage := v ← vantage; ok (uuid_parse v) in
      respond 200 (BodyRoster (snapshot_with_vantage (coordinator a) vantage))
  end.

Definition topology_handler (a : ApiState) (headers : HeaderMap) : Response :=
  match check_admin a headers "roster" with
  | Some resp => resp
  | None => respond 200 (BodyTopology (topology (coordinator a)))
  end.

Definition stream_handler (a : ApiState) (headers : HeaderMap) (peer_id : option string) : Response :=
  let s := coordinator a in
  match peer_id with
  | Some raw =>
      match (id ← ok (uuid_parse raw); (fun tags => (id, tags)) <$> peer_tags s id) with
      | None => err 401 "unknown peer_id; re-register before subscribing to the peer stream"
      | Some viewer => respond 200 (BodyStream (Some viewer) (roster_snapshot s))
      end
  | None =>
      match check_admin a headers "roster" with
      | Some resp => resp
      | None => respond 200 (BodyStream None (roster_snapshot s))
      end
  end.

Definition policy_response (snap : PolicySnapshot) : Response :=
  mkResponse 200 (Some (etag snap)) (BodyPolicy (policy snap) (etag snap)).

Definition get_policy_handler (a : ApiState) (headers : HeaderMap) : Response :=
  match check_admin a headers "policy" with
  | Some resp => resp
  | None => policy_response (snapshot (policy_store (coordinator a)))
  end.

Definition policy_validation_text (e : PolicyValidationError) : string :=
  let 'CrossTenantGlobSource pattern := e in
  "cross-tenant glob '" +:+ pattern
  +:+ "' as a policy source is forbidden: it would let distinct tenant networks see each other (tag:net-* is allowed only as a destination)".

Definition put_policy_handler (a : ApiState) (headers : HeaderMap) (new_policy : Policy)
    : ApiState * Response :=
  match check_admin a headers "policy" with
  | Some resp => (a, resp)
  | None =>
      match (v ← if_match headers; to_str v) with
      | None => (a, err 428 "If-Match header required for policy replace (optimistic concurrency)")
      | Some if_match =>
          let s := coordinator a in
          let '(c, st, r) := replace (counter a) (policy_store s) if_match new_policy in
          let a := a <| counter := c |> <| coordinator := (s <| policy_store := st |>) |> in
          match r with
          | Ok snap => (a <| coordinator := resync_all_peers (coordinator a) |>, policy_response snap)
          | Err (EtagMismatch current _) =>
              (a, mkResponse 412 (Some current) (ApiError ("etag mismatch; current is " +:+ current)))
          | Err (Invalid e) => (a, err 422 ("policy rejected: " +:+ policy_validation_text e))
          end
      end
  end.

(** [parse_uuid] and [parse_peer] *)
Definition parse_peer (raw : string) : Result Uuid Response :=
  map_err (fun e => err 400 ("invalid peer id: " +:+ e)) (uuid_parse raw).

Definition post_direct_handler (a : ApiState) (headers : HeaderMap) (raw_a raw_b : string)
    (body : DirectBody) : ApiState * Response :=
  match check_admin a headers "direct-flag" with
  | Some resp => (a, resp)
  | None =>
      match parse_peer raw_a with
      | Err r => (a, r)
      | Ok x =>
          match parse_peer raw_b with
          | Err r => (a, r)
          | Ok y =>
              let flags := direct_pair_flags (coordinator a) in
              let flags := match db_direct body with
                           | Some d => set_direct flags x y d | None => flags end in
              let flags := match db_pin_to_relay body with
                           | Some pin => set_pinned_to_relay flags x y pin | None => flags end in
              (a <| coordinator := ((coordinator a) <| direct_pair_flags := flags |>) |>, respond 204 Empty)
          end
      end
  end.

Definition post_command_handler (a : ApiState) (headers : HeaderMap) (peer_id : string)
    (command : NodeCommandDto) : ApiState * Response :=
  match check_admin a headers "command" with
  | Some resp => (a, resp)
  | None =>
      match parse_peer peer_id with
      | Err r => (a, r)
      | Ok peer => (a <| coordinator := enqueue_command (coordinator a) peer command |>, respond 202 Empty)
      end
  end.

Definition get_commands_handler (a : ApiState) (headers : HeaderMap) (peer_id : string) : Response :=
  match check_admin a headers "command" with
  | Some resp => resp
  | None =>
      match parse_peer peer_id with
      | Err r => r
      | Ok peer => respond 200 (BodyPending (pending_command_ids (coordinator a) peer))
      end
  end.

Definition get_proactive_handler (a : ApiState) (headers : HeaderMap) : Response :=
  match check_admin a headers "proactive" with
  | Some resp => resp
  | None => respond 200 (BodyProactive (proactive_on (coordinator a)))
  end.

Definition post_proactive_handler (a : ApiState) (headers : HeaderMap) (on : bool) : ApiState * Response :=
  match check_admin a headers "proactive" with
  | Some resp => (a, resp)
  | None => (a <| coordinator := set_proactive (coordinator a) on |>, respond 204 Empty)
  end.

(** ** The router ([build_router_with_admin]) *)

Inductive Request :=
| PostRegister (req : RegisterRequest) (reply : HttpReply)
| PostHeartbeat (req : HeartbeatRequest)
| PostDeregister (req : DeregisterRequest)
| GetMetrics
| GetRelay (pubkey : string) (lane : option string)
| GetPeers (vantage : option string)
| GetTopology
| GetStream (peer_id : option string)
| GetPolicy
| PutPolicy (new_policy : Policy)
| PostCommand (peer_id : string) (command : NodeCommandDto)
| GetCommands (peer_id : string)
| PostDirect (a b : string) (body : DirectBody)
| GetProactive
| PostProactive (on : bool).

(** One request, served; [None] is a panic of the handler's task. *)
Definition serve (env : Env) (a : ApiState) (peer : option SocketAddr) (headers : HeaderMap)
    (req : Request) : option (ApiState * Response) :=
  let s := coordinator a in
  let with_coord '(s, resp) := (a <| coordinator := s |>, resp) in
  match req with
  | PostRegister req reply => with_coord <$> register_handler env s peer headers reply req
  | PostHeartbeat req => Some (with_coord (heartbeat_handler env s peer req))
  | PostDeregister req => Some (with_coord (deregister_handler env s req))
  | GetMetrics => Some (a, metrics_handler s)
  | GetRelay pubkey lane =>
      Some (a, match relay_ws_handler s pubkey lane with
               | BadPubkey => respond 400 (BodyText "bad pubkey")
               | UnknownPubkey => respond 403 (BodyText "unknown pubkey")
               | Upgrade my_pubkey lane => respond 101 (BodyRelay my_pubkey lane)
               end)
  | GetPeers vantage => Some (a, peers_handler a headers vantage)
  | GetTopology => Some (a, topology_handler a headers)
  | GetStream peer_id => Some (a, stream_handler a headers peer_id)
  | GetPolicy => Some (a, get_policy_handler a headers)
  | PutPolicy p => Some (put_policy_handler a headers p)
  | PostCommand id c => Some (post_command_handler a headers id c)
  | GetCommands id => Some (a, get_commands_handler a headers id)
  | PostDirect x y b => Some (post_direct_handler a headers x y b)
  | GetProactive => Some (a, get_proactive_handler a headers)
  | PostProactive on => Some (post_proactive_handler a headers on)
  end.
End Api.
