(* ===== verification/Dto.v ===== *)
(** * The coordinator's bodies as JSON ([http/api/dto.rs], [http/*_api.rs], [roster/events.rs])

    What the derived implementations of [serde] make of the structures of [Types.v]:
    the field names, the fields left out when empty and the defaults of the missing
    ones, for the bodies the coordinator reads and for those it writes, the payloads of
    its peer stream, its policy, and the events it publishes and stores; and the publisher
    they go to. *)

From S2P Require Import Prelude NetAddr Text Json JsonText Types Policy RosterStore Stream Api.

Open Scope Z_scope.

(** ** Members and commands *)

(** [Serialize] of [PeerInfo] *)
Definition peer_json (p : PeerInfo) : Json :=
  object
    [("peer_id", Some (JString (pi_peer_id p)));
     ("wg_public_key", Some (JString (pi_wg_public_key p)));
     ("ula", Some (JString (pi_ula p)));
     ("listen_endpoint", Some (json_option JString (pi_listen_endpoint p)));
     ("display_name", Some (JString (pi_display_name p)));
     ("network", Some (JString (pi_network p)));
     ("tags", Some (json_list JString (pi_tags p)));
     ("hosted_app_ulas", Some (json_list JString (pi_hosted_app_ulas p)));
     ("joined_at_micros", Some (JNumber (pi_joined_at_micros p)));
     ("kind", Some (JString (pi_kind p)));
     ("parent", if_some JString (pi_parent p));
     ("app_uuid", if_some JString (pi_app_uuid p));
     ("software_version", if_some JString (pi_software_version p));
     ("mesh_version", if_some JString (pi_mesh_version p));
     ("relay_only", Some (JBool (pi_relay_only p)));
     ("connectivity", if_some JString (pi_connectivity p));
     ("connectivity_age_ms", if_some JNumber (pi_connectivity_age_ms p))].

(** [NodeCommandDto] *)
Definition command_json (c : NodeCommandDto) : Json :=
  object
    [("command_id", Some (JString (command_id c)));
     ("verb", Some (JString (verb c)));
     ("peer_id", Some (JString (cmd_peer_id c)));
     ("nonce", Some (JString (nonce c)));
     ("issued_at", Some (JNumber (issued_at c)));
     ("expiry", Some (JNumber (expiry c)));
     ("signature", Some (JString (signature c)))].
Definition command_names : list string := ["command_id"; "verb"; "peer_id"; "nonce"; "issued_at"; "expiry"; "signature"].
Definition read_command_dto : Json -> option NodeCommandDto :=
  read_struct command_names (fun o =>
    id ← assoc "command_id" o ≫= read_string;
    v ← assoc "verb" o ≫= read_string;
    peer ← assoc "peer_id" o ≫= read_string;
    n ← assoc "nonce" o ≫= read_string;
    issued ← assoc "issued_at" o ≫= read_i64;
    exp ← assoc "expiry" o ≫= read_i64;
    sig ← read_default EmptyString read_string (assoc "signature" o);
    Some (mkNodeCommandDto id v peer n issued exp sig)).

(** ** Requests *)

Definition register_request_names : list string :=
  ["wg_public_key"; "listen_endpoint"; "wg_listen_port"; "display_name"; "network"; "tags"; "hosted_app_ulas"; "kind";
   "parent"; "app_uuid"; "requested_ula"; "software_version"; "mesh_version"; "relay_only"].
(** [Deserialize] of [RegisterRequest] *)
Definition read_register_request : Json -> option RegisterRequest :=
  read_struct register_request_names (fun o =>
    key ← assoc "wg_public_key" o ≫= read_string;
    endpoint ← read_option read_string (assoc "listen_endpoint" o);
    port ← read_option read_u16 (assoc "wg_listen_port" o);
    name ← assoc "display_name" o ≫= read_string;
    network ← read_default EmptyString read_string (assoc "network" o);
    tags ← read_default_list read_string (assoc "tags" o);
    hosted ← read_default_list read_string (assoc "hosted_app_ulas" o);
    kind ← read_default default_kind read_string (assoc "kind" o);
    parent ← read_option read_string (assoc "parent" o);
    app ← read_option read_string (assoc "app_uuid" o);
    requested ← read_option read_string (assoc "requested_ula" o);
    software ← read_option read_string (assoc "software_version" o);
    mesh ← read_option read_string (assoc "mesh_version" o);
    relay_only ← read_default false read_bool (assoc "relay_only" o);
    Some (mkRegisterRequest key endpoint port name network tags hosted kind parent app requested software mesh relay_only)).

Definition peer_path_names : list string :=
  ["peer_id"; "direct"; "last_rx_age_ms"; "last_handshake_direct"; "last_handshake_age_ms"; "handshake_rx_total"].
Definition read_peer_path : Json -> option PeerPathDto :=
  read_struct peer_path_names (fun o =>
    id ← assoc "peer_id" o ≫= read_string;
    d ← assoc "direct" o ≫= read_bool;
    age ← read_default 0 read_u64 (assoc "last_rx_age_ms" o);
    hs_direct ← read_option read_bool (assoc "last_handshake_direct" o);
    hs_age ← read_option read_u64 (assoc "last_handshake_age_ms" o);
    total ← read_default 0 read_u64 (assoc "handshake_rx_total" o);
    Some (mkPeerPathDto id d age hs_direct hs_age total)).

Definition heartbeat_request_names : list string :=
  ["peer_id"; "wg_listen_port"; "hosted_app_ulas"; "software_version"; "mesh_version"; "relay_only"; "peer_paths";
   "dataplane_healthy"; "executed_command_ids"].
Definition read_heartbeat_request : Json -> option HeartbeatRequest :=
  read_struct heartbeat_request_names (fun o =>
    id ← assoc "peer_id" o ≫= read_string;
    port ← read_option read_u16 (assoc "wg_listen_port" o);
    hosted ← read_default_list read_string (assoc "hosted_app_ulas" o);
    software ← read_option read_string (assoc "software_version" o);
    mesh ← read_option read_string (assoc "mesh_version" o);
    relay_only ← read_default false read_bool (assoc "relay_only" o);
    paths ← read_default_list read_peer_path (assoc "peer_paths" o);
    healthy ← read_default default_dataplane_healthy read_bool (assoc "dataplane_healthy" o);
    executed ← read_default_list read_string (assoc "executed_command_ids" o);
    Some (mkHeartbeatRequest id port hosted software mesh relay_only paths healthy executed)).

Definition read_deregister_request : Json -> option DeregisterRequest :=
  read_struct ["peer_id"] (fun o => id ← assoc "peer_id" o ≫= read_string; Some (mkDeregisterRequest id)).

(** [DirectBody] and [ProactiveBody] *)
Definition read_direct_body : Json -> option DirectBody :=
  read_struct ["direct"; "pin_to_relay"] (fun o =>
    d ← read_option read_bool (assoc "direct" o);
    pin ← read_option read_bool (assoc "pin_to_relay" o);
    Some (mkDirectBody d pin)).
Definition read_proactive_body : Json -> option bool := read_struct ["on"] (fun o => assoc "on" o ≫= read_bool).

(** ** Answers *)

Definition register_response_json (r : RegisterResponse) : Json :=
  object
    [("peer_id", Some (JString (rp_peer_id r)));
     ("ula", Some (JString (rp_ula r)));
     ("peers", Some (json_list peer_json (rp_peers r)));
     ("observed_ip", if_some JString (rp_observed_ip r));
     ("observed_endpoint", if_some JString (rp_observed_endpoint r))].
Definition heartbeat_response_json (r : HeartbeatResponse) : Json :=
  object
    [("peers", Some (json_list peer_json (hp_peers r)));
     ("observed_ip", if_some JString (hp_observed_ip r));
     ("observed_endpoint", if_some JString (hp_observed_endpoint r));
     ("pending_commands", if_any command_json (hp_pending_commands r))].
Definition roster_json (peers : list PeerInfo) : Json := object [("peers", Some (json_list peer_json peers))].

Definition machine_json (m : TopologyMachine) : Json :=
  object
    [("peer_id", Some (JString (tm_peer_id m)));
     ("name", Some (JString (tm_name m)));
     ("ula", Some (JString (tm_ula m)));
     ("tags", Some (json_list JString (tm_tags m)));
     ("relay_only", Some (JBool (tm_relay_only m)));
     ("software_version", Some (json_option JString (tm_software_version m)));
     ("mesh_version", Some (json_option JString (tm_mesh_version m)));
     ("connectivity", Some (json_option JString (tm_connectivity m)))].
Definition edge_json (e : TopologyEdge) : Json :=
  object
    [("from", Some (JString (te_from e)));
     ("to", Some (JString (te_to e)));
     ("direct", Some (JBool (te_direct e)));
     ("age_ms", Some (JNumber (te_age_ms e)));
     ("last_handshake_direct", Some (json_option JBool (te_last_handshake_direct e)));
     ("last_handshake_age_ms", Some (json_option JNumber (te_last_handshake_age_ms e)));
     ("handshake_rx_total", Some (JNumber (te_handshake_rx_total e)))].
Definition topology_json (t : TopologyResponse) : Json :=
  object [("machines", Some (json_list machine_json (tr_machines t))); ("edges", Some (json_list edge_json (tr_edges t)))].

Definition api_error_json (error : string) : Json := object [("error", Some (JString error))].
Definition pending_json (pending : list string) : Json := object [("pending", Some (json_list JString pending))].
Definition proactive_json (on : bool) : Json := object [("on", Some (JBool on))].

(** The policy document ([policy/model.rs]) and the answer that carries it. *)
Definition rule_json (r : AclRule) : Json :=
  object [("action", Some (JString (action r))); ("src", Some (json_list JString (src r))); ("dst", Some (json_list JString (dst r)))].
Definition policy_json (p : Policy) : Json := object [("acls", Some (json_list rule_json (acls p)))].
Definition read_rule : Json -> option AclRule :=
  read_struct ["action"; "src"; "dst"] (fun o =>
    a ← read_default default_action read_string (assoc "action" o);
    s ← assoc "src" o ≫= read_list read_string;
    d ← assoc "dst" o ≫= read_list read_string;
    Some (mkAclRule a s d)).
Definition read_policy : Json -> option Policy :=
  read_struct ["acls"] (fun o => rules ← read_default_list read_rule (assoc "acls" o); Some (mkPolicy rules)).
Definition policy_response_json (p : Policy) (etag : string) : Json :=
  object [("policy", Some (policy_json p)); ("etag", Some (JString etag))].

(** ** Payloads of the peer stream ([PeerEvent::data_payload]) *)

Definition hole_punch_json (hp : HolePunchInitiate) : Json :=
  object
    [("initiator_peer_id", Some (JString (initiator_peer_id hp)));
     ("target_peer_id", Some (JString (target_peer_id hp)));
     ("target_external_endpoint", Some (JString (target_external_endpoint hp)));
     ("timestamp_micros", Some (JNumber (hp_timestamp_micros hp)))].
Definition relay_wake_json (rw : RelayWake) : Json :=
  object
    [("recipient_peer_id", Some (JString (recipient_peer_id rw)));
     ("source_ula", Some (JString (source_ula rw)));
     ("timestamp_micros", Some (JNumber (rw_timestamp_micros rw)))].
Definition payload_json (e : PeerEvent) : Json :=
  match e with
  | Added p | Updated p => peer_json p
  | Removed peer_id _ => object [("peer_id", Some (JString peer_id))]
  | HolePunch hp => hole_punch_json hp
  | Wake rw => relay_wake_json rw
  end.

(** ** Events ([roster/events.rs]) *)

Definition joined_json (e : PeerJoined) : Json :=
  object
    [("peer_id", Some (JString (pj_peer_id e)));
     ("wg_public_key", Some (json_list JNumber (pj_wg_public_key e)));
     ("ula", Some (JString (pj_ula e)));
     ("listen_endpoint", Some (JString (pj_listen_endpoint e)));
     ("display_name", Some (JString (pj_display_name e)));
     ("network", Some (JString (pj_network e)));
     ("tags", Some (json_list JString (pj_tags e)));
     ("hosted_app_ulas", Some (json_list JString (pj_hosted_app_ulas e)));
     ("joined_at_micros", Some (JNumber (pj_joined_at_micros e)));
     ("kind", Some (JString (pj_kind e)));
     ("parent", Some (json_option JString (pj_parent e)));
     ("app_uuid", Some (json_option JString (pj_app_uuid e)));
     ("software_version", Some (json_option JString (pj_software_version e)));
     ("mesh_version", Some (json_option JString (pj_mesh_version e)));
     ("relay_only", Some (JBool (pj_relay_only e)))].
Definition joined_names : list string :=
  ["peer_id"; "wg_public_key"; "ula"; "listen_endpoint"; "display_name"; "network"; "tags"; "hosted_app_ulas";
   "joined_at_micros"; "kind"; "parent"; "app_uuid"; "software_version"; "mesh_version"; "relay_only"].
Definition read_joined : Json -> option PeerJoined :=
  read_struct joined_names (fun o =>
    id ← assoc "peer_id" o ≫= read_string;
    key ← assoc "wg_public_key" o ≫= read_list read_u8;
    u ← assoc "ula" o ≫= read_string;
    endpoint ← assoc "listen_endpoint" o ≫= read_string;
    name ← assoc "display_name" o ≫= read_string;
    network ← read_default EmptyString read_string (assoc "network" o);
    tags ← assoc "tags" o ≫= read_list read_string;
    hosted ← read_default_list read_string (assoc "hosted_app_ulas" o);
    joined ← assoc "joined_at_micros" o ≫= read_i64;
    kind ← read_default default_kind read_string (assoc "kind" o);
    parent ← read_option read_string (assoc "parent" o);
    app ← read_option read_string (assoc "app_uuid" o);
    software ← read_option read_string (assoc "software_version" o);
    mesh ← read_option read_string (assoc "mesh_version" o);
    relay_only ← read_default false read_bool (assoc "relay_only" o);
    Some (mkPeerJoined id key u endpoint name network tags hosted joined kind parent app software mesh relay_only)).

Definition heartbeat_event_json (e : PeerHeartbeat) : Json :=
  object
    [("peer_id", Some (JString (ph_peer_id e)));
     ("observed_external", Some (JString (ph_observed_external e)));
     ("hosted_app_ulas", Some (json_list JString (ph_hosted_app_ulas e)));
     ("software_version", Some (json_option JString (ph_software_version e)));
     ("mesh_version", Some (json_option JString (ph_mesh_version e)));
     ("at_micros", Some (JNumber (ph_at_micros e)))].
Definition left_json (e : PeerLeft) : Json :=
  object
    [("peer_id", Some (JString (pl_peer_id e)));
     ("reason", Some (JString (pl_reason e)));
     ("left_at_micros", Some (JNumber (pl_left_at_micros e)))].
(** What is published of an event. *)
Definition event_json (e : MeshEvent) : Json :=
  match e with
  | EvJoined e => joined_json e
  | EvHeartbeat e => heartbeat_event_json e
  | EvLeft e => left_json e
  | EvHolePunch e => hole_punch_json e
  end.

(** ** In the ranges of their types *)

Definition typed_peer (p : PeerInfo) : Prop :=
  is_i64 (pi_joined_at_micros p) /\ (forall age, pi_connectivity_age_ms p = Some age -> is_u64 age).
Definition typed_command (c : NodeCommandDto) : Prop := is_i64 (issued_at c) /\ is_i64 (expiry c).
Definition typed_joined (e : PeerJoined) : Prop := Forall is_u8 (pj_wg_public_key e) /\ is_i64 (pj_joined_at_micros e).
#[export] Instance is_u8_dec z : Decision (is_u8 z) := ltac:(unfold is_u8; apply _).
#[export] Instance is_i64_dec z : Decision (is_i64 z) := ltac:(unfold is_i64; apply _).
#[export] Instance typed_joined_dec e : Decision (typed_joined e) := ltac:(unfold typed_joined; apply _).

Lemma representable_peer p : typed_peer p -> representable (peer_json p) = true.
Proof.
  intros [Hj Ha]. unfold peer_json. represent. split.
  - by apply representable_i64.
  - apply representable_some. intros age Hage. by apply representable_u64, Ha.
Qed.
Lemma representable_command c : typed_command c -> representable (command_json c) = true.
Proof. intros [Hi He]. unfold command_json. represent. split; by apply representable_i64. Qed.
Lemma representable_joined e : typed_joined e -> representable (joined_json e) = true.
Proof.
  intros [Hk Hj]. unfold joined_json. represent. split; [|by apply representable_i64].
  apply representable_list. intros b Hb. rewrite Forall_forall in Hk. specialize (Hk b Hb).
  apply representable_u64. unfold is_u8, is_u64, u8_max, u64_max in *. lia.
Qed.
Lemma representable_register r :
  Forall typed_peer (rp_peers r) -> representable (register_response_json r) = true.
Proof.
  rewrite Forall_forall. intros Hp. unfold register_response_json. represent.
  apply representable_list. intros p Hin. by apply representable_peer, Hp.
Qed.
Lemma representable_heartbeat r :
  Forall typed_peer (hp_peers r) -> Forall typed_command (hp_pending_commands r) ->
  representable (heartbeat_response_json r) = true.
Proof.
  rewrite !Forall_forall. intros Hp Hc. unfold heartbeat_response_json. represent. split.
  - apply representable_list. intros p Hin. by apply representable_peer, Hp.
  - apply representable_any. intros c Hin. by apply representable_command, Hc.
Qed.

(** ** Round trips *)

Lemma read_joined_json e : typed_joined e -> read_joined (joined_json e) = Some e.
Proof.
  intros [Hk Hj]. unfold read_joined, joined_json. read_object.
  rewrite read_list_all.
  2: { intros b Hb. rewrite Forall_forall in Hk. by apply read_number_in, Hk. }
  cbn [mbind option_bind]. unfold read_i64. rewrite read_number_in by done. by destruct e.
Qed.
Lemma read_command_json c : typed_command c -> read_command_dto (command_json c) = Some c.
Proof.
  intros [Hi He]. unfold read_command_dto, command_json. read_object.
  unfold read_i64. rewrite !read_number_in by done. by destruct c.
Qed.

(** ** A stored member, also from another version of the coordinator

    An older one did not write the fields that have a default; a newer one may write
    more. *)

Definition joined_required : list string :=
  ["peer_id"; "wg_public_key"; "ula"; "listen_endpoint"; "display_name"; "tags"; "joined_at_micros"].
Definition fields_of (j : Json) : list (string * Json) := match j with JObject l => l | _ => [] end.
(** The fields of [e] that [keep] names, and [extra] ones. *)
Definition evolved (keep : string -> bool) (extra : list (string * Json)) (e : PeerJoined) : Json :=
  JObject (List.filter (fun p => keep p.1) (fields_of (joined_json e)) ++ extra).
Definition defaulted (keep : string -> bool) (e : PeerJoined) : PeerJoined :=
  {| pj_peer_id := pj_peer_id e;
     pj_wg_public_key := pj_wg_public_key e;
     pj_ula := pj_ula e;
     pj_listen_endpoint := pj_listen_endpoint e;
     pj_display_name := pj_display_name e;
     pj_network := if keep "network" then pj_network e else EmptyString;
     pj_tags := pj_tags e;
     pj_hosted_app_ulas := if keep "hosted_app_ulas" then pj_hosted_app_ulas e else [];
     pj_joined_at_micros := pj_joined_at_micros e;
     pj_kind := if keep "kind" then pj_kind e else default_kind;
     pj_parent := if keep "parent" then pj_parent e else None;
     pj_app_uuid := if keep "app_uuid" then pj_app_uuid e else None;
     pj_software_version := if keep "software_version" then pj_software_version e else None;
     pj_mesh_version := if keep "mesh_version" then pj_mesh_version e else None;
     pj_relay_only := if keep "relay_only" then pj_relay_only e else false |}.

Lemma kept_option (b : bool) x : read_option read_string (if b then Some (json_option JString x) else None) = Some (if b then x else None).
Proof. destruct b; [apply read_option_string|done]. Qed.
Lemma kept_string (b : bool) d x : read_default d read_string (if b then Some (JString x) else None) = Some (if b then x else d).
Proof. by destruct b. Qed.
Lemma kept_bool (b : bool) d x : read_default d read_bool (if b then Some (JBool x) else None) = Some (if b then x else d).
Proof. by destruct b. Qed.
Lemma kept_strings (b : bool) l : read_default_list read_string (if b then Some (json_list JString l) else None) = Some (if b then l else []).
Proof. destruct b; [apply read_default_strings|done]. Qed.
Lemma read_joined_evolved e keep extra :
  typed_joined e -> (forall n, n ∈ joined_required -> keep n = true) -> (forall p, p ∈ extra -> p.1 ∉ joined_names) ->
  read_joined (evolved keep extra e) = Some (defaulted keep e).
Proof.
  intros [Hk Hj] Hreq Hx. unfold read_joined, evolved, joined_json, object, fields_of.
  rewrite read_struct_evolved by (done || by apply once_object; vm_compute).
  rewrite Forall_forall in Hk. cbv beta.
  repeat rewrite assoc_evolved by (intros p Hp He; apply (Hx p Hp); rewrite He, <- existsb_In; vm_compute; reflexivity).
  rewrite !assoc_object by (vm_compute; reflexivity).
  rewrite (Hreq "peer_id"), (Hreq "wg_public_key"), (Hreq "ula"), (Hreq "listen_endpoint"), (Hreq "display_name"),
    (Hreq "tags"), (Hreq "joined_at_micros") by (rewrite <- existsb_In; vm_compute; reflexivity).
  cbn [assoc String.eqb Ascii.eqb Bool.eqb mjoin option_join mbind option_bind read_string].
  autorewrite with json. rewrite read_list_all by (intros b Hb; by apply read_number_in, Hk).
  cbn [mbind option_bind]. unfold read_i64. rewrite read_number_in by done.
  rewrite !kept_option, !kept_string, kept_bool, kept_strings. cbn [mbind option_bind]. done.
Qed.

(** ** As text *)

Section Texts.
Context `{JsonText}.

(** The body of an answer that is a text. That of the peer stream is its frames
    ([Stream.v]), and a relay upgrade has none. *)
Definition body_text (b : Body) : string :=
  match b with
  | Empty => EmptyString
  | ApiError error => to_text (api_error_json error)
  | BodyRegister r => to_text (register_response_json r)
  | BodyHeartbeat r => to_text (heartbeat_response_json r)
  | BodyRoster peers => to_text (roster_json peers)
  | BodyTopology t => to_text (topology_json t)
  | BodyText text => text
  | BodyPolicy policy etag => to_text (policy_response_json policy etag)
  | BodyPending pending => to_text (pending_json pending)
  | BodyProactive on => to_text (proactive_json on)
  | BodyStream _ _ | BodyRelay _ _ => EmptyString
  end.

(** The stream's payloads, the policy under its etag, and the stored roster. The bytes
    of a roster are written only for values of the types of its fields, which in the
    code are all there are. *)
Definition json_payloads : EventJson := {| data_payload e := Ok (to_text (payload_json e)) |}.
Definition json_policy : PolicySerde := {| policy_to_vec p := Some (bytes_of_string (to_text (policy_json p))) |}.
Definition json_roster : RosterSerde := {|
  peers_to_json ps :=
    if decide (Forall typed_joined ps) then Some (bytes_of_string (to_text (json_list joined_json ps))) else None;
  peers_of_json bytes := of_text (string_of_bytes bytes) ≫= read_list read_joined;
|}.

Context `{!JsonTextLaws}.

Lemma json_roster_laws : RosterSerdeLaws (H := json_roster).
Proof.
  split. cbn. intros ps b. case_decide as Ht; [|done]. intros [= <-]. rewrite Forall_forall in Ht.
  rewrite string_of_bytes_of, of_text_to_text.
  - cbn [mbind option_bind]. apply read_list_all. intros e He. by apply read_joined_json, Ht.
  - apply representable_list. intros e He. by apply representable_joined, Ht.
Qed.

(** The policy document reads back, so an operator who sends back what was served sends
    the policy that is in force. *)
Lemma policy_reads_back p : of_text (to_text (policy_json p)) ≫= read_policy = Some p.
Proof.
  assert (forall r, representable (rule_json r) = true /\ read_rule (rule_json r) = Some r) as Hr.
  { intros r. unfold read_rule, rule_json. split; [by represent|]. read_object. by destruct r. }
  rewrite of_text_to_text.
  - cbn [mbind option_bind]. unfold read_policy, policy_json. read_object. unfold read_default_list, read_default.
    rewrite read_list_all by (intros r _; apply Hr). by destruct p.
  - unfold policy_json. represent. apply representable_list. intros r _. apply Hr.
Qed.

(** C22: The roster file carries the members across a restart, whatever version wrote
    it. Saved members, with keys of bytes and times of 64 bits, are loaded as they were;
    and from a file of another version, in which any of the fields with a default may
    be missing and fields without a meaning here may be added, each member is loaded
    as it was, but for the defaults of the missing fields. *)
Theorem stored_roster_roundtrip f ps keep extra :
  Forall typed_joined ps ->
  (forall n, n ∈ joined_required -> keep n = true) -> (forall p, p ∈ extra -> p.1 ∉ joined_names) ->
  load (H := json_roster) (save (H := json_roster) (FileRosterStore f) io_ok ps) true = ps
  /\ (forall buf tmp, of_text (string_of_bytes buf) = Some (json_list (evolved keep extra) ps) ->
        load (H := json_roster) (FileRosterStore (mkFiles (Some buf) tmp)) true = defaulted keep <$> ps).
Proof.
  intros Ht Hk Hx. split.
  - assert (exists buf, peers_to_json (RosterSerde := json_roster) ps = Some buf) as [buf Hb].
    { cbn. rewrite decide_True by done. by eexists. }
    exact (save_ok_load (H := json_roster) (H0 := json_roster_laws) f ps buf Hb).
  - intros buf tmp Hb. cbn. rewrite Hb. cbn [mbind option_bind].
    rewrite (read_list_map read_joined (evolved keep extra) (Some ∘ defaulted keep)).
    + by rewrite mapM_fmap_pure.
    + rewrite Forall_forall in Ht. intros e He. by apply read_joined_evolved; [apply Ht|..].
Qed.
End Texts.

(** A file of before 4via6 hosting and relaying, with a field of a later version. *)
Lemma stored_roster_roundtrip_witness :
  let p := mkPeerJoined "a" [1; 255] "fd5a::1" EmptyString "n" "net" ["t"] ["fd5a::2"] (-3) "peer" None (Some "u") None None true in
  let old := {| pj_peer_id := "a"; pj_wg_public_key := [1; 255]; pj_ula := "fd5a::1"; pj_listen_endpoint := EmptyString;
                pj_display_name := "n"; pj_network := "net"; pj_tags := ["t"]; pj_hosted_app_ulas := [];
                pj_joined_at_micros := -3; pj_kind := "peer"; pj_parent := None; pj_app_uuid := Some "u";
                pj_software_version := None; pj_mesh_version := None; pj_relay_only := false |} in
  let keep n := negb (existsb (String.eqb n) ["hosted_app_ulas"; "relay_only"]) in
  let extra := [("zone", JString "eu")] in
  let buf := bytes_of_string (print (JArray [evolved keep extra p])) in
  let rs := json_roster (H := reference_text) in
  load (H := rs) (save (H := rs) (FileRosterStore (mkFiles None None)) io_ok [p]) true = [p]
  /\ load (H := rs) (FileRosterStore (mkFiles (Some buf) None)) true = [old].
Proof.
  intros p old keep extra buf rs.
  destruct (@stored_roster_roundtrip reference_text reference_text_laws (mkFiles None None) [p] keep extra) as [Hs Hl].
  - by apply (bool_decide_eq_true_1 (Forall typed_joined [p])).
  - intros n Hn. rewrite <- existsb_In in Hn. unfold keep.
    destruct (existsb (String.eqb n) ["hosted_app_ulas"; "relay_only"]) eqn:E; [|done].
    apply existsb_In in E. exfalso.
    apply elem_of_cons in E as [-> | [-> | E%not_elem_of_nil]%elem_of_cons]; [by vm_compute in Hn..|done].
  - intros q [-> | Hq%not_elem_of_nil]%elem_of_cons; [|done]. rewrite <- existsb_In. by vm_compute.
  - split; [exact Hs|]. transitivity (defaulted keep <$> [p]); [apply Hl; by vm_compute|by vm_compute].
Defined.

(** * The event publisher ([publisher.rs])

    The coordinator hands every change of its roster to a publisher behind a trait;
    that the publisher refuses, or an event does not serialise, is logged and
    changes nothing for the coordinator. *)

(** The trait: what one [publish] does to the publisher's own state. *)
Record EventPublisher := mkEventPublisher {
  Store : Type;
  publish : Store -> string -> string -> list Z -> Store * Result unit string;
}.

(** [NoopPublisher] *)
Definition NoopPublisher : EventPublisher :=
  mkEventPublisher unit (fun st _ _ _ => (st, Ok tt)).

Section Publish.
Context (to_vec : MeshEvent -> option (list Z)).

(** [publish_event]; both failures end in a warning of the log. *)
Definition publish_event (p : EventPublisher) (st : Store p) (segment : string) (event : MeshEvent) : Store p :=
  match to_vec event with
  | None => st
  | Some buf =>
      match publish p st (event_type event) segment buf with
      | (st, Err e) => st
      | (st, Ok tt) => st
      end
  end.
(** What becomes of the events of the coordinator, in the order it published them. *)
Definition publish_all (p : EventPublisher) (st : Store p) (events : list MeshEvent) : Store p :=
  foldl (fun st e => publish_event p st PEER_SEGMENT e) st events.
End Publish.

(** ** A journal *)

(** A publisher that keeps what it is given, when it can. *)
Definition journal (accepts : nat -> bool) : EventPublisher :=
  mkEventPublisher (nat * list (string * string * list Z))
    (fun '(n, entries) event_type segment payload =>
       if accepts n then ((S n, entries ++ [(event_type, segment, payload)]), Ok tt)
       else ((S n, entries), Err "full")).

Section Journal.
Context `{JsonText}.
Definition event_to_vec (e : MeshEvent) : option (list Z) := Some (bytes_of_string (to_text (event_json e))).
Definition entry_of (e : MeshEvent) : string * string * list Z :=
  (event_type e, PEER_SEGMENT, bytes_of_string (to_text (event_json e))).

(** The entries of the events whose turn is accepted. *)
Fixpoint accepted (accepts : nat -> bool) (n : nat) (events : list MeshEvent) : list (string * string * list Z) :=
  match events with
  | [] => []
  | e :: events => (if accepts n then [entry_of e] else []) ++ accepted accepts (S n) events
  end.

(** A refusal loses that event and no other; the others are held in order, under their
    type and the segment of the peers. *)
Lemma journal_keeps_order accepts n entries events :
  publish_all event_to_vec (journal accepts) (n, entries) events
  = ((n + length events)%nat, entries ++ accepted accepts n events).
Proof.
  revert n entries. unfold publish_all. induction events as [|e events IH]; intros n entries; cbn [foldl accepted length].
  { by rewrite Nat.add_0_r, app_nil_r. }
  replace (publish_event event_to_vec (journal accepts) (n, entries) PEER_SEGMENT e)
    with (S n, entries ++ if accepts n then [entry_of e] else []).
  2: { unfold publish_event. cbn. destruct (accepts n); [done|by rewrite app_nil_r]. }
  rewrite IH. f_equal; [lia|]. by rewrite app_assoc.
Qed.
Lemma accepted_sublist accepts n events : sublist (accepted accepts n events) (entry_of <$> events).
Proof.
  revert n. induction events as [|e events IH]; intros n; cbn; [done|].
  destruct (accepts n); [apply sublist_skip|apply sublist_cons]; apply IH.
Qed.
End Journal.
