(* ===== verification/ApiProps.v ===== *)
(** * What the HTTP interface promises

    The operator's token guards every operator route; peers are shown only what
    the policy lets them see; queued commands are delivered once; a policy change
    is a compare-and-swap that every subscriber is told of. *)

From S2P Require Import Prelude NetAddr Types Allocator Policy HolePunch DirectFlags.
From S2P Require Import RelayRegistry RosterStore Reflexive Auth Coordinator Apply.
From S2P Require Import Registration Heartbeat CoordInv Membership Joining RelayRoute Topology.
From S2P Require Import Stream Api.

Open Scope Z_scope.

Section ApiProperties.
Context {EX : Externals} {EXL : ExternalLaws} {IT : Iteration} {ITL : IterationLaws}
  {RS : RosterSerde} {CH : Channels} {CS : ClaimsSerde} {UC : UrlCodec} {PS : PolicySerde} {HC : HeaderCodec}.

(** ** The operator's token *)

(** The routes of the operator. *)
Definition operator_request (req : Request) : bool :=
  match req with
  | GetPeers _ | GetTopology | GetStream None | GetPolicy | PutPolicy _ | PostCommand _ _
  | GetCommands _ | PostDirect _ _ _ | GetProactive | PostProactive _ => true
  | _ => false
  end.

(** The request carries the configured token, byte for byte. *)
Definition carries_token (a : ApiState) (headers : HeaderMap) : Prop :=
  exists tok v, admin_token a = Some tok /\ authorization headers = Some v /\
    to_str v = Some ("Bearer " +:+ tok).

Lemma presented_bearer_spec headers tok :
  presented_bearer headers = Some tok <->
  exists v, authorization headers = Some v /\ to_str v = Some ("Bearer " +:+ tok).
Proof.
  unfold presented_bearer. rewrite bind_Some. split.
  - intros (v & Hv & Ht). apply bind_Some in Ht as (t & Ht & Hp). apply strip_prefix_spec in Hp.
    exists v. by rewrite <- Hp.
  - intros (v & Hv & Ht). exists v. split; [done|]. apply bind_Some. eexists. split; [done|].
    by apply strip_prefix_spec.
Qed.

Lemma check_admin_spec a headers label :
  match check_admin a headers label with
  | None => carries_token a headers
  | Some resp => ~ carries_token a headers /\ exists msg, resp = err 401 msg
  end.
Proof.
  unfold check_admin, check_admin_bearer, carries_token.
  destruct (admin_token a) as [tok|]; [|split; [by intros (? & ? & [=] & _)|by eexists]].
  destruct (presented_bearer headers) as [t|] eqn:Hp.
  - apply presented_bearer_spec in Hp as (v & Hv & Ht). case_bool_decide as Heq.
    + subst. by exists tok, v.
    + split; [|by eexists]. intros (? & v' & [= <-] & Hv' & Ht'). by simplify_eq.
  - split; [|by eexists]. intros (? & v & [= <-] & Hv & Ht).
    assert (presented_bearer headers = Some tok) by (apply presented_bearer_spec; by exists v). congruence.
Qed.

(** The operator's interface is closed by default: without the configured token in
    the request, byte for byte after [Bearer ], every operator route, the
    unfiltered event stream included, answers 401 with nothing but an error text
    and changes nothing; with no token configured no request is authorised. *)
Theorem operator_routes_need_the_token env a peer headers req :
  operator_request req = true -> ~ carries_token a headers ->
  exists msg, serve env a peer headers req = Some (a, err 401 msg).
Proof.
  intros Hreq Hn.
  assert (forall label, exists msg, check_admin a headers label = Some (err 401 msg)) as Hc.
  { intros label. pose proof (check_admin_spec a headers label) as Hs.
    destruct (check_admin a headers label); [|done]. destruct Hs as [_ [msg ->]]. by exists msg. }
  destruct req as [| | | | | | |[]| | | | | | |]; try done; simpl;
    unfold peers_handler, topology_handler, stream_handler, get_policy_handler, put_policy_handler,
      post_command_handler, get_commands_handler, post_direct_handler, get_proactive_handler,
      post_proactive_handler;
    match goal with |- context [check_admin _ _ ?l] => destruct (Hc l) as [msg ->]; by exists msg end.
Qed.

(** ** What peers are shown *)

(** [info] is the wire form of another member that the policy lets the member
    [e], under [id], see. *)
Definition shown_to (s : Inner) (id : Uuid) (e : PeerEntry) (info : PeerInfo) : Prop :=
  exists j f, roster s !! j = Some f /\ j <> id /\
    can_see (current (policy_store s)) (tags e) (tags f) = true /\ info = to_info f.

Lemma visible_peers_spec s id e info :
  wf_inner s -> info ∈ visible_peers s id (tags e) <-> shown_to s id e info.
Proof.
  intros Hwf. pose proof (core_id _ _ _ (inner_core _ Hwf)) as Hid.
  unfold visible_peers, shown_to. rewrite list_elem_of_fmap. split.
  - intros (f & -> & Hf). rewrite sort_by_key_perm in Hf.
    apply list_elem_of_In, filter_In in Hf as [Hf [Hne Hc]%andb_true_iff].
    apply list_elem_of_In, entries_spec in Hf as [j Hj]. exists j, f.
    rewrite (Hid _ _ Hj) in Hne. apply negb_true_iff, bool_decide_eq_false in Hne. done.
  - intros (j & f & Hj & Hne & Hc & ->). exists f. split; [done|].
    rewrite sort_by_key_perm. apply list_elem_of_In, filter_In. split.
    + apply list_elem_of_In, entries_spec. by exists j.
    + rewrite Hc, (Hid _ _ Hj), bool_decide_false by done. done.
Qed.

Lemma record_peer_paths_effect s id ps e :
  roster s !! id = Some e ->
  exists edges, roster (record_peer_paths s id ps) = <[id := e <| paths := edges |>]> (roster s) /\
    edges = fst (record_paths id ps ∅ (punch_tracker s)) /\
    policy_store (record_peer_paths s id ps) = policy_store s.
Proof.
  intros He. unfold record_peer_paths. rewrite He.
  destruct (record_paths id ps ∅ (punch_tracker s)) as [edges t]. exists edges.
  split; [|done]. by rewrite (update_entry_Some _ _ _ e).
Qed.

Lemma filter_all {A} (f : A -> bool) l : (forall x, f x = true) -> List.filter f l = l.
Proof. intros Hf. induction l as [|x l IH]; [done|]. simpl. by rewrite Hf, IH. Qed.

Lemma ack_commands_effect s id acked e :
  roster s !! id = Some e ->
  roster (ack_commands s id acked)
  = <[id := e <| pending_commands :=
               List.filter (fun c => negb (bool_decide (command_id c ∈ acked))) (pending_commands e) |>]> (roster s) /\
  policy_store (ack_commands s id acked) = policy_store s.
Proof.
  intros He. unfold ack_commands. destruct acked as [|a acked].
  - split; [|done]. rewrite (insert_id (roster s) id); [done|]. rewrite He. f_equal.
    rewrite filter_all; [by destruct e|]. intros c. by rewrite bool_decide_false by apply not_elem_of_nil.
  - split; [|done]. by rewrite (update_entry_Some _ _ _ e).
Qed.

(** The commands queued for a member, less those it reports as executed. *)
Definition undelivered (e : PeerEntry) (executed : list string) : list NodeCommandDto :=
  List.filter (fun c => negb (bool_decide (command_id c ∈ executed))) (pending_commands e).

(** What one heartbeat request does to the entry, whole. *)
Lemma heartbeat_handler_effect env s peer req id e :
  wf_inner s -> uuid_parse (hr_peer_id req) = Ok id -> roster s !! id = Some e ->
  exists s' r e1 t, heartbeat_handler env s peer req = (s', respond 200 (BodyHeartbeat r)) /\
    heartbeat_keeps e e1 /\ policy_store s' = policy_store s /\
    roster s' = <[id := e1 <| paths := fst (record_paths id (hr_peer_paths req) ∅ t) |>
                           <| dataplane_healthy := hr_dataplane_healthy req |>
                           <| pending_commands := [] |>]> (roster s) /\
    hp_pending_commands r = undelivered e (hr_executed_command_ids req) /\
    hp_peers r = visible_peers s' id (tags e1).
Proof.
  intros Hwf Hu He. unfold heartbeat_handler. rewrite Hu.
  destruct (heartbeat_effect env s id (default EmptyString (fmt_sock <$> peer)) (hr_wg_listen_port req)
    (hr_hosted_app_ulas req) (hr_software_version req) (hr_mesh_version req) (hr_relay_only req) e Hwf He)
    as (s1 & e1 & ps & -> & R1 & (_ & _ & P1 & _) & (K1 & _) & _).
  assert (peer_id e1 = id) as Hid.
  { destruct K1 as [(-> & _) _]. by apply (core_id _ _ _ (inner_core _ Hwf)). }
  rewrite Hid.
  destruct (record_peer_paths_effect s1 id (hr_peer_paths req) e1) as (edges & R2 & Hedges & P2).
  { by rewrite R1, lookup_insert_eq. }
  set (s2 := record_peer_paths s1 id (hr_peer_paths req)) in *.
  assert (roster (record_dataplane_health s2 id (hr_dataplane_healthy req))
    = <[id := e1 <| paths := edges |> <| dataplane_healthy := hr_dataplane_healthy req |>]> (roster s)) as R3.
  { unfold record_dataplane_health. erewrite update_entry_Some by (rewrite R2; apply lookup_insert_eq).
    by rewrite R2, R1, !insert_insert_eq. }
  set (s3 := record_dataplane_health s2 id _) in *.
  destruct (ack_commands_effect s3 id (hr_executed_command_ids req)
    (e1 <| paths := edges |> <| dataplane_healthy := hr_dataplane_healthy req |>)) as [R4 P4].
  { by rewrite R3, lookup_insert_eq. }
  rewrite R3, insert_insert_eq in R4. set (s4 := ack_commands s3 id _) in *.
  unfold drain_commands. rewrite R4, lookup_insert_eq.
  eexists _, _, e1, (punch_tracker s1). split; [done|]. split; [done|]. split_and!.
  - simpl. by rewrite P4, <- P1, <- P2.
  - erewrite update_entry_Some by (rewrite R4; apply lookup_insert_eq).
    by rewrite R4, insert_insert_eq, Hedges.
  - unfold undelivered. simpl. destruct K1 as (_ & _ & _ & _ & _ & _ & _ & _ & _ & _ & Hpc). by rewrite Hpc.
  - done.
Qed.

(** Queued commands are delivered once, in order: the heartbeat of a member answers
    with exactly the commands queued for it that it does not report as executed,
    oldest first, and empties its queue; the queues of other members are
    untouched; whatever is queued afterwards is what the next heartbeat
    delivers. *)
Theorem commands_delivered_once env s peer req id e c :
  wf_inner s -> uuid_parse (hr_peer_id req) = Ok id -> roster s !! id = Some e ->
  exists s' r, heartbeat_handler env s peer req = (s', respond 200 (BodyHeartbeat r)) /\
    hp_pending_commands r = undelivered e (hr_executed_command_ids req) /\
    pending_command_ids s' id = [] /\
    (forall j, j <> id -> pending_command_ids s' j = pending_command_ids s j) /\
    pending_command_ids (enqueue_command s' id c) id = [command_id c].
Proof.
  intros Hwf Hu He.
  destruct (heartbeat_handler_effect env s peer req id e Hwf Hu He) as (s' & r & e1 & t & Hh & _ & _ & Hr & Hp & _).
  exists s', r. split; [done|]. split; [done|]. unfold pending_command_ids. rewrite Hr, lookup_insert_eq.
  split; [done|]. split.
  - intros j Hj. by rewrite lookup_insert_ne.
  - unfold enqueue_command. erewrite update_entry_Some by (rewrite Hr; apply lookup_insert_eq).
    by rewrite lookup_insert_eq.
Qed.

Lemma check_admin_None a headers label : check_admin a headers label = None -> carries_token a headers.
Proof. intros H. pose proof (check_admin_spec a headers label) as Hs. by rewrite H in Hs. Qed.

(** What the answer to each request may contain: the views that the policy narrows are
    those of the member the request names, by its key, its id or as a subscriber. *)
Definition answer_is_confined (a a' : ApiState) (headers : HeaderMap) (req : Request) (resp : Response) : Prop :=
  let s := coordinator a' in
  match body resp with
  | BodyRegister r =>
      exists q reply id e, req = PostRegister q reply /\ roster s !! id = Some e /\
        decode_pubkey (rr_wg_public_key q) = Ok (wg_public_key e) /\ rp_peer_id r = uuid_to_string id /\
        rp_ula r = fmt_ipv6 (ula e) /\ forall info, info ∈ rp_peers r <-> shown_to s id e info
  | BodyHeartbeat r =>
      exists q id e, req = PostHeartbeat q /\ uuid_parse (hr_peer_id q) = Ok id /\ roster s !! id = Some e /\
        forall info, info ∈ hp_peers r <-> shown_to s id e info
  | BodyStream (Some (id, vt)) _ =>
      exists raw e, req = GetStream (Some raw) /\ uuid_parse raw = Ok id /\ roster s !! id = Some e /\ vt = tags e
  | BodyRelay pk _ =>
      exists raw lane id, req = GetRelay raw lane /\ b64url_decode raw = Some pk /\ by_pubkey s !! pk = Some id
  | BodyRoster _ | BodyTopology _ | BodyPolicy _ _ | BodyPending _ | BodyProactive _ | BodyStream None _ =>
      operator_request req = true /\ carries_token a headers
  | Empty | ApiError _ | BodyText _ => True
  end.

Lemma register_confined env a headers reply req observed s' resp :
  wf_inner (coordinator a) -> roster (coordinator a) !! fresh_id env = None ->
  register_handler env (coordinator a) observed headers reply req = Some (s', resp) ->
  answer_is_confined a (a <| coordinator := s' |>) headers (PostRegister req reply) resp.
Proof.
  intros Hwf Hid H. unfold register_handler in H. apply bind_Some in H as ([s1 r] & Hr & H).
  pose proof (wf_register_authenticated _ _ _ _ _ _ _ _ Hwf Hid Hr) as Hw.
  destruct r as [[entry outcome]|e]; injection H as <- <-; [|done].
  destruct (register_Ok_effect _ _ _ _ _ _ _ _ _ Hwf Hid Hr) as (Hs & Hk & _).
  exists req, reply, (peer_id entry), entry. simpl. split_and!; try done.
  intros info. by apply visible_peers_spec.
Qed.

Lemma wf_heartbeat_handler env s peer req : wf_inner s -> wf_inner (heartbeat_handler env s peer req).1.
Proof.
  intros Hwf. unfold heartbeat_handler. destruct (uuid_parse _) as [id|]; [|done].
  pose proof (wf_heartbeat env s id (default EmptyString (fmt_sock <$> peer)) (hr_wg_listen_port req)
    (hr_hosted_app_ulas req) (hr_software_version req) (hr_mesh_version req) (hr_relay_only req) Hwf) as Hw.
  destruct (heartbeat _ _ _ _ _ _ _ _ _) as [s1 [entry|e]]; [|done]. simpl in Hw.
  assert (wf_inner (ack_commands (record_dataplane_health (record_peer_paths s1 (peer_id entry)
    (hr_peer_paths req)) (peer_id entry) (hr_dataplane_healthy req)) (peer_id entry) (hr_executed_command_ids req))) as Ha.
  { unfold ack_commands. assert (wf_inner (record_dataplane_health (record_peer_paths s1 (peer_id entry)
      (hr_peer_paths req)) (peer_id entry) (hr_dataplane_healthy req))) as Hd.
    { apply wf_update_entry; [by apply wf_record_paths|by repeat split]. }
    destruct (hr_executed_command_ids req); [done|]. apply wf_update_entry; [done|by repeat split]. }
  unfold drain_commands. destruct (roster _ !! _); simpl; [|done].
  apply wf_update_entry; [done|by repeat split].
Qed.

Lemma heartbeat_confined env a headers peer req :
  wf_inner (coordinator a) ->
  answer_is_confined a (a <| coordinator := (heartbeat_handler env (coordinator a) peer req).1 |>) headers (PostHeartbeat req)
    (heartbeat_handler env (coordinator a) peer req).2.
Proof.
  intros Hwf. pose proof (wf_heartbeat_handler env _ peer req Hwf) as Hw.
  destruct (uuid_parse (hr_peer_id req)) as [id|] eqn:Hu.
  2: { unfold heartbeat_handler. by rewrite Hu. }
  destruct (roster (coordinator a) !! id) as [e|] eqn:He.
  2: { unfold heartbeat_handler. rewrite Hu. unfold heartbeat. by rewrite He. }
  destruct (heartbeat_handler_effect env _ peer req id e Hwf Hu He) as (s' & r & e1 & t & Hh & _ & _ & Hr & _ & Hp).
  rewrite Hh in *. cbn [fst snd] in *. unfold answer_is_confined. simpl. eexists req, id, _. rewrite Hr.
  split; [done|]. split; [done|]. split; [apply lookup_insert_eq|].
  intros info. rewrite Hp. exact (visible_peers_spec s' id e1 info Hw).
Qed.

(** The operator's handlers, read-only and changing. *)
Lemma gated a a' headers req label resp :
  (carries_token a headers -> answer_is_confined a a' headers req resp) ->
  answer_is_confined a a' headers req (match check_admin a headers label with Some r => r | None => resp end).
Proof.
  intros H. pose proof (check_admin_spec a headers label) as Hs.
  destruct (check_admin a headers label); [by destruct Hs as [_ [msg ->]]|auto].
Qed.
Lemma gated_step a a' headers req label resp (step : ApiState * Response) :
  (match check_admin a headers label with Some r => (a, r) | None => step end) = (a', resp) ->
  (step = (a', resp) -> carries_token a headers -> answer_is_confined a a' headers req resp) ->
  answer_is_confined a a' headers req resp.
Proof.
  intros Hm H. pose proof (check_admin_spec a headers label) as Hs.
  destruct (check_admin a headers label); [|auto].
  destruct Hs as [_ [msg ->]]. by injection Hm as <- <-.
Qed.

(** C4: Answers are confined: whatever the request, a registration or heartbeat answers
    with exactly the other members that the policy in force lets the requester
    see, the member with the key that the registration is for or the id that the
    heartbeat carries; a filtered event stream is opened only for the member that
    the request names and with that member's tags; a relay socket only for the key
    of the request, which is indexed; and the full roster, topology, policy, command
    queues and unfiltered stream only on the operator's routes under its token. *)
Theorem answers_are_confined env a peer headers req a' resp :
  wf_inner (coordinator a) -> roster (coordinator a) !! fresh_id env = None ->
  serve env a peer headers req = Some (a', resp) ->
  answer_is_confined a a' headers req resp.
Proof.
  intros Hwf Hid. destruct req; simpl; intros Hs.
  - apply fmap_Some in Hs as ([s' r'] & Hr & [= -> ->]). by eapply register_confined.
  - pose proof (heartbeat_confined env a headers peer req Hwf) as Hc.
    destruct (heartbeat_handler _ _ _ _) as [s' r']. by injection Hs as <- <-.
  - unfold deregister_handler in Hs. destruct (uuid_parse _); by injection Hs as <- <-.
  - by injection Hs as <- <-.
  - injection Hs as <- <-. unfold relay_ws_handler. destruct (b64url_decode pubkey) as [pk|] eqn:Hd; [|done].
    destruct (negb _); [done|]. unfold is_registered_pubkey. case_bool_decide as Hk; simpl; [|done].
    destruct Hk as [id Hk]. by exists pubkey, lane, id.
  - injection Hs as <- <-. by apply gated; split.
  - injection Hs as <- <-. by apply gated; split.
  - injection Hs as <- <-. unfold stream_handler. destruct peer_id as [raw|]; [|by apply gated; split].
    destruct (uuid_parse raw) as [id|] eqn:Hu; simpl; [|done]. unfold peer_tags.
    destruct (roster _ !! id) as [e|] eqn:He; simpl; [|done]. by exists raw, e.
  - injection Hs as <- <-. by apply gated; split.
  - injection Hs as Hs. apply (gated_step _ _ _ _ _ _ _ Hs). clear Hs. intros Hs Ht.
    destruct (_ ≫= _) as [tag|]; [|by injection Hs as <- <-].
    cbv zeta in Hs. destruct (replace (counter a) (policy_store (coordinator a)) tag new_policy) as [[c st] [|[]]];
      by injection Hs as <- <-.
  - injection Hs as Hs. apply (gated_step _ _ _ _ _ _ _ Hs). clear Hs. intros Hs Ht.
    unfold parse_peer in Hs. destruct (uuid_parse _); by injection Hs as <- <-.
  - injection Hs as <- <-. apply gated. intros Ht. unfold parse_peer. by destruct (uuid_parse _).
  - injection Hs as Hs. apply (gated_step _ _ _ _ _ _ _ Hs). clear Hs. intros Hs Ht.
    unfold parse_peer in Hs. destruct (uuid_parse _); [destruct (uuid_parse _)|]; by injection Hs as <- <-.
  - injection Hs as <- <-. by apply gated; split.
  - injection Hs as Hs. apply (gated_step _ _ _ _ _ _ _ Hs). clear Hs. intros Hs Ht. by injection Hs as <- <-.
Qed.

(** ** Changing the policy *)

Lemma resync_effect s :
  broadcasts (resync_all_peers s) = broadcasts s ++ (Updated <$> roster_snapshot s) /\
  roster (resync_all_peers s) = roster s /\ by_pubkey (resync_all_peers s) = by_pubkey s /\
  allocator (resync_all_peers s) = allocator s /\ policy_store (resync_all_peers s) = policy_store s /\
  punch_tracker (resync_all_peers s) = punch_tracker s /\ relay_pair_stats (resync_all_peers s) = relay_pair_stats s.
Proof.
  unfold resync_all_peers. generalize (roster_snapshot s). intros l. revert s.
  induction l as [|x l IH]; intros s; cbn [foldl]; [by rewrite fmap_nil, app_nil_r|].
  destruct (IH (broadcast s (Updated x))) as (H1 & H2 & H3 & H4 & H5 & H6 & H7).
  rewrite H1, H2, H3, H4, H5, H6, H7. simpl. by rewrite <- app_assoc.
Qed.

Definition if_match_text (headers : HeaderMap) : option string := v ← if_match headers; to_str v.

(** Replacing the policy over HTTP is a guarded compare-and-swap that every
    subscriber hears of: without the operator's token 401, without an If-Match
    header 428, with a policy that validation rejects 422, with an etag that is
    not the current one 412 and the current etag in the header; on each of these
    the coordinator is as it was. Otherwise 200, the policy in force is the new
    one, the response carries its etag, one update per member is broadcast, and
    the members are unchanged. *)
Theorem put_policy_table a headers p a' resp :
  put_policy_handler a headers p = (a', resp) ->
  let cur := inner (policy_store (coordinator a)) in
  (status resp <> 200 -> coordinator a' = coordinator a) /\
  (~ carries_token a headers -> status resp = 401) /\
  (carries_token a headers ->
   match if_match_text headers with
   | None => status resp = 428
   | Some tag =>
       match validate p with
       | Err _ => status resp = 422
       | Ok _ =>
           (tag <> etag cur -> status resp = 412 /\ etag_header resp = Some (etag cur)) /\
           (tag = etag cur ->
              status resp = 200 /\ current (policy_store (coordinator a')) = p /\
              etag_header resp = Some (etag (inner (policy_store (coordinator a')))) /\
              roster (coordinator a') = roster (coordinator a) /\
              by_pubkey (coordinator a') = by_pubkey (coordinator a) /\
              broadcasts (coordinator a')
                = broadcasts (coordinator a) ++ (Updated <$> roster_snapshot (coordinator a)))
       end
   end).
Proof.
  intros Hp. unfold put_policy_handler in Hp. fold (if_match_text headers) in Hp.
  pose proof (check_admin_spec a headers "policy") as Hc.
  destruct (check_admin a headers "policy").
  { destruct Hc as [Hc [msg ->]]. injection Hp as <- <-. by split_and!. }
  split; [|split; [done|intros _]].
  - intros Hst. destruct (if_match_text headers) as [tag|]; [|by injection Hp as <- <-].
    cbv zeta in Hp. unfold replace in Hp. destruct (validate p) as [[]|]; [|injection Hp as <- <-; by destruct (coordinator a)].
    case_bool_decide; injection Hp as <- <-; [by destruct (coordinator a)|done].
  - destruct (if_match_text headers) as [tag|]; [|by injection Hp as <- <-].
    cbv zeta in Hp. unfold replace in Hp. destruct (validate p) as [[]|]; [|by injection Hp as <- <-].
    case_bool_decide as Ht; [by injection Hp as <- <-; split|].
    split; [congruence|]. intros _. cbn in Hp. injection Hp as <- <-.
    match goal with |- context [resync_all_peers ?x] => destruct (resync_effect x) as (H1 & H2 & H3 & _ & H5 & _);
      set (s' := resync_all_peers x) in * end.
    simpl. rewrite H1, H2, H3. unfold current. rewrite H5. by split_and!.
Qed.
End ApiProperties.
