(* ===== verification/Boot.v ===== *)
(** * Starting the coordinator ([main.rs])

    From the arguments to a coordinator that serves: the policy, the decision on join
    tokens, the durable roster, and under which protection it is served. *)

From S2P Require Import Prelude NetAddr Types Allocator Policy HolePunch DirectFlags.
From S2P Require Import RelayFrame RelayRegistry RosterStore Reflexive Auth Coordinator Apply.
From S2P Require Import CoordInv Restart Api.

Open Scope Z_scope.

Record Args := mkArgs {
  arg_bind : SocketAddr;
  heartbeat_timeout_secs : Z;
  tls_cert : option string;
  tls_key : option string;
  tls_ca : option string;
  insecure_no_mtls : bool;
  arg_proactive : bool;
  policy_file : option string;
  arg_admin_token : option string;
  state_dir : option string;
  auth_url : option string;
  stun_bind : option SocketAddr;
}.

Inductive BootError :=
| LoadPolicy (e : LoadError) | BuildValidator (e : ValidationError)
| InsecureRefused | CertRequired | KeyRequired | CaRequired | ServerConfig | BindFailed.

(** What the start meets outside: the policy file, the roster's files, and whether the
    HTTP client of the validator can be built. *)
Record Surrounding := mkSurrounding {
  read_policy : string -> Result string string;
  policy_from_str : string -> Result Policy string;
  roster_files : string -> Files;
  roster_readable : bool;
  http_client : Result unit string;
}.

Section Boot.
Context {EX : Externals} {IT : Iteration} {RS : RosterSerde} {PS : PolicySerde}.

Definition build_roster_store (o : Surrounding) (dir : option string) : RosterStore :=
  match dir with None => NoopRosterStore | Some dir => FileRosterStore (roster_files o dir) end.
Definition build_validator (o : Surrounding) (url : option string) : Result (option AuthValidator) BootError :=
  match url with
  | None => Ok None
  | Some url =>
      let? validator := map_err BuildValidator (AuthValidator_new url (http_client o)) in
      Ok (Some validator)
  end.

(** [main] up to the sweeper: the state the router is built over. *)
Definition boot (env : Env) (o : Surrounding) (args : Args) : Result ApiState BootError :=
  let? policy_store :=
    match policy_file args with
    | Some path => map_err LoadPolicy (load_from_file (read_policy o path) (policy_from_str o))
    | None => Ok store_bootstrap
    end in
  let? validator := build_validator o (auth_url args) in
  let roster_store := build_roster_store o (state_dir args) in
  let coordinator :=
    with_policy_validator_store (heartbeat_timeout_secs args * 1000000) policy_store (bool_decide (is_Some validator))
      roster_store in
  let coordinator := set_proactive coordinator (arg_proactive args) in
  let coordinator := restore env coordinator (roster_readable o) in
  Ok (mkApiState NONCE_INIT coordinator (arg_admin_token args)).

(** How it is served. *)
Inductive Serving := PlainHttp | MutualTls (cert key ca : string).

(** The end of [main]: [allow_insecure] is the environment variable
    [TABBIFY_ALLOW_INSECURE]. *)
Definition serving (args : Args) (allow_insecure : option string) (config_builds bind_ok : bool) : Result Serving BootError :=
  if insecure_no_mtls args then
    if negb (bool_decide (allow_insecure = Some "1")) then Err InsecureRefused
    else if bind_ok then Ok PlainHttp else Err BindFailed
  else
    match tls_cert args, tls_key args, tls_ca args with
    | None, _, _ => Err CertRequired
    | _, None, _ => Err KeyRequired
    | _, _, None => Err CaRequired
    | Some cert, Some key, Some ca =>
        if negb config_builds then Err ServerConfig
        else if bind_ok then Ok (MutualTls cert key ca) else Err BindFailed
    end.

(** Plain HTTP takes the flag and the variable, both; without the flag the coordinator
    either demands certificates or does not serve. *)
Lemma plain_http_is_opted_in args allow_insecure config_builds bind_ok :
  match serving args allow_insecure config_builds bind_ok with
  | Ok PlainHttp => insecure_no_mtls args = true /\ allow_insecure = Some "1"
  | Ok (MutualTls cert key ca) => insecure_no_mtls args = false
      /\ tls_cert args = Some cert /\ tls_key args = Some key /\ tls_ca args = Some ca /\ config_builds = true
  | Err e => match e with LoadPolicy _ | BuildValidator _ => False | _ => True end
  end.
Proof.
  unfold serving. destruct (insecure_no_mtls args).
  - case_bool_decide; simpl; [|done]. by destruct bind_ok.
  - destruct (tls_cert args), (tls_key args), (tls_ca args); try done. destruct config_builds; simpl; [|done].
    by destruct bind_ok.
Qed.
End Boot.

Section Booted.
Context {EX : Externals} {EXL : ExternalLaws} {IT : Iteration} {ITL : IterationLaws} {RS : RosterSerde} {PS : PolicySerde}.

Lemma load_from_file_valid raw from_str st : load_from_file raw from_str = Ok st -> validate (current st) = Ok tt.
Proof.
  unfold load_from_file. destruct raw as [raw|]; simpl; [|done]. destruct (from_str raw) as [p|]; simpl; [|done].
  destruct (validate p) as [[]|e] eqn:Hv; simpl; [|done]. intros [= <-]. exact Hv.
Qed.

(** What a stored roster must be for a start to make sense of it: the events of members
    that can be members together, or nothing that can be read. *)
Definition well_stored (st : RosterStore) : Prop :=
  forall read_ok, exists l, compatible l /\ RosterStore.load st read_ok = to_joined_event <$> l.

(** Restoring changes the roster, its index and the allocator only. *)
Lemma restore_rest env s l :
  let s' := foldl (fun s event => fst (apply_peer_joined env s event)) s l in
  relay s' = relay s /\ policy_store s' = policy_store s /\ has_validator s' = has_validator s
  /\ proactive s' = proactive s /\ roster_store s' = roster_store s /\ heartbeat_timeout s' = heartbeat_timeout s.
Proof.
  revert s. induction l as [|event l IH]; intros s; [done|]. cbn [foldl].
  assert (forall t, t = fst (apply_peer_joined env s event) -> relay t = relay s /\ policy_store t = policy_store s
    /\ has_validator t = has_validator s /\ proactive t = proactive s /\ roster_store t = roster_store s
    /\ heartbeat_timeout t = heartbeat_timeout s) as Hone.
  { intros t ->. unfold apply_peer_joined. destruct (uuid_parse _) as [id|]; [|done]. destruct (parse_ipv6 _) as [addr|]; [|done].
    by destruct (held_by_other _ _ _). }
  specialize (Hone _ eq_refl). specialize (IH (fst (apply_peer_joined env s event))). naive_solver congruence.
Qed.

(** A coordinator that has booted: its roster satisfies the invariant, its policy is
    valid, nothing is relayed yet, it keeps the roster where it was told to, and it
    checks tokens exactly when it was given the auth service. *)
Lemma booted env o args a :
  well_stored (build_roster_store o (state_dir args)) ->
  boot env o args = Ok a ->
  wf_inner (coordinator a)
  /\ validate (current (policy_store (coordinator a))) = Ok tt
  /\ relay (coordinator a) = registry_new
  /\ roster_store (coordinator a) = build_roster_store o (state_dir args)
  /\ has_validator (coordinator a) = bool_decide (is_Some (auth_url args))
  /\ proactive (coordinator a) = arg_proactive args
  /\ admin_token a = arg_admin_token args.
Proof.
  intros Hst. unfold boot.
  destruct (match policy_file args with Some _ => _ | None => _ end) as [p|e] eqn:Hp; [|done].
  assert (validate (current p) = Ok tt) as Hv.
  { destruct (policy_file args) as [path|]; [|by injection Hp as <-].
    destruct (load_from_file _ _) as [p'|] eqn:Hl; [|done]. injection Hp as <-. by apply load_from_file_valid in Hl. }
  destruct (build_validator o (auth_url args)) as [v|] eqn:Hb; [|done]. intros [= <-]. cbn [coordinator admin_token].
  assert (bool_decide (is_Some v) = bool_decide (is_Some (auth_url args))) as ->.
  { unfold build_validator, AuthValidator_new in Hb. destruct (auth_url args); [|by injection Hb as <-].
    destruct (http_client o); [|done]. by injection Hb as <-. }
  set (s := set_proactive _ _). destruct (Hst (roster_readable o)) as (l & Hc & Hl).
  assert (wf_inner s) as Hw by (by eapply wf_inner_same; [apply (wf_inner_new 0 p true NoopRosterStore)|..]).
  unfold restore. change (roster_store s) with (build_roster_store o (state_dir args)). rewrite Hl.
  destruct (restore_rest env s (to_joined_event <$> l)) as (H1 & H2 & H3 & H4 & H5 & _).
  rewrite H1, H2, H3, H4, H5. split; [|done].
  apply restore_entries; [done|done|]. intros e _. simpl. split_and!; [by apply lookup_empty..|].
  intros j f Hj. by rewrite lookup_empty in Hj.
Qed.
End Booted.
