(* ===== verification/System.v ===== *)
(** * The coordinator as a system

    Every way in which the coordinator's state can change, as steps of one
    transition system, and what holds in every state it can reach: requests,
    relay sockets opening, sending and closing, and the sweeper, in any order. *)

From S2P Require Import Prelude NetAddr Contract Types Allocator Policy HolePunch DirectFlags.
From S2P Require Import RelayFrame RelayRegistry RosterStore Reflexive Auth Coordinator Apply.
From S2P Require Import Registration Heartbeat CoordInv Membership Joining Restart RelayRoute.
From S2P Require Import Topology Stream Api ApiProps.

Open Scope Z_scope.

#[export] Instance SpooledFrame_eq_dec : EqDecision SpooledFrame.
Proof. solve_decision. Defined.

Section System.
Context {EX : Externals} {EXL : ExternalLaws} {IT : Iteration} {ITL : IterationLaws}
  {RS : RosterSerde} {CH : Channels} {CS : ClaimsSerde} {UC : UrlCodec} {PS : PolicySerde} {HC : HeaderCodec}.

Definition on_coordinator (a : ApiState) (f : Inner -> Inner) : ApiState :=
  a <| coordinator := f (coordinator a) |>.
Definition on_relay (s : Inner) (f : RelayRegistry -> RelayRegistry) : Inner :=
  s <| relay := f (relay s) |>.

(** What can happen to the running coordinator. *)
Inductive Occurrence :=
| Requested (env : Env) (peer : option SocketAddr) (headers : HeaderMap) (req : Request) (resp : Response)
| RelayOpened (env : Env) (pk : list Z) (lane : Lane) (tx : Sender)
| UplinkRead (env : Env) (pk buf : list Z)
| RelayClosed (pk : list Z) (lane : Lane) (id : Z)
| Swept (env : Env).

(** A relay socket may be opened for a key only while the key is a member's
    ([relay_ws_handler]); it may send and be closed at any later time. *)
Inductive occurs : Occurrence -> ApiState -> ApiState -> Prop :=
| step_request env a peer headers req a' resp :
    roster (coordinator a) !! fresh_id env = None ->
    serve env a peer headers req = Some (a', resp) -> occurs (Requested env peer headers req resp) a a'
| step_open env a pk lane tx :
    next_id (relay (coordinator a)) < u64_max ->
    occurs (RelayOpened env pk lane tx) a
      (on_coordinator a (fun s => on_relay s (fun r => fst (register r (now env) pk lane tx))))
| step_uplink env a pk buf :
    occurs (UplinkRead env pk buf) a (on_coordinator a (fun s => fst (route_uplink env s pk buf)))
| step_close a pk lane id :
    occurs (RelayClosed pk lane id) a (on_coordinator a (fun s => on_relay s (fun r => unregister r pk lane id)))
| step_sweep env a : occurs (Swept env) a (on_coordinator a (sweep_once env)).

Definition step (a a' : ApiState) : Prop := exists o, occurs o a a'.

(** ** The relay's part of the invariant *)

(** Frames are held only for members. *)
Definition spool_owned (s : Inner) : Prop :=
  forall pk q, spool (relay s) !! pk = Some q -> is_Some (by_pubkey s !! pk).
Definition relay_safe (s : Inner) : Prop := wf_registry (relay s) /\ spool_owned s.

Lemma relay_safe_grow s s' :
  relay_safe s -> relay s' = relay s ->
  (forall pk, is_Some (by_pubkey s !! pk) -> is_Some (by_pubkey s' !! pk)) -> relay_safe s'.
Proof. intros [H1 H2] Hr Hb. split; unfold spool_owned; rewrite Hr; [done|]. intros pk q Hq. by eapply Hb, H2. Qed.

Lemma relay_safe_same s s' :
  relay_safe s -> relay s' = relay s -> by_pubkey s' = by_pubkey s -> relay_safe s'.
Proof. intros Hs Hr Hb. apply (relay_safe_grow s); [done|done|by rewrite Hb]. Qed.

Lemma relay_safe_remove s id e : relay_safe s -> relay_safe (remove_entry s id e).
Proof.
  intros [H1 H2]. split; simpl; [by apply wf_drop|].
  intros pk q. simpl. rewrite lookup_delete_Some. intros [Hne Hq].
  rewrite lookup_delete_ne by done. by eapply H2.
Qed.

Lemma relay_safe_apply_left s ev : relay_safe s -> relay_safe (apply_peer_left s ev).
Proof.
  intros Hs. unfold apply_peer_left. destruct (uuid_parse _) as [id|]; [|done].
  destruct (roster s !! id); [by apply relay_safe_remove|done].
Qed.

Lemma relay_safe_deregister env s id reason : relay_safe s -> relay_safe (deregister env s id reason).1.
Proof.
  intros Hs. unfold deregister. destruct (tags <$> roster s !! id); [|done]. simpl.
  eapply relay_safe_same; [apply relay_safe_apply_left|done..].
  by apply (relay_safe_same s).
Qed.

Lemma relay_safe_sweep env s : relay_safe s -> relay_safe (sweep_once env s).
Proof.
  intros [H1 H2]. unfold sweep_once.
  assert (relay_safe (reap_stale_resources env s)) as Hr.
  { split; [exact (wf_reap_spool _ _ (wf_reap_closed _ H1))|].
    intros pk q. simpl. rewrite map_lookup_filter_Some, lookup_fmap.
    intros [(q0 & Hq & _)%fmap_Some _]. by eapply H2. }
  revert Hr. generalize (reap_stale_resources env s). intros s1.
  generalize (stale_peers s1 (now env)). intros ids. revert s1.
  induction ids as [|id ids IH]; intros s1 Hr; cbn [foldl]; [done|]. by apply IH, relay_safe_deregister.
Qed.

Lemma relay_safe_evict env s ru : relay_safe s -> relay_safe (evict_stale_ula_holder env s ru).
Proof.
  intros Hs. unfold evict_stale_ula_holder.
  destruct ru as [raw|]; [|done]. destruct (parse_ipv6 raw) as [addr|]; [|done].
  destruct (peer_id <$> holder_of s addr) as [h|]; [|done]. destruct (negb _); [done|].
  eapply relay_safe_same; [apply relay_safe_apply_left|done..]. by apply (relay_safe_same s).
Qed.

Lemma refresh_existing_relay env s id req claims resolved observed :
  relay (refresh_existing env s id req claims resolved observed).1 = relay s /\
  by_pubkey (refresh_existing env s id req claims resolved observed).1 = by_pubkey s.
Proof.
  unfold refresh_existing. destruct (roster s !! id) as [old|]; [|done].
  destruct (_ && _); [|done].
  destruct (allocate _ _) as [a [[i addr]|e]]; simpl; [|done]. by destruct (held_by_other _ _ _).
Qed.

Lemma relay_safe_register_new env s req claims pubkey resolved observed :
  relay_safe s -> relay_safe (register_new env s req claims pubkey resolved observed).1.
Proof.
  intros Hs. unfold register_new. apply (relay_safe_evict env s (rr_requested_ula req)) in Hs.
  set (s1 := evict_stale_ula_holder env s (rr_requested_ula req)) in *.
  set (identity := stamp_identity req claims).
  destruct (resolve_ula_same s1 (ni_network identity) (rr_requested_ula req)) as [_ Hb].
  assert (relay (resolve_ula s1 (ni_network identity) (rr_requested_ula req)).1 = relay s1) as Hr.
  { unfold resolve_ula. destruct (rr_requested_ula req) as [raw|].
    - destruct (parse_ipv6 raw); [|done]. destruct (negb _); [done|]. destruct (_ && _ && _); [done|].
      by destruct (existsb _ _).
    - by destruct (allocate _ _). }
  destruct (resolve_ula s1 _ _) as [s2 [[i addr]|e]]; simpl in *; [|by apply (relay_safe_same s1)].
  unfold apply_peer_joined; simpl.
  destruct (uuid_parse _) as [id|]; [|by apply (relay_safe_same s1)].
  destruct (parse_ipv6 _) as [a|]; [|by apply (relay_safe_same s1)].
  destruct (held_by_other _ a id); [by apply (relay_safe_same s1)|].
  apply (relay_safe_grow s1); [done|done|]. simpl. rewrite Hb. intros pk Hpk.
  apply lookup_insert_is_Some'. by right.
Qed.

Lemma relay_safe_register env s req bearer reply observed s' r :
  relay_safe s -> register_authenticated env s req bearer reply observed = Some (s', r) -> relay_safe s'.
Proof.
  intros Hs. unfold register_authenticated.
  destruct (authenticate s bearer reply) as [[claims|e]|]; [|by intros [= <- _]|done].
  destruct (authorize_fixed_requested_ula _ _); [|by intros [= <- _]].
  destruct (decode_pubkey _) as [pubkey|]; [|by intros [= <- _]].
  destruct (length pubkey =? 32)%nat; simpl; [|by intros [= <- _]].
  destruct (by_pubkey s !! pubkey) as [id|].
  - match goal with |- context [refresh_existing ?a ?b ?c ?d ?e ?f ?g] =>
      destruct (refresh_existing_relay a b c d e f g) as [H1 H2];
      destruct (refresh_existing a b c d e f g) as [s1 [entry|e1]] end;
      intros [= <- _]; by apply (relay_safe_same s).
  - intros [= Heq]. match goal with H : register_new ?a ?b ?c ?d ?e ?f ?g = _ |- _ =>
      pose proof (relay_safe_register_new a b c d e f g Hs) as Hw; by rewrite H in Hw end.
Qed.

Definition untouched (s s' : Inner) : Prop := relay s' = relay s /\ by_pubkey s' = by_pubkey s /\ policy_store s' = policy_store s.

Lemma heartbeat_handler_relay env s peer req :
  wf_inner s -> untouched s (heartbeat_handler env s peer req).1.
Proof.
  intros Hwf. unfold heartbeat_handler. destruct (uuid_parse _) as [id|]; [|done].
  destruct (roster s !! id) as [e|] eqn:He.
  2: { unfold heartbeat. by rewrite He. }
  destruct (heartbeat_effect env s id (default EmptyString (fmt_sock <$> peer)) (hr_wg_listen_port req)
    (hr_hosted_app_ulas req) (hr_software_version req) (hr_mesh_version req) (hr_relay_only req) e Hwf He)
    as (s1 & e1 & ps & -> & _ & (B1 & _ & P1 & R1 & _) & _).
  unfold untouched. rewrite <- R1, <- B1, <- P1.
  assert (forall s ps, untouched s (record_peer_paths s (peer_id e1) ps)) as U1.
  { intros s' ps'. unfold record_peer_paths. destruct (roster s' !! _); [|done].
    by destruct (record_paths _ _ _ _). }
  assert (forall s acked, untouched s (ack_commands s (peer_id e1) acked)) as U2.
  { intros s' acked. by destruct acked. }
  assert (forall s, untouched s (fst (drain_commands s (peer_id e1)))) as U3.
  { intros s'. unfold drain_commands. by destruct (roster s' !! _). }
  set (s2 := record_peer_paths s1 _ _). set (s3 := ack_commands _ _ _).
  specialize (U3 s3). destruct (drain_commands s3 (peer_id e1)) as [s4 cs]. simpl in U3.
  destruct U3 as (U3 & U3' & U3''), (U2 (record_dataplane_health s2 (peer_id e1) (hr_dataplane_healthy req))
    (hr_executed_command_ids req)) as (U4 & U4' & U4''),
    (U1 s1 (hr_peer_paths req)) as (U5 & U5' & U5'').
  simpl. rewrite U3, U3', U3''. subst s3. rewrite U4, U4', U4''. by rewrite <- U5, <- U5', <- U5''.
Qed.

(** ** Routing *)

Lemma forward_relay_safe s t dst frame prio :
  relay_safe s -> is_Some (by_pubkey s !! dst) ->
  relay_safe (s <| relay := fst (forward (relay s) t dst frame prio) |>).
Proof.
  intros [H1 H2] Hd. split; simpl; [exact (wf_step _ _ H1 (step_forward _ t dst frame prio))|].
  intros pk q Hq. simpl in *. destruct (decide (spool (relay s) !! pk = Some q)) as [Hs|Hs]; [by eapply H2|].
  apply forward_new_spool in Hq as [-> _]; done.
Qed.

Lemma relay_safe_uplink env s pk buf : relay_safe s -> relay_safe (fst (route_uplink env s pk buf)).
Proof.
  intros Hs. unfold route_uplink. destruct (decode_relay_frame buf) as [[dst payload]|]; [|done].
  destruct (can_relay s pk dst) eqn:Hc; simpl; [|done].
  apply can_relay_spec in Hc as (i & j & a & b & _ & Hj & _).
  set (prio := match head payload with Some t => _ | None => false end).
  pose proof (forward_relay_safe s (now env) dst (encode_relay_frame pk payload) prio Hs ltac:(by exists j)) as Hf.
  destruct (forward (relay s) (now env) dst (encode_relay_frame pk payload) prio) as [r [|]]; cbn [fst] in Hf.
  - eapply relay_safe_same; [exact Hf| |]; unfold note_relay_pair_forwarded; simpl;
      destruct (by_pubkey s !! pk); try done; by destruct (by_pubkey s !! dst).
  - destruct (_ && _); [|done]. destruct (peer_for_pubkey _ dst) as [[]|]; [|done].
    destruct (peer_for_pubkey _ pk) as [[]|]; [|done]. simpl relay.
    assert (relay_safe (s <| relay := fst (take_wake_slot r (now env) dst) |>)) as Hw.
    { destruct Hf as [F1 F2]. split; simpl; [exact (wf_step _ _ F1 (step_wake _ (now env) dst))|].
      intros k q Hq. apply (F2 k q). simpl in *. revert Hq. unfold take_wake_slot.
      by destruct (wake_cooldown r !! dst); [destruct (_ <=? _)|]. }
    destruct (take_wake_slot r (now env) dst) as [r' []]; cbn [fst] in Hw; by apply (relay_safe_same _ _ Hw).
Qed.

Lemma wf_uplink env s pk buf : wf_inner s -> wf_inner (fst (route_uplink env s pk buf)).
Proof.
  intros Hwf. destruct (route_uplink_frame env s pk buf) as (Hr & Hb & Ha & Hp & _).
  destruct Hwf as [H1 H2 H3]. split; rewrite ?Hr, ?Hb, ?Ha, ?Hp; [done|done|].
  unfold route_uplink. destruct (decode_relay_frame buf) as [[dst payload]|]; [|done].
  destruct (can_relay s pk dst) eqn:Hc; simpl; [|done].
  destruct (forward _ _ _ _ _) as [r [|]]; simpl.
  - apply can_relay_spec in Hc as (i & j & a & b & Hi & Hj & Hia & Hjb & _).
    unfold note_relay_pair_forwarded; simpl. rewrite Hi, Hj. simpl.
    intros p v. rewrite lookup_insert. case_decide; [|apply H3]. subst. simpl. intros _. by rewrite Hia, Hjb.
  - destruct (_ && _); [|done]. destruct (peer_for_pubkey _ dst) as [[]|]; [|done].
    destruct (peer_for_pubkey _ pk) as [[]|]; [|done]. by destruct (take_wake_slot _ _ _) as [r' []].
Qed.

Lemma resync_relay s : relay (resync_all_peers s) = relay s.
Proof.
  unfold resync_all_peers. generalize (roster_snapshot s). intros l. revert s.
  induction l as [|x l IH]; intros s; cbn [foldl]; [done|]. by rewrite IH.
Qed.

(** Opening a socket may spool again what it cannot deliver, for its own key only. *)
Lemma flush_spool_other held r t pk k :
  k <> pk -> spool (flush r t pk held) !! k = spool r !! k.
Proof.
  intros Hk. revert r. induction held as [|sf held IH]; intros r; cbn [flush]; [done|].
  destruct (_ <? _); [done|]. rewrite IH. unfold forward, push_spool.
  destruct (_ ≫= _); [destruct (try_send _ _)|]; simpl; by rewrite ?lookup_insert_ne.
Qed.

Lemma relay_safe_open s t pk lane tx :
  relay_safe s -> next_id (relay s) < u64_max ->
  relay_safe (on_relay s (fun r => fst (register r t pk lane tx))).
Proof.
  intros [H1 H2] Hn. split; [exact (wf_step _ _ H1 (step_register _ t pk lane tx Hn))|].
  intros k q. unfold on_relay, register; simpl.
  destruct (spool (relay s) !! pk) as [held|] eqn:Hh; simpl; [|apply H2].
  destruct (decide (k = pk)) as [->|Hne]; [intros _; by eapply H2|].
  rewrite flush_spool_other by done. simpl. rewrite lookup_delete_ne by done. apply H2.
Qed.

(** ** The invariant *)

Definition system_inv (a : ApiState) : Prop :=
  wf_inner (coordinator a) /\ relay_safe (coordinator a) /\
  validate (current (policy_store (coordinator a))) = Ok tt.

(** Whatever leaves members, relay and policy alone preserves the invariant. *)
Lemma system_inv_same a a' :
  system_inv a -> wf_inner (coordinator a') -> relay (coordinator a') = relay (coordinator a) ->
  by_pubkey (coordinator a') = by_pubkey (coordinator a) ->
  policy_store (coordinator a') = policy_store (coordinator a) -> system_inv a'.
Proof.
  intros (H1 & H2 & H3) Hw Hr Hb Hp. split; [done|]. split; [by apply (relay_safe_same (coordinator a))|].
  by rewrite Hp.
Qed.

Lemma deregister_policy env s id reason : policy_store (deregister env s id reason).1 = policy_store s.
Proof.
  destruct (roster s !! id) as [e|] eqn:He; [by rewrite (deregister_effect _ _ _ _ _ He)|].
  unfold deregister. by rewrite He.
Qed.

Lemma sweep_policy env s : policy_store (sweep_once env s) = policy_store s.
Proof.
  unfold sweep_once. change (policy_store s) with (policy_store (reap_stale_resources env s)).
  generalize (reap_stale_resources env s). intros s1. generalize (stale_peers s1 (now env)). intros ids. revert s1.
  induction ids as [|id ids IH]; intros s1; cbn [foldl]; [done|]. by rewrite IH, deregister_policy.
Qed.

Lemma evict_policy env s ru : policy_store (evict_stale_ula_holder env s ru) = policy_store s.
Proof.
  unfold evict_stale_ula_holder.
  destruct ru as [raw|]; [|done]. destruct (parse_ipv6 raw) as [addr|]; [|done].
  destruct (peer_id <$> holder_of s addr) as [h|]; [|done]. destruct (negb _); [done|].
  simpl. unfold apply_peer_left. destruct (uuid_parse _) as [id|]; [|done]. simpl. by destruct (roster s !! id).
Qed.

Lemma register_new_policy env s req claims pubkey resolved observed :
  policy_store (register_new env s req claims pubkey resolved observed).1 = policy_store s.
Proof.
  unfold register_new. rewrite <- (evict_policy env s (rr_requested_ula req)).
  set (s1 := evict_stale_ula_holder env s (rr_requested_ula req)).
  set (identity := stamp_identity req claims).
  assert (policy_store (resolve_ula s1 (ni_network identity) (rr_requested_ula req)).1 = policy_store s1) as Hr.
  { unfold resolve_ula. destruct (rr_requested_ula req) as [raw|].
    - destruct (parse_ipv6 raw); [|done]. destruct (negb _); [done|]. destruct (_ && _ && _); [done|].
      by destruct (existsb _ _).
    - by destruct (allocate _ _). }
  destruct (resolve_ula s1 _ _) as [s2 [[i addr]|e]]; simpl in *; [|done].
  unfold apply_peer_joined; simpl. destruct (uuid_parse _) as [id|]; [|done].
  destruct (parse_ipv6 _) as [a|]; [|done]. by destruct (held_by_other _ a id).
Qed.

Lemma register_policy env s req bearer reply observed s' r :
  register_authenticated env s req bearer reply observed = Some (s', r) -> policy_store s' = policy_store s.
Proof.
  unfold register_authenticated.
  destruct (authenticate s bearer reply) as [[claims|e]|]; [|by intros [= <- _]|done].
  destruct (authorize_fixed_requested_ula _ _); [|by intros [= <- _]].
  destruct (decode_pubkey _) as [pubkey|]; [|by intros [= <- _]].
  destruct (length pubkey =? 32)%nat; simpl; [|by intros [= <- _]].
  destruct (by_pubkey s !! pubkey) as [id|].
  - unfold refresh_existing. destruct (roster s !! id) as [old|]; [|by intros [= <- _]].
    destruct (bool_decide _ && _); [|by intros [= <- _]].
    destruct (allocate _ _) as [al [[i addr]|e]]; simpl; [|by intros [= <- _]].
    destruct (held_by_other _ _ _); by intros [= <- _].
  - intros [= Heq]. match goal with H : register_new ?a ?b ?c ?d ?e ?f ?g = _ |- _ =>
      pose proof (register_new_policy a b c d e f g) as Hw; by rewrite H in Hw end.
Qed.

Lemma wf_put_policy a headers p :
  system_inv a -> system_inv (put_policy_handler a headers p).1.
Proof.
  intros Hinv. unfold put_policy_handler. destruct (check_admin _ _ _); [done|].
  destruct (_ ≫= _) as [tag|]; [|done]. cbv zeta. unfold replace.
  destruct (validate p) as [[]|] eqn:Hv; [|by destruct a as [c [] t]].
  case_bool_decide; [by destruct a as [c [] t]|]. simpl.
  match goal with |- context [resync_all_peers ?x] => destruct (resync_effect x) as (_ & R1 & R2 & R3 & R4 & R5 & R6);
    assert (relay (resync_all_peers x) = relay x) as R7 by apply resync_relay;
    set (s' := resync_all_peers x) in * end.
  simpl in *. destruct Hinv as (W & [S1 S2] & _). split; [|split].
  - simpl. by apply (wf_inner_same (coordinator a)); rewrite ?R5.
  - simpl. split; unfold spool_owned; rewrite ?R7, ?R2; [done|apply S2].
  - simpl. by rewrite R4.
Qed.

Lemma system_inv_step a a' : system_inv a -> step a a' -> system_inv a'.
Proof.
  intros Hinv Hs. destruct Hinv as (Hw & Hr & Hp).
  assert (system_inv a) as Hinv by done.
  destruct Hs as [o Hs]; destruct Hs as [env b peer headers req b' resp Hid Hs|env b pk lane tx Hn|env b pk buf|b pk lane id|env b];
    rename b into a.
  - destruct req; simpl in Hs; try (injection Hs as <- _; exact Hinv).
    + apply fmap_Some in Hs as ([s' r] & Hreg & [= -> _]). unfold register_handler in Hreg.
      apply bind_Some in Hreg as ([s1 r1] & Hreg & Hx).
      assert (s1 = s') as -> by (by destruct r1 as [[]|]; injection Hx as -> _).
      split; [by eapply wf_register_authenticated|]. split; [by eapply relay_safe_register|].
      simpl. by rewrite (register_policy _ _ _ _ _ _ _ _ Hreg).
    + pose proof (wf_heartbeat_handler env _ peer req Hw) as H1.
      destruct (heartbeat_handler_relay env _ peer req Hw) as (H2 & H3 & H4).
      destruct (heartbeat_handler _ _ _ _) as [s' r]. injection Hs as <- _. by apply (system_inv_same a).
    + unfold deregister_handler in Hs. destruct (uuid_parse _) as [id|]; injection Hs as <- _; [|by destruct a].
      split; [by apply wf_deregister|]. split; [by apply relay_safe_deregister|]. simpl. by rewrite deregister_policy.
    + injection Hs as Hs. pose proof (wf_put_policy a headers new_policy Hinv) as H1. by rewrite Hs in H1.
    + unfold post_command_handler in Hs. destruct (check_admin _ _ _); [by injection Hs as <- _|].
      destruct (parse_peer peer_id) as [id|]; injection Hs as <- _; [|done].
      apply (system_inv_same a); [done| |done..]. by apply wf_update_entry; [|by repeat split].
    + unfold post_direct_handler in Hs. destruct (check_admin _ _ _); [by injection Hs as <- _|].
      destruct (parse_peer a0) as [x|]; [|by injection Hs as <- _].
      destruct (parse_peer b) as [y|]; injection Hs as <- _; [|done].
      apply (system_inv_same a); [done| |done..]. by apply (wf_inner_same (coordinator a)).
    + unfold post_proactive_handler in Hs. destruct (check_admin _ _ _); injection Hs as <- _; [done|].
      apply (system_inv_same a); [done| |done..]. by apply (wf_inner_same (coordinator a)).
  - split; [by apply (wf_inner_same (coordinator a))|]. split; [|done].
    by apply relay_safe_open.
  - split; [by apply wf_uplink|]. split; [by apply relay_safe_uplink|].
    destruct (route_uplink_frame env (coordinator a) pk buf) as (_ & _ & _ & _ & _ & _ & Hpol & _).
    simpl. by rewrite Hpol.
  - split; [by apply (wf_inner_same (coordinator a))|]. split; [|done].
    destruct Hr as [H1 H2]. split; [by apply wf_unregister|]. intros k q. simpl. unfold unregister.
    destruct (conns _ !! pk); [|apply H2]. destruct (conns_is_empty _); apply H2.
  - split; [by apply wf_sweep|]. split; [by apply relay_safe_sweep|]. simpl. by rewrite sweep_policy.
Qed.

(** ** Who changes a member's identity *)

(** Every entry of [s'] was there, with the same key, address, network and tags. *)
Definition identity_kept (s s' : Inner) : Prop :=
  forall id e', roster s' !! id = Some e' -> exists e, roster s !! id = Some e /\
    wg_public_key e' = wg_public_key e /\ ula e' = ula e /\ network e' = network e /\ tags e' = tags e.

Lemma identity_kept_subset s s' : roster s' ⊆ roster s -> identity_kept s s'.
Proof. intros Hs id e He. exists e. split; [by eapply lookup_weaken|done]. Qed.

Lemma identity_kept_insert s s' id e e' :
  roster s !! id = Some e -> roster s' = <[id := e']> (roster s) ->
  wg_public_key e' = wg_public_key e -> ula e' = ula e -> network e' = network e -> tags e' = tags e ->
  identity_kept s s'.
Proof.
  intros He Hr ? ? ? ? j f. rewrite Hr, lookup_insert. case_decide as Hj; [subst|].
  - intros [= <-]. by exists e.
  - intros Hf. by exists f.
Qed.

Lemma deregister_shrinks env s id reason : roster (deregister env s id reason).1 ⊆ roster s.
Proof.
  apply map_subseteq_spec. intros j e. rewrite deregister_roster. by case_decide.
Qed.

Lemma sweep_shrinks env s : roster (sweep_once env s) ⊆ roster s.
Proof.
  unfold sweep_once. change (roster s) with (roster (reap_stale_resources env s)).
  apply map_subseteq_spec. intros j e. rewrite foldl_deregister_roster. by case_decide.
Qed.

(** What the registration [req], admitted with [claims], may make of the entry under [id]. *)
Definition identity_granted (s : Inner) (req : RegisterRequest) (claims : option ValidatedClaims)
    (id : Uuid) (e' : PeerEntry) : Prop :=
  decode_pubkey (rr_wg_public_key req) = Ok (wg_public_key e') /\
  tags e' = ni_tags (stamp_identity req claims) /\
  match roster s !! id with
  | None => network e' = ni_network (stamp_identity req claims) /\
      address_granted s (network e') (rr_requested_ula req) (ula e') /\
      infra_authorised (rr_requested_ula req) claims
  | Some e => wg_public_key e' = wg_public_key e /\ kept_or_rehomed s claims (stamp_identity req claims) e e'
  end.

Lemma register_identity env s req bearer reply observed s' r :
  wf_inner s -> roster s !! fresh_id env = None ->
  register_authenticated env s req bearer reply observed = Some (s', r) ->
  forall id e', roster s' !! id = Some e' -> roster s !! id = Some e' \/
    exists claims, admitted s bearer reply claims /\ identity_granted s req claims id e'.
Proof.
  intros Hwf Hid. unfold register_authenticated.
  destruct (authenticate s bearer reply) as [[claims|e]|] eqn:Ha; [|intros [= <- _]; by left|done].
  apply authenticate_Ok in Ha.
  destruct (authorize_fixed_requested_ula _ _) as [[]|] eqn:Hau; [|intros [= <- _]; by left].
  apply authorize_Ok in Hau.
  destruct (decode_pubkey _) as [pubkey|] eqn:Hd; [|intros [= <- _]; by left].
  destruct (length pubkey =? 32)%nat; simpl; [|intros [= <- _]; by left].
  destruct (by_pubkey s !! pubkey) as [id|] eqn:Hpk.
  - apply (core_key _ _ _ (inner_core _ Hwf)) in Hpk as (old & Ho & Hk).
    match goal with |- context [refresh_existing ?a ?b ?c ?d ?e ?f ?g] =>
      destruct (refresh_existing a b c d e f g) as [s1 r1] eqn:Hr end.
    apply (refresh_existing_effect _ _ _ _ _ _ _ _ _ old) in Hr as [_ Hr]; [|done|done].
    destruct r1 as [entry|e]; intros [= <- _]; [|destruct Hr as (-> & _); by left].
    destruct Hr as (-> & _ & Hk' & Ht & _ & _ & Hkr). intros j e'. rewrite lookup_insert.
    case_decide as Hj; [subst j; intros [= <-]|by left]. right.
    exists claims. unfold identity_granted. rewrite Ho, Hk', Hk. by split_and!.
  - intros [= Hr]. destruct r as [[entry outcome]|e].
    + apply register_new_Ok in Hr as (_ & _ & Hk & Hn & Ht & _ & _ & Hg & (gone & _ & Hj) & _); [|done..].
      rewrite Hj. intros j e'. rewrite lookup_insert. case_decide as Hje.
      * subst j. intros [= <-]. right. exists claims. unfold identity_granted. rewrite Hid, Hk, Hn. by split_and!.
      * intros He. left. destruct gone; [|done]. by apply lookup_delete_Some in He as [_ ?].
    + apply register_new_Err in Hr as [-> _]; [|done]. intros j e' He. left.
      pose proof (evict_shrinks env s (rr_requested_ula req)) as [H1 _]. by eapply lookup_weaken.
Qed.

Lemma other_requests_keep_identity env a peer headers req a' resp :
  wf_inner (coordinator a) -> serve env a peer headers req = Some (a', resp) ->
  (forall r reply, req <> PostRegister r reply) -> identity_kept (coordinator a) (coordinator a').
Proof.
  intros Hwf Hs Hnr. set (s := coordinator a) in *.
  assert (forall s', roster s' = roster s -> identity_kept s s') as Hsame.
  { intros s' Hr. apply identity_kept_subset. by rewrite Hr. }
  destruct req; simpl in Hs; try (injection Hs as <- _; by apply Hsame).
  - by destruct (Hnr req reply).
  - destruct (uuid_parse (hr_peer_id req)) as [id|] eqn:Hu.
    2: { unfold heartbeat_handler in Hs. rewrite Hu in Hs. injection Hs as <- _. by apply Hsame. }
    fold s in Hs. destruct (roster s !! id) as [e|] eqn:He.
    2: { unfold heartbeat_handler in Hs. rewrite Hu in Hs. unfold heartbeat in Hs. rewrite He in Hs.
         injection Hs as <- _. by apply Hsame. }
    destruct (heartbeat_handler_effect env s peer req id e Hwf Hu He) as (s' & r & e1 & t & Hh & K & _ & Hr & _).
    rewrite Hh in Hs. injection Hs as <- _. destruct K as ((_ & K1 & K2 & _) & K3 & K4 & _).
    by apply (identity_kept_insert s s' id e _ He Hr).
  - unfold deregister_handler in Hs. destruct (uuid_parse _) as [id|]; injection Hs as <- _; [|by apply Hsame].
    apply identity_kept_subset, deregister_shrinks.
  - injection Hs as Hs. unfold put_policy_handler in Hs.
    destruct (check_admin _ _ _); [injection Hs as <- _; by apply Hsame|].
    destruct (_ ≫= _) as [tag|]; [|injection Hs as <- _; by apply Hsame]. cbv zeta in Hs.
    destruct (replace _ _ tag new_policy) as [[c st] [snap|[]]]; injection Hs as <- _; apply Hsame; [|done..].
    match goal with |- context [resync_all_peers ?x] => destruct (resync_effect x) as (_ & R1 & _) end.
    simpl. by rewrite R1.
  - unfold post_command_handler in Hs. destruct (check_admin _ _ _); [injection Hs as <- _; by apply Hsame|].
    destruct (parse_peer peer_id) as [id|]; injection Hs as <- _; [|by apply Hsame].
    intros j e'. simpl. rewrite lookup_alter. case_decide; [|intros He; by exists e'].
    subst. intros (e & He & ->)%fmap_Some. by exists e.
  - unfold post_direct_handler in Hs. destruct (check_admin _ _ _); [injection Hs as <- _; by apply Hsame|].
    destruct (parse_peer a0) as [x|]; [|injection Hs as <- _; by apply Hsame].
    destruct (parse_peer b) as [y|]; injection Hs as <- _; by apply Hsame.
  - unfold post_proactive_handler in Hs. destruct (check_admin _ _ _); injection Hs as <- _; by apply Hsame.
Qed.

(** ** Properties *)

(** What the invariant says of the members, the allocator, the relay and the policy. *)
Lemma system_inv_facts a :
  system_inv a ->
  let s := coordinator a in
  (forall pk id, by_pubkey s !! pk = Some id <-> exists e, roster s !! id = Some e /\ wg_public_key e = pk) /\
  (forall i j e f, roster s !! i = Some e -> roster s !! j = Some f -> ula e = ula f -> i = j) /\
  (forall net al i addr id e, allocate (allocator s) net = (al, Ok (i, addr)) ->
     roster s !! id = Some e -> ula e <> addr) /\
  (forall p v, pairs (punch_tracker s) !! p = Some v -> is_Some (roster s !! p.1) /\ is_Some (roster s !! p.2)) /\
  (forall p v, relay_pair_stats s !! p = Some v -> is_Some (roster s !! p.1) /\ is_Some (roster s !! p.2)) /\
  (forall pk q, spool (relay s) !! pk = Some q -> is_Some (by_pubkey s !! pk) /\ (1 <= length q <= 16)%nat) /\
  validate (current (policy_store s)) = Ok tt.
Proof.
  intros (Hw & [Hr1 Hr2] & Hp) s. fold s in Hw, Hr1, Hr2, Hp.
  pose proof (inner_core _ Hw) as Hc. split; [apply (core_key _ _ _ Hc)|]. split; [apply (core_ula _ _ _ Hc)|].
  split; [|split; [apply (inner_punch _ Hw)|split; [apply (inner_stats _ Hw)|split; [|done]]]].
  - intros net al i addr id e Hal He Hu.
    pose proof (allocate_facts s net i addr (core_alloc _ _ _ Hc)) as Hf. rewrite Hal in Hf.
    destruct (Hf eq_refl) as (_ & Hi' & _ & Ha & Hlt).
    destruct (core_entry _ _ _ Hc _ _ He) as (_ & Hidx & Hcov & _).
    assert (seg2 addr = network_slot net) as Hs by by rewrite Ha.
    rewrite Hidx, Hu, <- Hi', Hs in Hcov. lia.
  - intros pk q Hq. split; [by eapply Hr2|]. apply (wf_spool _ Hr1) in Hq as [Hne Hl].
    pose proof SPOOL_CAP_eq. destruct q; [done|]. simpl in *. lia.
Qed.

(** Nothing changes anybody's identity, except an admitted registration. *)
Lemma occurrence_keeps_identity o a a' id e' :
  system_inv a -> occurs o a a' -> roster (coordinator a') !! id = Some e' ->
  (exists e, roster (coordinator a) !! id = Some e /\ wg_public_key e' = wg_public_key e /\
     ula e' = ula e /\ network e' = network e /\ tags e' = tags e) \/
  exists env peer headers req reply resp claims,
    o = Requested env peer headers (PostRegister req reply) resp /\
    admitted (coordinator a) (bearer_token headers) reply claims /\
    identity_granted (coordinator a) req claims id e'.
Proof.
  intros (Hw & _) Hs. revert Hw id e'.
  destruct Hs as [env b peer headers req b' resp Hid Hs|env b pk lane tx Hn|env b pk buf|b pk lane id|env b];
    intros Hw i e' He'.
  - destruct req as [req reply| | | | | | | | | | | | | |].
    2-15: left; by eapply other_requests_keep_identity.
    simpl in Hs. apply fmap_Some in Hs as ([s' r] & Hreg & [= -> _]). unfold register_handler in Hreg.
    apply bind_Some in Hreg as ([s1 r1] & Hreg & Hx).
    assert (s1 = s') as -> by (by destruct r1 as [[]|]; injection Hx as -> _).
    destruct (register_identity _ _ _ _ _ _ _ _ Hw Hid Hreg i e' He') as [He|(claims & Ha & Hg)];
      [left; by exists e'|right]. by exists env, peer, headers, req, reply, resp, claims.
  - left. by exists e'.
  - left. exists e'. destruct (route_uplink_frame env (coordinator b) pk buf) as (Hr & _).
    simpl in He'. by rewrite Hr in He'.
  - left. by exists e'.
  - left. exists e'. split; [|done]. eapply lookup_weaken; [exact He'|apply sweep_shrinks].
Qed.
End System.
