(* ===== verification/Lifetime.v ===== *)
(** * The coordinator over its whole life

    Steps of the running system and restarts from the roster it has stored, in any
    order. What the coordinator stores is always a roster it could have had, so it
    can be started from it. *)

From S2P Require Import Prelude NetAddr Contract Types Allocator Policy HolePunch DirectFlags.
From S2P Require Import RelayFrame RelayRegistry RosterStore Reflexive Auth Coordinator Apply.
From S2P Require Import Registration Heartbeat CoordInv Membership Joining Restart RelayRoute.
From S2P Require Import Topology Stream Api ApiProps Boot System.

Open Scope Z_scope.

Section Lifetime.
Context {EX : Externals} {EXL : ExternalLaws} {IT : Iteration} {ITL : IterationLaws}
  {RS : RosterSerde} {RSL : RosterSerdeLaws} {CH : Channels} {CS : ClaimsSerde} {UC : UrlCodec} {PS : PolicySerde} {HC : HeaderCodec}.

(** A restart takes the store along; everything else is as the new process is told. *)
Inductive life_step : ApiState -> ApiState -> Prop :=
| life_running a a' : step a a' -> life_step a a'
| life_restart env o args a a' :
    build_roster_store o (state_dir args) = roster_store (coordinator a) ->
    boot env o args = Ok a' -> life_step a a'.

(** A first start, on a store the coordinator has written or that is not readable. *)
Definition started (a : ApiState) : Prop :=
  exists env o args, well_stored (build_roster_store o (state_dir args)) /\ boot env o args = Ok a.

(** ** What is stored *)

(** The step leaves the store alone, or its last save is of the members it ends with. *)
Definition stored_last (s s' : Inner) : Prop :=
  roster_store s' = roster_store s
  \/ exists io, roster_store s' = save (roster_store s) io (to_joined_event <$> entries s').

Lemma load_unreadable st : load st false = [].
Proof. by destruct st. Qed.
Lemma compatible_nil : compatible [].
Proof. split_and!; [constructor..|]. set_solver. Qed.

Lemma stored_last_ok s s' :
  wf_inner s' -> stored_last s s' -> well_stored (roster_store s) -> well_stored (roster_store s').
Proof.
  intros Hw [->|[io ->]] Hs; [done|]. intros [].
  - destruct (save_load (roster_store s) io (to_joined_event <$> entries s')) as [Hl|Hl]; rewrite Hl; [apply Hs|].
    exists (entries s'). split; [by apply entries_compatible|done].
  - exists []. split; [apply compatible_nil|apply load_unreadable].
Qed.

Lemma evict_stored env s ru : stored_last s (evict_stale_ula_holder env s ru).
Proof.
  unfold evict_stale_ula_holder. destruct ru as [raw|]; [|by left]. destruct (parse_ipv6 raw) as [addr|]; [|by left].
  destruct (peer_id <$> holder_of s addr) as [h|]; [|by left]. destruct (negb _); [by left|]. right. exists (save_io env).
  unfold apply_peer_left. destruct (uuid_parse _) as [id|]; [|done].
  by destruct (roster _ !! id).
Qed.

Lemma resolve_ula_store s net ru : roster_store (resolve_ula s net ru).1 = roster_store s.
Proof.
  unfold resolve_ula. destruct ru as [raw|].
  - destruct (parse_ipv6 raw); [|done]. destruct (negb _); [done|]. destruct (_ && _ && _); [done|].
    by destruct (existsb _ _).
  - by destruct (allocate _ _).
Qed.

Lemma refresh_stored env s id req claims resolved observed :
  stored_last s (refresh_existing env s id req claims resolved observed).1.
Proof.
  unfold refresh_existing. destruct (roster s !! id) as [old|]; [|by left].
  destruct (_ && _).
  - destruct (allocate _ _) as [a [[i addr]|e]]; simpl; [|by left].
    destruct (held_by_other _ _ _); [by left|]. right. by exists (save_io env).
  - by left.
Qed.

Lemma register_new_stored env s req claims pubkey resolved observed :
  stored_last (evict_stale_ula_holder env s (rr_requested_ula req)) (register_new env s req claims pubkey resolved observed).1.
Proof.
  unfold register_new. set (s1 := evict_stale_ula_holder _ _ _). set (net := ni_network _).
  pose proof (resolve_ula_store s1 net (rr_requested_ula req)) as Hs.
  destruct (resolve_ula s1 net (rr_requested_ula req)) as [s2 [[i addr]|e]]; simpl in Hs; [|by left].
  unfold apply_peer_joined. simpl. destruct (uuid_parse _) as [id|]; [|by left].
  destruct (parse_ipv6 _) as [a|]; [|by left]. destruct (held_by_other _ _ _); [by left|].
  right. exists (save_io env). cbn. by rewrite Hs.
Qed.

Lemma register_stored env s req bearer reply observed s' r :
  wf_inner s -> wf_inner s' -> register_authenticated env s req bearer reply observed = Some (s', r) ->
  well_stored (roster_store s) -> well_stored (roster_store s').
Proof.
  intros Hw Hw' Hr Hst. revert Hr. unfold register_authenticated.
  destruct (authenticate s bearer reply) as [[claims|e]|]; [|by intros [= <- _]|done].
  destruct (authorize_fixed_requested_ula _ _); [|by intros [= <- _]].
  destruct (decode_pubkey _) as [pubkey|]; [|by intros [= <- _]].
  destruct (length pubkey =? 32)%nat; simpl; [|by intros [= <- _]].
  set (resolved := resolve_listen_endpoint _ _ _ _). destruct (by_pubkey s !! pubkey) as [id|].
  - pose proof (refresh_stored env s id req claims resolved observed) as Hl.
    destruct (refresh_existing _ _ _ _ _ _ _) as [s1 [entry|e]]; intros [= <- _]; by eapply stored_last_ok.
  - intros [= Heq]. pose proof (register_new_stored env s req claims pubkey resolved observed) as Hl. rewrite Heq in Hl.
    eapply stored_last_ok; [exact Hw'|exact Hl|]. eapply stored_last_ok; [by apply wf_evict|apply evict_stored|done].
Qed.

Lemma deregister_stored env s id reason : stored_last s (deregister env s id reason).1.
Proof.
  unfold deregister. destruct (tags <$> roster s !! id); [|by left]. right. exists (save_io env).
  unfold apply_peer_left. simpl. destruct (uuid_parse _) as [i|]; [|done]. by destruct (roster _ !! i).
Qed.

Lemma sweep_stored env s : wf_inner s -> well_stored (roster_store s) -> well_stored (roster_store (sweep_once env s)).
Proof.
  intros Hw Hs. unfold sweep_once. assert (well_stored (roster_store (reap_stale_resources env s))) as Hs1 by done.
  pose proof (wf_reap env s Hw) as Hw1. revert Hw1 Hs1. generalize (reap_stale_resources env s). intros s1.
  generalize (stale_peers s1 (now env)). intros ids. revert s1. induction ids as [|id ids IH]; intros s1 Hw1 Hs1; [done|].
  cbn [foldl]. apply IH; [by apply wf_deregister|].
  eapply stored_last_ok; [by apply wf_deregister|apply deregister_stored|done].
Qed.

Lemma heartbeat_handler_store env s peer req :
  wf_inner s -> roster_store (heartbeat_handler env s peer req).1 = roster_store s.
Proof.
  intros Hwf. unfold heartbeat_handler. destruct (uuid_parse _) as [id|]; [|done].
  destruct (roster s !! id) as [e|] eqn:He.
  2: { unfold heartbeat. by rewrite He. }
  destruct (heartbeat_effect env s id (default EmptyString (fmt_sock <$> peer)) (hr_wg_listen_port req)
    (hr_hosted_app_ulas req) (hr_software_version req) (hr_mesh_version req) (hr_relay_only req) e Hwf He)
    as (s1 & e1 & ps & -> & _ & (_ & _ & _ & _ & R1 & _) & _).
  rewrite <- R1.
  assert (forall s ps, roster_store (record_peer_paths s (peer_id e1) ps) = roster_store s) as U1.
  { intros s' ps'. unfold record_peer_paths. destruct (roster s' !! _); [|done]. by destruct (record_paths _ _ _ _). }
  assert (forall s acked, roster_store (ack_commands s (peer_id e1) acked) = roster_store s) as U2.
  { intros s' acked. by destruct acked. }
  assert (forall s, roster_store (fst (drain_commands s (peer_id e1))) = roster_store s) as U3.
  { intros s'. unfold drain_commands. by destruct (roster s' !! _). }
  set (s2 := record_peer_paths s1 _ _). set (s3 := ack_commands _ _ _).
  specialize (U3 s3). destruct (drain_commands s3 (peer_id e1)) as [s4 cs]. simpl in *.
  rewrite U3. subst s3. rewrite U2. subst s2. apply U1.
Qed.

Lemma resync_store s : roster_store (resync_all_peers s) = roster_store s.
Proof.
  unfold resync_all_peers. generalize (roster_snapshot s). intros l. revert s.
  induction l as [|x l IH]; intros s; cbn [foldl]; [done|]. by rewrite IH.
Qed.

Lemma put_policy_store a headers p :
  roster_store (coordinator (put_policy_handler a headers p).1) = roster_store (coordinator a).
Proof.
  unfold put_policy_handler. destruct (check_admin _ _ _); [done|]. destruct (_ ≫= _) as [tag|]; [|done].
  cbv zeta. unfold replace. destruct (validate p) as [[]|]; [|done]. case_bool_decide; [done|]. simpl. by rewrite resync_store.
Qed.

Lemma step_stored a a' :
  system_inv a -> step a a' -> well_stored (roster_store (coordinator a)) -> well_stored (roster_store (coordinator a')).
Proof.
  intros Hi Hs Hst. pose proof (system_inv_step _ _ Hi Hs) as Hi'. destruct Hi as (Hw & _), Hi' as (Hw' & _).
  destruct Hs as [o Hs]; destruct Hs as [env b peer headers req b' resp Hid Hs|env b pk lane tx Hn|env b pk buf|b pk lane id|env b]; rename b into a.
  - destruct req; simpl in Hs; try (injection Hs as <- _; exact Hst).
    + apply fmap_Some in Hs as ([s' r] & Hreg & [= -> _]). unfold register_handler in Hreg.
      apply bind_Some in Hreg as ([s1 r1] & Hreg & Hx).
      assert (s1 = s') as -> by (by destruct r1 as [[]|]; injection Hx as -> _).
      by eapply (register_stored env (coordinator a) _ _ _ _ s' r1 Hw Hw').
    + pose proof (heartbeat_handler_store env _ peer req Hw) as Hb.
      destruct (heartbeat_handler _ _ _ _) as [s' r]. injection Hs as <- _. simpl in *. by rewrite Hb.
    + unfold deregister_handler in Hs. destruct (uuid_parse _) as [id|]; injection Hs as <- _; [|by destruct a].
      eapply stored_last_ok; [exact Hw'|apply deregister_stored|done].
    + injection Hs as Hs. pose proof (put_policy_store a headers new_policy) as Hp. rewrite Hs in Hp. simpl in Hp. by rewrite Hp.
    + unfold post_command_handler in Hs. destruct (check_admin _ _ _); [by injection Hs as <- _|].
      destruct (parse_peer peer_id) as [id|]; injection Hs as <- _; done.
    + unfold post_direct_handler in Hs. destruct (check_admin _ _ _); [by injection Hs as <- _|].
      destruct (parse_peer a0) as [x|]; [|by injection Hs as <- _].
      destruct (parse_peer b) as [y|]; injection Hs as <- _; done.
    + unfold post_proactive_handler in Hs. destruct (check_admin _ _ _); injection Hs as <- _; done.
  - done.
  - destruct (route_uplink_frame env (coordinator a) pk buf) as (_ & _ & _ & _ & _ & _ & _ & Hro). simpl. by rewrite Hro.
  - done.
  - by apply sweep_stored.
Qed.

(** ** For life *)

Definition life_inv (a : ApiState) : Prop := system_inv a /\ well_stored (roster_store (coordinator a)).

Lemma booted_inv env o args a :
  well_stored (build_roster_store o (state_dir args)) -> boot env o args = Ok a -> life_inv a.
Proof.
  intros Hst Hb. destruct (booted env o args a Hst Hb) as (Hw & Hv & Hr & Hro & _). split; [|by rewrite Hro].
  split; [done|]. split; [|done]. split; [rewrite Hr; apply wf_registry_new|]. intros pk q. rewrite Hr. simpl.
  by rewrite lookup_empty.
Qed.

Lemma life_inv_reachable a0 a : started a0 -> rtc life_step a0 a -> life_inv a.
Proof.
  intros (env & o & args & Hst & Hb) Hr. revert a Hr. apply (rtc_ind_r _ a0); [by eapply booted_inv|].
  intros a a' _ Hs [Hi Hst']. destruct Hs as [a a' Hs|env' o' args' a a' Hro Hb'].
  - split; [by eapply system_inv_step|by eapply step_stored].
  - eapply booted_inv; [|exact Hb']. by rewrite Hro.
Qed.

(** C1: In every state the coordinator can reach from its start, by any requests, relay
    traffic and sweeps in any order, and by restarts at any time from what it has
    stored so far, however its writes have failed: members and keys correspond one to one; no two members
    share an overlay address, and the next address the allocator hands out, for
    any network, is nobody's; punch state and relay counters mention members
    only; the relay holds frames only for members, at most sixteen each; and the
    policy in force has no source pattern that spans tenants. *)
Theorem coordinator_invariant a0 a :
  started a0 -> rtc life_step a0 a ->
  let s := coordinator a in
  (forall pk id, by_pubkey s !! pk = Some id <-> exists e, roster s !! id = Some e /\ wg_public_key e = pk) /\
  (forall i j e f, roster s !! i = Some e -> roster s !! j = Some f -> ula e = ula f -> i = j) /\
  (forall net al i addr id e, allocate (allocator s) net = (al, Ok (i, addr)) ->
     roster s !! id = Some e -> ula e <> addr) /\
  (forall p v, pairs (punch_tracker s) !! p = Some v -> is_Some (roster s !! p.1) /\ is_Some (roster s !! p.2)) /\
  (forall p v, relay_pair_stats s !! p = Some v -> is_Some (roster s !! p.1) /\ is_Some (roster s !! p.2)) /\
  (forall pk q, spool (relay s) !! pk = Some q -> is_Some (by_pubkey s !! pk) /\ (1 <= length q <= 16)%nat) /\
  validate (current (policy_store s)) = Ok tt.
Proof. intros Hs Hr. by apply system_inv_facts, (life_inv_reachable a0). Qed.

(** C2: Identity comes only from an admitted registration: in any reachable state, whatever
    happens and leaves a member under some id leaves its key, address, network and
    tags as they were, unless what happens is a registration request, its own bearer
    token is vouched for by the auth service's reply to it (where a validator is
    configured), its key is the member's, and the member's tags are those stamped on
    it and its address one granted to its network. Heartbeats, deregistrations,
    operators' requests, relay traffic and sweeps create no members, move none and
    never change the tags that decide visibility. *)
Theorem identity_only_by_admission a0 a o a' id e' :
  started a0 -> rtc life_step a0 a -> occurs o a a' -> roster (coordinator a') !! id = Some e' ->
  (exists e, roster (coordinator a) !! id = Some e /\ wg_public_key e' = wg_public_key e /\
     ula e' = ula e /\ network e' = network e /\ tags e' = tags e) \/
  exists env peer headers req reply resp claims,
    o = Requested env peer headers (PostRegister req reply) resp /\
    admitted (coordinator a) (bearer_token headers) reply claims /\
    identity_granted (coordinator a) req claims id e'.
Proof. intros Hs Hr. apply occurrence_keeps_identity. by apply (life_inv_reachable a0). Qed.
End Lifetime.
