(* ===== verification/Demo.v ===== *)
(** * A concrete coordinator

    Concrete library functions and a coordinator with two members, on which the
    theorems about any coordinator are shown to apply. *)

From S2P Require Import Prelude NetAddr AddrText Contract Types Allocator Policy HolePunch.
From S2P Require Import DirectFlags RelayFrame RelayRegistry RosterStore Reflexive Auth.
From S2P Require Import Coordinator Apply Registration Heartbeat CoordInv Membership Joining.
From S2P Require Import Restart RelayRoute Topology Stream Api ApiProps Boot System Lifetime.

Open Scope Z_scope.

Module Demo.
#[export] Existing Instances Concrete.externals Concrete.external_laws
  ConcreteRoster.roster_serde ConcreteRoster.roster_serde_laws.
#[export] Instance iteration : Iteration := {| iter_map A m := map_to_list m |}.
#[export] Instance iteration_laws : IterationLaws.
Proof. by split. Qed.
#[export] Existing Instance accepting.
#[export] Instance claims_serde : ClaimsSerde :=
  {| claims_of_json _ := Ok (mkValidatedClaims true "sub" "net-a" ["tag:a"] ["fd5a:1f00:0:3::1"] "join" 0) |}.
#[export] Instance url_codec : UrlCodec := {| b64url_decode s := Some (bytes_of_string s) |}.
#[export] Instance policy_serde : PolicySerde := {| policy_to_vec p := Some [Z.of_nat (length (acls p))] |}.
#[export] Instance header_codec : HeaderCodec := {| to_str b := Some (string_of_bytes b) |}.
#[export] Instance event_json : EventJson := {| data_payload e := Ok (event_name e) |}.

Definition demo_policy : Policy := mkPolicy [accept ["tag:a"] ["tag:a"]].
Definition start : Inner :=
  with_policy_validator_store 60000000 (store_new demo_policy) false NoopRosterStore.
Definition api_start : ApiState := mkApiState 1 start (Some "secret").

Definition at_time (t : Z) (id : Uuid) : Env := mkEnv t t id io_ok.
Definition key (n : Z) : list Z := repeat n 32.
Definition address : SocketAddr := SockV4 (Ipv4 8 8 8 8) 40000.
Definition request (n : Z) (name : string) (ula : option string) : RegisterRequest :=
  mkRegisterRequest (Concrete.bytes_text (key n)) None (Some 51820) name "net-a" ["tag:a"] [] "peer"
    None None ula None None false.
Definition no_reply : HttpReply := SendError "unused".
Definition no_headers : HeaderMap := mkHeaderMap None None.
Definition admin_headers : HeaderMap :=
  mkHeaderMap (Some (bytes_of_string "Bearer secret")) (Some (bytes_of_string (etag (inner (store_new demo_policy))))).

Definition run (env : Env) (s : Inner) (req : RegisterRequest) : Inner :=
  match register_authenticated env s req None no_reply (Some address) with
  | Some (s, _) => s
  | None => s
  end.
Definition alpha : Uuid := 1%N.
Definition beta : Uuid := 2%N.
Definition one : Inner := run (at_time 1000 alpha) start (request 1 "alpha" None).
Definition two : Inner := run (at_time 2000 beta) one (request 2 "beta" None).

Lemma wf_run env s req :
  wf_inner s -> roster s !! fresh_id env = None -> wf_inner (run env s req).
Proof.
  intros Hw Hid. unfold run.
  destruct (register_authenticated env s req None no_reply (Some address)) as [[s' r]|] eqn:E; [|done].
  by eapply wf_register_authenticated.
Qed.

Lemma wf_start : wf_inner start.
Proof. apply wf_inner_new. Qed.
Lemma wf_one : wf_inner one.
Proof. apply wf_run; [apply wf_start|by vm_compute]. Qed.
Lemma wf_two : wf_inner two.
Proof. apply wf_run; [apply wf_one|by vm_compute]. Qed.

Lemma one_fresh : roster one !! fresh_id (at_time 2000 beta) = None.
Proof. by vm_compute. Qed.
Lemma two_fresh t : roster two !! fresh_id (at_time t 3%N) = None.
Proof. by vm_compute. Qed.
Lemma two_key : by_pubkey two !! key 2 = Some beta.
Proof. by vm_compute. Qed.
Lemma decode_key name ula : decode_pubkey (rr_wg_public_key (request 2 name ula)) = Ok (key 2).
Proof. by vm_compute. Qed.

Definition addr_a : Ipv6Addr := address_for 0x1869 1.
Definition addr_b : Ipv6Addr := address_for 0x1869 2.

Example two_members :
  (fun e => (peer_id e, ula e, listen_endpoint e)) <$> entries two
  = [(2%N, addr_b, Some "8.8.8.8:51820"); (1%N, addr_a, Some "8.8.8.8:51820")].
Proof. vm_compute. reflexivity. Qed.

Definition entry_of (s : Inner) (id : Uuid) : PeerEntry :=
  default (entry_of_joined (at_time 0 0%N) 0%N addr_a (mkPeerJoined "" [] "" "" "" "" [] [] 0 "" None None None None false))
    (roster s !! id).

Lemma two_alpha : roster two !! alpha = Some (entry_of two alpha).
Proof. by vm_compute. Qed.
Lemma two_beta : roster two !! beta = Some (entry_of two beta).
Proof. by vm_compute. Qed.

Lemma serve_run env c s tok req :
  is_ok (match register_authenticated env s req None no_reply (Some address) with Some _ => Ok tt | None => Err tt end) = true ->
  exists resp, serve env (mkApiState c s tok) (Some address) no_headers (PostRegister req no_reply)
    = Some (mkApiState c (run env s req) tok, resp).
Proof.
  unfold run. cbn [serve coordinator]. unfold register_handler. change (bearer_token no_headers) with (@None string).
  destruct (register_authenticated env s req None no_reply (Some address)) as [[s' [[e o]|e]]|]; [| |done];
    intros _; eexists; reflexivity.
Qed.

Definition api_one : ApiState := mkApiState 1 one (Some "secret").
Definition api_two : ApiState := mkApiState 1 two (Some "secret").

Definition demo_args : Args :=
  mkArgs (SockV4 (Ipv4 0 0 0 0) 8888) 60 None None None true false (Some "policy.json") (Some "secret") None None None.
Definition demo_surrounding : Surrounding :=
  mkSurrounding (fun _ => Ok "text") (fun _ => Ok demo_policy) (fun _ => mkFiles None None) true (Ok tt).
Lemma start_booted : boot (at_time 0 0%N) demo_surrounding demo_args = Ok api_start.
Proof. by vm_compute. Qed.
Lemma start_started : started api_start.
Proof.
  exists (at_time 0 0%N), demo_surrounding, demo_args. split; [|exact start_booted].
  intros read_ok. exists []. split; [apply compatible_nil|done].
Qed.
Definition joined (t : Z) (id : Uuid) (req : RegisterRequest) (resp : Response) : Occurrence :=
  Requested (at_time t id) (Some address) no_headers (PostRegister req no_reply) resp.
Lemma occurs_one : exists resp, occurs (joined 1000 alpha (request 1 "alpha" None) resp) api_start api_one.
Proof.
  destruct (serve_run (at_time 1000 alpha) 1 start (Some "secret") (request 1 "alpha" None)) as [resp Hs];
    [by vm_compute|]. exists resp. eapply step_request; [|exact Hs]. by vm_compute.
Qed.
Lemma occurs_two : exists resp, occurs (joined 2000 beta (request 2 "beta" None) resp) api_one api_two.
Proof.
  destruct (serve_run (at_time 2000 beta) 1 one (Some "secret") (request 2 "beta" None)) as [resp Hs];
    [by vm_compute|]. exists resp. eapply step_request; [|exact Hs]. exact one_fresh.
Qed.
Lemma step_one : step api_start api_one.
Proof. destruct occurs_one as [resp H]. by eexists. Qed.
Lemma step_two : step api_one api_two.
Proof. destruct occurs_two as [resp H]. by eexists. Qed.

(** Half a minute later the second member, now silent, loses its entry to a
    request for its address that is itself refused: the address is not in the
    requester's network. *)
Definition intruder : RegisterRequest :=
  mkRegisterRequest (Concrete.bytes_text (key 3)) None None "gamma" "net-b" [] [] "peer"
    None None (Some (fmt_ipv6 addr_b)) None None false.

Example rejected_join_evicts :
  match register_authenticated (at_time 70000000 3%N) two intruder None no_reply None with
  | Some (s', Err (UlaNetworkMismatch _ _)) => roster s' !! beta = None /\ is_Some (roster two !! beta)
  | _ => False
  end.
Proof. vm_compute. split; [reflexivity|by eexists]. Qed.
End Demo.
