(* ===== verification/Witnesses.v ===== *)
(** * The theorems at work

    Each theorem about an arbitrary coordinator, applied to the concrete one of
    [Demo], and handlers of it that step in turn. *)

From S2P Require Import Prelude NetAddr AddrText Contract Types Allocator Policy HolePunch.
From S2P Require Import DirectFlags RelayFrame RelayRegistry RosterStore Reflexive Auth.
From S2P Require Import Coordinator Apply Registration Heartbeat CoordInv Membership Joining.
From S2P Require Import Restart RelayRoute Topology Stream Api ApiProps Boot System Lifetime Demo.
Import Demo.
#[local] Opaque one two.

Open Scope Z_scope.

Lemma heartbeat_functional_witness :
  exists s' e, heartbeat (at_time 3000 9%N) two alpha (fmt_sock address) (Some 51821) [] None None false = (s', Ok e) /\
    roster s' = <[alpha := e]> (roster two) /\ last_heartbeat e = 3000.
Proof.
  destruct (heartbeat (at_time 3000 9%N) two alpha (fmt_sock address) (Some 51821) [] None None false) as [s' r] eqn:E.
  pose proof (heartbeat_functional _ _ _ _ _ _ _ _ _ _ _ wf_two E) as H.
  rewrite two_alpha in H.
  destruct H as (e' & ps & -> & Hr & _ & (_ & _ & Hl & _) & _). exists s', e'. exact (conj eq_refl (conj Hr Hl)).
Defined.

Lemma deregister_leaves_no_trace_witness :
  exists s', deregister (at_time 3000 9%N) two alpha "bye" = (s', true) /\
    no_trace s' alpha (key 1) /\ is_Some (roster s' !! beta).
Proof.
  destruct (deregister (at_time 3000 9%N) two alpha "bye") as [s' b] eqn:E.
  destruct (deregister_leaves_no_trace _ _ _ _ _ _ wf_two E) as (-> & _ & H).
  destruct (H (entry_of two alpha) two_alpha) as (Hn & (Ho & _) & _).
  exists s'. split; [reflexivity|]. split; [exact Hn|]. rewrite Ho by discriminate. rewrite two_beta. eexists. reflexivity.
Defined.

Lemma sweep_removes_exactly_silent_witness :
  roster (sweep_once (at_time 60001500 9%N) two) !! alpha = None /\
  roster (sweep_once (at_time 60001500 9%N) two) !! beta = Some (entry_of two beta).
Proof.
  split.
  - destruct (roster (sweep_once _ two) !! alpha) as [e|] eqn:E; [|done].
    apply sweep_removes_exactly_silent in E as [He Hn].
    rewrite two_alpha in He. apply (inj Some) in He. rewrite <- He in Hn.
    exfalso. apply Hn. vm_compute. reflexivity.
  - apply sweep_removes_exactly_silent. split; [exact two_beta|]. vm_compute. discriminate.
Defined.

Lemma register_admits_new_member_witness :
  exists s' e, register_authenticated (at_time 2000 beta) one (request 2 "beta" None) None no_reply (Some address)
    = Some (s', Ok (e, Created)) /\
    address_granted one "net-a" None (ula e) /\ by_pubkey s' !! key 2 = Some beta.
Proof.
  destruct (register_authenticated (at_time 2000 beta) one (request 2 "beta" None) None no_reply (Some address))
    as [[s' [[e []]|]]|] eqn:E; try (by vm_compute in E).
  destruct (register_admits_new_member _ _ _ _ _ _ _ _ wf_one one_fresh E)
    as (claims & Ha & Hd & _ & _ & Hb & _ & Hn & _ & Hg & _). exists s', e. split; [reflexivity|].
  assert (claims = None) as -> by exact Ha. rewrite Hn in Hg. split; [exact Hg|].
  assert (wg_public_key e = key 2) as Hk by (rewrite (decode_key "beta" None) in Hd; by injection Hd as <-).
  by rewrite Hk in Hb.
Defined.

Lemma register_known_key_witness :
  exists s' e, register_authenticated (at_time 3000 7%N) two (request 2 "gamma" None) None no_reply None
    = Some (s', Ok (e, Existed)) /\ roster s' = <[beta := e]> (roster two) /\ ula e = addr_b.
Proof.
  destruct (register_authenticated (at_time 3000 7%N) two (request 2 "gamma" None) None no_reply None)
    as [[s' r]|] eqn:E; [|by vm_compute in E].
  destruct (register_known_key _ _ _ _ _ _ _ _ beta (key 2) wf_two (decode_key _ None) two_key E)
    as [_ H].
  destruct r as [[e []]|]; [by destruct H| |by vm_compute in E].
  destruct H as (_ & claims & old & Ha & Ho & _ & Hr & _ & _ & _ & _ & _ & Hk).
  exists s', e. split; [reflexivity|]. split; [exact Hr|].
  assert (claims = None) as -> by exact Ha.
  destruct Hk as [(-> & _)|([? [=]] & _)].
  rewrite two_beta in Ho. apply (inj Some) in Ho. rewrite <- Ho. vm_compute. reflexivity.
Defined.

Lemma refused_join_admits_nobody_witness :
  exists s' e, register_authenticated (at_time 70000000 3%N) two intruder None no_reply None = Some (s', Err e) /\
    roster s' ⊆ roster two /\ evictable (at_time 70000000 3%N) two (rr_requested_ula intruder) beta.
Proof.
  destruct (register_authenticated (at_time 70000000 3%N) two intruder None no_reply None)
    as [[s' [r|e]]|] eqn:E; try (by vm_compute in E).
  destruct (refused_join_admits_nobody _ _ _ _ _ _ _ _ wf_two E) as (H1 & _ & H3 & _).
  exists s', e. split; [reflexivity|]. split; [exact H1|].
  apply (H3 beta (entry_of two beta)); [exact two_beta|].
  vm_compute in E. injection E as <- _. reflexivity.
Defined.

Lemma restart_restores_roster_witness :
  let s := two <| roster_store := FileRosterStore (mkFiles None None) |> in
  exists s', s' = restore (at_time 9000 9%N) (with_policy_validator_store 60000000 (store_new demo_policy) false
                            (roster_store (persist_roster s io_ok))) true /\
    by_pubkey s' = by_pubkey two /\ (exists e, roster s' !! alpha = Some e /\ ula e = addr_a /\ last_heartbeat e = 9000).
Proof.
  intros s.
  assert (wf_inner s) as Hw by exact (wf_inner_same two s wf_two eq_refl eq_refl eq_refl eq_refl eq_refl).
  pose proof (restart_restores_roster (at_time 3000 9%N) (at_time 9000 9%N) s 60000000 (store_new demo_policy) false
    (mkFiles None None) [Zpos (encode (to_joined_event <$> entries s))] Hw eq_refl eq_refl eq_refl) as H.
  cbv zeta in H. destruct H as (_ & Hb & _ & He & _).
  destruct (He alpha (entry_of two alpha) two_alpha) as (e & H1 & ((_ & _ & H2 & _) & _) & H3).
  eexists. split; [reflexivity|]. split; [exact Hb|]. exists e. split; [exact H1|].
  split; [rewrite H2; vm_compute; reflexivity|exact H3].
Defined.

(** The first member sends a two-byte transport payload to the second, who has no
    socket yet: the frame is held for it. *)
Lemma route_uplink_enforces_policy_witness :
  exists s', route_uplink (at_time 3000 9%N) two (key 1) (encode_relay_frame (key 2) [4; 7]) = (s', None) /\
    sent (relay s') = [] /\
    spool (relay s') !! key 2 = Some [mkSpooledFrame 3000 false (key 1 ++ [4; 7])] /\
    exists i j a b, roster two !! i = Some a /\ roster two !! j = Some b /\
      can_see (current (policy_store two)) (tags a) (tags b) = true.
Proof.
  assert (snd (route_uplink (at_time 3000 9%N) two (key 1) (encode_relay_frame (key 2) [4; 7])) = None) as Ho
    by (vm_compute; reflexivity).
  assert (spool (relay (fst (route_uplink (at_time 3000 9%N) two (key 1) (encode_relay_frame (key 2) [4; 7])))) !! key 2
          = Some [mkSpooledFrame 3000 false (key 1 ++ [4; 7])]) as Hs by (vm_compute; reflexivity).
  destruct (route_uplink (at_time 3000 9%N) two (key 1) (encode_relay_frame (key 2) [4; 7])) as [s' out] eqn:E.
  cbn [fst snd] in Ho, Hs. subst out. exists s'. split; [reflexivity|].
  destruct (route_uplink_enforces_policy _ _ _ _ _ _ E)
    as [[H _]|(dst & payload & i & j & a & b & _ & _ & _ & _ & Ha & Hb & Hc & _ & Hn)].
  - exfalso. rewrite H in Hs. vm_compute in Hs. discriminate Hs.
  - split; [rewrite (proj1 (Hn eq_refl)); vm_compute; reflexivity|]. split; [exact Hs|].
    exists i, j, a, b. exact (conj Ha (conj Hb Hc)).
Defined.

Lemma operator_routes_need_the_token_witness :
  exists msg, serve (at_time 0 9%N) api_start None no_headers (PutPolicy policy_default) = Some (api_start, err 401 msg).
Proof.
  apply (operator_routes_need_the_token (at_time 0 9%N) api_start None no_headers (PutPolicy policy_default) eq_refl).
  intros (tok & v & _ & H & _). discriminate H.
Defined.

Definition command : NodeCommandDto := mkNodeCommandDto "c1" "restart" "u" "n" 0 9 "s".
Definition beat (id : Uuid) (executed : list string) : HeartbeatRequest :=
  mkHeartbeatRequest (Concrete.uuid_text id) (Some 51820) [] None None false [] true executed.

Lemma parse_beat : uuid_parse (hr_peer_id (beat alpha [])) = Ok alpha.
Proof. vm_compute. reflexivity. Qed.

Lemma commands_delivered_once_witness :
  exists s' r, heartbeat_handler (at_time 3000 9%N) (enqueue_command two alpha command) None (beat alpha [])
      = (s', respond 200 (BodyHeartbeat r)) /\
    hp_pending_commands r = [command] /\ pending_command_ids s' alpha = [].
Proof.
  set (s := enqueue_command two alpha command).
  assert (wf_inner s) as Hw by (apply wf_update_entry; [exact wf_two|intros e; exact (conj eq_refl (conj eq_refl (conj eq_refl eq_refl)))]).
  assert (roster s !! alpha = Some ((entry_of two alpha) <| pending_commands := [command] |>)) as He
    by (vm_compute; reflexivity).
  destruct (commands_delivered_once (at_time 3000 9%N) s None (beat alpha []) alpha _ command Hw
    parse_beat He) as (s' & r & H1 & H2 & H3 & _).
  exists s', r. split; [exact H1|]. split; [rewrite H2; vm_compute; reflexivity|exact H3].
Defined.

Lemma answers_are_confined_witness :
  exists a' r, serve (at_time 3000 3%N) api_two None no_headers (PostHeartbeat (beat alpha [])) = Some (a', respond 200 (BodyHeartbeat r)) /\
    exists e, roster (coordinator a') !! alpha = Some e /\
      forall info, info ∈ hp_peers r <-> shown_to (coordinator a') alpha e info.
Proof.
  destruct (heartbeat_handler_effect (at_time 3000 3%N) two None (beat alpha []) alpha _ wf_two
    parse_beat two_alpha) as (s' & r & _ & _ & H1 & _).
  assert (serve (at_time 3000 3%N) api_two None no_headers (PostHeartbeat (beat alpha []))
    = Some (mkApiState 1 s' (Some "secret"), respond 200 (BodyHeartbeat r))) as Hs.
  { cbn [serve api_two coordinator]. by rewrite H1. }
  exists (mkApiState 1 s' (Some "secret")), r. split; [exact Hs|].
  destruct (answers_are_confined (at_time 3000 3%N) api_two None no_headers (PostHeartbeat (beat alpha [])) _ _
    wf_two (two_fresh 3000) Hs) as (q & id & e & Hq & Hu & He & Hs').
  injection Hq as <-. assert (id = alpha) as -> by (rewrite parse_beat in Hu; by injection Hu).
  exists e. split; [exact He|exact Hs'].
Defined.

Lemma put_policy_table_witness :
  exists a' resp, put_policy_handler api_two admin_headers policy_default = (a', resp) /\
    status resp = 200 /\ current (policy_store (coordinator a')) = policy_default.
Proof.
  destruct (put_policy_handler api_two admin_headers policy_default) as [a' resp] eqn:E. exists a', resp.
  destruct (put_policy_table _ _ _ _ _ E) as (_ & _ & H).
  assert (carries_token api_two admin_headers) as Ht.
  { eexists _, _. split; [reflexivity|]. split; vm_compute; reflexivity. }
  specialize (H Ht). assert (if_match_text admin_headers = Some (etag (inner (store_new demo_policy)))) as Hi
    by (vm_compute; reflexivity).
  rewrite Hi in H. cbn [validate acls policy_default validate_rules] in H. destruct H as [_ H].
  assert (policy_store (coordinator api_two) = store_new demo_policy) as Hp by (vm_compute; reflexivity).
  rewrite Hp in H. destruct (H eq_refl) as (H1 & H2 & _). split; [reflexivity|]. exact (conj H1 H2).
Defined.

Lemma coordinator_invariant_witness :
  rtc life_step api_start api_two /\
  forall i j e f, roster two !! i = Some e -> roster two !! j = Some f -> ula e = ula f -> i = j.
Proof.
  assert (rtc life_step api_start api_two) as Hr
    by exact (rtc_l _ _ _ _ (life_running _ _ step_one) (rtc_once _ _ (life_running _ _ step_two))).
  split; [exact Hr|]. exact (proj1 (proj2 (coordinator_invariant _ _ start_started Hr))).
Defined.

Lemma identity_only_by_admission_witness :
  admitted one None no_reply None /\ identity_granted one (request 2 "beta" None) None beta (entry_of two beta).
Proof.
  destruct occurs_two as [resp Hs].
  destruct (identity_only_by_admission api_start api_one _ api_two beta (entry_of two beta) start_started
    (rtc_once _ _ (life_running _ _ step_one)) Hs two_beta) as [(e & He & _)|H].
  - exfalso. pose proof one_fresh as Hf. cbn [fresh_id at_time] in Hf. cbn [coordinator api_one] in He.
    rewrite Hf in He. discriminate He.
  - destruct H as (env & peer & headers & req & reply & r & claims & Hq & Ha & Hg).
    injection Hq as <- <- <- <- <- <-. cbn [coordinator api_one] in Ha, Hg.
    assert (has_validator one = false) as Hv by (vm_compute; reflexivity).
    pose proof Ha as Hc. unfold admitted in Hc. rewrite Hv in Hc. subst claims. split; [|exact Hg].
    unfold admitted. rewrite Hv. reflexivity.
Defined.

(** A member is shown under one policy and hidden under the next. *)
Lemma stream_replays_exactly_witness :
  let f := mkViewerFilter alpha ["tag:a"] ∅ in
  let i := to_info (entry_of two beta) in
  let items := [(demo_policy, Event (Added i)); (policy_default, Event (Updated i))] in
  (run_items (Some f) items).2 = [Added i; Removed "u:0" (pi_tags i)] /\
  exists g g' told after,
    (run_items (Some f) [(demo_policy, Event (Added i))]).1 = Some g /\
    live_item policy_default (Some g) (Event (Updated i)) = (Some g', told) /\
    (run_items (Some f) items).2 = [Added i] ++ option_list told ++ after.
Proof.
  intros f i items. split; [vm_compute; reflexivity|].
  pose proof (stream_replays_exactly f items) as H.
  destruct (run_items (Some f) items) as [f' frames]. destruct H as [_ H].
  destruct (H [(demo_policy, Event (Added i))] policy_default (Event (Updated i)) [] eq_refl)
    as (g & g' & told & after & Hg & Hl & Hf & _).
  exists g, g', told, after. split; [exact Hg|]. split; [exact Hl|]. exact Hf.
Defined.

Lemma resync_converges_witness :
  let f := mkViewerFilter alpha ["tag:a"] {["u:0"]} in
  exists g, (run_items (Some f) ((fun i => (demo_policy, Event (Updated i))) <$> roster_snapshot two)).1 = Some g /\
    ("u:0" ∈ revealed g <-> exists i, i ∈ roster_snapshot two /\ pi_peer_id i = "u:0" /\
      can_see demo_policy ["tag:a"] (pi_tags i) = true).
Proof.
  intros f.
  assert (pi_peer_id <$> roster_snapshot two = ["u:"; "u:0"]) as Hids by (vm_compute; reflexivity).
  destruct (resync_converges demo_policy f (roster_snapshot two)) as (g & H1 & H2).
  - rewrite Hids. apply NoDup_cons. split; [|apply NoDup_singleton].
    intros H. apply list_elem_of_singleton in H. discriminate H.
  - intros id Hid. rewrite Hids. cbn [revealed f] in Hid. apply elem_of_singleton in Hid as ->. by right; left.
  - exists g. split; [exact H1|]. apply (H2 "u:0"). vm_compute. discriminate.
Defined.

(** The first member reports a direct path to the second. *)
Definition linked : Inner :=
  record_peer_paths two alpha [mkPeerPathDto (Concrete.uuid_text beta) true 7 None None 3].

Lemma topology_faithful_witness :
  exists te, te ∈ tr_edges (topology linked) /\ te_from te = "u:" /\ te_to te = "u:0".
Proof.
  pose (te := mkTopologyEdge "u:" "u:0" true 7 None None 3).
  pose (e := mkPathEdge true 7 None None 3).
  destruct (topology_faithful linked te) as (_ & H & _).
  apply (H (entry_of linked alpha) beta e). clear H. subst te e.
  assert (topology_machines linked = [entry_of linked alpha; entry_of linked beta]) as Hm
    by (vm_compute; reflexivity).
  rewrite Hm. split; [by left|]. split; [exists (entry_of linked beta); split; [by right; left|vm_compute; reflexivity]|].
  split; [|vm_compute; reflexivity].
  assert (iter_map (paths (entry_of linked alpha)) = [(beta, mkPathEdge true 7 None None 3)]) as Hp
    by (vm_compute; reflexivity).
  rewrite Hp. by left.
Defined.

(** * Interleavings of concrete handlers

    The coordinator of [Demo] with two members, on which a registration that takes
    over a silent member's address and a deregistration of that member step in turn. *)

From S2P Require Import MembershipConc.

Module MembershipDemo.
Import Demo.

(** Handlers step in the order of a schedule. *)
Definition step_own (k : nat) (c : Conf) : option Conf :=
  t ← threads c !! k;
  match t with
  | Registers g pc =>
      '(s, lk, pc') ← reg_step k g (inner c) (lock c) pc; Some (mkConf s lk (<[k := Registers g pc']> (threads c)))
  | Deregisters env id reason pc =>
      '(s, pc') ← del_step env id reason (inner c) pc;
      Some (mkConf s (lock c) (<[k := Deregisters env id reason pc']> (threads c)))
  end.
Definition run_own (schedule : list nat) (c : Conf) : option Conf :=
  foldl (fun c k => c ← c; step_own k c) (Some c) schedule.

Lemma step_own_sound k c c' : step_own k c = Some c' -> own_step c c'.
Proof.
  unfold step_own. intros (t & Hk & Hs)%bind_Some. destruct t as [g pc|env id reason pc].
  - apply bind_Some in Hs as ([[s lk] pc'] & Hr & [= <-]). by eapply own_register.
  - apply bind_Some in Hs as ([s pc'] & Hr & [= <-]). by eapply own_deregister.
Qed.
Lemma run_own_none schedule : foldl (fun c k => c ← c; step_own k c) (None : option Conf) schedule = None.
Proof. by induction schedule. Qed.
Lemma run_own_sound schedule c c' : run_own schedule c = Some c' -> rtc own_step c c'.
Proof.
  unfold run_own. revert c. induction schedule as [|k schedule IH]; intros c; simpl; [intros [= ->]; apply rtc_refl|].
  destruct (step_own k c) as [c1|] eqn:Hs; simpl; [|by rewrite run_own_none]. intros Hr.
  eapply rtc_l; [by apply (step_own_sound k)|by apply IH].
Qed.
Lemma own_conc c c' : rtc own_step c c' -> rtc conc_step c c'.
Proof. induction 1 as [|x y z Hs _ IH]; [apply rtc_refl|]. eapply rtc_l; [by apply conc_own|done]. Qed.

(** A minute after the second member was last heard of, a third asks for its address;
    at the same time the second member says goodbye. *)
Definition late : Env := at_time 70000000 3%N.
Definition takeover : Registration :=
  mkRegistration late (request 3 "gamma" (Some (fmt_ipv6 addr_b))) None (key 3) (Some address).
Definition joins : Thread := Registers takeover Locking.
Definition leaves : Thread := Deregisters late beta "shutdown" Reading.
Definition idle : Conf := mkConf two None [].
Definition begun : Conf := mkConf two None [joins; leaves].

Lemma joins_may_start : may_start idle joins.
Proof. split; [reflexivity|]. split; [exact (two_fresh _)|]. intros t Hin. inversion Hin. Qed.
Lemma leaves_may_start : may_start (mkConf two None [joins]) leaves.
Proof.
  split; [reflexivity|]. intros g pc Hin _. apply list_elem_of_singleton in Hin. injection Hin as -> ->. vm_compute. discriminate.
Qed.
Lemma begun_reached : rtc conc_step idle begun.
Proof.
  eapply rtc_l; [exact (conc_start idle joins joins_may_start)|].
  eapply rtc_l; [exact (conc_start (mkConf two None [joins]) leaves leaves_may_start)|]. apply rtc_refl.
Qed.
Lemma two_at_rest : at_rest two.
Proof. apply wf_at_rest, wf_two. Qed.

(** The registration finds the holder silent; the goodbye takes it out of the roster first
    and is overtaken before it has cleaned up the key index. *)
Definition interleaved : list nat := [0; 0; 0; 0; 1; 1; 0; 0; 0; 0; 0; 1; 0; 1; 1; 0]%nat.

Definition who (c : Conf) : list (Uuid * Ipv6Addr) := (fun e => (peer_id e, ula e)) <$> entries (inner c).
Definition answered (c : Conf) : bool := forallb finished (threads c).

Lemma interleaving_keeps_membership_witness :
  exists c, run_own interleaved begun = Some c
    /\ who c = [(3%N, addr_b); (alpha, addr_a)] /\ lock c = None
    /\ at_rest (inner c).
Proof.
  destruct (run_own interleaved begun) as [c|] eqn:Er; [|vm_compute in Er; discriminate Er].
  assert (Some (who c, lock c, answered c) = Some ([(3%N, addr_b); (alpha, addr_a)], None, true)) as E.
  { transitivity ((fun c => (who c, lock c, answered c)) <$> run_own interleaved begun); [rewrite Er; reflexivity|vm_compute; reflexivity]. }
  injection E as E1 E2 E3.
  destruct (interleaving_keeps_membership two c two_at_rest) as (_ & _ & _ & Hrest).
  { transitivity begun; [exact begun_reached|]. exact (own_conc _ _ (run_own_sound _ _ _ Er)). }
  exists c. split; [reflexivity|]. split; [exact E1|]. split; [exact E2|]. apply Hrest.
  apply Forall_forall. intros t Hin. unfold answered in E3. rewrite forallb_forall in E3. apply E3. by apply list_elem_of_In.
Defined.

(** Wherever the two are cut off, they can be run to their answers. *)
Lemma handlers_always_answer_witness :
  exists c c', run_own (take 7 interleaved) begun = Some c /\ answered c = false
    /\ rtc own_step c c' /\ at_rest (inner c').
Proof.
  destruct (run_own (take 7 interleaved) begun) as [c|] eqn:Er; [|vm_compute in Er; discriminate Er].
  destruct (handlers_always_answer two c two_at_rest) as (_ & _ & c' & Hr & _ & Hrest).
  { transitivity begun; [exact begun_reached|]. exact (own_conc _ _ (run_own_sound _ _ _ Er)). }
  exists c, c'. split; [reflexivity|]. split; [|split; [exact Hr|exact Hrest]].
  assert (Some (answered c) = Some false) as E; [|by injection E].
  transitivity (answered <$> run_own (take 7 interleaved) begun); [rewrite Er; reflexivity|vm_compute; reflexivity].
Defined.

(** The look at the last heartbeat and the removal are two accesses. A heartbeat in between
    is answered and its sender evicted all the same. *)
Definition beat_between : option (PeerEntry * Conf) :=
  c ← run_own [0; 0; 0; 0]%nat begun;
  let '(s, r) := heartbeat late (inner c) beta "8.8.8.8:40000" (Some 51820) [] None None false in
  match r with
  | Ok e => c' ← run_own [0; 0; 0; 0; 0; 0; 0; 0; 0]%nat (mkConf s (lock c) (threads c)); Some (e, c')
  | Err _ => None
  end.
Lemma heartbeat_in_the_gap_is_ignored :
  match beat_between with
  | Some (e, c) => last_heartbeat e = now late /\ duration_since (now late) (last_heartbeat e) <= heartbeat_timeout two
      /\ roster (inner c) !! beta = None /\ who c = [(3%N, addr_b); (alpha, addr_a)]
  | None => False
  end.
Proof. vm_compute. split; [reflexivity|]. split; [discriminate|]. split; reflexivity. Qed.
End MembershipDemo.
