(* ===== verification/PeerSession.v ===== *)
(** * A peer session of the joiner ([wg/session/peer_session.rs])

    One session is one WireGuard tunnel and the data the joiner routes by: the
    sources the peer may use, where to dial it, whether the direct path has been
    confirmed by data, and the clocks and counters that pace probes, back-offs and
    re-arms. The tunnel itself is the [boringtun] crate's [Tunn]; what the joiner
    asks of it is the class [Noise]. *)

From S2P Require Import Prelude NetAddr Types.

Open Scope Z_scope.

(** ** The tunnel library *)

(** [boringtun]'s result of a call. *)
Inductive TunnResult :=
| TunnDone
| TunnErr (e : string)
| WriteToNetwork (bytes : list Z)
| WriteToTunnelV4 (bytes : list Z) (src : Ipv4Addr)
| WriteToTunnelV6 (bytes : list Z) (src : Ipv6Addr).

(** A tunnel's state includes its random numbers; the calls that look at the clock
    get its reading. *)
Class Noise := {
  Tunn : Type;
  StaticSecret : Type;
  tunn_new : StaticSecret -> list Z -> Z -> Tunn;
  decapsulate : Tunn -> Z -> list Z -> Tunn * TunnResult;
  encapsulate : Tunn -> Z -> list Z -> Tunn * TunnResult;
  update_timers : Tunn -> Z -> Tunn * TunnResult;
  format_handshake_initiation : Tunn -> Z -> bool -> Tunn * TunnResult;
  set_static_private : Tunn -> StaticSecret -> Tunn;
  is_expired : Tunn -> bool;
  has_handshake : Tunn -> Z -> bool;  (** [time_since_last_handshake().is_some()] *)
}.

(** ** Constants *)

Definition DIRECT_PATH_TTL_MICROS : Z := 35000000.
Definition DIRECT_TX_BLACKHOLE_TTL_MICROS : Z := 30000000.
Definition DIRECT_BACKOFF_BASE_MICROS : Z := 2000000.
Definition DIRECT_BACKOFF_CAP_MICROS : Z := 300000000.
Definition EXPIRED_REARM_BACKOFF_MICROS : Z := 90000000.
Definition EXPIRED_REARM_BACKOFF_CAP_MICROS : Z := 600000000.
Definition CONVERGENCE_REARM_BACKOFF_MICROS : Z := 5000000.

(** The loop of [escalating_backoff] ([wg/session/table.rs]); [n] is the number of
    turns left. *)
Fixpoint backoff_loop (n : nat) (window cap_micros : Z) : Z :=
  match n with
  | O => if window <? cap_micros then window else cap_micros
  | S n =>
      match i64_checked_mul window 2 with
      | Some doubled => if doubled <? cap_micros then backoff_loop n doubled cap_micros else cap_micros
      | None => cap_micros
      end
  end.
Definition escalating_backoff (streak base_micros cap_micros : Z) : Z :=
  backoff_loop (Z.to_nat streak) base_micros cap_micros.

Definition rearm_interval (streak base_micros cap_micros : Z) : Z :=
  escalating_backoff streak base_micros cap_micros.

(** ** The session *)

Section Session.
Context `{Noise}.

Record PeerSession := mkPeerSession {
  peer_id : Uuid;
  ula : Ipv6Addr;
  peer_pubkey : list Z;
  allowed_ips : gset Ipv6Addr;
  endpoint : option SocketAddr;
  endpoint_learned : bool;
  direct_confirmed : bool;
  last_direct_rx_micros : Z;
  last_direct_data_tx_micros : Z;
  last_direct_data_rx_micros : Z;
  last_probe_micros : Z;
  failed_handshake_count : Z;
  direct_suppressed_until : Z;
  last_rearm_micros : Z;
  rearm_streak : Z;
  eager_convergence : bool;
  last_handshake_rx_micros : Z;
  last_handshake_rx_direct : bool;
  handshake_rx_count : Z;
  tunn : Tunn;
}.
#[export] Instance eta_PeerSession : Eta PeerSession := fun s =>
  mkPeerSession (peer_id s) (ula s) (peer_pubkey s) (allowed_ips s) (endpoint s) (endpoint_learned s)
    (direct_confirmed s) (last_direct_rx_micros s) (last_direct_data_tx_micros s)
    (last_direct_data_rx_micros s) (last_probe_micros s) (failed_handshake_count s)
    (direct_suppressed_until s) (last_rearm_micros s) (rearm_streak s) (eager_convergence s)
    (last_handshake_rx_micros s) (last_handshake_rx_direct s) (handshake_rx_count s) (tunn s).

(** [now_micros - at] is an [i64] subtraction, which wraps in a release build. *)
Definition path_status (s : PeerSession) (now_micros : Z) : bool * Z :=
  (direct_confirmed s, wrap_i64 (now_micros - last_direct_rx_micros s)).

Definition clear_handshake_backoff (s : PeerSession) : PeerSession :=
  s <| failed_handshake_count := 0 |> <| direct_suppressed_until := 0 |>.

Definition note_direct_rx (s : PeerSession) (now_micros : Z) : PeerSession :=
  let s := s <| last_direct_rx_micros := now_micros |> in
  let s := clear_handshake_backoff s in
  s <| rearm_streak := 0 |>.

Definition confirm_direct (s : PeerSession) (now_micros : Z) : PeerSession :=
  let s := s <| direct_confirmed := true |> in
  let s := s <| last_direct_rx_micros := now_micros |> in
  s <| last_direct_data_rx_micros := now_micros |>.

Definition note_handshake_rx (s : PeerSession) (direct : bool) (now_micros : Z) : PeerSession :=
  let s := s <| last_handshake_rx_micros := now_micros |> in
  let s := s <| last_handshake_rx_direct := direct |> in
  s <| handshake_rx_count := u64_wrapping_add (handshake_rx_count s) 1 |>.

Definition handshake_status (s : PeerSession) (now_micros : Z) : Z * option (bool * Z) :=
  let count := handshake_rx_count s in
  let at_ := last_handshake_rx_micros s in
  if at_ =? 0 then (count, None)
  else (count, Some (last_handshake_rx_direct s, wrap_i64 (now_micros - at_))).

Definition note_direct_tx (s : PeerSession) (now_micros : Z) : PeerSession :=
  s <| last_direct_data_tx_micros := now_micros |>.

(** [fetch_add] wraps, and so do the addition and the subtraction of a release
    build. *)
Definition note_handshake_failure (s : PeerSession) (now_micros : Z) : PeerSession :=
  let prev := failed_handshake_count s in
  let s := s <| failed_handshake_count := u32_wrapping_add prev 1 |> in
  let failures := u32_wrapping_add prev 1 in
  let exp := Z.min (u32_wrapping_add failures (-1)) 30 in
  let window :=
    Z.min (default DIRECT_BACKOFF_CAP_MICROS (i64_checked_shl DIRECT_BACKOFF_BASE_MICROS exp))
      DIRECT_BACKOFF_CAP_MICROS in
  s <| direct_suppressed_until := i64_saturating_add now_micros window |>.

Definition downgrade_direct_if_tx_blackholed (s : PeerSession) (now_micros ttl_micros : Z)
    : PeerSession * bool :=
  if negb (direct_confirmed s) then (s, false)
  else
    let last_tx := last_direct_data_tx_micros s in
    if last_tx =? 0 then (s, false)
    else
      let actively_sending := i64_saturating_sub now_micros last_tx <=? ttl_micros in
      let rx_silent := ttl_micros <? i64_saturating_sub now_micros (last_direct_data_rx_micros s) in
      if actively_sending && rx_silent then
        let s := s <| direct_confirmed := false |> in
        let s := s <| endpoint_learned := false |> in
        (note_handshake_failure s now_micros, true)
      else (s, false).

Definition should_probe_direct (s : PeerSession) (now_micros interval_micros : Z) : PeerSession * bool :=
  let last := last_probe_micros s in
  if interval_micros <=? i64_saturating_sub now_micros last
  then (s <| last_probe_micros := now_micros |>, true)
  else (s, false).

Definition direct_suppressed (s : PeerSession) (now_micros : Z) : bool :=
  now_micros <? direct_suppressed_until s.

Definition should_rearm_expired (s : PeerSession) (now_micros base_micros cap_micros : Z)
    : PeerSession * bool :=
  let streak := rearm_streak s in
  let backoff := rearm_interval streak base_micros cap_micros in
  let last := last_rearm_micros s in
  if backoff <=? i64_saturating_sub now_micros last then
    let s := s <| last_rearm_micros := now_micros |> in
    (s <| rearm_streak := u32_saturating_add streak 1 |>, true)
  else (s, false).

Definition downgrade_direct_if_stale (s : PeerSession) (now_micros ttl_micros : Z) : PeerSession :=
  if direct_confirmed s && (ttl_micros <? wrap_i64 (now_micros - last_direct_rx_micros s)) then
    let s := s <| direct_confirmed := false |> in
    let s := s <| endpoint_learned := false |> in
    note_handshake_failure s now_micros
  else s.

Definition is_allowed_source (s : PeerSession) (source : Ipv6Addr) : bool :=
  bool_decide (source ∈ allowed_ips s).
Definition add_allowed_source (s : PeerSession) (addr : Ipv6Addr) : PeerSession :=
  s <| allowed_ips := {[addr]} ∪ allowed_ips s |>.
Definition remove_allowed_source (s : PeerSession) (addr : Ipv6Addr) : PeerSession :=
  s <| allowed_ips := allowed_ips s ∖ {[addr]} |>.

Definition reset_handshake (s : PeerSession) (our_private : StaticSecret) : PeerSession :=
  s <| tunn := set_static_private (tunn s) our_private |>.

End Session.

(** ** Back-off *)

Lemma backoff_loop_spec n window cap :
  0 < window <= i64_max -> 0 < cap <= i64_max ->
  backoff_loop n window cap = Z.min (window * 2 ^ Z.of_nat n) cap.
Proof.
  revert window. induction n as [|n IH]; intros window Hw Hc; cbn [backoff_loop].
  { change (2 ^ Z.of_nat 0) with 1. destruct (window <? cap) eqn:E; lia. }
  assert (window * 2 ^ Z.of_nat (S n) = window * 2 * 2 ^ Z.of_nat n) as ->.
  { rewrite Nat2Z.inj_succ, Z.pow_succ_r by lia. ring. }
  assert (1 <= 2 ^ Z.of_nat n) as Hp by (apply (Z.pow_le_mono_r 2 0); lia).
  unfold i64_checked_mul. destruct (_ && _) eqn:E.
  - destruct (window * 2 <? cap) eqn:E2; [apply IH; lia|nia].
  - apply andb_false_iff in E. unfold i64_min in E. nia.
Qed.

(** The loop doubles without ever overflowing: it is [min (base * 2^streak) cap]. *)
Lemma escalating_backoff_spec streak base cap :
  0 <= streak -> 0 < base <= i64_max -> 0 < cap <= i64_max ->
  escalating_backoff streak base cap = Z.min (base * 2 ^ streak) cap.
Proof.
  intros Hs Hb Hc. unfold escalating_backoff. rewrite backoff_loop_spec by done. by rewrite Z2Nat.id.
Qed.

(** A clock reading, in microseconds since 1970. *)
Definition clock (t : Z) : Prop := 0 <= t <= 2 ^ 62.

Lemma clock_sub a b : clock a -> clock b -> i64_saturating_sub a b = a - b.
Proof. unfold clock, i64_saturating_sub, clamp, i64_min, i64_max. change (2 ^ 62) with 4611686018427387904. lia. Qed.
Lemma clock_wrap a b : clock a -> clock b -> wrap_i64 (a - b) = a - b.
Proof. intros Ha Hb. apply wrap_i64_id. unfold clock, is_i64, i64_min, i64_max in *. change (2 ^ 62) with 4611686018427387904 in *. lia. Qed.

Lemma last_cons_default {A} (x d : A) l : List.last (x :: l) d = List.last l x.
Proof.
  revert x d. induction l as [|y l IH]; intros x d; [done|].
  change (List.last (x :: y :: l) d) with (List.last (y :: l) d). by rewrite !IH.
Qed.

Definition handshake_window (failures : Z) : Z :=
  Z.min (DIRECT_BACKOFF_BASE_MICROS * 2 ^ (failures - 1)) DIRECT_BACKOFF_CAP_MICROS.

Lemma shl_window k :
  0 <= k <= 30 -> i64_checked_shl DIRECT_BACKOFF_BASE_MICROS k = Some (DIRECT_BACKOFF_BASE_MICROS * 2 ^ k).
Proof.
  intros Hk. unfold i64_checked_shl. destruct (k <? 64) eqn:E; [|lia].
  rewrite Z.shiftl_mul_pow2 by lia. rewrite wrap_i64_id; [done|].
  assert (2 ^ k <= 2 ^ 30) by (apply Z.pow_le_mono_r; lia).
  assert (0 < 2 ^ k) by (apply Z.pow_pos_nonneg; lia). change (2 ^ 30) with 1073741824 in *.
  unfold is_i64, i64_min, i64_max, DIRECT_BACKOFF_BASE_MICROS. lia.
Qed.

Section Backoff.
Context `{Noise}.
Implicit Types s : PeerSession.

Lemma note_handshake_failure_spec s now :
  clock now -> 0 <= failed_handshake_count s < u32_max ->
  failed_handshake_count (note_handshake_failure s now) = failed_handshake_count s + 1
  /\ direct_suppressed_until (note_handshake_failure s now)
     = now + handshake_window (failed_handshake_count s + 1).
Proof.
  intros Hn Hc. unfold note_handshake_failure. set (c := failed_handshake_count s) in *.
  assert (u32_wrapping_add c 1 = c + 1) as E1.
  { unfold u32_wrapping_add, u32_max in *. apply Z.mod_small. change (2 ^ 32) with 4294967296. lia. }
  assert (u32_wrapping_add (c + 1) (-1) = c) as E2.
  { unfold u32_wrapping_add, u32_max in *. rewrite Z.mod_small; [lia|]. change (2 ^ 32) with 4294967296. lia. }
  cbn [set_field failed_handshake_count direct_suppressed_until]. rewrite E1, E2. split; [done|].
  rewrite shl_window by lia. cbn [from_option id]. unfold handshake_window.
  replace (c + 1 - 1) with c by lia.
  assert (Z.min (DIRECT_BACKOFF_BASE_MICROS * 2 ^ Z.min c 30) DIRECT_BACKOFF_CAP_MICROS
          = Z.min (DIRECT_BACKOFF_BASE_MICROS * 2 ^ c) DIRECT_BACKOFF_CAP_MICROS) as ->.
  { destruct (Z.le_gt_cases c 30); [by rewrite (Z.min_l c 30)|]. rewrite (Z.min_r c 30) by lia.
    assert (2 ^ 30 <= 2 ^ c) by (apply Z.pow_le_mono_r; lia). change (2 ^ 30) with 1073741824 in *.
    unfold DIRECT_BACKOFF_BASE_MICROS, DIRECT_BACKOFF_CAP_MICROS. lia. }
  assert (0 < 2 ^ c) by (apply Z.pow_pos_nonneg; lia).
  unfold i64_saturating_add, clamp, i64_min, i64_max, clock, DIRECT_BACKOFF_BASE_MICROS, DIRECT_BACKOFF_CAP_MICROS in *.
  change (2 ^ 62) with 4611686018427387904 in *. lia.
Qed.

(** C28: The direct path of a peer that never answers is tried ever more rarely: after the
    [k]-th failed handshake since the last valid datagram it counts as suppressed until
    exactly [2 s * 2^(k-1)], five minutes at most, after the last of them, however many
    there were ([2^32 - 1] is the counter's width) and whenever they were; one valid
    datagram ends the penalty and the next failure starts the schedule anew. *)
Theorem handshake_backoff_schedule s first times :
  failed_handshake_count s = 0 -> Forall clock (first :: times) ->
  Z.of_nat (length (first :: times)) <= u32_max ->
  let s' := foldl note_handshake_failure s (first :: times) in
  let until := List.last times first + handshake_window (Z.of_nat (length (first :: times))) in
  (forall now, direct_suppressed s' now = true <-> now < until)
  /\ (forall now rx, 0 <= now -> direct_suppressed (note_direct_rx s' rx) now = false
        /\ failed_handshake_count (note_direct_rx s' rx) = 0).
Proof.
  intros H0 Hf Hl.
  assert (forall l s k, failed_handshake_count s = k -> 0 <= k -> Forall clock l ->
    k + Z.of_nat (length l) <= u32_max -> forall x d, l = x :: d ->
    direct_suppressed_until (foldl note_handshake_failure s l)
    = List.last d x + handshake_window (k + Z.of_nat (length l))) as Hgen.
  { clear. intros l. induction l as [|y l IH]; intros s k Hk Hk0 Hf Hl x d Heq; [done|].
    injection Heq as -> ->. apply Forall_cons in Hf as [Hy Hf]. cbn [length] in Hl.
    destruct (note_handshake_failure_spec s x Hy ltac:(lia)) as [E1 E2]. cbn [foldl].
    destruct d as [|z d].
    { cbn [foldl List.last length]. by rewrite E2, Hk. }
    rewrite (IH (note_handshake_failure s x) (k + 1) ltac:(lia) ltac:(lia) Hf ltac:(lia) z d eq_refl).
    f_equal; [by rewrite last_cons_default|]. f_equal. cbn [length]. lia. }
  cbn zeta. split.
  - intros now. unfold direct_suppressed. rewrite (Hgen _ s 0 H0 ltac:(lia) Hf ltac:(lia) first times eq_refl).
    rewrite Z.add_0_l. lia.
  - intros now rx Hn. unfold direct_suppressed. simpl. split; [lia|done].
Qed.

(** An expired tunnel is re-armed exactly when the escalating interval of its
    streak has passed since the last time: [min (base * 2^streak) cap]. The grant
    counts, and a valid datagram starts the schedule over. *)
Theorem rearm_schedule s now base cap :
  clock now -> clock (last_rearm_micros s) -> is_u32 (rearm_streak s) ->
  0 < base <= i64_max -> 0 < cap <= i64_max ->
  let wait := Z.min (base * 2 ^ rearm_streak s) cap in
  let '(s', granted) := should_rearm_expired s now base cap in
  (granted = true <-> last_rearm_micros s + wait <= now)
  /\ (granted = true -> last_rearm_micros s' = now /\ rearm_streak s' = Z.min u32_max (rearm_streak s + 1)
        /\ clock (last_rearm_micros s') /\ is_u32 (rearm_streak s'))
  /\ (granted = false -> s' = s)
  /\ rearm_streak (note_direct_rx s' now) = 0.
Proof.
  intros Hn Hl Hs Hb Hc. cbn zeta. unfold should_rearm_expired, rearm_interval.
  rewrite escalating_backoff_spec by (done || unfold is_u32 in Hs; lia). rewrite clock_sub by done.
  destruct (_ <=? _) eqn:E; simpl; split_and!; try done; try lia.
  - intros _. unfold is_u32, u32_saturating_add, u32_max in *. split_and!; try done; lia.
Qed.
End Backoff.

(** ** A tunnel to evaluate with

    Frames carry the sum of the two keys' first bytes and the packet in the clear. *)
Module Cleartext.
Definition key_byte (l : list Z) : Z := default 0 (head l).
#[export] Instance cleartext : Noise := {|
  Tunn := Z;
  StaticSecret := list Z;
  tunn_new ours theirs _ := key_byte ours + key_byte theirs;
  decapsulate t _ datagram :=
    (t, match datagram with
        | [] => TunnDone
        | 1 :: k :: _ => if k =? t then WriteToNetwork [2; t; 0; 0] else TunnErr "WrongKey"
        | 4 :: k :: packet =>
            if k =? t then
              match of_octets (take 16 (drop 8 packet)) with
              | Some src => WriteToTunnelV6 packet src
              | None => TunnDone
              end
            else TunnErr "WrongKey"
        | _ => TunnErr "InvalidPacket"
        end);
  encapsulate t _ packet :=
    (t, match packet with [] => WriteToNetwork [1; t; 0; 0] | _ => WriteToNetwork (4 :: t :: packet) end);
  update_timers t _ := (t, TunnDone);
  format_handshake_initiation t _ _ := (t, WriteToNetwork [1; t; 0; 0]);
  set_static_private t _ := t;
  is_expired _ := false;
  has_handshake _ _ := true;
|}.

Definition new_session : PeerSession :=
  mkPeerSession 7%N (Ipv6 0xfd5a 0x1f00 1 7 0 0 0 1) [7] ∅ None false false 0 0 0 0 0 0 0 0 true 0 false 0 14.

Lemma handshake_backoff_schedule_witness :
  let s' := foldl note_handshake_failure new_session [1000000; 5000000; 9000000] in
  direct_suppressed s' 16999999 = true /\ direct_suppressed s' 17000000 = false.
Proof.
  pose proof (handshake_backoff_schedule new_session 1000000 [5000000; 9000000] eq_refl) as H.
  destruct H as [H _]; [repeat constructor; vm_compute; congruence|vm_compute; congruence|].
  split.
  - apply H. reflexivity.
  - destruct (direct_suppressed _ 17000000) eqn:E; [|reflexivity]. apply H in E. vm_compute in E. discriminate E.
Defined.
End Cleartext.
