(* ===== verification/SessionTable.v ===== *)
(** * The joiner's session table ([wg/session/table.rs], [peer.rs])

    The sessions live in a heap and the three indexes of the table hold references
    to them, as the [Arc]s of the source do: a session that leaves one index may
    still be reached through another. Calls on the route sink, sends on the
    convergence channel and frames queued for the relay are recorded in order. *)

From S2P Require Import Prelude NetAddr Types PeerSession.

Open Scope Z_scope.

#[export] Instance SocketAddr_countable : Countable SocketAddr.
Proof.
  refine (inj_countable'
    (fun s => match s with SockV4 ip p => inl (ip, p) | SockV6 ip p f i => inr (ip, p, f, i) end)
    (fun x => match x with inl (ip, p) => SockV4 ip p | inr (ip, p, f, i) => SockV6 ip p f i end) _).
  by intros [].
Defined.

(** ** Data *)

(** [PeerInfo] of [peer.rs]. *)
Record PeerInfo := mkPeerInfo {
  i_peer_id : Uuid;
  i_wg_public_key : list Z;
  i_ula : Ipv6Addr;
  i_listen_endpoint : option SocketAddr;
  i_display_name : string;
  i_tags : list string;
  i_hosted_app_ulas : list Ipv6Addr;
  i_software_version : option string;
  i_mesh_version : option string;
  i_joined_at_micros : Z;
}.

Definition is_ephemeral_peer (ula : Ipv6Addr) : bool := seg1 ula =? 0x1f02.

(** The calls of the trait [RouteSink]. *)
Inductive RouteSink :=
| add_allowed (ula : Ipv6Addr)
| remove_allowed (ula : Ipv6Addr)
| add_app_route (app_ula : Ipv6Addr)
| remove_app_route (app_ula : Ipv6Addr).

(** [RelayHandle] of [relay/client.rs], with what has been queued on its lanes. *)
Record RelayOutbound := mkRelayOutbound { dst_pubkey : list Z; payload : list Z }.
Record RelayHandle := mkRelayHandle {
  tx_hi : list RelayOutbound;
  tx_lo : list RelayOutbound;
  relay_only : bool;
}.
#[export] Instance eta_RelayHandle : Eta RelayHandle := fun r =>
  mkRelayHandle (tx_hi r) (tx_lo r) (relay_only r).

Definition try_relay (r : RelayHandle) (dst : list Z) (bytes : list Z) : RelayHandle :=
  let hi := match head bytes with Some t => (1 <=? t) && (t <=? 3) | None => false end in
  let out := mkRelayOutbound dst bytes in
  if hi then r <| tx_hi := tx_hi r ++ [out] |> else r <| tx_lo := tx_lo r ++ [out] |>.

(** [joiner.rs]; the idle probe comes four times per threshold. *)
Definition DATAPLANE_RX_SILENCE_THRESHOLD_MICROS : Z := 90000000.
Definition IDLE_PROBE_AFTER_MICROS : Z := DATAPLANE_RX_SILENCE_THRESHOLD_MICROS `quot` 4.

Definition idle_probe_due (now_micros last_rx_micros : Z) (has_peers : bool) (after_micros : Z) : bool :=
  if negb has_peers then false
  else after_micros <=? i64_saturating_sub now_micros last_rx_micros.

(** [Ipv6Addr]'s order is that of its bytes. *)
Definition ipv6_lt (a b : Ipv6Addr) : bool :=
  foldl (fun x s => x * 65536 + s) 0 (segments a) <? foldl (fun x s => x * 65536 + s) 0 (segments b).

(** A reference to a session. *)
Definition Arc : Type := nat.

(** [DashMap] iterates in an order of its own. *)
Class TableOrder := { iter_ulas : forall {A}, gmap Ipv6Addr A -> list (Ipv6Addr * A) }.
Class TableOrderLaws `{TableOrder} := {
  iter_ulas_perm : forall A (m : gmap Ipv6Addr A), iter_ulas m ≡ₚ map_to_list m;
}.

Section Table.
Context `{Noise} `{TableOrder}.

Record SessionTable := mkSessionTable {
  heap : list PeerSession;
  by_ula : gmap Ipv6Addr Arc;
  by_endpoint : gmap SocketAddr Arc;
  by_pubkey : gmap (list Z) Arc;
  app_routes : gmap Ipv6Addr Ipv6Addr;
  route_sink : option (list RouteSink);
  relay : option RelayHandle;
  last_inbound_data_frame_ts : Z;
  last_send_attempt_ts : Z;
  last_idle_probe_ts : Z;
  convergence_tx : option (list Arc);
}.
#[export] Instance eta_SessionTable : Eta SessionTable := fun t =>
  mkSessionTable (heap t) (by_ula t) (by_endpoint t) (by_pubkey t) (app_routes t) (route_sink t)
    (relay t) (last_inbound_data_frame_ts t) (last_send_attempt_ts t) (last_idle_probe_ts t)
    (convergence_tx t).

(** The session behind a reference, and a write through it. *)
Definition get (t : SessionTable) (h : Arc) : option PeerSession := heap t !! h.
Definition modify (t : SessionTable) (h : Arc) (f : PeerSession -> PeerSession) : SessionTable :=
  t <| heap := alter f h (heap t) |>.

Definition sink (t : SessionTable) (call : RouteSink) : SessionTable :=
  t <| route_sink := (fun log => log ++ [call]) <$> route_sink t |>.

Definition table_new : SessionTable := mkSessionTable [] ∅ ∅ ∅ ∅ None None 0 0 0 None.
Definition with_route_sink_and_relay (relay : option RelayHandle) : SessionTable :=
  mkSessionTable [] ∅ ∅ ∅ ∅ (Some []) relay 0 0 0 None.
Definition with_convergence_tx (t : SessionTable) : SessionTable := t <| convergence_tx := Some [] |>.

Definition send_convergence (t : SessionTable) (h : Arc) : SessionTable :=
  t <| convergence_tx := (fun q => q ++ [h]) <$> convergence_tx t |>.

Definition request_convergence_kick (t : SessionTable) (ula : Ipv6Addr) : SessionTable :=
  match by_ula t !! ula with Some h => send_convergence t h | None => t end.

(** ** Liveness clocks *)

(** [store_max] ends with the larger value. *)
Definition store_max (clock now : Z) : Z := if clock <? now then now else clock.

Definition note_inbound_data_frame (t : SessionTable) (now_micros : Z) : SessionTable :=
  t <| last_inbound_data_frame_ts := store_max (last_inbound_data_frame_ts t) now_micros |>.
Definition note_send_attempt (t : SessionTable) (now_micros : Z) : SessionTable :=
  t <| last_send_attempt_ts := store_max (last_send_attempt_ts t) now_micros |>.

Definition is_empty (t : SessionTable) : bool := bool_decide (by_ula t = ∅).

Definition dataplane_healthy (t : SessionTable) (now_micros threshold_micros : Z) : bool :=
  if is_empty t then true
  else
    let last_rx := last_inbound_data_frame_ts t in
    let last_send := last_send_attempt_ts t in
    if last_send <=? last_rx then true
    else i64_saturating_sub now_micros last_rx <? threshold_micros.

Definition should_emit_idle_probe (t : SessionTable) (now_micros after_micros : Z) : SessionTable * bool :=
  if negb (idle_probe_due now_micros (last_inbound_data_frame_ts t) (negb (is_empty t)) after_micros)
  then (t, false)
  else if after_micros <=? i64_saturating_sub now_micros (last_idle_probe_ts t)
  then (t <| last_idle_probe_ts := now_micros |>, true)
  else (t, false).

(** ** Lookups *)

Definition ulas (t : SessionTable) : list Ipv6Addr := fst <$> iter_ulas (by_ula t).
Definition snapshot (t : SessionTable) : list Arc := snd <$> iter_ulas (by_ula t).

(** The method [by_ula]: a peer's own address, or the address of an app it hosts. *)
Definition session_for (t : SessionTable) (dst : Ipv6Addr) : option Arc :=
  match by_ula t !! dst with
  | Some h => Some h
  | None => host_ula ← app_routes t !! dst; by_ula t !! host_ula
  end.

Definition app_ulas_for_host (t : SessionTable) (host_ula : Ipv6Addr) : list Ipv6Addr :=
  fst <$> List.filter (fun kv => bool_decide (kv.2 = host_ula)) (iter_ulas (app_routes t)).

(** One turn of the loop of [idle_probe_target]. *)
Definition probe_better (t : SessionTable) (acc : option Arc * option Arc) (h : Arc) : option Arc * option Arc :=
  match get t h with
  | None => acc
  | Some s =>
      let better cur :=
        match cur ≫= get t with Some c => ipv6_lt (ula s) (ula c) | None => true end in
      let '(relay_anchored, any) := acc in
      let relay_anchored :=
        if negb (direct_confirmed s) && better relay_anchored then Some h else relay_anchored in
      let any := if better any then Some h else any in
      (relay_anchored, any)
  end.
Definition idle_probe_target (t : SessionTable) : option Arc :=
  let '(relay_anchored, any) := foldl (probe_better t) (None, None) (snapshot t) in
  match relay_anchored with Some h => Some h | None => any end.

(** ** App routes *)

Definition host_remote_app_route (t : SessionTable) (app_ula host_ula : Ipv6Addr) : SessionTable :=
  let t := t <| app_routes := <[app_ula := host_ula]> (app_routes t) |> in
  let t := match by_ula t !! host_ula with
           | Some h => modify t h (fun s => add_allowed_source s app_ula)
           | None => t
           end in
  sink t (add_app_route app_ula).

Definition unhost_remote_app_route (t : SessionTable) (app_ula : Ipv6Addr) : SessionTable :=
  let t := match app_routes t !! app_ula with
           | Some host_ula =>
               let t := t <| app_routes := delete app_ula (app_routes t) |> in
               match by_ula t !! host_ula with
               | Some h => modify t h (fun s => remove_allowed_source s app_ula)
               | None => t
               end
           | None => t
           end in
  sink t (remove_app_route app_ula).

Definition reconcile_app_routes (t : SessionTable) (host_ula : Ipv6Addr) (advertised : list Ipv6Addr)
    : SessionTable :=
  let t := foldl (fun t app_ula => host_remote_app_route t app_ula host_ula) t advertised in
  let stale := List.filter (fun a => negb (bool_decide (a ∈ advertised))) (app_ulas_for_host t host_ula) in
  foldl unhost_remote_app_route t stale.

(** ** Membership *)

Definition learn_endpoint (t : SessionTable) (h : Arc) (source : SocketAddr) : SessionTable :=
  let t := t <| by_endpoint := <[source := h]> (by_endpoint t) |> in
  modify t h (fun s =>
    if bool_decide (endpoint s = Some source) then s
    else s <| endpoint := Some source |> <| endpoint_learned := true |>).

(** The loop over [app_routes] in [upsert] and [update_in_place]. *)
Definition replay_app_routes (t : SessionTable) (host_ula : Ipv6Addr) (s : PeerSession) : PeerSession :=
  foldl (fun s kv => if bool_decide (kv.2 = host_ula) then add_allowed_source s kv.1 else s)
    s (iter_ulas (app_routes t)).

Definition index_endpoint (t : SessionTable) (addr : option SocketAddr) (h : Arc) : SessionTable :=
  match addr with
  | Some addr => t <| by_endpoint := <[addr := h]> (by_endpoint t) |>
  | None => t
  end.
Definition unindex_endpoint (t : SessionTable) (addr : option SocketAddr) : SessionTable :=
  match addr with
  | Some addr => t <| by_endpoint := delete addr (by_endpoint t) |>
  | None => t
  end.

Definition update_in_place (t : SessionTable) (h : Arc) (session : PeerSession) (info : PeerInfo) : SessionTable :=
  let t :=
    if endpoint_learned session then index_endpoint t (i_listen_endpoint info) h
    else
      let old_endpoint := endpoint session in
      let t := if bool_decide (old_endpoint <> i_listen_endpoint info)
               then unindex_endpoint t old_endpoint else t in
      let t := index_endpoint t (i_listen_endpoint info) h in
      modify t h (fun s => s <| endpoint := i_listen_endpoint info |>) in
  modify t h (replay_app_routes t (i_ula info)).

(** [allowed_ips_for], and the session [upsert] builds. *)
Definition allowed_ips_for (info : PeerInfo) : gset Ipv6Addr := {[i_ula info]}.
Definition session_new (our_private : StaticSecret) (index : Z) (info : PeerInfo) : PeerSession :=
  {| peer_id := i_peer_id info;
     ula := i_ula info;
     peer_pubkey := i_wg_public_key info;
     allowed_ips := allowed_ips_for info;
     endpoint := i_listen_endpoint info;
     endpoint_learned := false;
     direct_confirmed := false;
     last_direct_rx_micros := 0;
     last_direct_data_tx_micros := 0;
     last_direct_data_rx_micros := 0;
     last_probe_micros := 0;
     failed_handshake_count := 0;
     direct_suppressed_until := 0;
     last_rearm_micros := 0;
     rearm_streak := 0;
     eager_convergence := negb (is_ephemeral_peer (i_ula info));
     last_handshake_rx_micros := 0;
     last_handshake_rx_direct := false;
     handshake_rx_count := 0;
     tunn := tunn_new our_private (i_wg_public_key info) index |}.

(** The rest of [upsert], for a new peer or a rotated key. *)
Definition insert_session (our_private : StaticSecret) (index : Z) (t : SessionTable)
    (prior : option PeerSession) (info : PeerInfo) : SessionTable :=
  let is_new := match prior with None => true | Some _ => false end in
  let t := match prior with
           | Some old =>
               let t := unindex_endpoint t (endpoint old) in
               t <| by_pubkey := delete (peer_pubkey old) (by_pubkey t) |>
           | None => t
           end in
  let session := session_new our_private index info in
  let session := if negb is_new then replay_app_routes t (i_ula info) session else session in
  let h := length (heap t) in
  let t := t <| heap := heap t ++ [session] |> in
  let t := t <| by_ula := <[i_ula info := h]> (by_ula t) |> in
  let t := t <| by_pubkey := <[i_wg_public_key info := h]> (by_pubkey t) |> in
  let t := if is_new && negb (is_ephemeral_peer (i_ula info)) then send_convergence t h else t in
  index_endpoint t (i_listen_endpoint info) h.

(** [index] is the tunnel index drawn from the random number generator. *)
Definition upsert (our_private : StaticSecret) (index : Z) (t : SessionTable) (info : PeerInfo) : SessionTable :=
  let prior := by_ula t !! i_ula info in
  let t := sink t (add_allowed (i_ula info)) in
  match prior, prior ≫= get t with
  | Some h, Some old =>
      if bool_decide (peer_pubkey old = i_wg_public_key info) then update_in_place t h old info
      else insert_session our_private index t (Some old) info
  | _, _ => insert_session our_private index t None info
  end.

(** The loop of [remove] over the app routes of the removed peer. *)
Definition drop_app_route (t : SessionTable) (app_ula : Ipv6Addr) : SessionTable :=
  let t := t <| app_routes := delete app_ula (app_routes t) |> in
  sink t (remove_app_route app_ula).

Definition remove (t : SessionTable) (u : Ipv6Addr) : SessionTable * bool :=
  match by_ula t !! u with
  | None => (t, false)
  | Some h =>
      let t := t <| by_ula := delete u (by_ula t) |> in
      let t := match get t h with
               | Some session =>
                   let t := unindex_endpoint t (endpoint session) in
                   t <| by_pubkey := delete (peer_pubkey session) (by_pubkey t) |>
               | None => t
               end in
      let t := foldl drop_app_route t (app_ulas_for_host t u) in
      (sink t (remove_allowed u), true)
  end.

Definition clear (t : SessionTable) : SessionTable :=
  let t := foldl (fun t u => sink t (remove_allowed u)) t (ulas t) in
  let t := foldl (fun t kv => sink t (remove_app_route kv.1)) t (iter_ulas (app_routes t)) in
  t <| by_ula := ∅ |> <| by_endpoint := ∅ |> <| by_pubkey := ∅ |> <| app_routes := ∅ |>.

Definition force_rehandshake_all (t : SessionTable) (our_private : StaticSecret) : SessionTable :=
  foldl (fun t h => modify t h (fun s => reset_handshake s our_private)) t (snapshot t).
End Table.
