(* ===== verification/SessionInv.v ===== *)
(** * The session table keeps its indexes together

    The invariant of [SessionTable.v] and its preservation by every operation, and
    what the operations that follow the roster do to the set of live sessions. *)

From S2P Require Import Prelude NetAddr Types PeerSession SessionTable.

Open Scope Z_scope.

(** The kernel routes that a sequence of calls on the route sink leaves: those of
    peers and those of apps. *)
Definition route_step (r : gset Ipv6Addr * gset Ipv6Addr) (c : RouteSink) : gset Ipv6Addr * gset Ipv6Addr :=
  match c with
  | add_allowed u => ({[u]} ∪ r.1, r.2)
  | remove_allowed u => (r.1 ∖ {[u]}, r.2)
  | add_app_route a => (r.1, {[a]} ∪ r.2)
  | remove_app_route a => (r.1, r.2 ∖ {[a]})
  end.
Definition routes_left (log : list RouteSink) : gset Ipv6Addr * gset Ipv6Addr :=
  foldl route_step (∅, ∅) log.

Section Inv.
Context `{Noise} `{TableOrder}.
Implicit Types (t : SessionTable) (s : PeerSession) (h : Arc).

(** The routes of peers and apps that are installed, when there is a sink. *)
Definition routes_are t (r : gset Ipv6Addr * gset Ipv6Addr) : Prop :=
  match route_sink t with None => True | Some log => routes_left log = r end.

Record wf_index t : Prop := {
  wf_ula : forall u h, by_ula t !! u = Some h -> exists s, get t h = Some s /\ ula s = u;
  wf_pubkey : forall pk h, by_pubkey t !! pk = Some h ->
    exists s, get t h = Some s /\ peer_pubkey s = pk /\ by_ula t !! ula s = Some h;
  wf_endpoint : forall a h, by_endpoint t !! a = Some h -> is_Some (get t h);
}.

(** Every app route leads to a live session. *)
Definition wf_hosts t : Prop :=
  forall a u, app_routes t !! a = Some u -> is_Some (by_ula t !! u).

Record wf_table t : Prop := {
  table_index : wf_index t;
  table_routes : routes_are t (dom (by_ula t), dom (app_routes t));
  table_hosts : wf_hosts t;
}.

(** The live session of an address. *)
Definition live t (u : Ipv6Addr) : option PeerSession := by_ula t !! u ≫= get t.

(** ** Writes through a reference *)

Definition keeps_identity (f : PeerSession -> PeerSession) : Prop :=
  forall s, ula (f s) = ula s /\ peer_pubkey (f s) = peer_pubkey s.

Lemma get_modify t h f j :
  get (modify t h f) j = if decide (j = h) then f <$> get t h else get t j.
Proof.
  unfold get, modify. simpl. case_decide as E; [subst; apply list_lookup_alter_eq|by apply list_lookup_alter_ne].
Qed.

Lemma get_modify_Some t h f j s :
  get t j = Some s -> exists s', get (modify t h f) j = Some s' /\ (s' = s \/ s' = f s).
Proof.
  intros Hj. rewrite get_modify. case_decide as E; [subst; rewrite Hj; simpl; eauto|eauto].
Qed.

Lemma wf_modify t h f : keeps_identity f -> wf_index t -> wf_index (modify t h f).
Proof.
  intros Hf [H1 H2 H3].
  assert (forall j s, get t j = Some s -> exists s', get (modify t h f) j = Some s' /\ ula s' = ula s /\ peer_pubkey s' = peer_pubkey s) as Hg.
  { intros j s Hj. destruct (get_modify_Some t h f j s Hj) as (s' & -> & [->| ->]); eexists; split; try done; apply Hf. }
  split; simpl.
  - intros u j Hu. destruct (H1 _ _ Hu) as (s & Hs & <-). destruct (Hg _ _ Hs) as (s' & ? & ? & _). eauto.
  - intros pk j Hp. destruct (H2 _ _ Hp) as (s & Hs & <- & Hu). destruct (Hg _ _ Hs) as (s' & ? & Hu' & ?).
    exists s'. rewrite Hu'. eauto.
  - intros a j Ha. destruct (H3 _ _ Ha) as [s Hs]. destruct (Hg _ _ Hs) as (s' & ? & _). eauto.
Qed.

Lemma keeps_add a : keeps_identity (fun s => add_allowed_source s a).
Proof. done. Qed.
Lemma keeps_remove a : keeps_identity (fun s => remove_allowed_source s a).
Proof. done. Qed.
Lemma keeps_replay t u : keeps_identity (replay_app_routes t u).
Proof.
  unfold replay_app_routes, keeps_identity. intros s. generalize (iter_ulas (app_routes t)). intros l.
  revert s. induction l as [|kv l IH]; intros s; simpl; [done|].
  destruct (IH (if bool_decide (kv.2 = u) then add_allowed_source s kv.1 else s)) as [-> ->].
  by case_bool_decide.
Qed.

(** ** The route sink *)

Lemma routes_left_snoc log c : routes_left (log ++ [c]) = route_step (routes_left log) c.
Proof. unfold routes_left. by rewrite foldl_app. Qed.

Lemma routes_sink t r c : routes_are t r -> routes_are (sink t c) (route_step r c).
Proof.
  unfold routes_are, sink. simpl. destruct (route_sink t) as [log|]; simpl; [|done].
  intros <-. apply routes_left_snoc.
Qed.

Lemma wf_index_sink t c : wf_index t -> wf_index (sink t c).
Proof. by intros [A B C]. Qed.

(** ** App routes *)

Lemma wf_host t a u : is_Some (by_ula t !! u) -> wf_table t -> wf_table (host_remote_app_route t a u).
Proof.
  intros Hu [Hi Hr Hh]. unfold host_remote_app_route. cbn [by_ula set_field eta eta_SessionTable].
  split.
  - apply wf_index_sink. destruct (by_ula t !! u) as [h|].
    + apply wf_modify; [done|]. by destruct Hi.
    + by destruct Hi.
  - apply (routes_sink _ _ (add_app_route a)) in Hr. simpl in Hr. rewrite <- (dom_insert_L _ _ u) in Hr.
    by destruct (by_ula t !! u).
  - intros b v Hb. assert (<[a := u]> (app_routes t) !! b = Some v) as Hb' by by destruct (by_ula t !! u).
    assert (is_Some (by_ula t !! v)); [|by destruct (by_ula t !! u)].
    apply lookup_insert_Some in Hb' as [[_ <-]|[_ Hb']]; [done|by eapply Hh].
Qed.

Lemma wf_unhost t a : wf_table t -> wf_table (unhost_remote_app_route t a).
Proof.
  intros [Hi Hr Hh]. unfold unhost_remote_app_route. apply (routes_sink _ _ (remove_app_route a)) in Hr.
  destruct (app_routes t !! a) as [u|] eqn:Ea; simpl in Hr.
  - cbn [by_ula set_field eta eta_SessionTable]. rewrite <- dom_delete_L in Hr. split.
    + apply wf_index_sink. destruct (by_ula t !! u) as [h|].
      * apply wf_modify; [done|]. by destruct Hi.
      * by destruct Hi.
    + by destruct (by_ula t !! u).
    + intros b v Hb. assert (delete a (app_routes t) !! b = Some v) as Hb' by by destruct (by_ula t !! u).
      apply lookup_delete_Some in Hb' as [_ Hb']. apply Hh in Hb'. by destruct (by_ula t !! u).
  - split; [by apply wf_index_sink| |done]. apply not_elem_of_dom in Ea.
    by rewrite difference_disjoint_L in Hr by set_solver.
Qed.

Lemma by_ula_host t a u : by_ula (host_remote_app_route t a u) = by_ula t.
Proof. unfold host_remote_app_route. simpl. by destruct (by_ula t !! u). Qed.
Lemma by_ula_unhost t a : by_ula (unhost_remote_app_route t a) = by_ula t.
Proof.
  unfold unhost_remote_app_route. destruct (app_routes t !! a) as [u|]; [|done]. simpl. by destruct (by_ula t !! u).
Qed.

Lemma by_ula_reconcile t u l : by_ula (reconcile_app_routes t u l) = by_ula t.
Proof.
  unfold reconcile_app_routes. apply (foldl_inv (fun t' => by_ula t' = by_ula t)).
  { intros t' a _ <-. apply by_ula_unhost. }
  apply (foldl_inv (fun t' => by_ula t' = by_ula t)); [|done]. intros t' a _ <-. apply by_ula_host.
Qed.

Lemma wf_reconcile t u l : is_Some (by_ula t !! u) -> wf_table t -> wf_table (reconcile_app_routes t u l).
Proof.
  intros Hu Ht. unfold reconcile_app_routes. apply (foldl_inv wf_table); [intros; by apply wf_unhost|].
  apply (foldl_inv (fun t' => is_Some (by_ula t' !! u) /\ wf_table t')); [|done].
  intros t' a _ [Hu' Ht']. rewrite by_ula_host. split; [done|by apply wf_host].
Qed.

(** ** Endpoints *)

Lemma wf_index_index t addr h : is_Some (get t h) -> wf_index t -> wf_index (index_endpoint t addr h).
Proof.
  intros Hh [A B C]. destruct addr as [addr|]; [|done]. split; simpl; try done.
  intros a j. rewrite lookup_insert_Some. intros [[_ <-]|[_ Ha]]; [done|by eapply C].
Qed.
Lemma wf_index_unindex t addr : wf_index t -> wf_index (unindex_endpoint t addr).
Proof.
  intros [A B C]. destruct addr as [addr|]; [|done]. split; simpl; try done.
  intros a j. rewrite lookup_delete_Some. intros [_ Ha]. by eapply C.
Qed.

Lemma wf_learn t h a : is_Some (get t h) -> wf_table t -> wf_table (learn_endpoint t h a).
Proof.
  intros Hh [Hi Hr Hs]. split; [|done|done]. unfold learn_endpoint. apply wf_modify.
  - intros s. by case_bool_decide.
  - by apply (wf_index_index t (Some a) h).
Qed.

Lemma get_index t addr h j : get (index_endpoint t addr h) j = get t j.
Proof. by destruct addr. Qed.
Lemma get_unindex t addr j : get (unindex_endpoint t addr) j = get t j.
Proof. by destruct addr. Qed.
Lemma by_ula_index t addr h : by_ula (index_endpoint t addr h) = by_ula t.
Proof. by destruct addr. Qed.
Lemma by_ula_unindex t addr : by_ula (unindex_endpoint t addr) = by_ula t.
Proof. by destruct addr. Qed.

(** ** Upserts *)

Lemma get_modify_is_Some t h f j : is_Some (get (modify t h f) j) <-> is_Some (get t j).
Proof. rewrite get_modify. case_decide; [subst; by rewrite fmap_is_Some|done]. Qed.

Lemma wf_index_update t h s info :
  get t h = Some s -> wf_index t -> wf_index (update_in_place t h s info).
Proof.
  intros Hh Hi. unfold update_in_place. apply wf_modify; [apply keeps_replay|].
  destruct (endpoint_learned s); [by apply wf_index_index|].
  apply wf_modify; [done|]. apply wf_index_index; case_bool_decide;
    rewrite ?get_unindex; try done; by apply wf_index_unindex.
Qed.

(** A session appended to the heap leaves the others where they are. *)
Lemma get_push t s j s' :
  get t j = Some s' -> get (t <| heap := heap t ++ [s] |>) j = Some s'.
Proof. unfold get. simpl. intros Hj. by apply lookup_app_l_Some. Qed.
Lemma get_push_new t s : get (t <| heap := heap t ++ [s] |>) (length (heap t)) = Some s.
Proof. unfold get. simpl. by rewrite lookup_app_r, Nat.sub_diag by lia. Qed.

(** The indexes after a new session [s] takes over address [ula s], whose old
    session's key has been dropped. *)
Lemma wf_index_push t s :
  wf_index t -> (forall h old, by_ula t !! ula s = Some h -> get t h = Some old -> by_pubkey t !! peer_pubkey old <> Some h) ->
  let h := length (heap t) in
  wf_index (t <| heap := heap t ++ [s] |> <| by_ula := <[ula s := h]> (by_ula t) |>
              <| by_pubkey := <[peer_pubkey s := h]> (by_pubkey t) |>).
Proof.
  intros [A B C] Hold h.
  pose proof (get_push t s) as Hg. pose proof (get_push_new t s) as Hn. unfold get in Hg, Hn. simpl in Hg, Hn.
  split; unfold get; simpl.
  - intros u j. rewrite lookup_insert_Some. intros [[<- <-]|[_ Hu]]; [by exists s|].
    destruct (A _ _ Hu) as (s' & Hs' & <-). exists s'. split; [by apply Hg|done].
  - intros pk j. rewrite lookup_insert_Some. intros [[<- <-]|[Hne Hp]].
    { exists s. split_and!; [done|done|by rewrite lookup_insert_eq]. }
    destruct (B _ _ Hp) as (s' & Hs' & <- & Hu). exists s'. split_and!; [by apply Hg|done|].
    rewrite lookup_insert_ne; [done|]. intros E. rewrite <- E in Hu. by eapply Hold.
  - intros a j Ha. destruct (C _ _ Ha) as [s' Hs']. exists s'. by apply Hg.
Qed.

(** [replay_app_routes] reaches every app routed to the address and keeps the rest. *)
Lemma replay_keeps t u s :
  peer_id (replay_app_routes t u s) = peer_id s /\ ula (replay_app_routes t u s) = ula s
  /\ peer_pubkey (replay_app_routes t u s) = peer_pubkey s.
Proof.
  destruct (keeps_replay t u s) as [-> ->]. split; [|done]. unfold replay_app_routes.
  generalize (iter_ulas (app_routes t)). intros l. revert s.
  induction l as [|kv l IH]; intros s; simpl; [done|]. rewrite IH. by case_bool_decide.
Qed.

(** Dropping the key of the old session of an address. *)
Definition drop_prior t (old : PeerSession) : SessionTable :=
  (unindex_endpoint t (endpoint old)) <| by_pubkey := delete (peer_pubkey old) (by_pubkey t) |>.

Lemma wf_drop_prior t old : wf_index t -> wf_index (drop_prior t old).
Proof.
  intros Hi. destruct (wf_index_unindex t (endpoint old) Hi) as [A B C]. unfold drop_prior.
  split; simpl; [exact A| |exact C].
  intros pk h. rewrite lookup_delete_Some. intros [_ Hp]. apply B.
  by destruct (endpoint old).
Qed.

Definition after_prior t (prior : option PeerSession) : SessionTable :=
  match prior with Some old => drop_prior t old | None => t end.
Lemma after_prior_same t prior :
  heap (after_prior t prior) = heap t /\ by_ula (after_prior t prior) = by_ula t
  /\ route_sink (after_prior t prior) = route_sink t /\ app_routes (after_prior t prior) = app_routes t.
Proof. destruct prior as [old|]; [|done]. unfold after_prior, drop_prior. by destruct (endpoint old). Qed.

(** What [insert_session] does to the table. *)
Lemma insert_session_eq our index t prior info :
  let t0 := after_prior t prior in
  exists s, peer_id s = i_peer_id info /\ ula s = i_ula info /\ peer_pubkey s = i_wg_public_key info
  /\ let h := length (heap t) in
     let t1 := t0 <| heap := heap t0 ++ [s] |> <| by_ula := <[ula s := h]> (by_ula t0) |>
                  <| by_pubkey := <[peer_pubkey s := h]> (by_pubkey t0) |> in
     insert_session our index t prior info
     = index_endpoint (if bool_decide (prior = None) && negb (is_ephemeral_peer (i_ula info))
                       then send_convergence t1 h else t1) (i_listen_endpoint info) h.
Proof.
  destruct prior as [old|]; cbn zeta.
  - exists (replay_app_routes (drop_prior t old) (i_ula info) (session_new our index info)).
    destruct (replay_keeps (drop_prior t old) (i_ula info) (session_new our index info)) as (E0 & E1 & E2).
    rewrite E0, E1, E2. split_and!; try done. unfold insert_session, drop_prior. simpl. by destruct (endpoint old).
  - exists (session_new our index info). by split_and!.
Qed.

Lemma wf_insert our index t prior info :
  wf_index t -> (prior = by_ula t !! i_ula info ≫= get t) ->
  wf_index (insert_session our index t prior info).
Proof.
  intros Hi Hprior. destruct (insert_session_eq our index t prior info) as (s & _ & Eu & Ek & ->).
  destruct (after_prior_same t prior) as (Eh & Eb & _).
  assert (wf_index (after_prior t prior)) as Hi0 by (destruct prior; [by apply wf_drop_prior|done]).
  set (t0 := after_prior t prior) in *.
  assert (wf_index (t0 <| heap := heap t0 ++ [s] |> <| by_ula := <[ula s := length (heap t0)]> (by_ula t0) |>
              <| by_pubkey := <[peer_pubkey s := length (heap t0)]> (by_pubkey t0) |>)) as H1.
  { apply wf_index_push; [done|]. intros h old Hu Hg. rewrite Eb, Eu in Hu.
    rewrite Hu in Hprior. simpl in Hprior. unfold get in Hg, Hprior. rewrite Eh in Hg. rewrite Hg in Hprior.
    unfold t0. rewrite Hprior. unfold after_prior, drop_prior. simpl. by rewrite lookup_delete_eq. }
  rewrite <- Eh. apply wf_index_index; [|destruct (_ && _); [by destruct H1|done]].
  exists s. rewrite <- (get_push_new t0 s). destruct (_ && _); reflexivity.
Qed.

(** The routes after an upsert, and what it does to the live sessions. *)
Lemma insert_session_routes our index t prior info :
  by_ula (insert_session our index t prior info) = <[i_ula info := length (heap t)]> (by_ula t)
  /\ app_routes (insert_session our index t prior info) = app_routes t
  /\ route_sink (insert_session our index t prior info) = route_sink t.
Proof.
  destruct (insert_session_eq our index t prior info) as (s & _ & Eu & _ & ->).
  destruct (after_prior_same t prior) as (_ & Eb & Es & Ea). cbn zeta. rewrite <- Eu.
  by destruct (i_listen_endpoint info), (bool_decide (prior = None) && _); simpl; rewrite ?Eb, ?Es, ?Ea.
Qed.

Lemma update_in_place_routes t h s info :
  by_ula (update_in_place t h s info) = by_ula t
  /\ app_routes (update_in_place t h s info) = app_routes t
  /\ route_sink (update_in_place t h s info) = route_sink t.
Proof.
  unfold update_in_place. destruct (endpoint_learned s); [by destruct (i_listen_endpoint info)|].
  case_bool_decide; by destruct (i_listen_endpoint info), (endpoint s).
Qed.

Lemma upsert_routes our index t info :
  dom (by_ula (upsert our index t info)) = {[i_ula info]} ∪ dom (by_ula t)
  /\ app_routes (upsert our index t info) = app_routes t
  /\ route_sink (upsert our index t info) = route_sink (sink t (add_allowed (i_ula info))).
Proof.
  unfold upsert. destruct (by_ula t !! i_ula info) as [h|] eqn:Eu; simpl.
  - assert (dom (by_ula t) = {[i_ula info]} ∪ dom (by_ula t)) as Hd.
    { apply elem_of_dom_2 in Eu. set_solver. }
    destruct (get (sink t (add_allowed (i_ula info))) h) as [old|]; [case_bool_decide|].
    + destruct (update_in_place_routes (sink t (add_allowed (i_ula info))) h old info) as (-> & -> & ->). done.
    + destruct (insert_session_routes our index (sink t (add_allowed (i_ula info))) (Some old) info) as (-> & -> & ->).
      by rewrite dom_insert_L.
    + destruct (insert_session_routes our index (sink t (add_allowed (i_ula info))) None info) as (-> & -> & ->).
      by rewrite dom_insert_L.
  - destruct (insert_session_routes our index (sink t (add_allowed (i_ula info))) None info) as (-> & -> & ->).
    by rewrite dom_insert_L.
Qed.

Lemma wf_upsert our index t info : wf_table t -> wf_table (upsert our index t info).
Proof.
  intros [Hi Hr Hs]. split.
  - pose proof (wf_index_sink t (add_allowed (i_ula info)) Hi) as Hi'.
    unfold upsert. destruct (by_ula t !! i_ula info) as [h|] eqn:Eu; simpl.
    + destruct (wf_ula _ Hi _ _ Eu) as (old & Hg & _).
      change (get (sink t (add_allowed (i_ula info))) h) with (get t h). rewrite Hg.
      case_bool_decide; [by apply wf_index_update|]. apply wf_insert; [done|]. simpl. by rewrite Eu.
    + apply wf_insert; [done|]. simpl. by rewrite Eu.
  - destruct (upsert_routes our index t info) as (-> & -> & Es). unfold routes_are. rewrite Es.
    apply (routes_sink _ _ (add_allowed (i_ula info)) Hr).
  - destruct (upsert_routes our index t info) as (Hd & Ha & _). intros a u. rewrite Ha. intros Hu.
    apply Hs in Hu. apply elem_of_dom. rewrite Hd. apply elem_of_union_r. by apply elem_of_dom.
Qed.

(** ** Removal *)

Lemma drop_app_routes_eq l t :
  let t' := foldl drop_app_route t l in
  heap t' = heap t /\ by_ula t' = by_ula t /\ by_endpoint t' = by_endpoint t /\ by_pubkey t' = by_pubkey t
  /\ (forall a u, app_routes t' !! a = Some u <-> app_routes t !! a = Some u /\ a ∉ l)
  /\ (forall r, routes_are t r -> routes_are t' (r.1, r.2 ∖ list_to_set l)).
Proof.
  revert t. induction l as [|a l IH]; intros t; simpl.
  { split_and!; try done; [set_solver|]. intros [p q]. simpl. by rewrite difference_empty_L. }
  destruct (IH (drop_app_route t a)) as (-> & -> & -> & -> & Ha & Hr). split_and!; try done.
  - intros b u. rewrite Ha. simpl. rewrite lookup_delete_Some, elem_of_cons. naive_solver.
  - intros r Hr'. apply (routes_sink _ _ (remove_app_route a)) in Hr'. apply Hr in Hr'. simpl in Hr'.
    by rewrite difference_difference_l_L in Hr'.
Qed.

Lemma elem_of_app_ulas `{!TableOrderLaws} t u a : a ∈ app_ulas_for_host t u <-> app_routes t !! a = Some u.
Proof.
  unfold app_ulas_for_host. rewrite list_elem_of_fmap. setoid_rewrite list_elem_of_In. setoid_rewrite filter_In.
  setoid_rewrite <- list_elem_of_In. split.
  - intros ([b v] & -> & Hin & Hv). apply bool_decide_eq_true in Hv. simpl in *. subst.
    rewrite iter_ulas_perm in Hin. by apply elem_of_map_to_list in Hin.
  - intros Ha. exists (a, u). split_and!; [done| |by apply bool_decide_eq_true].
    rewrite iter_ulas_perm. by apply elem_of_map_to_list.
Qed.

Lemma wf_remove `{!TableOrderLaws} t u : wf_table t -> wf_table (fst (remove t u)).
Proof.
  intros [Hi Hr Hs]. unfold remove. destruct (by_ula t !! u) as [h|] eqn:Eu; [|done].
  destruct (wf_ula _ Hi _ _ Eu) as (s & Hg & Hus).
  change (get (t <| by_ula := delete u (by_ula t) |>) h) with (get t h). rewrite Hg. cbn [fst].
  set (t1 := (unindex_endpoint (t <| by_ula := delete u (by_ula t) |>) (endpoint s)) <| by_pubkey := _ |>).
  set (l := app_ulas_for_host t1 u). destruct (drop_app_routes_eq l t1) as (E1 & E2 & E3 & E4 & E5 & E6).
  assert (heap t1 = heap t /\ by_ula t1 = delete u (by_ula t) /\ by_pubkey t1 = delete (peer_pubkey s) (by_pubkey t)
          /\ app_routes t1 = app_routes t /\ route_sink t1 = route_sink t) as (F1 & F2 & F3 & F4 & F5).
  { unfold t1. by destruct (endpoint s). }
  assert (forall a j, by_endpoint t1 !! a = Some j -> by_endpoint t !! a = Some j) as F6.
  { unfold t1. intros a j. destruct (endpoint s); simpl; [|done]. by intros [_ ?]%lookup_delete_Some. }
  split.
  - apply wf_index_sink. destruct Hi as [A B C]. split; unfold get; rewrite E1, F1.
    + intros v j. rewrite E2, F2, lookup_delete_Some. intros [_ Hv]. by apply A.
    + intros pk j. rewrite E4, F3, lookup_delete_Some. intros [Hne Hp].
      destruct (B _ _ Hp) as (s' & Hs' & Ek & Hu'). exists s'. split_and!; [done|done|].
      rewrite E2, F2, lookup_delete_ne; [done|]. intros Eu'. rewrite <- Eu' in Hu'.
      assert (j = h) as -> by congruence. assert (s' = s) as -> by (unfold get in *; congruence). done.
    + intros a j. rewrite E3. intros Ha. by eapply C, F6.
  - assert (routes_are t1 (dom (by_ula t), dom (app_routes t))) as Hr1 by (unfold routes_are; by rewrite F5).
    apply E6 in Hr1. apply (routes_sink _ _ (remove_allowed u)) in Hr1. simpl in *.
    rewrite E2, F2, dom_delete_L. assert (dom (app_routes (foldl drop_app_route t1 l)) = dom (app_routes t) ∖ list_to_set l) as ->; [|done].
    apply set_eq. intros a. rewrite elem_of_difference, elem_of_list_to_set, !elem_of_dom.
    unfold is_Some. setoid_rewrite E5. rewrite F4. naive_solver.
  - intros a v. simpl. rewrite E5, E2, F2. intros [Ha Hn]. unfold l in Hn. rewrite elem_of_app_ulas in Hn.
    rewrite lookup_delete_ne by congruence. eapply Hs. by rewrite <- F4.
Qed.

(** ** Who is live, under which key *)

Definition key_at t (u : Ipv6Addr) : option (list Z) := peer_pubkey <$> live t u.

Lemma live_Some t u s : live t u = Some s <-> exists h, by_ula t !! u = Some h /\ get t h = Some s.
Proof. unfold live. rewrite bind_Some. done. Qed.

Lemma key_at_ext t t' u :
  by_ula t' = by_ula t -> (forall h, peer_pubkey <$> get t' h = peer_pubkey <$> get t h) -> key_at t' u = key_at t u.
Proof.
  intros Hb Hg. unfold key_at, live. rewrite Hb. destruct (by_ula t !! u) as [h|]; [|done]. apply Hg.
Qed.

Lemma key_modify t h f j :
  keeps_identity f -> peer_pubkey <$> get (modify t h f) j = peer_pubkey <$> get t j.
Proof.
  intros Hf. rewrite get_modify. case_decide; [subst|done]. destruct (get t h); [|done]. simpl. f_equal. apply Hf.
Qed.

Lemma key_alter (l : list PeerSession) j h f :
  keeps_identity f -> peer_pubkey <$> (alter f j l !! h) = peer_pubkey <$> (l !! h).
Proof. intros Hf. exact (key_modify (table_new <| heap := l |>) j f h Hf). Qed.

Lemma key_host t a u v : key_at (host_remote_app_route t a u) v = key_at t v.
Proof.
  apply key_at_ext; [apply by_ula_host|]. intros h. unfold host_remote_app_route. simpl.
  destruct (by_ula t !! u) as [j|]; [|done]. by apply (key_alter (heap t) j h _ (keeps_add a)).
Qed.
Lemma key_unhost t a v : key_at (unhost_remote_app_route t a) v = key_at t v.
Proof.
  apply key_at_ext; [apply by_ula_unhost|]. intros h. unfold unhost_remote_app_route.
  destruct (app_routes t !! a) as [u|]; [|done]. simpl.
  destruct (by_ula t !! u) as [j|]; [|done]. by apply (key_alter (heap t) j h _ (keeps_remove a)).
Qed.
Lemma key_reconcile t u l v : key_at (reconcile_app_routes t u l) v = key_at t v.
Proof.
  unfold reconcile_app_routes. apply (foldl_inv (fun t' => key_at t' v = key_at t v)).
  { intros t' a _ <-. apply key_unhost. }
  apply (foldl_inv (fun t' => key_at t' v = key_at t v)); [|done]. intros t' a _ <-. apply key_host.
Qed.

Lemma key_update t h s info v : key_at (update_in_place t h s info) v = key_at t v.
Proof.
  apply key_at_ext; [apply update_in_place_routes|]. intros j. unfold update_in_place.
  rewrite (key_modify _ h _ j (keeps_replay _ _)). destruct (endpoint_learned s); [by rewrite get_index|].
  rewrite key_modify by done. rewrite get_index. case_bool_decide; [by rewrite get_unindex|done].
Qed.

Lemma insert_session_heap our index t prior info :
  exists s, heap (insert_session our index t prior info) = heap t ++ [s]
  /\ peer_id s = i_peer_id info /\ ula s = i_ula info /\ peer_pubkey s = i_wg_public_key info.
Proof.
  destruct (insert_session_eq our index t prior info) as (s & Ei & Eu & Ek & ->). cbn zeta.
  destruct (after_prior_same t prior) as (Eh & _). exists s. split; [|done].
  by destruct (i_listen_endpoint info), (bool_decide (prior = None) && _); simpl; rewrite Eh.
Qed.

Lemma get_insert our index t prior info :
  (forall h s, get t h = Some s -> get (insert_session our index t prior info) h = Some s)
  /\ exists s, get (insert_session our index t prior info) (length (heap t)) = Some s
       /\ peer_pubkey s = i_wg_public_key info /\ peer_id s = i_peer_id info.
Proof.
  destruct (insert_session_heap our index t prior info) as (s & Eh & Ei & _ & Ek).
  unfold get. rewrite Eh. split.
  - intros h s' Hs'. by apply lookup_app_l_Some.
  - exists s. split; [|done]. by rewrite lookup_app_r, Nat.sub_diag by lia.
Qed.

Lemma key_insert our index t prior info v :
  wf_index t ->
  key_at (insert_session our index t prior info) v
  = if decide (v = i_ula info) then Some (i_wg_public_key info) else key_at t v.
Proof.
  intros Hi. destruct (insert_session_routes our index t prior info) as (Hb & _).
  destruct (get_insert our index t prior info) as (Hg & s & Hs & Hk & _).
  unfold key_at, live. rewrite Hb. case_decide as E.
  - subst. rewrite lookup_insert_eq. simpl. rewrite Hs. simpl. by rewrite Hk.
  - rewrite lookup_insert_ne by done. destruct (by_ula t !! v) as [h|] eqn:Eh; [|done]. simpl.
    destruct (wf_ula _ Hi _ _ Eh) as (s' & Hs' & _). by rewrite (Hg _ _ Hs'), Hs'.
Qed.

Lemma key_upsert our index t info v :
  wf_index t ->
  key_at (upsert our index t info) v
  = if decide (v = i_ula info) then Some (i_wg_public_key info) else key_at t v.
Proof.
  intros Hi. pose proof (wf_index_sink t (add_allowed (i_ula info)) Hi) as Hi'. unfold upsert.
  destruct (by_ula t !! i_ula info) as [h|] eqn:Eu; simpl.
  - destruct (wf_ula _ Hi _ _ Eu) as (old & Hg & _).
    change (get (sink t (add_allowed (i_ula info))) h) with (get t h). rewrite Hg.
    case_bool_decide as Ek; [|by rewrite key_insert].
    rewrite key_update. case_decide as Ev; [|done]. subst v. unfold key_at, live. simpl. rewrite Eu. simpl.
    change (get (sink t (add_allowed (i_ula info))) h) with (get t h). rewrite Hg. simpl. by rewrite Ek.
  - by rewrite key_insert.
Qed.

Lemma remove_eq t u :
  wf_index t ->
  by_ula (fst (remove t u)) = delete u (by_ula t) /\ heap (fst (remove t u)) = heap t.
Proof.
  intros Hi. unfold remove. destruct (by_ula t !! u) as [h|] eqn:Eu.
  2: { split; [|done]. simpl. by rewrite delete_id. }
  destruct (wf_ula _ Hi _ _ Eu) as (s & Hg & _).
  change (get (t <| by_ula := delete u (by_ula t) |>) h) with (get t h). rewrite Hg. simpl.
  match goal with |- context [foldl drop_app_route ?t1 ?l] => destruct (drop_app_routes_eq l t1) as (-> & -> & _) end.
  by destruct (endpoint s).
Qed.

Lemma key_remove t u v :
  wf_index t -> key_at (fst (remove t u)) v = if decide (v = u) then None else key_at t v.
Proof.
  intros Hi. destruct (remove_eq t u Hi) as [Hb Hh]. unfold key_at, live, get. rewrite Hb, Hh.
  case_decide; [subst; by rewrite lookup_delete_eq|by rewrite lookup_delete_ne].
Qed.

(** A key is live at an address exactly when the address is live. *)
Lemma key_at_is_Some t u : wf_index t -> is_Some (key_at t u) <-> is_Some (by_ula t !! u).
Proof.
  intros Hi. unfold key_at. rewrite fmap_is_Some. split.
  - intros [s (h & Hh & _)%live_Some]. by eexists.
  - intros [h Hh]. destruct (wf_ula _ Hi _ _ Hh) as (s & Hs & _). exists s. apply live_Some. eauto.
Qed.

(** ** The empty table *)

Lemma sink_foldl {A} (call : A -> RouteSink) l t r :
  routes_are t r ->
  let t' := foldl (fun t x => sink t (call x)) t l in
  routes_are t' (foldl (fun r x => route_step r (call x)) r l) /\ app_routes t' = app_routes t.
Proof.
  revert t r. induction l as [|x l IH]; intros t r Hr; simpl; [done|].
  destruct (IH (sink t (call x)) (route_step r (call x))) as [H1 H2]; [by apply routes_sink|]. done.
Qed.

Lemma foldl_remove_allowed l r :
  foldl (fun r u => route_step r (remove_allowed u)) r l = (r.1 ∖ list_to_set l, r.2).
Proof.
  revert r. induction l as [|u l IH]; intros [p q]; simpl; [f_equal; set_solver|].
  rewrite IH. simpl. f_equal. set_solver.
Qed.
Lemma foldl_remove_app {A} (l : list (Ipv6Addr * A)) r :
  foldl (fun r kv => route_step r (remove_app_route kv.1)) r l = (r.1, r.2 ∖ list_to_set (fst <$> l)).
Proof.
  revert r. induction l as [|u l IH]; intros [p q]; simpl; [f_equal; set_solver|].
  rewrite IH. simpl. f_equal. set_solver.
Qed.

Lemma iter_ulas_dom `{!TableOrderLaws} {A} (m : gmap Ipv6Addr A) :
  list_to_set (fst <$> iter_ulas m) = dom m.
Proof.
  apply set_eq. intros u. rewrite elem_of_list_to_set, list_elem_of_fmap, elem_of_dom. split.
  - intros ([v x] & -> & Hin). rewrite iter_ulas_perm in Hin. apply elem_of_map_to_list in Hin. by eexists.
  - intros [x Hx]. exists (u, x). split; [done|]. rewrite iter_ulas_perm. by apply elem_of_map_to_list.
Qed.

Lemma wf_clear `{!TableOrderLaws} t : wf_table t -> wf_table (clear t).
Proof.
  intros [Hi Hr Hs]. split; [by split| |done]. unfold clear. simpl.
  destruct (sink_foldl remove_allowed (ulas t) t _ Hr) as [R1 Ha]. rewrite foldl_remove_allowed in R1. simpl in R1.
  set (t1 := foldl _ t (ulas t)) in *.
  destruct (sink_foldl (fun kv => remove_app_route kv.1) (iter_ulas (app_routes t1)) t1 _ R1) as [R2 _].
  rewrite foldl_remove_app in R2. unfold ulas in R2. rewrite !iter_ulas_dom, Ha in R2. simpl in R2.
  unfold routes_are in *. simpl. rewrite !dom_empty_L. rewrite !difference_diag_L in R2. by rewrite Ha.
Qed.
End Inv.

(** A fresh table. *)
Lemma wf_fresh `{Noise} `{TableOrder} r : wf_table (with_route_sink_and_relay r).
Proof. split; [split|done|]; intros ?; set_solver. Qed.
