(* ===== verification/SessionTableConc.v ===== *)
(** * Peers that are announced twice at once ([wg/session/table.rs])

    The heartbeat task and the task of the event stream both call [upsert] on the one
    table, on threads of their own, and each index is locked for one access only. Here
    [upsert] is a state machine whose steps are those accesses, and any number of them
    step in any order, with the data plane in between. Calls for different peers come
    out as if each had been alone; two calls for the same new peer can leave the table
    with two sessions for it, one found by address and the other by key. *)

From S2P Require Import Prelude NetAddr Types PeerSession SessionTable SessionInv.

Open Scope Z_scope.

Section SessionTableConc.
Context `{Noise} `{TableOrder} (our_private : StaticSecret).

(** ** One call *)

Record Call := mkCall { c_info : PeerInfo; c_index : Z }.

(** The look at [by_ula]; what follows from it; for a rotated key the two removals; the new
    session, and its entries in the indexes. *)
Inductive UpPc :=
| Looking | Deciding (prior : option Arc)
| DroppingEndpoint (old : Arc) | DroppingKey (old : Arc) | Building (prior : option Arc)
| InsertingUla (h : Arc) (is_new : bool) | InsertingKey (h : Arc) (is_new : bool) | Announcing (h : Arc) (is_new : bool)
| Upserted.

Definition upsert_step (c : Call) (t : SessionTable) (pc : UpPc) : option (SessionTable * UpPc) :=
  let info := c_info c in
  match pc with
  | Looking => Some (sink t (add_allowed (i_ula info)), Deciding (by_ula t !! i_ula info))
  | Deciding prior =>
      match prior, prior ≫= get t with
      | Some h, Some old =>
          if bool_decide (peer_pubkey old = i_wg_public_key info) then Some (update_in_place t h old info, Upserted)
          else Some (t, DroppingEndpoint h)
      | _, _ => Some (t, Building None)
      end
  | DroppingEndpoint h => old ← get t h; Some (unindex_endpoint t (endpoint old), DroppingKey h)
  | DroppingKey h =>
      old ← get t h; Some (t <| by_pubkey := delete (peer_pubkey old) (by_pubkey t) |>, Building (Some h))
  | Building prior =>
      let is_new := match prior with None => true | Some _ => false end in
      let session := session_new our_private (c_index c) info in
      let session := if negb is_new then replay_app_routes t (i_ula info) session else session in
      Some (t <| heap := heap t ++ [session] |>, InsertingUla (length (heap t)) is_new)
  | InsertingUla h is_new => Some (t <| by_ula := <[i_ula info := h]> (by_ula t) |>, InsertingKey h is_new)
  | InsertingKey h is_new => Some (t <| by_pubkey := <[i_wg_public_key info := h]> (by_pubkey t) |>, Announcing h is_new)
  | Announcing h is_new =>
      let t := if is_new && negb (is_ephemeral_peer (i_ula info)) then send_convergence t h else t in
      Some (index_endpoint t (i_listen_endpoint info) h, Upserted)
  | Upserted => None
  end.

Fixpoint upsert_run (fuel : nat) (c : Call) (t : SessionTable) (pc : UpPc) : option SessionTable :=
  match pc, fuel with
  | Upserted, _ => Some t
  | _, O => None
  | _, S fuel => '(t, pc) ← upsert_step c t pc; upsert_run fuel c t pc
  end.

Lemma upsert_run_S n c t pc t' pc' :
  upsert_step c t pc = Some (t', pc') -> upsert_run (S n) c t pc = upsert_run n c t' pc'.
Proof. intros Hs. destruct pc; try discriminate Hs; cbn [upsert_run]; by rewrite Hs. Qed.
Lemma upsert_run_done n c t : upsert_run n c t Upserted = Some t.
Proof. by destruct n. Qed.

Lemma upsert_run_building n c t :
  upsert_run (4 + n) c t (Building None) = Some (insert_session our_private (c_index c) t None (c_info c)).
Proof. cbn [Nat.add]. do 4 (erewrite upsert_run_S; [|reflexivity]). apply upsert_run_done. Qed.
Lemma upsert_run_rolling n c t h old :
  get t h = Some old ->
  upsert_run (6 + n) c t (DroppingEndpoint h) = Some (insert_session our_private (c_index c) t (Some old) (c_info c)).
Proof.
  intros Hold. assert (get (unindex_endpoint t (endpoint old)) h = Some old) as Hun by (destruct (endpoint old); exact Hold).
  erewrite (upsert_run_S (5 + n)); [|cbn [upsert_step]; by rewrite Hold].
  erewrite (upsert_run_S (4 + n)); [|cbn [upsert_step]; by rewrite Hun].
  cbn [Nat.add]. do 4 (erewrite upsert_run_S; [|reflexivity]). apply upsert_run_done.
Qed.

(** A call that nothing interferes with is [upsert], in at most eight accesses. *)
Lemma upsert_alone c t : upsert_run 8 c t Looking = Some (upsert our_private (c_index c) t (c_info c)).
Proof.
  unfold upsert. set (t1 := sink t (add_allowed (i_ula (c_info c)))).
  erewrite (upsert_run_S 7); [|reflexivity]. fold t1.
  destruct (by_ula t !! i_ula (c_info c)) as [h|] eqn:Eu; cbn [mbind option_bind].
  2: { erewrite (upsert_run_S 6); [|reflexivity]. exact (upsert_run_building 2 c t1). }
  destruct (get t1 h) as [old|] eqn:Eh.
  2: { erewrite (upsert_run_S 6); [|cbn [upsert_step mbind option_bind]; by rewrite Eh]. exact (upsert_run_building 2 c t1). }
  case_bool_decide as Ek.
  - erewrite (upsert_run_S 6); [|cbn [upsert_step mbind option_bind]; by rewrite Eh, bool_decide_true]. apply upsert_run_done.
  - erewrite (upsert_run_S 6); [|cbn [upsert_step mbind option_bind]; by rewrite Eh, bool_decide_false].
    exact (upsert_run_rolling 0 c t1 h old Eh).
Qed.

(** ** Many calls *)

Record UpThread := mkUp { u_call : Call; u_pc : UpPc }.
Record UpConf := mkUpConf { table_of : SessionTable; calls : list UpThread }.

(** What the rest of the joiner does in between: the sessions and the index by endpoint
    change, but no session changes its identity, and none enters or leaves. *)
Definition keeps_peers (t t' : SessionTable) : Prop :=
  by_ula t' = by_ula t /\ by_pubkey t' = by_pubkey t /\
  forall h s, get t h = Some s -> exists s', get t' h = Some s' /\ ula s' = ula s /\ peer_pubkey s' = peer_pubkey s.

Inductive up_step (x : UpConf) : UpConf -> Prop :=
| up_own k c pc t pc' :
    calls x !! k = Some (mkUp c pc) -> upsert_step c (table_of x) pc = Some (t, pc') ->
    up_step x (mkUpConf t (<[k := mkUp c pc']> (calls x)))
| up_other t : keeps_peers (table_of x) t -> up_step x (mkUpConf t (calls x)).

(** ** What a call relies on *)

Definition made t (h : Arc) (info : PeerInfo) : Prop :=
  exists s, get t h = Some s /\ ula s = i_ula info /\ peer_pubkey s = i_wg_public_key info.
(** The one session of an address, found by its key too. *)
Definition held t (u : Ipv6Addr) (h : Arc) : Prop :=
  by_ula t !! u = Some h /\ exists s, get t h = Some s /\ ula s = u /\ by_pubkey t !! peer_pubkey s = Some h.
(** No key leads to the address; the key leads nowhere else. *)
Definition no_key t (u : Ipv6Addr) : Prop :=
  forall pk h s, by_pubkey t !! pk = Some h -> get t h = Some s -> ula s <> u.
Definition keyed t (u : Ipv6Addr) (key : list Z) : Prop :=
  forall h s, by_pubkey t !! key = Some h -> get t h = Some s -> ula s = u.

(** The peer is found both ways, and both ways lead to one session. *)
Definition settled t (info : PeerInfo) : Prop :=
  exists h, by_ula t !! i_ula info = Some h /\ by_pubkey t !! i_wg_public_key info = Some h /\ made t h info.

Definition up_ok t (info : PeerInfo) (pc : UpPc) : Prop :=
  let u := i_ula info in
  keyed t u (i_wg_public_key info) /\
  match pc with
  | Looking => by_ula t !! u = None \/ exists h, held t u h
  | Deciding None => by_ula t !! u = None
  | Deciding (Some h) | DroppingEndpoint h | DroppingKey h => held t u h
  | Building _ => no_key t u
  | InsertingUla h _ => no_key t u /\ made t h info
  | InsertingKey h _ => by_ula t !! u = Some h /\ made t h info
  | Announcing h _ => by_ula t !! u = Some h /\ by_pubkey t !! i_wg_public_key info = Some h /\ made t h info
  | Upserted => settled t info
  end.

(** The two clauses of the index that have to do with keys. *)
Definition wf_keys t : Prop :=
  (forall u h, by_ula t !! u = Some h -> exists s, get t h = Some s /\ ula s = u) /\
  (forall pk h, by_pubkey t !! pk = Some h -> exists s, get t h = Some s /\ peer_pubkey s = pk /\ by_ula t !! ula s = Some h).

(** A change that a call for address [u] and key [key] does not notice. *)
Record unnoticed (u : Ipv6Addr) (key : list Z) (t t' : SessionTable) : Prop := {
  un_ula : by_ula t' !! u = by_ula t !! u;
  un_new : forall pk h s, by_pubkey t' !! pk = Some h -> get t' h = Some s -> pk = key \/ ula s = u -> by_pubkey t !! pk = Some h;
  un_old : forall pk h s, by_pubkey t !! pk = Some h -> get t h = Some s -> ula s = u -> by_pubkey t' !! pk = Some h;
  un_heap : forall h s, get t h = Some s -> exists s', get t' h = Some s' /\ ula s' = ula s /\ peer_pubkey s' = peer_pubkey s;
}.

Lemma keeps_unnoticed u key t t' : keeps_peers t t' -> unnoticed u key t t'.
Proof. intros (Hu & Hp & Hh). split; rewrite ?Hu, ?Hp; try done; by intros; rewrite ?Hp in *. Qed.

Lemma keeps_wf t t' : keeps_peers t t' -> wf_keys t -> wf_keys t'.
Proof.
  intros (Hu & Hp & Hh) [H1 H2]. split.
  - intros u h. rewrite Hu. intros (s & Hs & <-)%H1. destruct (Hh _ _ Hs) as (s' & ? & ? & _). by exists s'.
  - intros pk h. rewrite Hp, Hu. intros (s & Hs & <- & Hb)%H2. destruct (Hh _ _ Hs) as (s' & ? & Hu' & ?). exists s'. by rewrite Hu'.
Qed.

(** An entry of the key index has a session, before and after. *)
Lemma entry_before t t' pk h s' :
  wf_keys t -> by_pubkey t !! pk = Some h -> (forall h s, get t h = Some s -> exists s', get t' h = Some s' /\ ula s' = ula s /\ peer_pubkey s' = peer_pubkey s) ->
  get t' h = Some s' -> exists s, get t h = Some s /\ ula s = ula s' /\ peer_pubkey s = pk.
Proof.
  intros [_ H2] Hp Hh Hs'. destruct (H2 _ _ Hp) as (s & Hs & Hk & _). destruct (Hh _ _ Hs) as (x & Hx & ? & ?).
  rewrite Hs' in Hx. injection Hx as <-. by exists s.
Qed.

Lemma made_unnoticed u key t t' h info : unnoticed u key t t' -> made t h info -> made t' h info.
Proof. intros Hun (s & Hs & Hu & Hk). destruct (un_heap _ _ _ _ Hun _ _ Hs) as (s' & ? & ? & ?). exists s'. split; [done|]. split; congruence. Qed.
Lemma held_unnoticed u key t t' h : unnoticed u key t t' -> held t u h -> held t' u h.
Proof.
  intros Hun (Hb & s & Hs & Hu & Hk). split; [by rewrite (un_ula _ _ _ _ Hun)|].
  destruct (un_heap _ _ _ _ Hun _ _ Hs) as (s' & ? & ? & Hk'). exists s'. split; [done|]. split; [congruence|].
  rewrite Hk'. by eapply (un_old _ _ _ _ Hun).
Qed.
Lemma no_key_unnoticed u key t t' : wf_keys t -> unnoticed u key t t' -> no_key t u -> no_key t' u.
Proof.
  intros Hwf Hun Hn pk h s Hp Hs Hu. pose proof (un_new _ _ _ _ Hun _ _ _ Hp Hs (or_intror Hu)) as Hp0.
  destruct (entry_before t t' pk h s Hwf Hp0 (un_heap _ _ _ _ Hun) Hs) as (s0 & Hs0 & Hu0 & _). apply (Hn _ _ _ Hp0 Hs0). congruence.
Qed.
Lemma keyed_unnoticed u key t t' : wf_keys t -> unnoticed u key t t' -> keyed t u key -> keyed t' u key.
Proof.
  intros Hwf Hun Hn h s Hp Hs. pose proof (un_new _ _ _ _ Hun _ _ _ Hp Hs (or_introl eq_refl)) as Hp0.
  destruct (entry_before t t' key h s Hwf Hp0 (un_heap _ _ _ _ Hun) Hs) as (s0 & Hs0 & <- & _). by eapply Hn.
Qed.

Lemma up_ok_unnoticed t t' info pc :
  wf_keys t -> unnoticed (i_ula info) (i_wg_public_key info) t t' -> up_ok t info pc -> up_ok t' info pc.
Proof.
  intros Hwf Hun [Hk Hpc]. split; [by eapply keyed_unnoticed|].
  assert (forall h, by_ula t !! i_ula info = Some h -> by_pubkey t !! i_wg_public_key info = Some h -> made t h info ->
    by_ula t' !! i_ula info = Some h /\ by_pubkey t' !! i_wg_public_key info = Some h /\ made t' h info) as Hall.
  { intros h Hu Hp Hm. split; [by rewrite (un_ula _ _ _ _ Hun)|]. split; [|by eapply made_unnoticed].
    destruct Hm as (s & Hs & Hus & _). by eapply (un_old _ _ _ _ Hun). }
  destruct pc as [|[h|]|h|h|p|h n|h n|h n|]; rewrite ?(un_ula _ _ _ _ Hun); try done.
  - destruct Hpc as [?|[h Hh]]; [by left|right; exists h; by eapply held_unnoticed].
  - by eapply held_unnoticed.
  - by eapply held_unnoticed.
  - by eapply held_unnoticed.
  - by eapply no_key_unnoticed.
  - destruct Hpc. split; [by eapply no_key_unnoticed|by eapply made_unnoticed].
  - destruct Hpc. split; [done|by eapply made_unnoticed].
  - destruct Hpc as (Hu & Hp & Hm). rewrite <- (un_ula _ _ _ _ Hun). by apply Hall.
  - destruct Hpc as (h & Hu & Hp & Hm). exists h. by apply Hall.
Qed.

(** ** What the steps do *)

Lemma keeps_modify t h f : keeps_identity f -> keeps_peers t (modify t h f).
Proof.
  intros Hf. split; [done|]. split; [done|]. intros j s Hj. destruct (get_modify_Some t h f j s Hj) as (s' & -> & [->| ->]);
    eexists; (split; [done|]); [done|apply Hf].
Qed.
Lemma keeps_trans t1 t2 t3 : keeps_peers t1 t2 -> keeps_peers t2 t3 -> keeps_peers t1 t3.
Proof.
  intros (H1 & H2 & H3) (K1 & K2 & K3). split; [congruence|]. split; [congruence|]. intros h s Hs.
  destruct (H3 _ _ Hs) as (s1 & Hs1 & ? & ?). destruct (K3 _ _ Hs1) as (s2 & ? & ? & ?). exists s2. split; [done|]. split; congruence.
Qed.
Lemma keeps_same t t' : by_ula t' = by_ula t -> by_pubkey t' = by_pubkey t -> heap t' = heap t -> keeps_peers t t'.
Proof. intros Hu Hp Hh. split; [done|]. split; [done|]. intros h s. unfold get. rewrite Hh. by exists s. Qed.
Lemma keeps_index t addr h : keeps_peers t (index_endpoint t addr h).
Proof. by destruct addr; apply keeps_same. Qed.
Lemma keeps_unindex t addr : keeps_peers t (unindex_endpoint t addr).
Proof. by destruct addr; apply keeps_same. Qed.
Lemma keeps_append t s : keeps_peers t (t <| heap := heap t ++ [s] |>).
Proof. split; [done|]. split; [done|]. intros h x Hx. exists x. split; [by apply lookup_app_l_Some|done]. Qed.
Lemma keeps_in_place t h s info : keeps_peers t (update_in_place t h s info).
Proof.
  unfold update_in_place. eapply keeps_trans; [|apply keeps_modify, keeps_replay].
  destruct (endpoint_learned s); [apply keeps_index|]. eapply keeps_trans; [|by apply keeps_modify].
  eapply keeps_trans; [|apply keeps_index]. destruct (bool_decide _); [apply keeps_unindex|by apply keeps_same].
Qed.

Definition step_sound t t' info pc' : Prop :=
  wf_keys t' /\ up_ok t' info pc' /\
  forall u key, u <> i_ula info -> key <> i_wg_public_key info -> unnoticed u key t t'.

Lemma keeps_sound t t' info pc pc' :
  wf_keys t -> up_ok t info pc -> keeps_peers t t' -> (up_ok t' info pc -> up_ok t' info pc') -> step_sound t t' info pc'.
Proof.
  intros Hwf Hok Hk Hpc. split; [by eapply keeps_wf|]. split; [|intros; by apply keeps_unnoticed].
  apply Hpc. eapply up_ok_unnoticed; [exact Hwf|by apply keeps_unnoticed|done].
Qed.

Lemma unkeyed t u : wf_keys t -> by_ula t !! u = None -> no_key t u.
Proof. intros [_ H2] Hn pk h s Hp Hs Hu. destruct (H2 _ _ Hp) as (s0 & Hs0 & _ & Hb). congruence. Qed.

Lemma dropping_key_sound t info h old :
  wf_keys t -> up_ok t info (DroppingKey h) -> get t h = Some old ->
  step_sound t (t <| by_pubkey := delete (peer_pubkey old) (by_pubkey t) |>) info (Building (Some h)).
Proof.
  intros Hwf [Hk (Hu & s & Hs & Hus & Hp)] Hold. rewrite Hold in Hs. injection Hs as <-. destruct Hwf as [H1 H2].
  set (t' := t <| by_pubkey := _ |>). assert (forall pk j, by_pubkey t' !! pk = Some j -> pk <> peer_pubkey old /\ by_pubkey t !! pk = Some j) as Hb.
  { intros pk j Hj. change (delete (peer_pubkey old) (by_pubkey t) !! pk = Some j) in Hj.
    apply lookup_delete_Some in Hj as [? ?]. by split; [apply not_eq_sym|]. }
  split; [|split; [split|]].
  - split; [exact H1|]. intros pk j [_ Hj]%Hb. exact (H2 _ _ Hj).
  - intros j x [_ Hj]%Hb. exact (Hk j x Hj).
  - intros pk j x [Hne Hj]%Hb Hx Hxu. destruct (H2 _ _ Hj) as (x0 & Hx0 & <- & Hux). change (get t j = Some x) in Hx.
    rewrite Hx in Hx0. injection Hx0 as <-. rewrite Hxu, Hu in Hux. injection Hux as ->. congruence.
  - intros u key Hne Hnk. split; [done| | |intros j x Hx; by exists x].
    + intros pk j x [_ Hj]%Hb _ _. exact Hj.
    + intros pk j x Hj Hx Hxu. change (delete (peer_pubkey old) (by_pubkey t) !! pk = Some j).
      apply lookup_delete_Some. split; [|done]. intros Heq. rewrite <- Heq, Hp in Hj. injection Hj as ->. congruence.
Qed.

Lemma inserting_ula_sound t info h n :
  wf_keys t -> up_ok t info (InsertingUla h n) ->
  step_sound t (t <| by_ula := <[i_ula info := h]> (by_ula t) |>) info (InsertingKey h n).
Proof.
  intros [H1 H2] [Hk (Hn & Hm)]. pose proof Hm as (s & Hs & Hus & Hks). split; [|split; [split; [|split]|]].
  - split.
    + intros u j Hj. change (<[i_ula info := h]> (by_ula t) !! u = Some j) in Hj.
      apply lookup_insert_Some in Hj as [[<- <-]|[_ Hj]]; [by exists s|exact (H1 _ _ Hj)].
    + intros pk j Hj. destruct (H2 _ _ Hj) as (x & Hx & Hkx & Hux). exists x. split; [done|]. split; [done|].
      simpl. rewrite lookup_insert_ne; [done|]. intros Heq. by apply (Hn pk j x Hj Hx).
  - exact Hk.
  - apply lookup_insert_eq.
  - exact Hm.
  - intros u key Hne _. split; [simpl; by rewrite lookup_insert_ne by done|done|done|intros j x Hx; by exists x].
Qed.

Lemma inserting_key_sound t info h n :
  wf_keys t -> up_ok t info (InsertingKey h n) ->
  step_sound t (t <| by_pubkey := <[i_wg_public_key info := h]> (by_pubkey t) |>) info (Announcing h n).
Proof.
  intros [H1 H2] [Hk (Hu & Hm)]. pose proof Hm as (s & Hs & Hus & Hks). set (t' := t <| by_pubkey := _ |>).
  assert (forall pk j, by_pubkey t' !! pk = Some j -> (pk = i_wg_public_key info /\ j = h) \/
    (pk <> i_wg_public_key info /\ by_pubkey t !! pk = Some j)) as Hb.
  { intros pk j Hj. change (<[i_wg_public_key info := h]> (by_pubkey t) !! pk = Some j) in Hj.
    apply lookup_insert_Some in Hj as [[? ?]|[? ?]]; [by left|right]. by split; [apply not_eq_sym|]. }
  split; [|split; [split; [|split; [|split]]|]].
  - split; [exact H1|]. intros pk j [[-> ->]|[_ Hj]]%Hb; [|exact (H2 _ _ Hj)]. exists s. by rewrite Hus.
  - intros j x [[_ ->]|[Hc _]]%Hb Hx; [|done]. change (get t h = Some x) in Hx. congruence.
  - exact Hu.
  - apply lookup_insert_eq.
  - exact Hm.
  - intros u key Hne Hnk. split; [done| | |intros j x Hx; by exists x].
    + intros pk j x [[-> ->]|[_ Hj]]%Hb Hx Ho; [|done]. change (get t h = Some x) in Hx.
      destruct Ho as [Ho|Ho]; [by destruct Hnk|]. rewrite Hs in Hx. injection Hx as <-. congruence.
    + intros pk j x Hj Hx Hxu. simpl. rewrite lookup_insert_ne; [done|]. intros <-. by destruct Hne; rewrite <- (Hk _ _ Hj Hx).
Qed.

Lemma upsert_step_sound c t t' pc pc' :
  wf_keys t -> up_ok t (c_info c) pc -> upsert_step c t pc = Some (t', pc') -> step_sound t t' (c_info c) pc'.
Proof.
  intros Hwf Hok Hs. set (info := c_info c) in *.
  assert (forall t2 pc2, keeps_peers t t2 -> (up_ok t2 info pc -> up_ok t2 info pc2) -> step_sound t t2 info pc2) as Q
    by (intros; by eapply keeps_sound).
  destruct pc as [|prior|h|h|prior|h n|h n|h n|]; cbn [upsert_step] in Hs; fold info in Hs.
  - injection Hs as <- <-. apply Q; [by apply keeps_same|]. intros [Hk Hpc]. split; [done|].
    change (by_ula t) with (by_ula (sink t (add_allowed (i_ula info)))). destruct Hpc as [Hu|[h Hh]]; [by rewrite Hu|].
    destruct Hh as [Hu Hx]. by rewrite Hu.
  - destruct prior as [h|]; cbn [mbind option_bind] in Hs.
    + destruct Hok as [Hk (Hu & s & Hg & Hus & Hp)]. rewrite Hg in Hs. case_bool_decide as E; injection Hs as <- <-.
      * apply (keeps_sound t _ info (Announcing h false) Upserted Hwf); [|apply keeps_in_place|intros [? ?]; split; [done|by exists h]].
        split; [done|]. split; [done|]. split; [congruence|]. by exists s.
      * apply Q; [by apply keeps_same|done].
    + injection Hs as <- <-. apply Q; [by apply keeps_same|]. intros [Hk Hu]. split; [done|]. by apply unkeyed.
  - apply bind_Some in Hs as (old & Hold & [= <- <-]). apply Q; [apply keeps_unindex|done].
  - apply bind_Some in Hs as (old & Hold & [= <- <-]). by apply dropping_key_sound.
  - injection Hs as <- <-. apply Q; [apply keeps_append|]. intros [Hk Hn]. split; [done|]. split; [done|].
    eexists. split; [by apply list_lookup_middle|]. destruct (negb _); [|done].
    destruct (keeps_replay t (i_ula info) (session_new our_private (c_index c) info)) as [-> ->]. done.
  - injection Hs as <- <-. by apply inserting_ula_sound.
  - injection Hs as <- <-. by apply inserting_key_sound.
  - injection Hs as <- <-. apply Q; [|intros [Hk Hpc]; split; [done|by exists h]].
    eapply keeps_trans; [|apply keeps_index]. by destruct (_ && _); apply keeps_same.
  - done.
Qed.

(** ** Calls for different peers *)

Definition apart (l : list UpThread) : Prop :=
  forall k k' x y, k <> k' -> l !! k = Some x -> l !! k' = Some y ->
    i_ula (c_info (u_call x)) <> i_ula (c_info (u_call y)) /\
    i_wg_public_key (c_info (u_call x)) <> i_wg_public_key (c_info (u_call y)).

Definition up_inv (x : UpConf) : Prop :=
  wf_keys (table_of x) /\ apart (calls x) /\
  forall k th, calls x !! k = Some th -> up_ok (table_of x) (c_info (u_call th)) (u_pc th).

Lemma up_step_inv x x' : up_inv x -> up_step x x' -> up_inv x'.
Proof.
  intros (Hwf & Hap & Hok) [k c pc t pc' Hk Hs|t Hkeep].
  - destruct (upsert_step_sound c _ t pc pc' Hwf (Hok _ _ Hk) Hs) as (Hwf' & Hok' & Hun).
    assert (forall j y, <[k := mkUp c pc']> (calls x) !! j = Some y ->
      (j = k /\ y = mkUp c pc') \/ (j <> k /\ calls x !! j = Some y)) as Hat.
    { intros j y [(-> & <- & _)|[? ?]]%list_lookup_insert_Some; [by left|right; by split; [apply not_eq_sym|]]. }
    assert (forall j y, <[k := mkUp c pc']> (calls x) !! j = Some y -> exists y0, calls x !! j = Some y0 /\ u_call y0 = u_call y) as Hcall.
    { intros j y [[-> ->]|[_ Hj]]%Hat; [by exists (mkUp c pc)|by exists y]. }
    split; [done|]. split.
    + intros j j' y z Hne (y0 & Hy & <-)%Hcall (z0 & Hz & <-)%Hcall. by eapply Hap.
    + intros j y [[-> ->]|[Hne Hj]]%Hat; [done|]. cbn [table_of]. eapply up_ok_unnoticed; [exact Hwf| |by eapply Hok].
      destruct (Hap j k y (mkUp c pc) Hne Hj Hk) as [Hnu Hnk]. by apply Hun.
  - split; [by eapply keeps_wf|]. split; [done|]. intros j y Hj. cbn [table_of].
    eapply up_ok_unnoticed; [exact Hwf|by apply keeps_unnoticed|by eapply Hok].
Qed.

(** A peer that may be announced: its address is free or held by one session that its key
    finds too, and its key leads to no other address. *)
Definition ready_for t (info : PeerInfo) : Prop := up_ok t info Looking.

(** C29: Calls of [upsert] for different peers do not disturb each other. In whatever order
    the accesses of the calls are taken, with the data plane and the other tasks in
    between as long as no peer leaves, every key of the index leads at all times to the
    session that is found by its address; and a call that has returned has settled its
    peer for good: the address and the key lead to one session, of that address and
    that key. *)
Theorem apart_calls_settle t infos x :
  wf_index t -> (forall c, c ∈ infos -> ready_for t (c_info c)) ->
  apart ((fun c => mkUp c Looking) <$> infos) ->
  rtc up_step (mkUpConf t ((fun c => mkUp c Looking) <$> infos)) x ->
  (forall pk h, by_pubkey (table_of x) !! pk = Some h ->
     exists s, get (table_of x) h = Some s /\ peer_pubkey s = pk /\ by_ula (table_of x) !! ula s = Some h)
  /\ (forall th, th ∈ calls x -> u_pc th = Upserted -> settled (table_of x) (c_info (u_call th))).
Proof.
  intros [Hw1 Hw2 _] Hready Hap Hrun.
  assert (up_inv x) as (Hwf & _ & Hok).
  { assert (up_inv (mkUpConf t ((fun c => mkUp c Looking) <$> infos))) as Hi.
    { split; [by split|]. split; [done|]. intros k th Hk. cbn [calls] in Hk. rewrite list_lookup_fmap in Hk.
      apply fmap_Some in Hk as (c & Hc & ->). apply Hready. by eapply list_elem_of_lookup_2. }
    clear Hready Hap. induction Hrun as [|a b c Hst _ IH]; [done|]. apply IH. by eapply up_step_inv. }
  split; [apply Hwf|]. intros th Hin Hpc. apply list_elem_of_lookup in Hin as [k Hk]. destruct (Hok k th Hk) as [_ Hs].
  by rewrite Hpc in Hs.
Qed.
End SessionTableConc.
