(* ===== verification/DataPlane.v ===== *)
(** * The joiner's data plane ([wg/loops.rs], [wg/session/mod.rs], the inbound side of
    [relay/client.rs] and the puncher of [nat/holepunch.rs])

    What the joiner does with one datagram, one packet from the TUN device, one
    frame from the relay, one tick of its timer, one kick and one punch directive.
    What goes out on the UDP socket and to the TUN device is recorded in order;
    the relay's lanes are part of the session table. *)

From S2P Require Import Prelude NetAddr AddrText Types RelayFrame PeerSession SessionTable.

Open Scope Z_scope.

Inductive Output :=
| UdpSend (endpoint : SocketAddr) (bytes : list Z)
| TunWrite (packet : list Z).

(** [WgAction] and [classify_tunn_result] ([wg/session/mod.rs]). *)
Inductive WgAction :=
| SendToPeer (bytes : list Z)
| DeliverToTun (bytes : list Z)
| ActNothing
| ActError (e : string).

Definition classify_tunn_result (res : TunnResult) : WgAction :=
  match res with
  | TunnErr e => ActError e
  | WriteToNetwork bytes => SendToPeer bytes
  | WriteToTunnelV6 bytes _ => DeliverToTun bytes
  | TunnDone | WriteToTunnelV4 _ _ => ActNothing
  end.

Definition is_error (a : WgAction) : bool := match a with ActError _ => true | _ => false end.

Definition DIRECT_PROBE_INTERVAL_MICROS : Z := 1000000.

(** ** Frames and packets *)

Definition is_wg_keepalive (bytes : list Z) : bool :=
  (length bytes =? 32)%nat && bool_decide (head bytes = Some 4).
Definition is_wg_data_frame (bytes : list Z) : bool :=
  (32 <? length bytes)%nat && bool_decide (head bytes = Some 4).
Definition is_wg_handshake_frame (bytes : list Z) : bool :=
  (4 <=? length bytes)%nat && match head bytes with Some t => (1 <=? t) && (t <=? 3) | None => false end.

(** The address at byte [off] of an IPv6 packet. *)
Definition ipv6_field (bytes : list Z) (off : nat) : option Ipv6Addr :=
  if (length bytes <? 40)%nat then None
  else match head bytes with
       | Some b => if Z.shiftr b 4 =? 6 then of_octets (take 16 (drop off bytes)) else None
       | None => None
       end.
Definition ipv6_destination (bytes : list Z) : option Ipv6Addr := ipv6_field bytes 24.
Definition ipv6_source (bytes : list Z) : option Ipv6Addr := ipv6_field bytes 8.

Definition direct_probe_packet (src dst : Ipv6Addr) : list Z :=
  [0x60; 0; 0; 0; 0; 0; 59; 0] ++ octets src ++ octets dst.

Section DataPlane.
Context `{Noise} `{TableOrder}.

(** The table, the counter [RX_SOURCE_DENIED] and what has been sent. *)
Record World := mkWorld {
  table : SessionTable;
  rx_source_denied : Z;
  out : list Output;
}.
#[export] Instance eta_World : Eta World := fun w => mkWorld (table w) (rx_source_denied w) (out w).

Definition emit (w : World) (o : Output) : World := w <| out := out w ++ [o] |>.
Definition upd (w : World) (h : Arc) (f : PeerSession -> PeerSession) : World :=
  w <| table := modify (table w) h f |>.

(** [relay.try_relay] through the handle of the table. *)
Definition relay_out (w : World) (dst : list Z) (bytes : list Z) : World :=
  w <| table := (table w) <| relay := (fun r => try_relay r dst bytes) <$> relay (table w) |> |>.

(** A tunnel call on the session behind [h]; the tunnel keeps its new state. *)
Definition with_tunn (w : World) (h : Arc) (call : Tunn -> Tunn * TunnResult) : World * WgAction :=
  match get (table w) h with
  | None => (w, ActNothing)
  | Some s =>
      let '(tn, res) := call (tunn s) in
      (upd w h (fun s => s <| tunn := tn |>), classify_tunn_result res)
  end.

(** ** Sending *)

(** The direct probe beside the relay, at most one per interval. *)
Definition probe_beside_relay (now : Z) (w : World) (h : Arc) (session : PeerSession) (r : RelayHandle)
    (bytes : list Z) : World :=
  if negb (relay_only r) && negb (direct_suppressed session now) then
    match endpoint session with
    | Some ep =>
        let '(_, due) := should_probe_direct session now DIRECT_PROBE_INTERVAL_MICROS in
        if due then
          let w := upd w h (fun s => fst (should_probe_direct s now DIRECT_PROBE_INTERVAL_MICROS)) in
          let w := emit w (UdpSend ep bytes) in
          upd w h (fun s => note_handshake_failure s now)
        else w
    | None => w
    end
  else w.

Definition send_wire (now : Z) (w : World) (h : Arc) (bytes : list Z) : World :=
  match get (table w) h with
  | None => w
  | Some session =>
      let w := if negb (is_wg_keepalive bytes) then w <| table := note_send_attempt (table w) now |> else w in
      match (if direct_confirmed session then endpoint session else None) with
      | Some ep =>
          let w := if is_wg_data_frame bytes then upd w h (fun s => note_direct_tx s now) else w in
          emit w (UdpSend ep bytes)
      | None =>
          match relay (table w) with
          | Some r =>
              let w := probe_beside_relay now w h session r bytes in
              relay_out w (peer_pubkey session) bytes
          | None =>
              match endpoint session with
              | Some ep => emit w (UdpSend ep bytes)
              | None => w
              end
          end
      end
  end.

Definition send_wire_relay_floored (now : Z) (w : World) (h : Arc) (bytes : list Z) : World :=
  match get (table w) h with
  | None => w
  | Some session =>
      let w := if negb (is_wg_keepalive bytes) then w <| table := note_send_attempt (table w) now |> else w in
      relay_out w (peer_pubkey session) bytes
  end.

Definition rearm_base_micros (eager : bool) : Z :=
  if eager then CONVERGENCE_REARM_BACKOFF_MICROS else EXPIRED_REARM_BACKOFF_MICROS.

(** ** Receiving *)

Definition inner_source_allowed (w : World) (session : PeerSession) (packet : list Z) : World * bool :=
  let denied := w <| rx_source_denied := u64_wrapping_add (rx_source_denied w) 1 |> in
  match ipv6_source packet with
  | None => (denied, false)
  | Some src => if is_allowed_source session src then (w, true) else (denied, false)
  end.

Definition apply_wg_action (now : Z) (via_direct : bool) (w : World) (h : Arc) (action : WgAction) : World :=
  match action with
  | ActNothing | ActError _ => w
  | SendToPeer bytes => send_wire now w h bytes
  | DeliverToTun bytes =>
      match get (table w) h with
      | None => w
      | Some session =>
          let '(w, allowed) := inner_source_allowed w session bytes in
          if negb allowed then w
          else
            let w := w <| table := note_inbound_data_frame (table w) now |> in
            let w := if via_direct then upd w h (fun s => confirm_direct s now) else w in
            emit w (TunWrite bytes)
      end
  end.

(** The loop that flushes what the tunnel queued: it ends when the tunnel has
    nothing more to say. [None] is the exhausted fuel. *)
Fixpoint drain (fuel : nat) (now : Z) (via_direct : bool) (w : World) (h : Arc) : option World :=
  match fuel with
  | O => None
  | S fuel =>
      let '(w, next) := with_tunn w h (fun tn => decapsulate tn now []) in
      match next with
      | ActNothing => Some w
      | _ => drain fuel now via_direct (apply_wg_action now via_direct w h next) h
      end
  end.

Definition process_inbound_datagram (fuel : nat) (now : Z) (via_direct : bool) (w : World) (h : Arc)
    (datagram : list Z) : option World :=
  let '(w, first) := with_tunn w h (fun tn => decapsulate tn now datagram) in
  let w := if via_direct && negb (is_error first) then upd w h (fun s => note_direct_rx s now) else w in
  let w := if is_wg_handshake_frame datagram && negb (is_error first)
           then upd w h (fun s => note_handshake_rx s via_direct now) else w in
  drain fuel now via_direct (apply_wg_action now via_direct w h first) h.

(** The search of [udp_recv_loop] for the session that accepts a datagram from an
    address it does not know. *)
Fixpoint try_sessions (fuel : nat) (now : Z) (w : World) (candidates : list Arc) (peer_addr : SocketAddr)
    (datagram : list Z) : option World :=
  match candidates with
  | [] => Some w
  | h :: candidates =>
      let '(w, attempt) := with_tunn w h (fun tn => decapsulate tn now datagram) in
      match attempt with
      | ActError _ | ActNothing => try_sessions fuel now w candidates peer_addr datagram
      | _ =>
          let w := w <| table := learn_endpoint (table w) h peer_addr |> in
          let w := upd w h (fun s => note_direct_rx s now) in
          let w := if is_wg_handshake_frame datagram then upd w h (fun s => note_handshake_rx s true now) else w in
          drain fuel now true (apply_wg_action now true w h attempt) h
      end
  end.

(** One turn of [udp_recv_loop]. *)
Definition udp_recv (fuel : nat) (now : Z) (w : World) (peer_addr : SocketAddr) (datagram : list Z) : option World :=
  match by_endpoint (table w) !! peer_addr with
  | Some h => process_inbound_datagram fuel now true w h datagram
  | None => try_sessions fuel now w (snapshot (table w)) peer_addr datagram
  end.

(** [handle_inbound] of [relay/client.rs]. *)
Definition handle_inbound (fuel : nat) (now : Z) (w : World) (buf : list Z) : option World :=
  match decode_relay_frame buf with
  | None => Some w
  | Some (src, payload) =>
      match by_pubkey (table w) !! src with
      | None => Some w
      | Some h => process_inbound_datagram fuel now false w h payload
      end
  end.

(** ** From the TUN device *)

Definition encapsulate_and_send (now : Z) (w : World) (h : Arc) (packet : list Z) : World :=
  let '(w, action) := with_tunn w h (fun tn => encapsulate tn now packet) in
  match action with SendToPeer bytes => send_wire now w h bytes | _ => w end.

(** One turn of [tun_read_loop]. *)
Definition tun_read (now : Z) (my_ula : Ipv6Addr) (w : World) (packet : list Z) : World :=
  match ipv6_destination packet with
  | None => w
  | Some dst =>
      if bool_decide (dst = my_ula) then w
      else match session_for (table w) dst with
           | None => w
           | Some h => encapsulate_and_send now w h packet
           end
  end.

(** ** The timer *)

Definition maybe_rearm_expired_session (our_private : StaticSecret) (now : Z) (w : World) (h : Arc) : World * bool :=
  match get (table w) h with
  | None => (w, false)
  | Some session =>
      if negb (is_expired (tunn session)) then (w, false)
      else if bool_decide (relay (table w) = None) then (w, false)
      else
        let base := rearm_base_micros (eager_convergence session) in
        let '(_, due) := should_rearm_expired session now base EXPIRED_REARM_BACKOFF_CAP_MICROS in
        if negb due then (w, false)
        else
          let w := upd w h (fun s => fst (should_rearm_expired s now base EXPIRED_REARM_BACKOFF_CAP_MICROS)) in
          let w := upd w h (fun s => reset_handshake s our_private) in
          let '(w, action) := with_tunn w h (fun tn => encapsulate tn now []) in
          (match action with SendToPeer bytes => send_wire_relay_floored now w h bytes | _ => w end, true)
  end.

Definition maybe_direct_data_probe (now : Z) (my_ula : Ipv6Addr) (w : World) (h : Arc) : World :=
  match relay (table w), get (table w) h with
  | Some r, Some session =>
      if relay_only r then w
      else if direct_confirmed session || direct_suppressed session now then w
      else match endpoint session with
           | None => w
           | Some ep =>
               let '(_, due) := should_probe_direct session now DIRECT_PROBE_INTERVAL_MICROS in
               if negb due then w
               else
                 let w := upd w h (fun s => fst (should_probe_direct s now DIRECT_PROBE_INTERVAL_MICROS)) in
                 if negb (has_handshake (tunn session) now) then w
                 else
                   let probe := direct_probe_packet my_ula (ula session) in
                   let '(w, action) := with_tunn w h (fun tn => encapsulate tn now probe) in
                   match action with
                   | SendToPeer bytes =>
                       let w := emit w (UdpSend ep bytes) in
                       upd w h (fun s => note_handshake_failure s now)
                   | _ => w
                   end
           end
  | _, _ => w
  end.

Definition maybe_idle_probe (now : Z) (my_ula : Ipv6Addr) (w : World) : World :=
  let '(t, due) := should_emit_idle_probe (table w) now IDLE_PROBE_AFTER_MICROS in
  let w := w <| table := t |> in
  if negb due then w
  else match idle_probe_target (table w) with
       | None => w
       | Some h =>
           match get (table w) h with
           | None => w
           | Some session =>
               let packet := if has_handshake (tunn session) now
                             then direct_probe_packet my_ula (ula session) else [] in
               let '(w, action) := with_tunn w h (fun tn => encapsulate tn now packet) in
               match action with SendToPeer bytes => send_wire now w h bytes | _ => w end
           end
       end.

(** The downgrades of a tick. *)
Definition downgrade (now : Z) (s : PeerSession) : PeerSession :=
  let s := downgrade_direct_if_stale s now DIRECT_PATH_TTL_MICROS in
  fst (downgrade_direct_if_tx_blackholed s now DIRECT_TX_BLACKHOLE_TTL_MICROS).

(** One turn of the loop over the sessions. *)
Definition tick_session (our_private : StaticSecret) (my_ula : Ipv6Addr) (now : Z) (w : World) (h : Arc) : World :=
  let w := upd w h (downgrade now) in
  let '(w, rearmed) := maybe_rearm_expired_session our_private now w h in
  if rearmed then w
  else
    let '(w, action) := with_tunn w h (fun tn => update_timers tn now) in
    let w := match action with SendToPeer bytes => send_wire now w h bytes | _ => w end in
    maybe_direct_data_probe now my_ula w h.

(** One tick of [timer_loop]. *)
Definition timer_tick (our_private : StaticSecret) (my_ula : Ipv6Addr) (now : Z) (w : World) : World :=
  let w := foldl (tick_session our_private my_ula now) w (snapshot (table w)) in
  let w := if negb (is_empty (table w)) && (last_inbound_data_frame_ts (table w) =? 0)
           then w <| table := note_inbound_data_frame (table w) now |> else w in
  maybe_idle_probe now my_ula w.

(** ** Kicks and punches *)

Definition kick_convergence_handshake (now : Z) (w : World) (h : Arc) : World :=
  let '(w, action) := with_tunn w h (fun tn => encapsulate tn now []) in
  match action with SendToPeer bytes => send_wire_relay_floored now w h bytes | _ => w end.

(** One turn of [convergence_loop]. *)
Definition convergence_next (now : Z) (w : World) : World :=
  match convergence_tx (table w) with
  | Some (h :: q) =>
      kick_convergence_handshake now (w <| table := (table w) <| convergence_tx := Some q |> |>) h
  | _ => w
  end.

Definition PUNCH_BURST : nat := 5.
Definition PUNCH_INTERVAL_MICROS : Z := 300000.

(** [plan_punch]: the session and the address to punch. *)
Definition plan_punch `{Externals} (t : SessionTable) (my_peer_id : Uuid) (event : HolePunchInitiate)
    : option (Arc * SocketAddr) :=
  if bool_decide (initiator_peer_id event <> uuid_to_string my_peer_id) then None
  else
    endpoint ← parse_sock (target_external_endpoint event);
    target_id ← ok (uuid_parse (target_peer_id event));
    session ← List.find (fun h => bool_decide (peer_id <$> get t h = Some target_id)) (snapshot t);
    Some (session, endpoint).

(** One shot of the burst: a fresh handshake initiation, to the address and, unless
    the path was confirmed at the start, to the relay as well. *)
Definition punch_shot (confirmed : bool) (h : Arc) (ep : SocketAddr) (w : World) (now : Z) : World :=
  let '(w, action) := with_tunn w h (fun tn => format_handshake_initiation tn now false) in
  match action with
  | SendToPeer bytes =>
      let w := emit w (UdpSend ep bytes) in
      match get (table w) h with
      | Some s => if negb confirmed then relay_out w (peer_pubkey s) bytes else w
      | None => w
      end
  | _ => w
  end.

Definition execute_punch (now : Z) (w : World) (plan : Arc * SocketAddr) : World :=
  let '(h, ep) := plan in
  match get (table w) h with
  | None => w
  | Some s =>
      foldl (punch_shot (direct_confirmed s) h ep) w
        ((fun i => now + Z.of_nat i * PUNCH_INTERVAL_MICROS) <$> seq 0 PUNCH_BURST)
  end.

(** One turn of the puncher's [run]. *)
Definition punch `{Externals} (now : Z) (my_peer_id : Uuid) (w : World) (event : HolePunchInitiate) : World :=
  match plan_punch (table w) my_peer_id event with
  | Some plan => execute_punch now w plan
  | None => w
  end.
End DataPlane.
