(* ===== verification/CommandGate.v ===== *)
(** * Remote commands on the joiner ([coordinator/command.rs], [command_gate.rs] and
    [command_exec.rs])

    The coordinator relays commands it cannot forge: the joiner runs one only when
    it carries the super-admin's signature, has not expired and has a nonce that
    has not been seen, and it remembers the nonces across restarts in a file. *)

From S2P Require Import Prelude NetAddr Types PeerSession SessionTable.

Open Scope Z_scope.

(** ** Data *)

Inductive CommandVerb := RestartJoiner | ResetWg | RebootHost.

Record NodeCommand := mkNodeCommand {
  nc_command_id : Uuid;
  verb : CommandVerb;
  nc_peer_id : string;
  nonce : string;
  issued_at : Z;
  expiry : Z;
  signature : string;
}.
#[export] Instance eta_NodeCommand : Eta NodeCommand := fun c =>
  mkNodeCommand (nc_command_id c) (verb c) (nc_peer_id c) (nonce c) (issued_at c) (expiry c) (signature c).

Inductive CommandVerifyError := BadSignature | Expired | Malformed.
Inductive CommandVerdict := Accept | Replay | Reject (e : CommandVerifyError).

(** The crates [ed25519_dalek], [hex] and [serde_json]. *)
Class Signatures := {
  VerifyingKey : Type;
  key_from_bytes : list Z -> option VerifyingKey;
  ed25519_verify : VerifyingKey -> list Z -> list Z -> bool;
  hex_decode : string -> option (list Z);
  command_to_vec : NodeCommand -> option (list Z);
  nonces_to_json : gset string -> option string;
  nonces_of_json : string -> option (gset string);
}.

(** What [serde_json] documents: the set that was written is read back. *)
Class SignatureLaws `{Signatures} := {
  nonces_to_json_total : forall ns, is_Some (nonces_to_json ns);
  nonces_roundtrip : forall ns json, nonces_to_json ns = Some json -> nonces_of_json json = Some ns;
}.

Section Gate.
Context `{Signatures}.

(** [signing_bytes] and [verify] *)
Definition signing_bytes (c : NodeCommand) : list Z :=
  default [] (command_to_vec (c <| signature := EmptyString |>)).

Definition verify (c : NodeCommand) (pubkey : list Z) : Result unit CommandVerifyError :=
  if negb (length pubkey =? 32)%nat then Err Malformed
  else match key_from_bytes pubkey with
  | None => Err Malformed
  | Some vk =>
      match hex_decode (signature c) with
      | None => Err Malformed
      | Some sig_bytes =>
          if negb (length sig_bytes =? 64)%nat then Err Malformed
          else if ed25519_verify vk (signing_bytes c) sig_bytes then Ok tt else Err BadSignature
      end
  end.

Definition check_fresh (c : NodeCommand) (now_micros : Z) : Result unit CommandVerifyError :=
  if expiry c <? now_micros then Err Expired else Ok tt.

(** [NonceStore]: the set in memory, and what its file holds. *)
Record NonceStore := mkNonceStore { nonces : gset string; file : option string }.

Definition store_load (file : option string) : NonceStore :=
  mkNonceStore (default ∅ (json ← file; nonces_of_json json)) file.

(** The write may fail, and then leaves anything behind; [io] is what the file
    holds after a failed write. *)
Definition record_nonce (st : NonceStore) (n : string) (io : option (option string)) : NonceStore :=
  let ns := {[n]} ∪ nonces st in
  mkNonceStore ns
    (match nonces_to_json ns, io with
     | None, _ => file st
     | Some json, None => Some json
     | Some _, Some left_behind => left_behind
     end).

Record CommandGate := mkCommandGate { super_admin_pubkey : option (list Z); nonce_store : NonceStore }.

Definition gate_new (pubkey : option (list Z)) (file : option string) : CommandGate :=
  mkCommandGate pubkey (store_load file).

Definition evaluate (g : CommandGate) (cmd : NodeCommand) (now_micros : Z) : CommandVerdict :=
  match super_admin_pubkey g with
  | None => Reject BadSignature
  | Some pk =>
      match verify cmd pk with
      | Err e => Reject e
      | Ok _ =>
          match check_fresh cmd now_micros with
          | Err e => Reject e
          | Ok _ => if bool_decide (nonce cmd ∈ nonces (nonce_store g)) then Replay else Accept
          end
      end
  end.

Definition mark_executed (g : CommandGate) (n : string) (io : option (option string)) : CommandGate :=
  mkCommandGate (super_admin_pubkey g) (record_nonce (nonce_store g) n io).

(** The effects of [execute_verb]: calls on the host's sink, and a reset of every
    session's handshake. *)
Inductive Effect := restart_joiner | reboot_host | rehandshake_all.
Definition effect_of (v : CommandVerb) : Effect :=
  match v with RestartJoiner => restart_joiner | RebootHost => reboot_host | ResetWg => rehandshake_all end.

(** One turn of the loop of [process_commands]; [io] says how the write of each
    nonce went. *)
Definition process_one (now_micros : Z) (io : string -> option (option string))
    (st : CommandGate * list Effect * list Uuid) (cmd : NodeCommand) : CommandGate * list Effect * list Uuid :=
  let '(g, effects, acks) := st in
  match evaluate g cmd now_micros with
  | Accept => (mark_executed g (nonce cmd) (io (nonce cmd)), effects ++ [effect_of (verb cmd)],
               acks ++ [nc_command_id cmd])
  | Replay | Reject _ => (g, effects, acks ++ [nc_command_id cmd])
  end.

Definition process_commands (commands : list NodeCommand) (g : CommandGate) (now_micros : Z)
    (io : string -> option (option string)) : CommandGate * list Effect * list Uuid :=
  foldl (process_one now_micros io) (g, [], []) commands.

(** The life of the gate: batches of commands, each with the time it is processed
    at and how the writes go, with or without a restart of the joiner before it. *)
Record Batch := mkBatch {
  restarted : bool;
  commands : list NodeCommand;
  processed_at : Z;
  writes : string -> option (option string);
}.

Definition before_batch (b : Batch) (g : CommandGate) : CommandGate :=
  if restarted b then gate_new (super_admin_pubkey g) (file (nonce_store g)) else g.

Fixpoint run_batches (g : CommandGate) (l : list Batch) : list Effect :=
  match l with
  | [] => []
  | b :: l =>
      let '(g, effects, _) := process_commands (commands b) (before_batch b g) (processed_at b) (writes b) in
      effects ++ run_batches g l
  end.

(** ** Theorems *)

(** A command the gate may run: signed by the super-admin and not expired. *)
Definition authentic (pk : list Z) (now_micros : Z) (c : NodeCommand) : Prop :=
  verify c pk = Ok tt /\ now_micros <= expiry c.

Lemma evaluate_Accept g c now :
  evaluate g c now = Accept <->
  exists pk, super_admin_pubkey g = Some pk /\ authentic pk now c /\ nonce c ∉ nonces (nonce_store g).
Proof.
  unfold evaluate, authentic, check_fresh. destruct (super_admin_pubkey g) as [pk|].
  2: { split; [done|by intros (pk & [=] & _)]. }
  split.
  - destruct (verify c pk) as [[]|] eqn:Ev; [|done]. destruct (expiry c <? now) eqn:Ee; [done|].
    case_bool_decide as En; [done|]. intros _. exists pk. split_and!; try done. lia.
  - intros (pk' & [= <-] & [-> He] & Hn). destruct (expiry c <? now) eqn:Ee; [lia|].
    by rewrite bool_decide_eq_false_2.
Qed.

(** What a run of the loop adds, and which commands it ran. *)
Lemma process_loop now io commands g effects acks :
  exists ran, ran `sublist_of` commands
  /\ let '(g', effects', acks') := foldl (process_one now io) (g, effects, acks) commands in
     effects' = effects ++ ((effect_of ∘ verb) <$> ran)
     /\ acks' = acks ++ (nc_command_id <$> commands)
     /\ super_admin_pubkey g' = super_admin_pubkey g
     /\ nonces (nonce_store g') = list_to_set (nonce <$> ran) ∪ nonces (nonce_store g)
     /\ NoDup (nonce <$> ran)
     /\ (forall c, c ∈ ran -> (nonce c ∉ nonces (nonce_store g))
           /\ exists pk, super_admin_pubkey g = Some pk /\ authentic pk now c)
     /\ (forall c pk, c ∈ commands -> super_admin_pubkey g = Some pk -> authentic pk now c ->
           nonce c ∈ nonces (nonce_store g')).
Proof.
  revert g effects acks. induction commands as [|c commands IH]; intros g effects acks; simpl.
  { exists []. split_and!; try done; rewrite ?app_nil_r; try done; [set_solver|constructor|set_solver..]. }
  destruct (evaluate g c now) as [| |e] eqn:Ev.
  - pose proof (proj1 (evaluate_Accept _ _ _) Ev) as (pk & Hpk & Ha & Hn).
    destruct (IH (mark_executed g (nonce c) (io (nonce c))) (effects ++ [effect_of (verb c)]) (acks ++ [nc_command_id c]))
      as (ran & Hsub & Hr).
    exists (c :: ran). split; [by constructor|]. destruct (foldl _ _ commands) as [[g' ef'] ac'].
    destruct Hr as (-> & -> & H3 & H4 & H5 & H6 & H7). simpl in *. split_and!.
    + by rewrite <- app_assoc.
    + by rewrite <- app_assoc.
    + done.
    + rewrite H4. set_solver.
    + constructor; [|done]. intros (d & Hd & Hin)%list_elem_of_fmap. destruct (H6 d Hin) as [Hx _]. set_solver.
    + intros d [->|Hd]%elem_of_cons; [eauto|]. destruct (H6 d Hd) as [Hx Hy]. split; [set_solver|done].
    + intros d pk' [->|Hd]%elem_of_cons Hp Hauth; [rewrite H4; set_solver|by eapply H7].
  - destruct (IH g effects (acks ++ [nc_command_id c])) as (ran & Hsub & Hr).
    exists ran. split; [by constructor|]. destruct (foldl _ _ commands) as [[g' ef'] ac'].
    destruct Hr as (-> & -> & H3 & H4 & H5 & H6 & H7). split_and!; try done; [by rewrite <- app_assoc|].
    intros d pk' [->|Hd]%elem_of_cons Hp Hauth; [|by eapply H7].
    rewrite H4. apply elem_of_union_r. apply dec_stable. intros Hn.
    by rewrite (proj2 (evaluate_Accept g c now)) in Ev by eauto.
  - destruct (IH g effects (acks ++ [nc_command_id c])) as (ran & Hsub & Hr).
    exists ran. split; [by constructor|]. destruct (foldl _ _ commands) as [[g' ef'] ac'].
    destruct Hr as (-> & -> & H3 & H4 & H5 & H6 & H7). split_and!; try done; [by rewrite <- app_assoc|].
    intros d pk' [->|Hd]%elem_of_cons Hp Hauth; [|by eapply H7].
    rewrite H4. apply elem_of_union_r. apply dec_stable. intros Hn.
    by rewrite (proj2 (evaluate_Accept g c now)) in Ev by eauto.
Qed.

(** The file holds what is in memory. *)
Definition synced (g : CommandGate) : Prop :=
  store_load (file (nonce_store g)) = nonce_store g.

Lemma mark_synced `{!SignatureLaws} g n : synced (mark_executed g n None).
Proof.
  unfold synced, mark_executed, record_nonce, store_load. simpl.
  destruct (nonces_to_json_total ({[n]} ∪ nonces (nonce_store g))) as [json Hj]. rewrite Hj. simpl.
  by rewrite (nonces_roundtrip _ _ Hj).
Qed.

Lemma process_synced `{!SignatureLaws} now cmds g effects acks :
  synced g -> synced (foldl (process_one now (fun _ => None)) (g, effects, acks) cmds).1.1.
Proof.
  revert g effects acks. induction cmds as [|c cmds IH]; intros g effects acks Hs; simpl; [done|].
  destruct (evaluate g c now); apply IH; [apply mark_synced|done|done].
Qed.

(** A batch whose writes succeed, or one that is not preceded by a restart. *)
Definition reliable (b : Batch) : Prop := forall n, writes b n = None.

Lemma before_batch_synced b g : synced g -> before_batch b g = g.
Proof.
  intros Hs. unfold before_batch, gate_new. destruct (restarted b); [|done]. rewrite Hs. by destruct g.
Qed.

(** The commands that ran, over the whole life of a gate. *)
Lemma run_batches_ran `{!SignatureLaws} g l :
  synced g -> Forall reliable l ->
  exists ran,
    run_batches g l = (effect_of ∘ verb) <$> ran
    /\ NoDup (nonce <$> ran)
    /\ (forall c, c ∈ ran -> (nonce c ∉ nonces (nonce_store g)) /\
          exists b pk, b ∈ l /\ c ∈ commands b /\ super_admin_pubkey g = Some pk /\ authentic pk (processed_at b) c)
    /\ (forall b c pk, b ∈ l -> c ∈ commands b -> super_admin_pubkey g = Some pk -> authentic pk (processed_at b) c ->
          nonce c ∉ nonces (nonce_store g) -> nonce c ∈ nonce <$> ran).
Proof.
  intros Hs Hl. revert g Hs. induction Hl as [|b l Hb Hl IH]; intros g Hs; simpl.
  { exists []. split_and!; try done; [constructor|set_solver..]. }
  rewrite before_batch_synced by done. unfold process_commands.
  destruct (process_loop (processed_at b) (writes b) (commands b) g [] []) as (ran & Hsub & Hr).
  pose proof (process_synced (processed_at b) (commands b) g [] [] Hs) as Hs'.
  assert (foldl (process_one (processed_at b) (writes b)) (g, [], []) (commands b)
          = foldl (process_one (processed_at b) (fun _ => None)) (g, [], []) (commands b)) as Ef.
  { clear -Hb. generalize (g, [] : list Effect, [] : list Uuid). induction (commands b) as [|c cs IHc]; intros st; [done|].
    simpl. rewrite IHc. f_equal. unfold process_one. destruct st as [[? ?] ?]. by rewrite Hb. }
  rewrite Ef in *. destruct (foldl _ _ (commands b)) as [[g' effects] acks]. simpl in Hs'.
  destruct Hr as (-> & _ & Hk & Hns & Hnd & Hin & Hall).
  destruct (IH g' Hs') as (ran' & Heq & Hnd' & Hin' & Hall'). exists (ran ++ ran'). split_and!.
  - by rewrite fmap_app, Heq.
  - rewrite fmap_app. apply NoDup_app. split_and!; [done| |done].
    intros n Hn (c & -> & Hc)%list_elem_of_fmap. destruct (Hin' c Hc) as [Hx _]. rewrite Hns in Hx.
    apply Hx, elem_of_union_l, elem_of_list_to_set. done.
  - intros c [Hc|Hc]%elem_of_app.
    + destruct (Hin c Hc) as (Hx & pk & Hpk & Ha). split; [done|]. exists b, pk. split_and!; try done; [by left|].
      by eapply sublist_in.
    + destruct (Hin' c Hc) as (Hx & b' & pk & Hb' & Hcb & Hpk & Ha). split; [set_solver|].
      exists b', pk. rewrite <- Hk. split_and!; try done. by right.
  - intros b' c pk Hb' Hc Hpk Ha Hn. rewrite fmap_app. apply elem_of_app.
    destruct (decide (nonce c ∈ nonce <$> ran)) as [|Hnr]; [by left|right].
    apply elem_of_cons in Hb' as [->|Hb'].
    + exfalso. pose proof (Hall c pk Hc Hpk Ha) as Hx. rewrite Hns in Hx. set_solver.
    + apply (Hall' b' c pk); try done; [by rewrite Hk|]. rewrite Hns. set_solver.
Qed.

(** Over the whole life of a joiner, restarts included, a signed command runs at
    most once: whatever commands are delivered, in whatever order and however
    often, the effects on the host are those of a list of delivered commands
    with distinct nonces, none seen before, each with the super-admin's signature
    and unexpired when it ran. And every command that was delivered so, its nonce
    unseen, did run, or another one with its nonce did. Without a configured key
    nothing runs. (The nonce file's writes succeed.) *)
Theorem commands_run_at_most_once `{!SignatureLaws} g l :
  synced g -> Forall reliable l ->
  exists ran,
    run_batches g l = (effect_of ∘ verb) <$> ran
    /\ NoDup (nonce <$> ran)
    /\ (forall c, c ∈ ran -> (nonce c ∉ nonces (nonce_store g)) /\
          exists b pk, b ∈ l /\ c ∈ commands b /\ super_admin_pubkey g = Some pk /\ authentic pk (processed_at b) c)
    /\ (forall b c pk, b ∈ l -> c ∈ commands b -> super_admin_pubkey g = Some pk -> authentic pk (processed_at b) c ->
          nonce c ∉ nonces (nonce_store g) -> nonce c ∈ nonce <$> ran).
Proof. apply run_batches_ran. Qed.

(** A command is not bound to the node it names: every node that trusts the key and
    has not seen the nonce accepts it. *)
Lemma target_is_not_checked g1 g2 c now :
  super_admin_pubkey g1 = super_admin_pubkey g2 ->
  nonce c ∉ nonces (nonce_store g2) ->
  evaluate g1 c now = Accept -> evaluate g2 c now = Accept.
Proof.
  intros Hk Hn (pk & Hpk & Ha & _)%evaluate_Accept. apply evaluate_Accept. exists pk. by rewrite <- Hk.
Qed.
End Gate.

(** ** A signature scheme to evaluate with

    A signature is its length and the signed bytes are the nonce. *)
Module Toy.
Fixpoint string_of_positive (p : positive) : string :=
  match p with
  | xH => EmptyString
  | xO p => "0" +:+ string_of_positive p
  | xI p => "1" +:+ string_of_positive p
  end.
Fixpoint positive_of_string (s : string) : positive :=
  match s with
  | EmptyString => xH
  | String c s => if bool_decide (String c EmptyString = "0") then xO (positive_of_string s) else xI (positive_of_string s)
  end.
Lemma positive_of_string_of p : positive_of_string (string_of_positive p) = p.
Proof.
  induction p as [p IH|p IH|]; [| |done].
  - change (xI (positive_of_string (string_of_positive p)) = xI p). by rewrite IH.
  - change (xO (positive_of_string (string_of_positive p)) = xO p). by rewrite IH.
Qed.

#[export] Instance toy : Signatures := {|
  VerifyingKey := list Z;
  key_from_bytes pk := Some pk;
  ed25519_verify _ msg sig := bool_decide (head sig = Some (Z.of_nat (length msg)));
  hex_decode s := Some (replicate 64 (Z.of_nat (String.length s)));
  command_to_vec c := Some (bytes_of_string (nonce c));
  nonces_to_json ns := Some (string_of_positive (encode ns));
  nonces_of_json s := decode (positive_of_string s);
|}.
#[export] Instance toy_laws : SignatureLaws.
Proof.
  split; [by eexists|]. intros ns json [= <-]. simpl. rewrite positive_of_string_of. apply decode_encode.
Qed.

Definition key : list Z := replicate 32 7.
Definition reboot : NodeCommand := mkNodeCommand 1%N RebootHost "node-a" "n1" 100 900 "xx".
Definition forged : NodeCommand := mkNodeCommand 2%N RestartJoiner "node-a" "n2" 100 900 "xxx".
Definition gate0 : CommandGate := mark_executed (gate_new (Some key) None) "n0" None.
(** The same command three times, once after a restart and once too late, and a
    forged one. *)
Definition history : list Batch :=
  [mkBatch false [reboot; forged; reboot] 500 (fun _ => None);
   mkBatch true [reboot] 600 (fun _ => None);
   mkBatch true [reboot; forged] 1000 (fun _ => None)].

Lemma commands_run_at_most_once_witness :
  run_batches gate0 history = [reboot_host]
  /\ exists ran, run_batches gate0 history = (effect_of ∘ verb) <$> ran /\ NoDup (nonce <$> ran).
Proof.
  split; [vm_compute; reflexivity|].
  destruct (commands_run_at_most_once gate0 history) as (ran & H1 & H2 & _).
  - apply (mark_synced (gate_new (Some key) None) "n0").
  - repeat constructor.
  - exists ran. split; [exact H1|exact H2].
Defined.
End Toy.
