(* ===== verification/PeerSync.v ===== *)
(** * The joiner follows the roster ([coordinator/peer_sync.rs],
    [coordinator/heartbeat.rs], [coordinator/client/decode.rs])

    What one event of the peer stream and one heartbeat do to the session table
    and to the heartbeat task's own state, and how the joiner registers again when
    the coordinator has forgotten it. *)

From S2P Require Import Prelude NetAddr AddrText Types PeerSession SessionTable SessionInv CommandGate.

Open Scope Z_scope.

(** ** Data *)

(** [RemotePeer] of [peer.rs]. *)
Record RemotePeer := mkRemotePeer {
  r_peer_id : Uuid;
  r_wg_public_key : string;
  r_ula : string;
  r_listen_endpoint : option string;
  r_display_name : string;
  r_tags : list string;
  r_hosted_app_ulas : list string;
  r_software_version : option string;
  r_mesh_version : option string;
  r_joined_at_micros : Z;
}.

(** The ways a record is malformed; their texts only go to the log. *)
Inductive MalformedPeer := BadKeyBase64 | BadKeyLength (n : Z) | BadUla (raw : string).

(** The JSON of the stream's events. *)
Class EventData := {
  remote_of_json : string -> option RemotePeer;
  removed_of_json : string -> option Uuid;
  punch_of_json : string -> option HolePunchInitiate;
  wake_of_json : string -> option string;
}.

Inductive PeerEventKind := KAdded | KUpdated | KRemoved | KHolePunch | KRelayWake.

Definition from_event_name (s : string) : option PeerEventKind :=
  if bool_decide (s = "peer_added") then Some KAdded
  else if bool_decide (s = "peer_updated") then Some KUpdated
  else if bool_decide (s = "peer_removed") then Some KRemoved
  else if bool_decide (s = "holepunch_initiate") then Some KHolePunch
  else if bool_decide (s = "relay_wake") then Some KRelayWake
  else None.

(** The joiner's surroundings during one operation: the name resolver's first
    answer, and the tunnel indexes drawn from the random number generator. *)
Record Surroundings := mkSurroundings {
  lookup_host : string -> option SocketAddr;
  draw : nat -> Z;
}.

(** Replies of the coordinator. *)
Inductive JoinerError := HttpStatus (status : Z) | OtherError.
#[export] Instance JoinerError_eq_dec : EqDecision JoinerError.
Proof. solve_decision. Defined.
Record RegisterReply := mkRegisterReply { rg_peer_id : Uuid; rg_ula : string; rg_peers : list RemotePeer }.
Record HeartbeatReply := mkHeartbeatReply { hb_peers : list RemotePeer; pending_commands : list NodeCommand }.

Section Sync.
Context `{Noise} `{TableOrder} `{Externals} `{Signatures}.

Definition decode_pubkey (s : string) : Result (list Z) MalformedPeer :=
  match b64_decode s with
  | Err _ => Err BadKeyBase64
  | Ok bytes => if negb (length bytes =? 32)%nat then Err (BadKeyLength (Z.of_nat (length bytes))) else Ok bytes
  end.

Definition remote_to_info (env : Surroundings) (r : RemotePeer) : Result PeerInfo MalformedPeer :=
  let? wg_public_key := decode_pubkey (r_wg_public_key r) in
  match parse_ipv6 (r_ula r) with
  | None => Err (BadUla (r_ula r))
  | Some ula =>
      let listen_endpoint :=
        match r_listen_endpoint r with
        | None | Some EmptyString => None
        | Some s => match parse_sock s with Some addr => Some addr | None => lookup_host env s end
        end in
      Ok {| i_peer_id := r_peer_id r;
            i_wg_public_key := wg_public_key;
            i_ula := ula;
            i_listen_endpoint := listen_endpoint;
            i_display_name := r_display_name r;
            i_tags := r_tags r;
            i_hosted_app_ulas := omap parse_ipv6 (r_hosted_app_ulas r);
            i_software_version := r_software_version r;
            i_mesh_version := r_mesh_version r;
            i_joined_at_micros := r_joined_at_micros r |}
  end.

(** An upsert and the reconciliation of the apps that follows it everywhere. *)
Definition install (our_private : StaticSecret) (index : Z) (t : SessionTable) (info : PeerInfo) : SessionTable :=
  reconcile_app_routes (upsert our_private index t info) (i_ula info) (i_hosted_app_ulas info).

(** ** The peer stream *)

(** The turn for one candidate of a [peer_removed]; another peer may hold the
    address by now. *)
Definition remove_if_still (id : Uuid) (t : SessionTable) (u : Ipv6Addr) : SessionTable :=
  match session_for t u ≫= get t with
  | Some live => if bool_decide (peer_id live = id) then fst (remove t u) else t
  | None => t
  end.

(** A wake names the address of a source that waits at the relay. *)
Definition apply_relay_wake `{EventData} (t : SessionTable) (data : string) : SessionTable :=
  match wake_of_json data ≫= parse_ipv6 with
  | Some u => request_convergence_kick t u
  | None => t
  end.

(** [apply_event]: the table, and what goes to the puncher. *)
Definition apply_event `{EventData} (env : Surroundings) (our_private : StaticSecret) (t : SessionTable)
    (punch_tx : option (list HolePunchInitiate)) (kind : PeerEventKind) (data : string)
    : SessionTable * option (list HolePunchInitiate) :=
  match kind with
  | KAdded | KUpdated =>
      match remote_of_json data with
      | None => (t, punch_tx)
      | Some remote =>
          match remote_to_info env remote with
          | Err _ => (t, punch_tx)
          | Ok info => (install our_private (draw env 0) t info, punch_tx)
          end
      end
  | KRemoved =>
      match removed_of_json data with
      | None => (t, punch_tx)
      | Some id =>
          let candidates := omap (get t) (snapshot t) in
          let candidates := List.filter (fun s => bool_decide (peer_id s = id)) candidates in
          (foldl (remove_if_still id) t (ula <$> candidates), punch_tx)
      end
  | KHolePunch =>
      match punch_tx, punch_of_json data with
      | Some q, Some ev => (t, Some (q ++ [ev]))
      | _, _ => (t, punch_tx)
      end
  | KRelayWake => (apply_relay_wake t data, punch_tx)
  end.

(** ** The roster of a reply *)

Definition roster_infos (env : Surroundings) (remote : list RemotePeer) : list PeerInfo :=
  omap (fun r => ok (remote_to_info env r)) remote.

Definition install_all (env : Surroundings) (our_private : StaticSecret) (t : SessionTable)
    (infos : list PeerInfo) : SessionTable :=
  foldl (fun t ix => install our_private (draw env ix.1) t ix.2) t (imap pair infos).

Definition reconcile_roster (env : Surroundings) (our_private : StaticSecret) (t : SessionTable)
    (remote : list RemotePeer) : SessionTable :=
  let infos := roster_infos env remote in
  let t := install_all env our_private t infos in
  foldl (fun t u => if bool_decide (u ∈ i_ula <$> infos) then t else fst (remove t u)) t (ulas t).

(** ** The heartbeat task *)

Record HeartbeatState := mkHeartbeatState {
  sessions : SessionTable;
  shared_peer_id : Uuid;
  handling_roster_loss : bool;
  pending_acks : list string;
  command_gate : CommandGate;
  command_sink : list Effect;   (** what the host was asked to do *)
}.
#[export] Instance eta_HeartbeatState : Eta HeartbeatState := fun st =>
  mkHeartbeatState (sessions st) (shared_peer_id st) (handling_roster_loss st) (pending_acks st)
    (command_gate st) (command_sink st).

(** [register_with_409_fallback]: [post n requested_ula] is the coordinator's reply
    to the [n]th attempt. *)
Definition register_with_409_fallback (post : nat -> option string -> Result RegisterReply JoinerError)
    (strict_requested_ula : bool) (requested_ula : option string) : Result RegisterReply JoinerError :=
  match post 0%nat requested_ula with
  | Ok resp => Ok resp
  | Err (HttpStatus 409) => if strict_requested_ula then Err (HttpStatus 409) else post 1%nat None
  | Err e => Err e
  end.

Definition reregister_after_roster_loss (env : Surroundings) (our_private : StaticSecret)
    (post : nat -> option string -> Result RegisterReply JoinerError) (strict : bool) (requested_ula : option string)
    (st : HeartbeatState) : HeartbeatState :=
  match register_with_409_fallback post strict requested_ula with
  | Err _ => st
  | Ok resp =>
      let st := st <| shared_peer_id := rg_peer_id resp |> in
      st <| sessions := reconcile_roster env our_private (sessions st) (rg_peers resp) |>
  end.

(** The effect of an executed command inside the joiner. *)
Definition run_effect (our_private : StaticSecret) (st : HeartbeatState) (e : Effect) : HeartbeatState :=
  match e with
  | rehandshake_all => st <| sessions := force_rehandshake_all (sessions st) our_private |>
  | restart_joiner | reboot_host => st <| command_sink := command_sink st ++ [e] |>
  end.

(** [tick_once], given the coordinator's reply to the heartbeat. The
    acknowledgements are taken before the request is sent. *)
Definition tick_once (env : Surroundings) (our_private : StaticSecret) (now : Z)
    (post : nat -> option string -> Result RegisterReply JoinerError) (strict : bool) (requested_ula : option string)
    (writes : string -> option (option string)) (reply : Result HeartbeatReply JoinerError)
    (st : HeartbeatState) : HeartbeatState :=
  let acks_to_send := pending_acks st in
  let st := st <| pending_acks := [] |> in
  match reply with
  | Ok resp =>
      let st := st <| handling_roster_loss := false |> in
      let st := st <| sessions := reconcile_roster env our_private (sessions st) (hb_peers resp) |> in
      if bool_decide (pending_commands resp = []) then st
      else
        let '(g, effects, acks) := process_commands (pending_commands resp) (command_gate st) now writes in
        let st := foldl (run_effect our_private) st effects in
        let st := st <| command_gate := g |> in
        st <| pending_acks := uuid_to_string <$> acks |>
  | Err (HttpStatus 404) =>
      if handling_roster_loss st then st
      else
        let st := st <| handling_roster_loss := true |> in
        reregister_after_roster_loss env our_private post strict requested_ula st
  | Err _ =>
      match acks_to_send with
      | [] => st
      | _ => st <| pending_acks := acks_to_send |>
      end
  end.
End Sync.
