(* ===== verification/PeerSyncProps.v ===== *)
(** * The joiner ends up with the coordinator's roster

    What one roster, one [peer_removed] and one heartbeat do to the live
    sessions, the app routes and the heartbeat task ([PeerSync.v]). *)

From S2P Require Import Prelude NetAddr AddrText Types PeerSession SessionTable SessionInv.
From S2P Require Import CommandGate PeerSync.

Open Scope Z_scope.

Section Props.
Context `{Noise} `{TableOrderLaws} `{Externals} `{Signatures}.
Implicit Types (t : SessionTable) (s : PeerSession).

(** ** Installing one record *)

Lemma upsert_live our index t info : is_Some (by_ula (upsert our index t info) !! i_ula info).
Proof. apply elem_of_dom. destruct (upsert_routes our index t info) as (-> & _). set_solver. Qed.

Lemma wf_install our index t info : wf_table t -> wf_table (install our index t info).
Proof. intros Ht. apply wf_reconcile; [apply upsert_live|by apply wf_upsert]. Qed.

Lemma key_install our index t info u :
  wf_table t ->
  key_at (install our index t info) u = if decide (u = i_ula info) then Some (i_wg_public_key info) else key_at t u.
Proof. intros Ht. unfold install. rewrite key_reconcile. apply key_upsert, Ht. Qed.

Lemma app_host_one t a u b :
  app_routes (host_remote_app_route t a u) !! b = if decide (a = b) then Some u else app_routes t !! b.
Proof.
  unfold host_remote_app_route. simpl.
  assert (forall x y : option Ipv6Addr, x = y -> x = y) as _ by done.
  destruct (by_ula t !! u); simpl; (case_decide; [subst; by rewrite lookup_insert_eq|by rewrite lookup_insert_ne]).
Qed.
Lemma app_unhost_one t a b :
  app_routes (unhost_remote_app_route t a) !! b = if decide (a = b) then None else app_routes t !! b.
Proof.
  unfold unhost_remote_app_route. destruct (app_routes t !! a) as [u|] eqn:Ea; simpl.
  - destruct (by_ula t !! u); simpl; (case_decide; [subst; by rewrite lookup_delete_eq|by rewrite lookup_delete_ne]).
  - case_decide; [by subst|done].
Qed.

Lemma app_host_all l t u b :
  app_routes (foldl (fun t a => host_remote_app_route t a u) t l) !! b
  = if decide (b ∈ l) then Some u else app_routes t !! b.
Proof.
  revert t. induction l as [|a l IH]; intros t; cbn [foldl]; [by destruct (decide (b ∈ [])) as [?%elem_of_nil|]|].
  rewrite IH, app_host_one. repeat case_decide; subst; set_solver.
Qed.
Lemma app_unhost_all l t b :
  app_routes (foldl unhost_remote_app_route t l) !! b = if decide (b ∈ l) then None else app_routes t !! b.
Proof.
  revert t. induction l as [|a l IH]; intros t; cbn [foldl]; [by destruct (decide (b ∈ [])) as [?%elem_of_nil|]|].
  rewrite IH, app_unhost_one. repeat case_decide; subst; set_solver.
Qed.

(** Reconciling the apps of a host routes exactly the advertised ones to it. *)
Lemma app_reconcile t u l b :
  app_routes (reconcile_app_routes t u l) !! b
  = if decide (b ∈ l) then Some u
    else if decide (app_routes t !! b = Some u) then None else app_routes t !! b.
Proof.
  unfold reconcile_app_routes. rewrite app_unhost_all.
  set (t1 := foldl _ t l).
  assert (b ∈ List.filter (fun a => negb (bool_decide (a ∈ l))) (app_ulas_for_host t1 u)
          <-> app_routes t1 !! b = Some u /\ b ∉ l) as Hst.
  { rewrite list_elem_of_In, filter_In, <- list_elem_of_In, elem_of_app_ulas, negb_true_iff, bool_decide_eq_false. done. }
  pose proof (app_host_all l t u b) as Hb. fold t1 in Hb. rewrite Hb in Hst |- *.
  repeat case_decide; naive_solver.
Qed.

Lemma app_install our index t info b :
  app_routes (install our index t info) !! b
  = if decide (b ∈ i_hosted_app_ulas info) then Some (i_ula info)
    else if decide (app_routes t !! b = Some (i_ula info)) then None else app_routes t !! b.
Proof.
  unfold install. rewrite app_reconcile. by destruct (upsert_routes our index t info) as (_ & -> & _).
Qed.

(** ** Installing a roster *)

(** The key the roster gives an address: that of the last record with it. *)
Definition roster_key (infos : list PeerInfo) (k : option (list Z)) (u : Ipv6Addr) : option (list Z) :=
  foldl (fun k info => if decide (u = i_ula info) then Some (i_wg_public_key info) else k) k infos.

Lemma install_all_inv (P : list PeerInfo -> SessionTable -> Prop) env our t infos :
  P [] t ->
  (forall done_ t i info, P done_ t -> P (done_ ++ [info]) (install our (draw env i) t info)) ->
  P infos (install_all env our t infos).
Proof.
  intros H0' Hs. unfold install_all.
  assert (forall l done_ t k, P done_ t ->
    P (done_ ++ l) (foldl (fun t ix => install our (draw env ix.1) t ix.2) t (imap (fun n x => ((k + n)%nat, x)) l))) as Hg.
  { clear t H0'. induction l as [|info l IH]; intros done_ t k Hp; simpl; [by rewrite app_nil_r|].
    replace (done_ ++ info :: l) with ((done_ ++ [info]) ++ l) by by rewrite <- app_assoc.
    specialize (IH (done_ ++ [info]) (install our (draw env (k + 0)) t info) (S k) (Hs _ _ _ _ Hp)).
    erewrite imap_ext; [exact IH|]. intros i x _. simpl. f_equal. lia. }
  exact (Hg infos [] t 0%nat H0').
Qed.

Lemma wf_install_all env our t infos : wf_table t -> wf_table (install_all env our t infos).
Proof. intros Ht. apply (install_all_inv (fun _ => wf_table)); [done|]. intros. by apply wf_install. Qed.

Lemma key_install_all env our t infos u :
  wf_table t -> key_at (install_all env our t infos) u = roster_key infos (key_at t u) u.
Proof.
  intros Ht. apply (install_all_inv (fun done_ t' => wf_table t' /\ key_at t' u = roster_key done_ (key_at t u) u)).
  - done.
  - intros done_ t' i info [Hw Hk]. split; [by apply wf_install|]. rewrite key_install by done.
    unfold roster_key. rewrite foldl_app. simpl. case_decide; [done|]. apply Hk.
Qed.

Lemma roster_key_notin infos k u : u ∉ i_ula <$> infos -> roster_key infos k u = k.
Proof.
  unfold roster_key. revert k. induction infos as [|info infos IH]; intros k Hn; simpl; [done|].
  rewrite fmap_cons, not_elem_of_cons in Hn. rewrite decide_False by tauto. apply IH. tauto.
Qed.
Lemma roster_key_in infos k u : u ∈ i_ula <$> infos -> roster_key infos k u = roster_key infos None u.
Proof.
  unfold roster_key. revert k. induction infos as [|info infos IH]; intros k Hi; [by apply elem_of_nil in Hi|].
  simpl. case_decide; [done|]. rewrite fmap_cons, elem_of_cons in Hi. apply IH. tauto.
Qed.

(** ** Pruning *)

Lemma app_remove t v a u :
  wf_table t -> app_routes (fst (remove t v)) !! a = Some u <-> app_routes t !! a = Some u /\ u <> v.
Proof.
  intros [Hi _ Hs]. unfold remove. destruct (by_ula t !! v) as [h|] eqn:Ev.
  - destruct (wf_ula _ Hi _ _ Ev) as (s & Hg & _).
    change (get (t <| by_ula := delete v (by_ula t) |>) h) with (get t h). rewrite Hg. simpl.
    match goal with |- context [foldl drop_app_route ?t1 ?l] => destruct (drop_app_routes_eq l t1) as (_ & _ & _ & _ & Ha & _) end.
    rewrite Ha, elem_of_app_ulas. destruct (endpoint s); simpl; naive_solver.
  - simpl. split; [|by intros [? _]]. intros Ha. split; [done|]. intros ->.
    apply Hs in Ha as [x Hx]. congruence.
Qed.

Lemma prune_spec (keep : Ipv6Addr -> bool) l t :
  wf_table t ->
  let t' := foldl (fun t u => if keep u then t else fst (remove t u)) t l in
  wf_table t' /\ (forall u, key_at t' u = if decide (u ∈ l /\ keep u = false) then None else key_at t u)
  /\ (forall a u, app_routes t' !! a = Some u <-> app_routes t !! a = Some u /\ ~ (u ∈ l /\ keep u = false)).
Proof.
  revert t. induction l as [|v l IH]; intros t Ht; cbn [foldl].
  { split_and!; [done| |set_solver]. intros u.
    by destruct (decide (u ∈ [] /\ keep u = false)) as [[?%elem_of_nil _]|]. }
  destruct (keep v) eqn:Ek.
  - destruct (IH t Ht) as (Hw & Hk & Ha).
    assert (forall u, u ∈ v :: l /\ keep u = false <-> u ∈ l /\ keep u = false) as E.
    { intros u. rewrite elem_of_cons. split; [intros [[->|?] ?]; [congruence|done]|tauto]. }
    split_and!; [done| |].
    + intros u. rewrite Hk. apply decide_ext. by rewrite E.
    + intros a u. by rewrite Ha, E.
  - destruct (IH (fst (remove t v)) (wf_remove t v Ht)) as (Hw & Hk & Ha).
    assert (forall u, u ∈ v :: l /\ keep u = false <-> u = v \/ u ∈ l /\ keep u = false) as E.
    { intros u. rewrite elem_of_cons. split; [tauto|intros [->|?]; tauto]. }
    split_and!; [done| |].
    + intros u. rewrite Hk, key_remove by apply Ht. specialize (E u). repeat case_decide; tauto.
    + intros a u. rewrite Ha, app_remove, E by done. tauto.
Qed.

(** ** The roster of a reply *)

Lemma elem_of_ulas t u : u ∈ ulas t <-> is_Some (by_ula t !! u).
Proof.
  pose proof (iter_ulas_dom (by_ula t)) as Hd. split; intros Hu.
  - apply elem_of_dom. rewrite <- Hd. by apply elem_of_list_to_set.
  - apply elem_of_dom in Hu. rewrite <- Hd in Hu. by apply elem_of_list_to_set in Hu.
Qed.

Lemma reconcile_spec env our t remote :
  wf_table t ->
  let infos := roster_infos env remote in
  let t' := reconcile_roster env our t remote in
  wf_table t' /\ (forall u, key_at t' u = roster_key infos None u)
  /\ (forall a u, app_routes t' !! a = Some u <->
        app_routes (install_all env our t infos) !! a = Some u /\ u ∈ i_ula <$> infos).
Proof.
  intros Ht infos t'. pose proof (wf_install_all env our t infos Ht) as Hw.
  pose proof (fun u => key_install_all env our t infos u Ht) as Hk.
  set (t1 := install_all env our t infos) in *.
  assert (t' = foldl (fun t u => if bool_decide (u ∈ i_ula <$> infos) then t else fst (remove t u)) t1 (ulas t1)) as -> by done.
  destruct (prune_spec (fun u => bool_decide (u ∈ i_ula <$> infos)) (ulas t1) t1 Hw) as (Hw' & Hk' & Ha').
  split_and!; [done| |].
  - intros u. rewrite Hk'. case_decide as Hd; rewrite bool_decide_eq_false, elem_of_ulas in Hd.
    + by rewrite roster_key_notin by tauto.
    + rewrite Hk. destruct (decide (u ∈ i_ula <$> infos)) as [Hu|Hu]; [by apply roster_key_in|].
      rewrite (roster_key_notin infos None) by done. rewrite <- Hk.
      destruct (key_at t1 u) eqn:E1; [exfalso|done].
      apply Hd. split; [|done]. apply key_at_is_Some; [apply Hw|]. by rewrite E1.
  - intros a u. rewrite Ha', bool_decide_eq_false, elem_of_ulas. split.
    + intros [Ha Hn]. split; [done|]. apply dec_stable. intros Hu. apply Hn. split; [|done].
      by eapply (table_hosts _ Hw).
    + intros [Ha Hu]. split; [done|]. tauto.
Qed.

Lemma install_all_sound env our t infos a u :
  app_routes (install_all env our t infos) !! a = Some u -> u ∈ i_ula <$> infos ->
  exists info, info ∈ infos /\ i_ula info = u /\ a ∈ i_hosted_app_ulas info.
Proof.
  revert a u. apply (install_all_inv (fun done_ t' => forall a u, app_routes t' !! a = Some u -> u ∈ i_ula <$> done_ ->
    exists info, info ∈ done_ /\ i_ula info = u /\ a ∈ i_hosted_app_ulas info)).
  { intros a u _ Hu. by apply elem_of_nil in Hu. }
  intros done_ t' i info IH a u. rewrite app_install, fmap_app, elem_of_app. case_decide as Ha.
  - intros [= <-] _. exists info. split_and!; [|done|done]. apply elem_of_app. right. by left.
  - case_decide as Hn; [done|]. intros Hau [Hu|Hu]; [|simpl in Hu; apply list_elem_of_singleton in Hu; congruence].
    destruct (IH a u Hau Hu) as (x & Hx & Hr). exists x. split; [apply elem_of_app; by left|done].
Qed.

Lemma install_all_complete env our t infos :
  NoDup (i_ula <$> infos) -> forall info a, info ∈ infos -> a ∈ i_hosted_app_ulas info ->
  exists u, app_routes (install_all env our t infos) !! a = Some u /\ u ∈ i_ula <$> infos.
Proof.
  apply (install_all_inv (fun done_ t' => NoDup (i_ula <$> done_) -> forall info a, info ∈ done_ -> a ∈ i_hosted_app_ulas info ->
    exists u, app_routes t' !! a = Some u /\ u ∈ i_ula <$> done_)).
  { intros _ info a Hi. by apply elem_of_nil in Hi. }
  intros done_ t' i info IH. rewrite fmap_app. intros (Hnd & Hdis & _)%NoDup_app x a Hx Ha.
  rewrite app_install. setoid_rewrite elem_of_app. case_decide as Hin.
  { exists (i_ula info). split; [done|]. right. by left. }
  apply elem_of_app in Hx as [Hx|Hx]; [|apply list_elem_of_singleton in Hx; congruence].
  destruct (IH Hnd x a Hx Ha) as (u & Hu & Hd). exists u. rewrite decide_False; [by split; [|left]|].
  rewrite Hu. intros [= ->]. apply (Hdis (i_ula info) Hd). by left.
Qed.

(** After a roster the joiner talks to exactly the roster: an address is live
    exactly when a well-formed record names it, under the key of the last such
    record; the kernel routes are those of the roster's addresses; and an app is
    routed only to a live peer that advertises it, and to some such peer whenever
    one does. Nothing else survives, whatever the table held before. *)
Theorem reconcile_converges env our t remote :
  wf_table t ->
  let infos := roster_infos env remote in
  let t' := reconcile_roster env our t remote in
  (forall u, key_at t' u = roster_key infos None u)
  /\ (forall u, is_Some (key_at t' u) <-> u ∈ i_ula <$> infos)
  /\ routes_are t' (list_to_set (i_ula <$> infos), dom (app_routes t'))
  /\ (forall a u, app_routes t' !! a = Some u ->
        is_Some (key_at t' u) /\ exists info, info ∈ infos /\ i_ula info = u /\ a ∈ i_hosted_app_ulas info)
  /\ (NoDup (i_ula <$> infos) -> forall info a, info ∈ infos -> a ∈ i_hosted_app_ulas info ->
        is_Some (app_routes t' !! a)).
Proof.
  intros Ht infos t'. destruct (reconcile_spec env our t remote Ht) as (Hw & Hk & Ha). fold infos t' in Hw, Hk, Ha.
  assert (forall u, is_Some (key_at t' u) <-> u ∈ i_ula <$> infos) as Hlive.
  { intros u. rewrite Hk. destruct (decide (u ∈ i_ula <$> infos)) as [Hu|Hu].
    - split; [done|intros _]. clear -Hu. rewrite <- (roster_key_in infos (Some []) u Hu).
      unfold roster_key. generalize (@nil Z). clear Hu. induction infos as [|i l IH]; intros k; simpl; [done|].
      case_decide; apply IH.
    - rewrite roster_key_notin by done. split; [by intros [? ?]|done]. }
  split_and!; [done|done| | |].
  - pose proof (table_routes _ Hw) as Hr.
    assert (dom (by_ula t') = list_to_set (i_ula <$> infos)) as Hd; [|by rewrite Hd in Hr].
    apply set_eq. intros u. rewrite elem_of_dom, elem_of_list_to_set, <- Hlive. symmetry. apply key_at_is_Some, Hw.
  - intros a u Hau. apply Ha in Hau as [Hau Hu]. split; [by apply Hlive|]. by eapply install_all_sound.
  - intros Hnd info a Hi Hin. destruct (install_all_complete env our t infos Hnd info a Hi Hin) as (u & Hu & Hd).
    exists u. by apply Ha.
Qed.

(** ** A removal *)

Lemma live_remove t u v : wf_index t -> live (fst (remove t u)) v = if decide (v = u) then None else live t v.
Proof.
  intros Hi. destruct (remove_eq t u Hi) as [Hb Hh]. unfold live, get. rewrite Hb, Hh.
  case_decide; [subst; by rewrite lookup_delete_eq|by rewrite lookup_delete_ne].
Qed.

Lemma session_for_live t u : is_Some (by_ula t !! u) -> session_for t u ≫= get t = live t u.
Proof. intros [h Hh]. unfold session_for, live. by rewrite Hh. Qed.

Lemma remove_if_still_spec id t u :
  wf_table t ->
  wf_table (remove_if_still id t u)
  /\ forall v, live (remove_if_still id t u) v
       = if decide (v = u /\ peer_id <$> live t v = Some id) then None else live t v.
Proof.
  intros Ht. unfold remove_if_still. destruct (by_ula t !! u) as [h|] eqn:Eu.
  - rewrite session_for_live by by eexists. destruct (live t u) as [s|] eqn:El.
    2: { split; [done|]. intros v. case_decide as Hd; [|done]. destruct Hd as [-> Hd]. by rewrite El in Hd. }
    case_bool_decide as Hp.
    + split; [by apply wf_remove|]. intros v. rewrite live_remove by apply Ht.
      destruct (decide (v = u)) as [->|Hne]; [|by rewrite decide_False by tauto].
      rewrite decide_True; [done|]. split; [done|]. rewrite El. simpl. by rewrite Hp.
    + split; [done|]. intros v. case_decide as Hd; [|done]. destruct Hd as [-> Hd]. rewrite El in Hd.
      simpl in Hd. congruence.
  - assert (fst (remove t u) = t) as Er by (unfold remove; by rewrite Eu).
    assert (live t u = None) as El by (unfold live; by rewrite Eu).
    assert ((match session_for t u ≫= get t with
             | Some s => if bool_decide (peer_id s = id) then fst (remove t u) else t | None => t end) = t) as ->.
    { rewrite Er. destruct (session_for t u ≫= get t); [by case_bool_decide|done]. }
    split; [done|]. intros v. case_decide as Hd; [|done]. destruct Hd as [-> Hd]. by rewrite El in Hd.
Qed.

(** [peer_removed] removes exactly the live sessions of the peer it names: they are
    gone from the table afterwards and every other session is as it was; an
    address that another peer holds is left alone, and an event that cannot be
    read changes nothing. *)
Theorem peer_removed_exact `{EventData} env our t punch_tx data :
  wf_table t ->
  let t' := fst (apply_event env our t punch_tx KRemoved data) in
  wf_table t'
  /\ match removed_of_json data with
     | Some id => forall u, live t' u = if decide (peer_id <$> live t u = Some id) then None else live t u
     | None => t' = t
     end.
Proof.
  intros Ht. simpl. destruct (removed_of_json data) as [id|]; [|done]. simpl.
  set (l := ula <$> List.filter _ _).
  assert (forall u s, live t u = Some s -> peer_id s = id -> u ∈ l) as Hl.
  { intros u s (h & Hb & Hg)%live_Some Hp. unfold l. apply list_elem_of_fmap. exists s.
    destruct (wf_ula _ (table_index _ Ht) _ _ Hb) as (s' & Hg' & <-). assert (s' = s) as -> by congruence.
    split; [done|]. rewrite list_elem_of_In, filter_In, <- list_elem_of_In. split; [|by apply bool_decide_eq_true].
    apply list_elem_of_omap. exists h. split; [|done]. unfold snapshot. apply list_elem_of_fmap. exists (ula s, h).
    split; [done|]. rewrite iter_ulas_perm. by apply elem_of_map_to_list. }
  clearbody l.
  assert (wf_table (foldl (remove_if_still id) t l)
          /\ forall u, live (foldl (remove_if_still id) t l) u
               = if decide (u ∈ l /\ peer_id <$> live t u = Some id) then None else live t u) as [Hw Hv].
  { clear Hl. revert t Ht. induction l as [|v l IH]; intros t Ht; cbn [foldl].
    { split; [done|]. intros u. case_decide as Hd; [|done]. destruct Hd as [Hd _]. by apply elem_of_nil in Hd. }
    destruct (remove_if_still_spec id t v Ht) as [Hw1 Hv1]. destruct (IH _ Hw1) as [Hw2 Hv2].
    split; [done|]. intros u. rewrite Hv2, Hv1. destruct (decide (u = v /\ peer_id <$> live t u = Some id)) as [Hd|Hd].
    - rewrite (decide_True (P := u ∈ v :: l /\ _)); [by case_decide|]. destruct Hd as [-> Hd]. split; [by left|done].
    - apply decide_ext. rewrite elem_of_cons. split; [tauto|]. intros [[->|Hu] Hp]; [exfalso; tauto|done]. }
  split; [done|]. intros u. rewrite Hv. apply decide_ext. split; [tauto|]. intros Hp. split; [|done].
  apply fmap_Some in Hp as (s & Hs & Hp). by eapply Hl.
Qed.

(** ** A heartbeat *)

Lemma rehandshake_keeps t our :
  wf_table t -> wf_table (force_rehandshake_all t our)
  /\ forall u, key_at (force_rehandshake_all t our) u = key_at t u.
Proof.
  intros Ht. unfold force_rehandshake_all.
  apply (foldl_inv (fun t' => wf_table t' /\ forall u, key_at t' u = key_at t u)); [|done].
  intros t' h _ [[Hi Hr Hs] Hk].
  assert (keeps_identity (fun s => reset_handshake s our)) as Hf by done.
  split; [split; [by apply wf_modify|done|done]|]. intros u. rewrite <- Hk.
  apply key_at_ext; [done|]. intros j. by apply key_modify.
Qed.

Lemma run_effects_keep our effects st :
  wf_table (sessions st) ->
  let st' := foldl (run_effect our) st effects in
  wf_table (sessions st') /\ (forall u, key_at (sessions st') u = key_at (sessions st) u)
  /\ shared_peer_id st' = shared_peer_id st /\ handling_roster_loss st' = handling_roster_loss st
  /\ pending_acks st' = pending_acks st
  /\ command_sink st' = command_sink st ++ List.filter (fun e => match e with rehandshake_all => false | _ => true end) effects.
Proof.
  revert st. induction effects as [|e effects IH]; intros st Ht; simpl; [by rewrite app_nil_r|].
  destruct (rehandshake_keeps (sessions st) our Ht) as [Hw Hk].
  destruct e; simpl.
  - pose (st1 := st <| command_sink := command_sink st ++ [restart_joiner] |>). pose proof (IH st1 Ht) as (? & ? & ? & ? & ? & Es).
    simpl in *. rewrite <- app_assoc in Es. by split_and!.
  - pose (st1 := st <| command_sink := command_sink st ++ [reboot_host] |>). pose proof (IH st1 Ht) as (? & ? & ? & ? & ? & Es).
    simpl in *. rewrite <- app_assoc in Es. by split_and!.
  - pose (st1 := st <| sessions := force_rehandshake_all (sessions st) our |>).
    destruct (IH st1 Hw) as (? & Hk' & ? & ? & ? & ?).
    split_and!; try done. intros u. rewrite Hk'. apply Hk.
Qed.

Lemma not_404 {A} (e : JoinerError) (a b : A) :
  e <> HttpStatus 404 -> (match e with HttpStatus 404 => a | _ => b end) = b.
Proof. intros Hne. destruct e as [s|]; [|done]. repeat case_match; try done; by subst. Qed.

(** Every branch of a heartbeat. *)
Lemma tick_cases env our now post strict requested writes reply st :
  wf_table (sessions st) ->
  let st' := tick_once env our now post strict requested writes reply st in
  wf_table (sessions st')
  /\ match reply with
     | Ok resp =>
         (forall u, key_at (sessions st') u = roster_key (roster_infos env (hb_peers resp)) None u)
         /\ handling_roster_loss st' = false /\ shared_peer_id st' = shared_peer_id st
         /\ pending_acks st' = (uuid_to_string ∘ nc_command_id) <$> pending_commands resp
     | Err (HttpStatus 404) =>
         pending_acks st' = []
         /\ (handling_roster_loss st = true -> st' = st <| pending_acks := [] |>)
         /\ (handling_roster_loss st = false -> handling_roster_loss st' = true
              /\ match register_with_409_fallback post strict requested with
                 | Ok resp => shared_peer_id st' = rg_peer_id resp
                     /\ forall u, key_at (sessions st') u = roster_key (roster_infos env (rg_peers resp)) None u
                 | Err _ => shared_peer_id st' = shared_peer_id st /\ sessions st' = sessions st
                 end)
     | Err _ => st' = st
     end.
Proof.
  intros Ht. cbn zeta. unfold tick_once. destruct reply as [resp|e].
  - destruct (reconcile_spec env our (sessions st) (hb_peers resp) Ht) as (Hw & Hk & _).
    case_bool_decide as Hc; [by rewrite Hc; simpl; split_and!|].
    destruct (process_loop now writes (pending_commands resp) (command_gate st) [] []) as (ran & _ & Hr).
    unfold process_commands. simpl command_gate. destruct (foldl (process_one _ _) _ _) as [[g effects] acks].
    destruct Hr as (_ & -> & _).
    match goal with |- context [foldl (run_effect our) ?s0 effects] =>
      destruct (run_effects_keep our effects s0 Hw) as (Hw' & Hk' & Hid & Hl & _) end.
    simpl in *. split; [done|]. split_and!; try done.
    + intros u. rewrite Hk'. apply Hk.
    + by rewrite <- list_fmap_compose.
  - destruct (decide (e = HttpStatus 404)) as [->|Hne].
    + simpl. destruct (handling_roster_loss st) eqn:El; [by split_and!|].
      unfold reregister_after_roster_loss. destruct (register_with_409_fallback post strict requested) as [resp|e']; simpl.
      * destruct (reconcile_spec env our (sessions st) (rg_peers resp) Ht) as (Hw & Hk & _). by split_and!.
      * by split_and!.
    + rewrite !not_404 by done. destruct st as [? ? ? [] ? ?]; by split.
Qed.

(** A heartbeat, on every reply. An answer makes the table follow the roster, clears
    the roster-loss mark and leaves one acknowledgement per delivered command for
    the next heartbeat. A 404 registers again once, and on success the joiner has
    its new id and the new roster; on failure it stays marked and keeps its table.
    While it is marked, a 404 changes nothing, whatever a new registration would
    have answered. Any other failure changes nothing at all, the acknowledgements
    included. *)
Theorem tick_once_outcomes env our now post strict requested writes reply st :
  wf_table (sessions st) ->
  let st' := tick_once env our now post strict requested writes reply st in
  wf_table (sessions st')
  /\ match reply with
     | Ok resp =>
         (forall u, key_at (sessions st') u = roster_key (roster_infos env (hb_peers resp)) None u)
         /\ handling_roster_loss st' = false /\ shared_peer_id st' = shared_peer_id st
         /\ pending_acks st' = (uuid_to_string ∘ nc_command_id) <$> pending_commands resp
     | Err (HttpStatus 404) =>
         pending_acks st' = []
         /\ (handling_roster_loss st = true -> st' = st <| pending_acks := [] |>)
         /\ (handling_roster_loss st = false -> handling_roster_loss st' = true
              /\ match register_with_409_fallback post strict requested with
                 | Ok resp => shared_peer_id st' = rg_peer_id resp
                     /\ forall u, key_at (sessions st') u = roster_key (roster_infos env (rg_peers resp)) None u
                 | Err _ => shared_peer_id st' = shared_peer_id st /\ sessions st' = sessions st
                 end)
     | Err _ => st' = st
     end.
Proof. apply tick_cases. Qed.
End Props.
