(* ===== verification/StreamClient.v ===== *)
(** * Following the coordinator's event stream ([coordinator/peer_sync.rs])

    The task that subscribes, applies what the stream says to the session table, and
    subscribes again when the stream ends. What the network and the other tasks do
    is a list of rounds. *)

From S2P Require Import Prelude NetAddr AddrText Types PeerSession SessionTable SessionInv Auth CommandGate PeerSync PeerSyncProps.

Open Scope Z_scope.

Inductive StreamOutcome := ShutdownRequested | EndOfStream | StreamError (e : string).

Section Stream.
Context `{Externals} `{Noise} `{TableOrderLaws} `{EventData}.
Context (our_private : StaticSecret) (base_url : string).

(** The session table, which the other tasks share, and the queue of the puncher. *)
Abbreviation State := (SessionTable * option (list HolePunchInitiate))%type.

(** What one turn of the consumer's [select!] sees: the shutdown flag changes, to
    [value]; the stream ends or breaks; or an event arrives, with the resolver's
    answers and the random numbers that its processing meets. Between turns, the other
    tasks have theirs. *)
Inductive StreamTurn :=
| FlagChanged (value : bool)
| NextNone
| NextErr (e : string)
| NextEvent (env : Surroundings) (event data : string)
| Meanwhile (others : State -> State).

(** How the request fares: nothing limits the time until it is answered. *)
Inductive Connect := NotConnected (e : string) | Unanswered | Responded (status : Z) (turns : list StreamTurn).

(** One round of the loop: what the other tasks did since the last one, up to the
    connection; the flag when it starts, the joiner's id at that time, the connection,
    and the flag if it changes during the pause after it. *)
Record Round := mkRound { before : State -> State; flag : bool; live_id : Uuid; conn : Connect; woken : option bool }.

Definition stream_url (peer_id : Uuid) : string :=
  base_url +:+ "/v1/mesh/peers/stream?peer_id=" +:+ uuid_to_string peer_id.

Definition apply_named (env : Surroundings) (st : State) (event data : string) : State :=
  match from_event_name event with
  | Some kind => apply_event env our_private st.1 st.2 kind data
  | None => st
  end.

(** The loop over the turns; [None] while the task waits for the next one. *)
Fixpoint consume (st : State) (turns : list StreamTurn) : State * option StreamOutcome :=
  match turns with
  | [] => (st, None)
  | FlagChanged true :: _ => (st, Some ShutdownRequested)
  | FlagChanged false :: turns => consume st turns
  | NextNone :: _ => (st, Some EndOfStream)
  | NextErr e :: _ => (st, Some (StreamError e))
  | NextEvent env event data :: turns => consume (apply_named env st event data) turns
  | Meanwhile others :: turns => consume (others st) turns
  end.
(** The request is not raced with the flag: while it is unanswered, the task waits. *)
Definition consume_once (st : State) (c : Connect) : State * option StreamOutcome :=
  match c with
  | NotConnected e => (st, Some (StreamError ("connect: " +:+ e)))
  | Unanswered => (st, None)
  | Responded status turns =>
      if negb (is_success status) then (st, Some (StreamError ("status " +:+ fmt_u status))) else consume st turns
  end.

(** [sleep_or_shutdown]: whether to exit. *)
Definition sleep_or_shutdown (woken : option bool) : bool := default false woken.

Definition BACKOFF : list Z := [1; 2; 5; 10].
Definition delay (attempt : nat) : Z := nth (Nat.min attempt (length BACKOFF - 1)) BACKOFF 0.

(** [run], with the urls it asks for and the pauses it makes, in seconds; the flag
    tells whether it has returned. *)
Fixpoint stream_run (st : State) (attempt : nat) (rounds : list Round) : State * list (string * option Z) * bool :=
  match rounds with
  | [] => (st, [], false)
  | r :: rounds =>
      let st := before r st in
      if flag r then (st, [], true)
      else
        let url := stream_url (live_id r) in
        match consume_once st (conn r) with
        | (st, None) => (st, [(url, None)], false)
        | (st, Some ShutdownRequested) => (st, [(url, None)], true)
        | (st, Some _) =>
            if sleep_or_shutdown (woken r) then (st, [(url, Some (delay attempt))], true)
            else
              let '(st, log, exited) := stream_run st (S attempt) rounds in
              (st, (url, Some (delay attempt)) :: log, exited)
        end
  end.

(** ** What it follows *)

(** What befalls the table: an event that arrived, or something another task did. *)
Inductive Happening := Arrived (env : Surroundings) (event data : string) | Elsewhere (others : State -> State).
Definition happen (st : State) (h : Happening) : State :=
  match h with Arrived env event data => apply_named env st event data | Elsewhere others => others st end.
Definition happen_all (st : State) (hs : list Happening) : State := foldl happen st hs.

(** What a connection brings before it ends. *)
Fixpoint happenings (turns : list StreamTurn) : list Happening :=
  match turns with
  | FlagChanged false :: turns => happenings turns
  | NextEvent env event data :: turns => Arrived env event data :: happenings turns
  | Meanwhile others :: turns => Elsewhere others :: happenings turns
  | _ => []
  end.
Definition happenings_of (r : Round) : list Happening :=
  Elsewhere (before r)
    :: match conn r with Responded status turns => if is_success status then happenings turns else [] | _ => [] end.

(** The turns go on, and none asks the task to stop. *)
Definition ongoing (t : StreamTurn) : bool :=
  match t with FlagChanged value => negb value | NextEvent _ _ _ | Meanwhile _ => true | NextNone | NextErr _ => false end.

(** The round ends by itself, and nobody asks the task to stop. *)
Definition ends_itself (r : Round) : Prop :=
  flag r = false /\ exists st o, (consume_once st (conn r)).2 = Some o /\ o <> ShutdownRequested.
Definition quiet (r : Round) : Prop := ends_itself r /\ default false (woken r) = false.

(** The other tasks keep the table well formed. *)
Definition respects (h : Happening) : Prop :=
  match h with Arrived _ _ _ => True | Elsewhere others => forall st, wf_table st.1 -> wf_table (others st).1 end.

Lemma happen_all_app st a b : happen_all st (a ++ b) = happen_all (happen_all st a) b.
Proof. apply foldl_app. Qed.

Lemma consume_effect st turns :
  (consume st turns).1 = happen_all st (happenings turns)
  /\ forall st', (consume st' turns).2 = (consume st turns).2.
Proof.
  revert st. induction turns as [|[[]| |e|env ev d|others] turns IH]; intros st; cbn [consume happenings]; try done.
  - destruct (IH (apply_named env st ev d)) as [-> Ho]. split; [done|]. intros st'.
    destruct (IH (apply_named env st' ev d)) as [_ Ho']. by rewrite <- (Ho' (apply_named env st ev d)).
  - destruct (IH (others st)) as [-> Ho]. split; [done|]. intros st'.
    destruct (IH (others st')) as [_ Ho']. by rewrite <- (Ho' (others st)).
Qed.
Lemma consume_once_effect st r :
  (consume_once (before r st) (conn r)).1 = happen_all st (happenings_of r)
  /\ forall st1 st2, (consume_once st1 (conn r)).2 = (consume_once st2 (conn r)).2.
Proof.
  unfold happenings_of. cbn [happen_all foldl happen]. destruct (conn r) as [e| |status turns]; [done|done|].
  unfold consume_once. destruct (is_success status); [|done]. cbn [negb]. split; [apply consume_effect|].
  intros st1 st2. apply consume_effect.
Qed.

Lemma consume_told st heard more :
  forallb ongoing heard = true ->
  consume st (heard ++ FlagChanged true :: more) = (happen_all st (happenings heard), Some ShutdownRequested).
Proof.
  revert st. induction heard as [|[[]| |e|env ev d|others] heard IH]; intros st Ho; try done; cbn [app consume happenings]; by apply IH.
Qed.

(** A round that ends by itself, up to the pause after it. *)
Lemma run_ended st attempt r rounds :
  ends_itself r ->
  stream_run st attempt (r :: rounds)
  = let st1 := happen_all st (happenings_of r) in
    let entry := (stream_url (live_id r), Some (delay attempt)) in
    if default false (woken r) then (st1, [entry], true)
    else let '(st2, log, exited) := stream_run st1 (S attempt) rounds in (st2, entry :: log, exited).
Proof.
  intros (Hf & s0 & o & Ho & Hne). cbn [stream_run]. cbv zeta. rewrite Hf. destruct (consume_once_effect st r) as [He Hall].
  specialize (Hall s0 (before r st)). rewrite Ho in Hall. destruct (consume_once (before r st) (conn r)) as [st1 o1].
  simpl in He, Hall. subst o1 st1. unfold sleep_or_shutdown. by destruct o.
Qed.

Lemma run_quiet st attempt rounds rest :
  Forall quiet rounds ->
  stream_run st attempt (rounds ++ rest)
  = let '(st', log, exited) := stream_run (happen_all st (concat (happenings_of <$> rounds))) (attempt + length rounds) rest in
    (st', imap (fun i r => (stream_url (live_id r), Some (delay (attempt + i)))) rounds ++ log, exited).
Proof.
  intros Hq. revert st attempt. induction Hq as [|r rounds [Hend Hw] _ IH]; intros st attempt.
  { cbn. rewrite Nat.add_0_r. by destruct (stream_run st attempt rest) as [[? ?] ?]. }
  cbn [app]. rewrite run_ended by done. cbv zeta. rewrite Hw, IH. rewrite fmap_cons. cbn [concat length].
  rewrite happen_all_app, Nat.add_succ_r. cbn [Nat.add]. destruct (stream_run _ _ rest) as [[st' log] ex].
  rewrite imap_cons. cbn [app]. rewrite Nat.add_0_r.
  assert (imap (fun i r => (stream_url (live_id r), Some (delay (S (attempt + i))))) rounds
    = imap ((fun i r => (stream_url (live_id r), Some (delay (attempt + i)))) ∘ S) rounds) as ->; [|done].
  apply imap_ext. intros i x _. simpl. by rewrite Nat.add_succ_r.
Qed.

Lemma wf_apply_named env st event data : wf_table st.1 -> wf_table (apply_named env st event data).1.
Proof.
  unfold apply_named. destruct (from_event_name event) as [kind|]; [|done]. intros Hw. destruct kind; simpl.
  - destruct (remote_of_json data) as [r|]; [|done]. destruct (remote_to_info env r); [|done]. by apply wf_install.
  - destruct (remote_of_json data) as [r|]; [|done]. destruct (remote_to_info env r); [|done]. by apply wf_install.
  - destruct (removed_of_json data) as [id|]; [|done]. simpl. apply (foldl_inv wf_table); [|done]. intros t u _ Ht.
    unfold remove_if_still. destruct (session_for t u ≫= get t); [|done]. case_bool_decide; [by apply wf_remove|done].
  - by destruct st.2, (punch_of_json data).
  - unfold apply_relay_wake. destruct (wake_of_json data ≫= parse_ipv6) as [u|]; [|done]. simpl. unfold request_convergence_kick.
    destruct (by_ula st.1 !! u); [|done]. by destruct Hw as [[] ? ?].
Qed.

(** C36: The follower of the event stream never gives up and never loses an event that
    arrived: as long as nobody asks it to stop and its requests are answered or fail,
    it connects again and again, each time under the id the node has then, after pauses
    of one, two, five and then always ten seconds, and what it does to the session
    table, which other tasks change between one event and the next, is to apply each
    event once, in the order of arrival, to the table as it is then (what may come in
    the middle of one is in [Joiner.v]); events it does not know it skips. The
    table stays well formed if the other tasks keep it so. A request to stop ends the
    follower at once where it looks for one: before a connection, in a pause, and
    during a connection, of which it then applies nothing more. It does not look while
    a request is unanswered: a coordinator that accepts the connection and says nothing
    keeps it waiting, told to stop or not. *)
Theorem stream_followed st rounds :
  Forall quiet rounds ->
  let now := happen_all st (concat (happenings_of <$> rounds)) in
  let log := imap (fun i r => (stream_url (live_id r), Some (delay i))) rounds in
  stream_run st 0 rounds = (now, log, false)
  /\ (forall i, delay i = match i with 0%nat => 1 | 1%nat => 2 | 2%nat => 5 | _ => 10 end)
  /\ (wf_table st.1 -> Forall respects (concat (happenings_of <$> rounds)) -> wf_table now.1)
  /\ forall r rest, let url := stream_url (live_id r) in
     (flag r = true -> stream_run st 0 (rounds ++ r :: rest) = (before r now, log, true))
     /\ (forall status heard more,
           flag r = false -> conn r = Responded status (heard ++ FlagChanged true :: more) -> is_success status = true ->
           forallb ongoing heard = true ->
           stream_run st 0 (rounds ++ r :: rest) = (happen_all (before r now) (happenings heard), log ++ [(url, None)], true))
     /\ (ends_itself r -> woken r = Some true ->
           stream_run st 0 (rounds ++ r :: rest)
           = (happen_all now (happenings_of r), log ++ [(url, Some (delay (length rounds)))], true))
     /\ (flag r = false -> conn r = Unanswered ->
           stream_run st 0 (rounds ++ r :: rest) = (before r now, log ++ [(url, None)], false)).
Proof.
  intros Hq now log.
  assert (stream_run st 0 rounds = (now, log, false)) as Hrun.
  { pose proof (run_quiet st 0 rounds [] Hq) as Hr. rewrite app_nil_r in Hr. cbn in Hr. by rewrite app_nil_r in Hr. }
  split; [exact Hrun|]. split; [by intros [|[|[|[|i]]]]|]. split.
  { intros Hwf Hresp. apply (foldl_inv (fun s : State => wf_table s.1)); [|done]. intros s h Hin Hw.
    rewrite Forall_forall in Hresp. specialize (Hresp h Hin). destruct h; [by apply wf_apply_named|by apply Hresp]. }
  intros r rest url.
  assert (forall s l e, stream_run now (length rounds) (r :: rest) = (s, l, e) ->
    stream_run st 0 (rounds ++ r :: rest) = (s, log ++ l, e)) as Hgo.
  { intros s l e He. rewrite run_quiet by done. cbn [Nat.add]. fold now. by rewrite He. }
  split_and!.
  - intros Hf. rewrite <- (app_nil_r log). apply Hgo. cbn [stream_run]. cbv zeta. by rewrite Hf.
  - intros status heard more Hf Hc Hs Ho. apply Hgo. cbn [stream_run]. cbv zeta. rewrite Hf, Hc. cbn [consume_once].
    by rewrite Hs, consume_told.
  - intros He Hw. apply Hgo. rewrite run_ended by done. cbv zeta. by rewrite Hw.
  - intros Hf Hc. apply Hgo. cbn [stream_run]. cbv zeta. by rewrite Hf, Hc.
Qed.
End Stream.
