(* ===== verification/Client.v ===== *)
(** * The joiner's side of the coordinator's interface
    ([coordinator/client], and the requests of [coordinator/heartbeat.rs])

    What the joiner says about itself when it registers and when it beats, and how
    it reads the answers. A request is here the coordinator's own record of it, and an
    answer is read from the coordinator's record; that this is what becomes of the JSON
    that travels is shown in [Wire.v]. *)

From S2P Require Import Prelude NetAddr AddrText Types Auth PeerSession SessionTable.
From S2P Require Import CommandGate PeerSync.

Open Scope Z_scope.

(** ** Requests *)

(** [ReregisterInputs] of [heartbeat.rs] *)
Record ReregisterInputs := mkReregisterInputs {
  our_public : list Z;
  advertise_endpoint : option string;
  ri_display_name : string;
  ri_tags : list string;
  join_token : option string;
  requested_ula : option string;
  strict_requested_ula : bool;
  ri_kind : option string;
  ri_parent : option string;
  ri_app_uuid : option string;
  ri_relay_only : bool;
}.

Section Requests.
Context `{Externals} `{Noise} `{TableOrder}.

(** The body [CoordinatorClient::register] posts; a field the joiner leaves out gets
    the coordinator's default. *)
Definition register_body (inputs : ReregisterInputs) (wg_listen_port : Z)
    (software_version mesh_version requested : option string) : RegisterRequest :=
  {| rr_wg_public_key := b64_encode (our_public inputs);
     rr_listen_endpoint := advertise_endpoint inputs;
     rr_wg_listen_port := Some wg_listen_port;
     rr_display_name := ri_display_name inputs;
     rr_network := EmptyString;
     rr_tags := ri_tags inputs;
     rr_hosted_app_ulas := [];
     rr_kind := default default_kind (ri_kind inputs);
     rr_parent := ri_parent inputs;
     rr_app_uuid := ri_app_uuid inputs;
     rr_requested_ula := requested;
     rr_software_version := software_version;
     rr_mesh_version := mesh_version;
     rr_relay_only := ri_relay_only inputs |}.

(** The token of its [Authorization: Bearer] header, if it sends one. *)
Definition register_bearer (inputs : ReregisterInputs) : option string :=
  t ← join_token inputs; if bool_decide (trim t = EmptyString) then None else Some (trim t).

(** [peer_paths_from_sessions] of [joiner.rs]; the division of an [i64] truncates. *)
Definition age_ms (age_micros : Z) : Z := Z.max 0 (age_micros `quot` 1000).
Definition peer_path (now_micros : Z) (s : PeerSession) : PeerPathDto :=
  let '(direct, age_micros) := path_status s now_micros in
  let '(handshake_rx_total, last_hs) := handshake_status s now_micros in
  {| pp_peer_id := uuid_to_string (peer_id s);
     pp_direct := direct;
     pp_last_rx_age_ms := age_ms age_micros;
     pp_last_handshake_direct := fst <$> last_hs;
     pp_last_handshake_age_ms := (fun hs => age_ms (snd hs)) <$> last_hs;
     pp_handshake_rx_total := handshake_rx_total |}.
Definition peer_paths_from_sessions (t : SessionTable) (now_micros : Z) : list PeerPathDto :=
  peer_path now_micros <$> omap (get t) (snapshot t).

(** [hosted_app_ula_strings]; Rust orders strings by their bytes. *)
#[local] Instance string_order_dec (a b : string) : Decision (Is_true (String.leb a b)) := _.
Definition hosted_app_ula_strings (hosted : gset Ipv6Addr) : list string :=
  merge_sort (fun a b => Is_true (String.leb a b)) (fmt_ipv6 <$> elements hosted).

(** The body of the heartbeat that [tick_once] sends. *)
Definition heartbeat_body `{Signatures} (st : HeartbeatState) (relay_only : bool) (wg_listen_port : Z)
    (hosted : gset Ipv6Addr) (software_version mesh_version : option string) (now_micros : Z) : HeartbeatRequest :=
  {| hr_peer_id := uuid_to_string (shared_peer_id st);
     hr_wg_listen_port := Some wg_listen_port;
     hr_hosted_app_ulas := hosted_app_ula_strings hosted;
     hr_software_version := software_version;
     hr_mesh_version := mesh_version;
     hr_relay_only := relay_only;
     hr_peer_paths := peer_paths_from_sessions (sessions st) now_micros;
     hr_dataplane_healthy := dataplane_healthy (sessions st) now_micros DATAPLANE_RX_SILENCE_THRESHOLD_MICROS;
     hr_executed_command_ids := pending_acks st |}.
End Requests.

(** ** Answers *)

(** Reading the coordinator's records as the joiner's types: a peer id and a command
    id must be UUIDs and a verb one of the three. *)
Section Wire.
Context `{Externals}.

Definition wire_peer (p : Types.PeerInfo) : option RemotePeer :=
  id ← ok (uuid_parse (pi_peer_id p));
  Some {| r_peer_id := id;
          r_wg_public_key := pi_wg_public_key p;
          r_ula := pi_ula p;
          r_listen_endpoint := pi_listen_endpoint p;
          r_display_name := pi_display_name p;
          r_tags := pi_tags p;
          r_hosted_app_ulas := pi_hosted_app_ulas p;
          r_software_version := pi_software_version p;
          r_mesh_version := pi_mesh_version p;
          r_joined_at_micros := pi_joined_at_micros p |}.

Definition wire_verb (s : string) : option CommandVerb :=
  if bool_decide (s = "restart_joiner") then Some RestartJoiner
  else if bool_decide (s = "reset_wg") then Some ResetWg
  else if bool_decide (s = "reboot_host") then Some RebootHost
  else None.

Definition wire_command (c : NodeCommandDto) : option NodeCommand :=
  id ← ok (uuid_parse (command_id c));
  v ← wire_verb (Types.verb c);
  Some (mkNodeCommand id v (cmd_peer_id c) (Types.nonce c) (Types.issued_at c) (Types.expiry c) (Types.signature c)).

Definition wire_heartbeat (r : HeartbeatResponse) : option HeartbeatReply :=
  peers ← mapM wire_peer (hp_peers r);
  commands ← mapM wire_command (hp_pending_commands r);
  Some (mkHeartbeatReply peers commands).

Definition wire_register (r : RegisterResponse) : option RegisterReply :=
  id ← ok (uuid_parse (rp_peer_id r));
  peers ← mapM wire_peer (rp_peers r);
  Some (mkRegisterReply id (rp_ula r) peers).
End Wire.

(** The answer to a request: it did not arrive, or it came with a status and a body,
    here as the text that [from_utf8_lossy] makes of it. *)
Inductive HttpAnswer := NoAnswer | Answer (status : Z) (text : string).

Definition BODY_EXCERPT_MAX : nat := 2048.
(** [body_excerpt_bytes]: [None] is the panic of slicing inside a character. *)
Definition body_excerpt_text (s : string) : option string :=
  if (BODY_EXCERPT_MAX <? String.length s)%nat then
    (fun p => p +:+ "...<truncated>") <$> slice_to s BODY_EXCERPT_MAX
  else Some s.

(** [ensure_success] for a body that [decode] reads. *)
Definition ensure_success {A} (decode : string -> option A) (a : HttpAnswer) : option (Result A JoinerError) :=
  match a with
  | NoAnswer => Some (Err OtherError)
  | Answer status text =>
      if negb (is_success status) then _ ← body_excerpt_text text; Some (Err (HttpStatus status))
      else match decode text with
           | Some x => Some (Ok x)
           | None => _ ← body_excerpt_text text; Some (Err OtherError)
           end
  end.

(** [deregister] *)
Definition deregister_body `{Externals} (peer_id : Uuid) : DeregisterRequest := mkDeregisterRequest (uuid_to_string peer_id).
Definition deregister_outcome (a : HttpAnswer) : option (Result unit JoinerError) := ensure_success (fun _ => Some tt) a.

(** ** The excerpt of a body *)

(** Reading an answer ends in the four ways the client distinguishes, whatever the
    coordinator sent; it crashes exactly when it quotes a body of more than 2048
    bytes whose byte 2048 is inside a character. *)
Lemma ensure_success_cases {A} (decode : string -> option A) a :
  match ensure_success decode a with
  | Some (Ok x) => exists status text, a = Answer status text /\ is_success status = true /\ decode text = Some x
  | Some (Err (HttpStatus status)) => exists text, a = Answer status text /\ is_success status = false
  | Some (Err OtherError) =>
      a = NoAnswer \/ exists status text, a = Answer status text /\ is_success status = true /\ decode text = None
  | None => exists status text, a = Answer status text /\ (BODY_EXCERPT_MAX < String.length text)%nat
      /\ is_char_boundary text BODY_EXCERPT_MAX = false /\ (is_success status = true -> decode text = None)
  end.
Proof.
  destruct a as [|status text]; simpl; [by left|].
  assert (match body_excerpt_text text with
          | Some _ => True
          | None => (BODY_EXCERPT_MAX < String.length text)%nat /\ is_char_boundary text BODY_EXCERPT_MAX = false
          end) as Hb.
  { unfold body_excerpt_text. destruct (BODY_EXCERPT_MAX <? String.length text)%nat eqn:El; [|done].
    apply Nat.ltb_lt in El. unfold slice_to. by destruct (is_char_boundary _ _). }
  destruct (is_success status) eqn:Es; simpl.
  - destruct (decode text) as [x|] eqn:Ed; [by exists status, text|].
    destruct (body_excerpt_text text); simpl; [by right; exists status, text|].
    exists status, text. by destruct Hb.
  - destruct (body_excerpt_text text); simpl; [by exists text|]. exists status, text.
    destruct Hb. split_and!; [done..|congruence].
Qed.
