(* ===== verification/Wire.v ===== *)
(** * The two ends of the wire ([coordinator/client/mod.rs], [peer.rs], [coordinator/command.rs])

    The joiner has structures of its own for the bodies that [Dto.v] has on the
    coordinator's side; the two crates share no definition, so that they fit is a
    property of the field names, skips and defaults. Here are the joiner's structures
    and what [serde] makes of them, and the proof that each request arrives as what
    [Client.v] says the coordinator receives, and each answer and event of the peer
    stream as what [Client.v] says the joiner reads. *)

From S2P Require Import Prelude NetAddr AddrText Text Json JsonText Types Policy RosterStore Stream Api Dto Auth.
From S2P Require Import PeerSession SessionTable CommandGate PeerSync Client.

Open Scope Z_scope.

(** ** The joiner's requests *)

Record RegisterRequest := mkRegisterRequest {
  q_wg_public_key : string;
  q_listen_endpoint : option string;
  q_wg_listen_port : option Z;
  q_display_name : string;
  q_tags : list string;
  q_hosted_app_ulas : list string;
  q_requested_ula : option string;
  q_kind : option string;
  q_parent : option string;
  q_app_uuid : option string;
  q_software_version : option string;
  q_mesh_version : option string;
  q_relay_only : bool;
}.
(** [Serialize] of it *)
Definition register_request_json (q : RegisterRequest) : Json :=
  object
    [("wg_public_key", Some (JString (q_wg_public_key q)));
     ("listen_endpoint", if_some JString (q_listen_endpoint q));
     ("wg_listen_port", if_some JNumber (q_wg_listen_port q));
     ("display_name", Some (JString (q_display_name q)));
     ("tags", Some (json_list JString (q_tags q)));
     ("hosted_app_ulas", if_any JString (q_hosted_app_ulas q));
     ("requested_ula", if_some JString (q_requested_ula q));
     ("kind", if_some JString (q_kind q));
     ("parent", if_some JString (q_parent q));
     ("app_uuid", if_some JString (q_app_uuid q));
     ("software_version", if_some JString (q_software_version q));
     ("mesh_version", if_some JString (q_mesh_version q));
     ("relay_only", Some (JBool (q_relay_only q)))].

Record PeerPath := mkPeerPath {
  path_peer_id : Uuid;
  path_direct : bool;
  path_last_rx_age_ms : Z;
  path_last_handshake_direct : option bool;
  path_last_handshake_age_ms : option Z;
  path_handshake_rx_total : Z;
}.
Record HeartbeatRequest := mkHeartbeatRequest {
  beat_peer_id : Uuid;
  beat_wg_listen_port : option Z;
  beat_hosted_app_ulas : list string;
  beat_software_version : option string;
  beat_mesh_version : option string;
  beat_relay_only : bool;
  beat_peer_paths : list PeerPath;
  beat_dataplane_healthy : bool;
  beat_executed_command_ids : list string;
}.

(** The integers are of their types. *)
Definition typed_port (port : option Z) : Prop := forall p, port = Some p -> is_u16 p.
Definition typed_path (p : PeerPath) : Prop :=
  is_u64 (path_last_rx_age_ms p) /\ is_u64 (path_handshake_rx_total p)
  /\ (forall age, path_last_handshake_age_ms p = Some age -> is_u64 age).

Section Wire.
Context `{Externals}.

Definition uuid_json (id : Uuid) : Json := JString (uuid_to_string id).
Definition read_uuid (j : Json) : option Uuid := s ← read_string j; ok (uuid_parse s).

Definition path_json (p : PeerPath) : Json :=
  object
    [("peer_id", Some (uuid_json (path_peer_id p)));
     ("direct", Some (JBool (path_direct p)));
     ("last_rx_age_ms", Some (JNumber (path_last_rx_age_ms p)));
     ("last_handshake_direct", Some (json_option JBool (path_last_handshake_direct p)));
     ("last_handshake_age_ms", Some (json_option JNumber (path_last_handshake_age_ms p)));
     ("handshake_rx_total", Some (JNumber (path_handshake_rx_total p)))].
Definition heartbeat_request_json (q : HeartbeatRequest) : Json :=
  object
    [("peer_id", Some (uuid_json (beat_peer_id q)));
     ("wg_listen_port", if_some JNumber (beat_wg_listen_port q));
     ("hosted_app_ulas", if_any JString (beat_hosted_app_ulas q));
     ("software_version", if_some JString (beat_software_version q));
     ("mesh_version", if_some JString (beat_mesh_version q));
     ("relay_only", Some (JBool (beat_relay_only q)));
     ("peer_paths", if_any path_json (beat_peer_paths q));
     ("dataplane_healthy", Some (JBool (beat_dataplane_healthy q)));
     ("executed_command_ids", if_any JString (beat_executed_command_ids q))].
Definition deregister_request_json (peer_id : Uuid) : Json := object [("peer_id", Some (uuid_json peer_id))].

(** ** What the joiner reads *)

Definition remote_names : list string :=
  ["peer_id"; "wg_public_key"; "ula"; "listen_endpoint"; "display_name"; "tags"; "hosted_app_ulas"; "software_version";
   "mesh_version"; "joined_at_micros"].
Definition read_remote_peer : Json -> option RemotePeer :=
  read_struct remote_names (fun o =>
    id ← assoc "peer_id" o ≫= read_uuid;
    key ← assoc "wg_public_key" o ≫= read_string;
    u ← assoc "ula" o ≫= read_string;
    endpoint ← read_option read_string (assoc "listen_endpoint" o);
    name ← assoc "display_name" o ≫= read_string;
    tags ← assoc "tags" o ≫= read_list read_string;
    hosted ← read_default_list read_string (assoc "hosted_app_ulas" o);
    software ← read_option read_string (assoc "software_version" o);
    mesh ← read_option read_string (assoc "mesh_version" o);
    joined ← assoc "joined_at_micros" o ≫= read_i64;
    Some (mkRemotePeer id key u endpoint name tags hosted software mesh joined)).

(** [CommandVerb] is [rename_all = "snake_case"]. *)
Definition verb_json (v : CommandVerb) : Json :=
  JString (match v with RestartJoiner => "restart_joiner" | ResetWg => "reset_wg" | RebootHost => "reboot_host" end).
Definition read_verb (j : Json) : option CommandVerb := read_string j ≫= wire_verb.
Definition node_command_json (c : NodeCommand) : Json :=
  object
    [("command_id", Some (uuid_json (nc_command_id c)));
     ("verb", Some (verb_json (CommandGate.verb c)));
     ("peer_id", Some (JString (nc_peer_id c)));
     ("nonce", Some (JString (CommandGate.nonce c)));
     ("issued_at", Some (JNumber (CommandGate.issued_at c)));
     ("expiry", Some (JNumber (CommandGate.expiry c)));
     ("signature", Some (JString (CommandGate.signature c)))].
Definition read_node_command : Json -> option NodeCommand :=
  read_struct command_names (fun o =>
    id ← assoc "command_id" o ≫= read_uuid;
    v ← assoc "verb" o ≫= read_verb;
    peer ← assoc "peer_id" o ≫= read_string;
    n ← assoc "nonce" o ≫= read_string;
    issued ← assoc "issued_at" o ≫= read_i64;
    exp ← assoc "expiry" o ≫= read_i64;
    sig ← read_default EmptyString read_string (assoc "signature" o);
    Some (mkNodeCommand id v peer n issued exp sig)).

(** [RegisterResponse] and [HeartbeatResponse]; nothing is done with the observed
    addresses beyond reading them. *)
Definition read_register_response : Json -> option RegisterReply :=
  read_struct ["peer_id"; "ula"; "peers"; "observed_ip"; "observed_endpoint"] (fun o =>
    id ← assoc "peer_id" o ≫= read_uuid;
    u ← assoc "ula" o ≫= read_string;
    peers ← assoc "peers" o ≫= read_list read_remote_peer;
    _ ← read_option read_string (assoc "observed_ip" o);
    _ ← read_option read_string (assoc "observed_endpoint" o);
    Some (mkRegisterReply id u peers)).
Definition read_heartbeat_response : Json -> option HeartbeatReply :=
  read_struct ["peers"; "observed_ip"; "observed_endpoint"; "pending_commands"] (fun o =>
    peers ← assoc "peers" o ≫= read_list read_remote_peer;
    _ ← read_option read_string (assoc "observed_ip" o);
    _ ← read_option read_string (assoc "observed_endpoint" o);
    commands ← read_default_list read_node_command (assoc "pending_commands" o);
    Some (mkHeartbeatReply peers commands)).

(** The payloads of the peer stream: [PeerRemovedPayload], [HolePunchInitiate] and
    [RelayWakePayload]. *)
Definition read_removed : Json -> option Uuid := read_struct ["peer_id"] (fun o => assoc "peer_id" o ≫= read_uuid).
Definition read_hole_punch : Json -> option HolePunchInitiate :=
  read_struct ["initiator_peer_id"; "target_peer_id"; "target_external_endpoint"; "timestamp_micros"] (fun o =>
    initiator ← assoc "initiator_peer_id" o ≫= read_string;
    target ← assoc "target_peer_id" o ≫= read_string;
    external ← assoc "target_external_endpoint" o ≫= read_string;
    time ← assoc "timestamp_micros" o ≫= read_i64;
    Some (mkHolePunchInitiate initiator target external time)).
Definition read_wake : Json -> option string := read_struct ["source_ula"] (fun o => assoc "source_ula" o ≫= read_string).

Definition json_event_data `{JsonText} : EventData := {|
  remote_of_json s := of_text s ≫= read_remote_peer;
  removed_of_json s := of_text s ≫= read_removed;
  punch_of_json s := of_text s ≫= read_hole_punch;
  wake_of_json s := of_text s ≫= read_wake;
|}.
Definition register_of_json `{JsonText} (s : string) : option RegisterReply := of_text s ≫= read_register_response.
Definition heartbeat_of_json `{JsonText} (s : string) : option HeartbeatReply := of_text s ≫= read_heartbeat_response.
End Wire.

(** ** Answers arrive *)

Section Answers.
Context `{Externals}.

Lemma read_uuid_string s : read_uuid (JString s) = ok (uuid_parse s).
Proof. done. Qed.

Lemma read_peer_json p : typed_peer p -> read_remote_peer (peer_json p) = wire_peer p.
Proof.
  intros [Hj _]. unfold read_remote_peer, peer_json, wire_peer. read_object. rewrite read_uuid_string.
  destruct (uuid_parse (pi_peer_id p)); [|done]. cbn [ok mbind option_bind].
  unfold read_i64. by rewrite read_number_in.
Qed.
Lemma read_node_command_json c : typed_command c -> read_node_command (command_json c) = wire_command c.
Proof.
  intros [Hi He]. unfold read_node_command, command_json, wire_command. read_object. rewrite read_uuid_string.
  destruct (uuid_parse (command_id c)); [|done]. cbn [ok mbind option_bind]. unfold read_verb. cbn [read_string mbind option_bind].
  destruct (wire_verb _); [|done]. cbn [mbind option_bind]. unfold read_i64. by rewrite !read_number_in.
Qed.
Lemma read_peers_json ps : Forall typed_peer ps -> read_list read_remote_peer (json_list peer_json ps) = mapM wire_peer ps.
Proof. rewrite Forall_forall. intros Hp. apply read_list_map. intros p Hin. by apply read_peer_json, Hp. Qed.

Lemma read_register_json r :
  Forall typed_peer (rp_peers r) -> read_register_response (register_response_json r) = wire_register r.
Proof.
  intros Hp. unfold read_register_response, register_response_json, wire_register. read_object. rewrite read_uuid_string.
  destruct (uuid_parse (rp_peer_id r)); [|done]. cbn [ok mbind option_bind]. rewrite read_peers_json by done.
  by destruct (mapM wire_peer (rp_peers r)).
Qed.
Lemma read_heartbeat_json r :
  Forall typed_peer (hp_peers r) -> Forall typed_command (hp_pending_commands r) ->
  read_heartbeat_response (heartbeat_response_json r) = wire_heartbeat r.
Proof.
  rewrite (Forall_forall typed_command). intros Hp Hc. unfold read_heartbeat_response, heartbeat_response_json, wire_heartbeat.
  read_object. rewrite read_peers_json by done. destruct (mapM wire_peer (hp_peers r)); [|done]. cbn [mbind option_bind].
  assert (read_default_list read_node_command (if_any command_json (hp_pending_commands r)) = mapM wire_command (hp_pending_commands r))
    as ->; [|by destruct (mapM wire_command _)].
  assert (read_list read_node_command (json_list command_json (hp_pending_commands r)) = mapM wire_command (hp_pending_commands r)) as He.
  { apply read_list_map. intros c Hin. by apply read_node_command_json, Hc. }
  by destruct (hp_pending_commands r).
Qed.

Context `{JsonTextLaws}.

(** The answers of the coordinator as the joiner reads them from their text. *)
Lemma register_arrives r : Forall typed_peer (rp_peers r) -> register_of_json (body_text (BodyRegister r)) = wire_register r.
Proof.
  intros Hp. unfold register_of_json, body_text. rewrite of_text_to_text by by apply representable_register.
  by apply read_register_json.
Qed.
Lemma heartbeat_arrives r :
  Forall typed_peer (hp_peers r) -> Forall typed_command (hp_pending_commands r) ->
  heartbeat_of_json (body_text (BodyHeartbeat r)) = wire_heartbeat r.
Proof.
  intros Hp Hc. unfold heartbeat_of_json, body_text. rewrite of_text_to_text by by apply representable_heartbeat.
  by apply read_heartbeat_json.
Qed.
End Answers.

(** ** Requests arrive *)

Section Requests.
Context `{ExternalLaws}.

(** What the coordinator makes of the joiner's structures: it has defaults where the
    joiner has nothing to say, and the network is left to the token. *)
Definition received_register (q : RegisterRequest) : Types.RegisterRequest :=
  {| rr_wg_public_key := q_wg_public_key q;
     rr_listen_endpoint := q_listen_endpoint q;
     rr_wg_listen_port := q_wg_listen_port q;
     rr_display_name := q_display_name q;
     rr_network := EmptyString;
     rr_tags := q_tags q;
     rr_hosted_app_ulas := q_hosted_app_ulas q;
     rr_kind := default default_kind (q_kind q);
     rr_parent := q_parent q;
     rr_app_uuid := q_app_uuid q;
     rr_requested_ula := q_requested_ula q;
     rr_software_version := q_software_version q;
     rr_mesh_version := q_mesh_version q;
     rr_relay_only := q_relay_only q |}.
Definition received_path (p : PeerPath) : PeerPathDto :=
  {| pp_peer_id := uuid_to_string (path_peer_id p);
     pp_direct := path_direct p;
     pp_last_rx_age_ms := path_last_rx_age_ms p;
     pp_last_handshake_direct := path_last_handshake_direct p;
     pp_last_handshake_age_ms := path_last_handshake_age_ms p;
     pp_handshake_rx_total := path_handshake_rx_total p |}.
Definition received_heartbeat (q : HeartbeatRequest) : Types.HeartbeatRequest :=
  {| hr_peer_id := uuid_to_string (beat_peer_id q);
     hr_wg_listen_port := beat_wg_listen_port q;
     hr_hosted_app_ulas := beat_hosted_app_ulas q;
     hr_software_version := beat_software_version q;
     hr_mesh_version := beat_mesh_version q;
     hr_relay_only := beat_relay_only q;
     hr_peer_paths := received_path <$> beat_peer_paths q;
     hr_dataplane_healthy := beat_dataplane_healthy q;
     hr_executed_command_ids := beat_executed_command_ids q |}.

Lemma read_port port : typed_port port -> read_option read_u16 (if_some JNumber port) = Some port.
Proof. intros Hp. apply read_option_if_some. intros p He. split; [done|]. by apply read_number_in, Hp. Qed.

Lemma read_register_request_json q :
  typed_port (q_wg_listen_port q) -> read_register_request (register_request_json q) = Some (received_register q).
Proof.
  intros Hp. unfold read_register_request, register_request_json. read_object. rewrite read_port by done.
  cbn [mbind option_bind]. unfold received_register. by destruct (q_kind q).
Qed.

Lemma read_path_json p : typed_path p -> read_peer_path (path_json p) = Some (received_path p).
Proof.
  intros (Ha & Ht & Hh). unfold read_peer_path, path_json, received_path, uuid_json. read_object.
  unfold read_u64 at 1. rewrite read_number_in by done. cbn [mbind option_bind].
  rewrite read_option_json by (intros age He; split; [done|by apply read_number_in, Hh]). cbn [mbind option_bind].
  unfold read_u64. by rewrite read_number_in.
Qed.
Lemma read_heartbeat_request_json q :
  typed_port (beat_wg_listen_port q) -> Forall typed_path (beat_peer_paths q) ->
  read_heartbeat_request (heartbeat_request_json q) = Some (received_heartbeat q).
Proof.
  rewrite Forall_forall. intros Hp Hpaths. unfold read_heartbeat_request, heartbeat_request_json, uuid_json.
  read_object. rewrite read_port by done. cbn [mbind option_bind].
  assert (read_default_list read_peer_path (if_any path_json (beat_peer_paths q)) = Some (received_path <$> beat_peer_paths q)) as ->.
  { assert (read_list read_peer_path (json_list path_json (beat_peer_paths q)) = Some (received_path <$> beat_peer_paths q)) as He.
    { rewrite (read_list_map read_peer_path path_json (Some ∘ received_path)).
      - apply mapM_fmap_pure.
      - intros p Hin. by apply read_path_json, Hpaths. }
    by destruct (beat_peer_paths q). }
  done.
Qed.

(** ** What the joiner sends of its state *)

Context `{Noise} `{TableOrder} `{Signatures}.

(** [CoordinatorClient::register], as the heartbeat task and the start call it. *)
Definition register_request (inputs : ReregisterInputs) (wg_listen_port : Z)
    (software_version mesh_version requested : option string) : RegisterRequest :=
  {| q_wg_public_key := b64_encode (our_public inputs);
     q_listen_endpoint := advertise_endpoint inputs;
     q_wg_listen_port := Some wg_listen_port;
     q_display_name := ri_display_name inputs;
     q_tags := ri_tags inputs;
     q_hosted_app_ulas := [];
     q_requested_ula := requested;
     q_kind := ri_kind inputs;
     q_parent := ri_parent inputs;
     q_app_uuid := ri_app_uuid inputs;
     q_software_version := software_version;
     q_mesh_version := mesh_version;
     q_relay_only := ri_relay_only inputs |}.

(** [peer_paths_from_sessions] and the request of [tick_once] *)
Definition session_path (now_micros : Z) (s : PeerSession) : PeerPath :=
  let '(direct, age_micros) := path_status s now_micros in
  let '(handshake_rx_total, last_hs) := handshake_status s now_micros in
  {| path_peer_id := peer_id s;
     path_direct := direct;
     path_last_rx_age_ms := age_ms age_micros;
     path_last_handshake_direct := fst <$> last_hs;
     path_last_handshake_age_ms := (fun hs => age_ms (snd hs)) <$> last_hs;
     path_handshake_rx_total := handshake_rx_total |}.
Definition heartbeat_request (st : HeartbeatState) (relay_only : bool) (wg_listen_port : Z)
    (hosted : gset Ipv6Addr) (software_version mesh_version : option string) (now_micros : Z) : HeartbeatRequest :=
  {| beat_peer_id := shared_peer_id st;
     beat_wg_listen_port := Some wg_listen_port;
     beat_hosted_app_ulas := hosted_app_ula_strings hosted;
     beat_software_version := software_version;
     beat_mesh_version := mesh_version;
     beat_relay_only := relay_only;
     beat_peer_paths := session_path now_micros <$> omap (get (sessions st)) (snapshot (sessions st));
     beat_dataplane_healthy := dataplane_healthy (sessions st) now_micros DATAPLANE_RX_SILENCE_THRESHOLD_MICROS;
     beat_executed_command_ids := pending_acks st |}.

Lemma is_i64_wrap z : is_i64 (wrap_i64 z).
Proof.
  unfold is_i64, wrap_i64, i64_min, i64_max. change (2 ^ 64) with 18446744073709551616. change (2 ^ 63) with 9223372036854775808.
  pose proof (Z.mod_pos_bound (z + 9223372036854775808) 18446744073709551616 ltac:(lia)). lia.
Qed.
Lemma age_ms_u64 micros : is_i64 micros -> is_u64 (age_ms micros).
Proof.
  unfold is_i64, is_u64, age_ms, i64_max, u64_max. intros Hm. split; [lia|].
  pose proof (Z.quot_le_mono micros 9223372036854775807 1000 ltac:(lia) ltac:(lia)) as Hq. change (9223372036854775807 `quot` 1000) with 9223372036854775 in Hq. lia.
Qed.

(** The ages are of 64 bits by their computation; the counter is of its width in every
    session a joiner can have ([Widths.v]). *)
Lemma typed_session_path now_micros s : is_u64 (handshake_rx_count s) -> typed_path (session_path now_micros s).
Proof.
  intros Hc. unfold session_path, path_status, handshake_status, typed_path.
  destruct (last_handshake_rx_micros s =? 0); cbn; split_and!; try done.
  1, 2: apply age_ms_u64, is_i64_wrap.
  intros age [= <-]. apply age_ms_u64, is_i64_wrap.
Qed.
Lemma received_session_path now_micros s : received_path (session_path now_micros s) = peer_path now_micros s.
Proof. unfold received_path, session_path, peer_path, handshake_status. by destruct (last_handshake_rx_micros s =? 0). Qed.

Context `{JsonTextLaws}.

Lemma representable_register_request q : typed_port (q_wg_listen_port q) -> representable (register_request_json q) = true.
Proof.
  intros Hp. unfold register_request_json. represent. apply representable_some. intros p Hq.
  specialize (Hp p Hq). apply representable_u64. unfold is_u16, u16_max, is_u64, u64_max in *. lia.
Qed.
Lemma representable_path p : typed_path p -> representable (path_json p) = true.
Proof.
  intros (Ha & Ht & Hh). unfold path_json, uuid_json. represent. split_and!; [by apply representable_u64|by apply representable_option| |by apply representable_u64].
  apply representable_option. intros age Hage. by apply representable_u64, Hh.
Qed.
Lemma representable_heartbeat_request q :
  typed_port (beat_wg_listen_port q) -> Forall typed_path (beat_peer_paths q) -> representable (heartbeat_request_json q) = true.
Proof.
  rewrite Forall_forall. intros Hp Hpaths. unfold heartbeat_request_json, uuid_json. represent. split.
  - apply representable_some. intros p Hq. specialize (Hp p Hq). apply representable_u64. unfold is_u16, u16_max, is_u64, u64_max in *. lia.
  - apply representable_any. intros p Hin. by apply representable_path, Hpaths.
Qed.

Lemma heartbeat_request_arrives st relay_only port hosted sv mv now_micros :
  is_u16 port -> Forall (fun s => is_u64 (handshake_rx_count s)) (omap (get (sessions st)) (snapshot (sessions st))) ->
  of_text (to_text (heartbeat_request_json (heartbeat_request st relay_only port hosted sv mv now_micros))) ≫= read_heartbeat_request
  = Some (heartbeat_body st relay_only port hosted sv mv now_micros).
Proof.
  intros Hport Hs. assert (typed_port (Some port)) as Hp by (by intros p [= <-]).
  set (q := heartbeat_request st relay_only port hosted sv mv now_micros).
  assert (Forall typed_path (beat_peer_paths q)) as Hpaths.
  { apply Forall_fmap. eapply Forall_impl; [exact Hs|]. intros s. apply typed_session_path. }
  rewrite of_text_to_text by by apply representable_heartbeat_request.
  cbn [mbind option_bind]. rewrite read_heartbeat_request_json by done. f_equal.
  unfold received_heartbeat, heartbeat_body, peer_paths_from_sessions. cbn. f_equal. rewrite <- list_fmap_compose.
  apply list_fmap_ext. intros _ s _. apply received_session_path.
Qed.

(** C20: What the joiner posts is what the coordinator takes it for, although the two
    crates describe the bodies separately. The registration it sends, in which a field
    without a value is left out, is read as the request of [Client.v], with the
    coordinator's defaults in the fields that are missing and no network claimed; the
    heartbeat is read with the same paths, counters and acknowledgements; and the
    deregistration names the same peer. *)
Theorem requests_arrive inputs port sv mv requested st relay_only hosted now_micros peer_id :
  is_u16 port -> Forall (fun s => is_u64 (handshake_rx_count s)) (omap (get (sessions st)) (snapshot (sessions st))) ->
  of_text (to_text (register_request_json (register_request inputs port sv mv requested))) ≫= read_register_request
    = Some (register_body inputs port sv mv requested)
  /\ of_text (to_text (heartbeat_request_json (heartbeat_request st relay_only port hosted sv mv now_micros))) ≫= read_heartbeat_request
    = Some (heartbeat_body st relay_only port hosted sv mv now_micros)
  /\ of_text (to_text (deregister_request_json peer_id)) ≫= read_deregister_request = Some (deregister_body peer_id).
Proof.
  intros Hport Hs. assert (typed_port (Some port)) as Hp by (by intros p [= <-]). split_and!.
  - rewrite of_text_to_text by by apply representable_register_request. by apply read_register_request_json.
  - by apply heartbeat_request_arrives.
  - rewrite of_text_to_text by (unfold deregister_request_json, uuid_json; by represent). cbn [mbind option_bind].
    unfold read_deregister_request, deregister_request_json, uuid_json. by read_object.
Qed.

(** C21: What the coordinator answers and announces is what the joiner takes it for:
    the roster and the commands of an answer are read with the names they were written
    with, each member with the fields the joiner has a use for; of the peer stream, an
    added or updated member is read like one of an answer, a removed one by its id, and
    a hole punch and a wake as they were sent. Numbers are of their types. *)
Theorem answers_arrive (event : PeerEvent) (reg : RegisterResponse) (beat : HeartbeatResponse) :
  Forall typed_peer (rp_peers reg) -> Forall typed_peer (hp_peers beat) -> Forall typed_command (hp_pending_commands beat) ->
  register_of_json (body_text (BodyRegister reg)) = wire_register reg
  /\ heartbeat_of_json (body_text (BodyHeartbeat beat)) = wire_heartbeat beat
  /\ let '(_, data) := to_sse_frame (EJ := json_payloads) event in
     match event with
     | Added p | Updated p => typed_peer p -> remote_of_json (EventData := json_event_data) data = wire_peer p
     | Removed id _ => removed_of_json (EventData := json_event_data) data = ok (uuid_parse id)
     | HolePunch hp => is_i64 (hp_timestamp_micros hp) -> punch_of_json (EventData := json_event_data) data = Some hp
     | Wake rw => is_i64 (rw_timestamp_micros rw) -> wake_of_json (EventData := json_event_data) data = Some (source_ula rw)
     end.
Proof.
  intros Hr Hb Hc. split; [by apply register_arrives|]. split; [by apply heartbeat_arrives|].
  unfold to_sse_frame. cbn [json_payloads data_payload]. destruct event as [p|p|id tags|hp|rw]; cbn [json_event_data remote_of_json removed_of_json punch_of_json wake_of_json payload_json].
  1, 2: intros Ht; rewrite of_text_to_text by (by apply representable_peer); by apply read_peer_json.
  - rewrite of_text_to_text by by represent. cbn [mbind option_bind]. unfold read_removed. by read_object.
  - intros Ht. unfold hole_punch_json. rewrite of_text_to_text by (represent; by apply representable_i64).
    cbn [mbind option_bind]. unfold read_hole_punch. read_object. unfold read_i64. rewrite read_number_in by done. by destruct hp.
  - intros Ht. unfold relay_wake_json. rewrite of_text_to_text by (represent; by apply representable_i64).
    cbn [mbind option_bind]. unfold read_wake. by read_object.
Qed.
End Requests.
