(* ===== verification/DataPlaneProps.v ===== *)
(** * The joiner's data plane keeps peers apart

    Whatever the joiner does with a datagram, a packet or a tick, it does for one
    session at a time: the other sessions, the indexes and the routes stay as they
    are, what is sent goes to that peer alone, and what reaches the TUN device has
    a source that the peer may use. *)

From S2P Require Import Prelude NetAddr Types RelayFrame PeerSession SessionTable SessionInv DataPlane.

Open Scope Z_scope.

Section Props.
Context `{Noise} `{TableOrder}.
Implicit Types (w : World) (s : PeerSession) (h : Arc).

(** ** Acting for one session *)

(** What the data plane never changes in a session. *)
Definition frozen s s' : Prop :=
  peer_id s' = peer_id s /\ ula s' = ula s /\ peer_pubkey s' = peer_pubkey s
  /\ allowed_ips s' = allowed_ips s /\ endpoint s' = endpoint s.

Lemma frozen_trans s1 s2 s3 : frozen s1 s2 -> frozen s2 s3 -> frozen s1 s3.
Proof. unfold frozen. intros (-> & -> & -> & -> & ->) (-> & -> & -> & -> & ->). done. Qed.

(** What may leave on behalf of a session: datagrams to its endpoint, and packets
    for the host from a source it may use. *)
Definition permitted s (o : Output) : Prop :=
  match o with
  | UdpSend ep _ => endpoint s = Some ep
  | TunWrite p => exists src, ipv6_source p = Some src /\ src ∈ allowed_ips s
  end.

Definition at_session w h s : Prop := exists s', get (table w) h = Some s' /\ frozen s s'.

(** [w'] comes from [w] by acting for the session [s] at [h]. *)
Record acts_for h s w w' : Prop := {
  acts_at : at_session w' h s;
  acts_others : forall j, j <> h -> get (table w') j = get (table w) j;
  acts_indexes :
    by_ula (table w') = by_ula (table w) /\ by_endpoint (table w') = by_endpoint (table w)
    /\ by_pubkey (table w') = by_pubkey (table w) /\ app_routes (table w') = app_routes (table w)
    /\ route_sink (table w') = route_sink (table w) /\ convergence_tx (table w') = convergence_tx (table w);
  acts_out : exists new, out w' = out w ++ new /\ Forall (permitted s) new;
  acts_relay : exists frames, relay (table w')
    = (fun r => foldl (fun r b => try_relay r (peer_pubkey s) b) r frames) <$> relay (table w);
}.

Lemma acts_refl h s w : at_session w h s -> acts_for h s w w.
Proof.
  intros Ha. split; try done.
  - exists []. by rewrite app_nil_r.
  - exists []. simpl. by destruct (relay (table w)).
Qed.

Lemma acts_trans h s w1 w2 w3 : acts_for h s w1 w2 -> acts_for h s w2 w3 -> acts_for h s w1 w3.
Proof.
  intros [A1 A2 A3 (n1 & A4 & A4') (f1 & A5)] [B1 B2 B3 (n2 & B4 & B4') (f2 & B5)]. split.
  - done.
  - intros j Hj. by rewrite B2, A2.
  - destruct A3 as (-> & -> & -> & -> & -> & ->) in B3. done.
  - exists (n1 ++ n2). rewrite B4, A4, app_assoc. split; [done|]. by apply Forall_app.
  - exists (f1 ++ f2). rewrite B5, A5. destruct (relay (table w1)); [|done]. simpl. by rewrite foldl_app.
Qed.

(** The elementary steps. *)
Lemma acts_upd h s w f :
  (forall s, frozen s (f s)) -> at_session w h s -> acts_for h s w (upd w h f).
Proof.
  intros Hf (s' & Hg & Hs). split; try done.
  - exists (f s'). simpl. rewrite get_modify, decide_True, Hg by done. split; [done|].
    by eapply frozen_trans.
  - intros j Hj. simpl. by rewrite get_modify, decide_False.
  - exists []. by rewrite app_nil_r.
  - exists []. simpl. by destruct (relay (table w)).
Qed.

Lemma acts_emit h s w o : permitted s o -> at_session w h s -> acts_for h s w (emit w o).
Proof.
  intros Ho Ha. split; try done.
  - exists [o]. split; [done|]. by constructor.
  - exists []. simpl. by destruct (relay (table w)).
Qed.

Lemma acts_relay_out h s w b : at_session w h s -> acts_for h s w (relay_out w (peer_pubkey s) b).
Proof.
  intros Ha. split; try done.
  - exists []. by rewrite app_nil_r.
  - by exists [b].
Qed.

Lemma acts_table h s w t :
  heap t = heap (table w) -> by_ula t = by_ula (table w) -> by_endpoint t = by_endpoint (table w) ->
  by_pubkey t = by_pubkey (table w) -> app_routes t = app_routes (table w) ->
  route_sink t = route_sink (table w) -> convergence_tx t = convergence_tx (table w) ->
  relay t = relay (table w) -> at_session w h s -> acts_for h s w (w <| table := t |>).
Proof.
  intros E1 E2 E3 E4 E5 E6 E7 E8 (s' & Hg & Hs). unfold get in Hg. split; simpl.
  - exists s'. split; [|done]. simpl. unfold get. by rewrite E1.
  - intros j _. unfold get. by rewrite E1.
  - done.
  - exists []. by rewrite app_nil_r.
  - exists []. rewrite E8. simpl. by destruct (relay (table w)).
Qed.

Lemma acts_denied h s w n : at_session w h s -> acts_for h s w (w <| rx_source_denied := n |>).
Proof.
  intros Ha. split; try done.
  - exists []. by rewrite app_nil_r.
  - exists []. simpl. by destruct (relay (table w)).
Qed.

Lemma acts_with_tunn h s w call w' a :
  at_session w h s -> with_tunn w h call = (w', a) -> acts_for h s w w'.
Proof.
  intros Ha. pose proof Ha as (s' & Hg & Hs). unfold with_tunn. rewrite Hg.
  destruct (call (tunn s')) as [tn res]. intros [= <- _]. by apply acts_upd.
Qed.

Lemma acts_at_start h s w w' : acts_for h s w w' -> at_session w' h s.
Proof. apply acts_at. Qed.

(** ** Sending *)

Lemma acts_note_send h s w now b :
  at_session w h s ->
  acts_for h s w (if negb (is_wg_keepalive b) then w <| table := note_send_attempt (table w) now |> else w).
Proof. intros Ha. destruct (negb _); [by apply acts_table|by apply acts_refl]. Qed.

Lemma frozen_refl s : frozen s s.
Proof. done. Qed.
Lemma frozen_probe now i s : frozen s (fst (should_probe_direct s now i)).
Proof. unfold should_probe_direct. by case_match. Qed.
Lemma frozen_failure now s : frozen s (note_handshake_failure s now).
Proof. done. Qed.

Lemma acts_probe h s w now session r b :
  at_session w h s -> endpoint session = endpoint s ->
  acts_for h s w (probe_beside_relay now w h session r b).
Proof.
  intros Ha He. unfold probe_beside_relay. destruct (_ && _); [|by apply acts_refl].
  destruct (endpoint session) as [ep|] eqn:Ep; [|by apply acts_refl].
  destruct (should_probe_direct session now _) as [? due]. destruct due; [|by apply acts_refl].
  pose proof (acts_upd h s w (fun s => fst (should_probe_direct s now DIRECT_PROBE_INTERVAL_MICROS))
    (fun s => frozen_probe now _ s) Ha) as H1. set (w1 := upd w h _) in *. clearbody w1.
  assert (permitted s (UdpSend ep b)) as Hp by (simpl; congruence).
  pose proof (acts_emit h s w1 _ Hp (acts_at _ _ _ _ H1)) as H2.
  eapply acts_trans; [exact H1|]. eapply acts_trans; [exact H2|].
  apply acts_upd; [done|]. apply (acts_at _ _ _ _ H2).
Qed.

Lemma acts_send_wire h s w now b : at_session w h s -> acts_for h s w (send_wire now w h b).
Proof.
  intros Ha. pose proof Ha as (session & Hg & (_ & _ & Ek & _ & Ee)). unfold send_wire. rewrite Hg.
  pose proof (acts_note_send h s w now b Ha) as H1. set (w1 := if negb _ then _ else w) in *. clearbody w1.
  eapply acts_trans; [exact H1|]. pose proof (acts_at _ _ _ _ H1) as Ha1.
  destruct (if direct_confirmed session then endpoint session else None) as [ep|] eqn:Ed.
  - assert (permitted s (UdpSend ep b)) as Hp by (simpl; destruct (direct_confirmed session); congruence).
    destruct (is_wg_data_frame b); [|by apply acts_emit].
    pose proof (acts_upd h s w1 (fun s => note_direct_tx s now) (fun _ => frozen_refl _) Ha1) as H2.
    eapply acts_trans; [exact H2|]. apply acts_emit; [done|apply (acts_at _ _ _ _ H2)].
  - destruct (relay (table w1)) as [r|].
    + eapply acts_trans; [by apply acts_probe|]. rewrite Ek. apply acts_relay_out.
      by eapply acts_at, acts_probe.
    + destruct (endpoint session) as [ep|] eqn:Ep; [|by apply acts_refl].
      apply acts_emit; [simpl; congruence|done].
Qed.

Lemma acts_send_floored h s w now b : at_session w h s -> acts_for h s w (send_wire_relay_floored now w h b).
Proof.
  intros Ha. pose proof Ha as (session & Hg & (_ & _ & Ek & _)). unfold send_wire_relay_floored. rewrite Hg, Ek.
  eapply acts_trans; [by apply acts_note_send|]. apply acts_relay_out. by eapply acts_at, acts_note_send.
Qed.

(** ** Receiving *)

Lemma acts_action h s w now via_direct a :
  at_session w h s -> acts_for h s w (apply_wg_action now via_direct w h a).
Proof.
  intros Ha. destruct a as [b|p| |e]; simpl; [by apply acts_send_wire| |by apply acts_refl|by apply acts_refl].
  pose proof Ha as (session & Hg & (_ & _ & _ & Es & _)). rewrite Hg. unfold inner_source_allowed.
  destruct (ipv6_source p) as [src|] eqn:Ep; [|by apply acts_denied].
  destruct (is_allowed_source session src) eqn:Ei; simpl; [|by apply acts_denied].
  apply bool_decide_eq_true in Ei. rewrite Es in Ei.
  eapply acts_trans; [by apply (acts_table h s w (note_inbound_data_frame (table w) now))|].
  pose proof (acts_at _ _ _ _ (acts_table h s w (note_inbound_data_frame (table w) now)
    eq_refl eq_refl eq_refl eq_refl eq_refl eq_refl eq_refl eq_refl Ha)) as Ha1.
  destruct via_direct.
  - pose proof (acts_upd h s _ (fun s => confirm_direct s now) (fun _ => frozen_refl _) Ha1) as H2.
    eapply acts_trans; [exact H2|]. apply acts_emit; [by exists src|apply (acts_at _ _ _ _ H2)].
  - apply acts_emit; [by exists src|done].
Qed.

Lemma acts_drain fuel h s w now via_direct w' :
  at_session w h s -> drain fuel now via_direct w h = Some w' -> acts_for h s w w'.
Proof.
  revert w. induction fuel as [|fuel IH]; intros w Ha; [done|]. cbn [drain].
  destruct (with_tunn w h _) as [w1 a] eqn:Ew. pose proof (acts_with_tunn _ _ _ _ _ _ Ha Ew) as H1.
  pose proof (acts_at _ _ _ _ H1) as Ha1.
  pose proof (acts_action h s w1 now via_direct a Ha1) as H2.
  destruct a; try (intros Hd; eapply acts_trans; [exact H1|]; eapply acts_trans; [exact H2|];
    apply (IH _ (acts_at _ _ _ _ H2) Hd)).
  by intros [= <-].
Qed.

Lemma acts_notes h s w (b : bool) f :
  (forall s, frozen s (f s)) -> at_session w h s -> acts_for h s w (if b then upd w h f else w).
Proof. intros Hf Ha. destruct b; [by apply acts_upd|by apply acts_refl]. Qed.

Lemma acts_process fuel h s w now via_direct datagram w' :
  at_session w h s -> process_inbound_datagram fuel now via_direct w h datagram = Some w' -> acts_for h s w w'.
Proof.
  intros Ha. unfold process_inbound_datagram. destruct (with_tunn w h _) as [w1 a] eqn:Ew.
  pose proof (acts_with_tunn _ _ _ _ _ _ Ha Ew) as H1.
  pose proof (acts_notes h s w1 (via_direct && negb (is_error a)) (fun s => note_direct_rx s now)
    (fun _ => frozen_refl _) (acts_at _ _ _ _ H1)) as H2. set (w2 := if _ && negb (is_error a) then _ else w1) in *.
  pose proof (acts_notes h s w2 (is_wg_handshake_frame datagram && negb (is_error a)) (fun s => note_handshake_rx s via_direct now)
    (fun _ => frozen_refl _) (acts_at _ _ _ _ H2)) as H3. set (w3 := if _ && negb (is_error a) then _ else w2) in *.
  pose proof (acts_action h s w3 now via_direct a (acts_at _ _ _ _ H3)) as H4.
  intros Hd. pose proof (acts_drain _ _ _ _ _ _ _ (acts_at _ _ _ _ H4) Hd) as H5.
  eauto using acts_trans.
Qed.

(** ** Timers, kicks and packets from the host *)

Lemma acts_encapsulate h s w now p : at_session w h s -> acts_for h s w (encapsulate_and_send now w h p).
Proof.
  intros Ha. unfold encapsulate_and_send. destruct (with_tunn w h _) as [w1 a] eqn:Ew.
  pose proof (acts_with_tunn _ _ _ _ _ _ Ha Ew) as H1. pose proof (acts_at _ _ _ _ H1) as Ha1.
  destruct a; try done. eapply acts_trans; [exact H1|]. by apply acts_send_wire.
Qed.

Lemma frozen_rearm s now b c : frozen s (fst (should_rearm_expired s now b c)).
Proof. unfold should_rearm_expired. by case_match. Qed.
Lemma frozen_downgrade now s : frozen s (downgrade now s).
Proof.
  unfold downgrade, downgrade_direct_if_tx_blackholed, downgrade_direct_if_stale.
  repeat case_match; simpl; split_and!; done.
Qed.

Lemma acts_rearm our h s w now :
  at_session w h s -> acts_for h s w (fst (maybe_rearm_expired_session our now w h)).
Proof.
  intros Ha. unfold maybe_rearm_expired_session. destruct (get (table w) h) as [session|]; [|by apply acts_refl].
  destruct (negb _); [by apply acts_refl|]. case_bool_decide as Hr0; [by apply acts_refl|].
  destruct (should_rearm_expired session now _ _) as [? due]. destruct due; simpl; [|by apply acts_refl].
  set (base := rearm_base_micros _).
  pose proof (acts_upd h s w (fun s => fst (should_rearm_expired s now base EXPIRED_REARM_BACKOFF_CAP_MICROS))
    (fun s => frozen_rearm s now base _) Ha) as H1.
  set (w1 := upd w h _) in *. clearbody w1.
  pose proof (acts_upd h s w1 (fun s => reset_handshake s our) (fun _ => frozen_refl _) (acts_at _ _ _ _ H1)) as H2.
  set (w2 := upd w1 h _) in *. clearbody w2.
  destruct (with_tunn w2 h _) as [w3 a] eqn:Ew. pose proof (acts_with_tunn _ _ _ _ _ _ (acts_at _ _ _ _ H2) Ew) as H3.
  pose proof (acts_trans _ _ _ _ _ (acts_trans _ _ _ _ _ H1 H2) H3) as H4.
  simpl. destruct a; try exact H4. eapply acts_trans; [exact H4|apply acts_send_floored, (acts_at _ _ _ _ H4)].
Qed.

Lemma acts_data_probe h s w now my_ula :
  at_session w h s -> acts_for h s w (maybe_direct_data_probe now my_ula w h).
Proof.
  intros Ha. pose proof Ha as (session & Hg & (_ & _ & _ & _ & Ee)). unfold maybe_direct_data_probe. rewrite Hg.
  destruct (relay (table w)) as [r|]; [|by apply acts_refl]. destruct (relay_only r); [by apply acts_refl|].
  destruct (_ || _); [by apply acts_refl|]. destruct (endpoint session) as [ep|] eqn:Ep; [|by apply acts_refl].
  destruct (should_probe_direct session now _) as [? due]. destruct due; simpl; [|by apply acts_refl].
  pose proof (acts_upd h s w (fun s => fst (should_probe_direct s now DIRECT_PROBE_INTERVAL_MICROS))
    (fun s => frozen_probe now _ s) Ha) as H1.
  set (w1 := upd w h _) in *. clearbody w1. destruct (negb _); [done|].
  destruct (with_tunn w1 h _) as [w2 a] eqn:Ew. pose proof (acts_with_tunn _ _ _ _ _ _ (acts_at _ _ _ _ H1) Ew) as H2.
  pose proof (acts_trans _ _ _ _ _ H1 H2) as H3.
  destruct a as [b| | |]; try done. eapply acts_trans; [exact H3|].
  assert (permitted s (UdpSend ep b)) as Hp by (simpl; congruence).
  pose proof (acts_emit h s w2 _ Hp (acts_at _ _ _ _ H3)) as H4. eapply acts_trans; [exact H4|].
  apply acts_upd; [done|]. apply (acts_at _ _ _ _ H4).
Qed.

Lemma acts_tick_session our my_ula h s w now :
  at_session w h s -> acts_for h s w (tick_session our my_ula now w h).
Proof.
  intros Ha. unfold tick_session. pose proof (acts_upd h s w (downgrade now) (frozen_downgrade now) Ha) as H1.
  set (w1 := upd w h _) in *. clearbody w1.
  pose proof (acts_rearm our h s w1 now (acts_at _ _ _ _ H1)) as H2.
  destruct (maybe_rearm_expired_session our now w1 h) as [w2 rearmed]. simpl in H2.
  pose proof (acts_trans _ _ _ _ _ H1 H2) as H12. destruct rearmed; [done|].
  destruct (with_tunn w2 h _) as [w3 a] eqn:Ew. pose proof (acts_with_tunn _ _ _ _ _ _ (acts_at _ _ _ _ H2) Ew) as H3.
  assert (acts_for h s w3 (match a with SendToPeer b => send_wire now w3 h b | _ => w3 end)) as H4.
  { destruct a; [apply acts_send_wire|apply acts_refl..]; apply (acts_at _ _ _ _ H3). }
  eapply acts_trans; [exact H12|]. eapply acts_trans; [exact H3|]. eapply acts_trans; [exact H4|].
  apply acts_data_probe, (acts_at _ _ _ _ H4).
Qed.

Lemma acts_idle_probe my_ula w now :
  exists h, forall s, at_session w h s -> acts_for h s w (maybe_idle_probe now my_ula w).
Proof.
  unfold maybe_idle_probe. destruct (should_emit_idle_probe (table w) now IDLE_PROBE_AFTER_MICROS) as [t due] eqn:Et.
  set (w1 := w <| table := t |>).
  assert (forall h s, at_session w h s -> acts_for h s w w1) as H1.
  { intros h s Ha. unfold should_emit_idle_probe in Et. apply acts_table; try done;
      repeat case_match; by injection Et as <- _. }
  destruct (negb due); [by exists 0%nat; intros; apply H1|].
  destruct (idle_probe_target (table w1)) as [h|]; [|by exists 0%nat; intros; apply H1].
  exists h. intros s Ha. specialize (H1 h s Ha). clearbody w1.
  destruct (get (table w1) h) as [session|]; [|done].
  destruct (with_tunn w1 h _) as [w2 a] eqn:Ew. pose proof (acts_with_tunn _ _ _ _ _ _ (acts_at _ _ _ _ H1) Ew) as H2.
  pose proof (acts_trans _ _ _ _ _ H1 H2) as H4.
  destruct a; try exact H4. eapply acts_trans; [exact H4|apply acts_send_wire, (acts_at _ _ _ _ H4)].
Qed.

Lemma acts_kick h s w now : at_session w h s -> acts_for h s w (kick_convergence_handshake now w h).
Proof.
  intros Ha. unfold kick_convergence_handshake. destruct (with_tunn w h _) as [w1 a] eqn:Ew.
  pose proof (acts_with_tunn _ _ _ _ _ _ Ha Ew) as H1.
  destruct a; try exact H1. eapply acts_trans; [exact H1|apply acts_send_floored, (acts_at _ _ _ _ H1)].
Qed.

(** ** The invariant of the table *)

Lemma acts_get h s w w' j s1 :
  acts_for h s w w' -> get (table w) h = Some s -> get (table w) j = Some s1 ->
  exists s2, get (table w') j = Some s2 /\ frozen s1 s2.
Proof.
  intros Ha Hs Hj. destruct (decide (j = h)) as [->|Hne].
  - assert (s1 = s) as -> by congruence. apply (acts_at _ _ _ _ Ha).
  - exists s1. rewrite (acts_others _ _ _ _ Ha) by done. done.
Qed.

Lemma wf_acts h s w w' :
  acts_for h s w w' -> get (table w) h = Some s -> wf_table (table w) -> wf_table (table w').
Proof.
  intros Ha Hs [[A B C] Hr Hh]. destruct (acts_indexes _ _ _ _ Ha) as (E1 & E2 & E3 & E4 & E5 & _).
  split; [split| |].
  - intros u j. rewrite E1. intros Hu. destruct (A _ _ Hu) as (s1 & Hg & <-).
    destruct (acts_get _ _ _ _ _ _ Ha Hs Hg) as (s2 & Hg2 & F). exists s2. split; [done|]. apply F.
  - intros pk j. rewrite E3, E1. intros Hp. destruct (B _ _ Hp) as (s1 & Hg & <- & Hu).
    destruct (acts_get _ _ _ _ _ _ Ha Hs Hg) as (s2 & Hg2 & F). exists s2. destruct F as (_ & -> & -> & _). done.
  - intros a j. rewrite E2. intros He. destruct (C _ _ He) as [s1 Hg].
    destruct (acts_get _ _ _ _ _ _ Ha Hs Hg) as (s2 & Hg2 & _). by eexists.
  - unfold routes_are. by rewrite E1, E4, E5.
  - intros a u. rewrite E4, E1. apply Hh.
Qed.

(** ** Packets from the host *)

Lemma session_for_spec t dst h :
  wf_table t -> session_for t dst = Some h ->
  exists s, get t h = Some s /\ by_ula t !! ula s = Some h /\ (ula s = dst \/ app_routes t !! dst = Some (ula s)).
Proof.
  intros [Hi _ _]. unfold session_for. destruct (by_ula t !! dst) as [j|] eqn:Ed.
  - intros [= <-]. destruct (wf_ula _ Hi _ _ Ed) as (s & Hg & <-). exists s. split_and!; [done|done|by left].
  - intros (u & Hu & Hb)%bind_Some. destruct (wf_ula _ Hi _ _ Hb) as (s & Hg & <-).
    exists s. split_and!; [done|done|by right].
Qed.

(** C10: A packet the host sends into the mesh leaves for the peer that owns its
    destination and for nobody else: either nothing happens at all, or the
    destination is the address of a live peer or of an app routed to it, and
    whatever is sent goes to that peer's endpoint or to the relay under that
    peer's key, with every other session, index and route left as it was. *)
Theorem tun_read_reaches_owner now my_ula w packet :
  wf_table (table w) ->
  let w' := tun_read now my_ula w packet in
  w' = w \/
  exists dst h s, ipv6_destination packet = Some dst /\ dst <> my_ula
    /\ get (table w) h = Some s /\ by_ula (table w) !! ula s = Some h
    /\ (ula s = dst \/ app_routes (table w) !! dst = Some (ula s))
    /\ acts_for h s w w'.
Proof.
  intros Hw. cbn zeta. unfold tun_read. destruct (ipv6_destination packet) as [dst|]; [|by left].
  case_bool_decide as Hm; [by left|]. destruct (session_for (table w) dst) as [h|] eqn:Es; [|by left].
  destruct (session_for_spec _ _ _ Hw Es) as (s & Hg & Hu & Hd). right. exists dst, h, s.
  split_and!; try done. apply acts_encapsulate. by exists s.
Qed.

(** ** Frames from the relay *)

Lemma inbound_acts fuel now w buf w' :
  wf_table (table w) -> handle_inbound fuel now w buf = Some w' ->
  w' = w \/
  exists src payload h s, decode_relay_frame buf = Some (src, payload)
    /\ get (table w) h = Some s /\ peer_pubkey s = src /\ by_ula (table w) !! ula s = Some h
    /\ acts_for h s w w'.
Proof.
  intros [Hi _ _]. unfold handle_inbound. destruct (decode_relay_frame buf) as [[src payload]|].
  2: { intros [= <-]. by left. }
  destruct (by_pubkey (table w) !! src) as [h|] eqn:Ep; [|intros [= <-]; by left].
  destruct (wf_pubkey _ Hi _ _ Ep) as (s & Hg & Hk & Hu). intros Hp. right.
  exists src, payload, h, s. split_and!; try done. apply (acts_process _ _ _ _ _ _ _ _ ltac:(by exists s) Hp).
Qed.

(** C11: A frame from the relay is processed by the live session of the key it names, and
    has no other effect: the packets it puts on the host carry a source that this
    peer may use, and every answer goes to this peer. A frame under any other key
    does nothing. *)
Theorem relay_frame_confined fuel now w buf w' :
  wf_table (table w) -> handle_inbound fuel now w buf = Some w' ->
  w' = w \/
  exists src payload h s, decode_relay_frame buf = Some (src, payload)
    /\ get (table w) h = Some s /\ peer_pubkey s = src /\ by_ula (table w) !! ula s = Some h
    /\ acts_for h s w w'.
Proof. apply inbound_acts. Qed.

(** ** Datagrams *)

Lemma elem_of_snapshot `{!TableOrderLaws} t h : h ∈ snapshot t <-> exists u, by_ula t !! u = Some h.
Proof.
  unfold snapshot. rewrite list_elem_of_fmap. split.
  - intros ([u x] & -> & Hin). rewrite iter_ulas_perm in Hin. exists u. by apply elem_of_map_to_list in Hin.
  - intros [u Hu]. exists (u, h). split; [done|]. rewrite iter_ulas_perm. by apply elem_of_map_to_list.
Qed.

(** The same table as far as the rest of the joiner can see, sessions frozen. *)
Definition undisturbed w w' : Prop :=
  by_ula (table w') = by_ula (table w) /\ by_pubkey (table w') = by_pubkey (table w)
  /\ app_routes (table w') = app_routes (table w) /\ route_sink (table w') = route_sink (table w).

Lemma acts_undisturbed h s w w' : acts_for h s w w' -> undisturbed w w'.
Proof. intros Ha. by destruct (acts_indexes _ _ _ _ Ha) as (? & ? & ? & ? & ? & ?). Qed.

Lemma permitted_frozen s s' o : frozen s s' -> permitted s' o -> permitted s o.
Proof. intros (_ & _ & _ & Ea & Ee). destruct o; simpl; by rewrite ?Ea, ?Ee. Qed.

(** The session after its peer was heard from [addr]. *)
Definition heard_from s (addr : SocketAddr) : PeerSession := s <| endpoint := Some addr |>.

Lemma learn_session t h s addr :
  get t h = Some s -> exists s', get (learn_endpoint t h addr) h = Some s' /\ frozen (heard_from s addr) s'.
Proof.
  intros Hg. unfold learn_endpoint. rewrite get_modify, decide_True by done.
  change (get (t <| by_endpoint := <[addr := h]> (by_endpoint t) |>) h) with (get t h). rewrite Hg. simpl.
  eexists. split; [done|]. case_bool_decide; by split_and!.
Qed.

(** What a datagram that belongs to [h] may lead to. *)
Definition confined w w' (candidates : list Arc) (addr : SocketAddr) : Prop :=
  wf_table (table w') /\ undisturbed w w'
  /\ exists new, out w' = out w ++ new
     /\ (new = [] \/ exists h s, h ∈ candidates /\ get (table w) h = Some s
           /\ (Forall (permitted s) new \/ Forall (permitted (heard_from s addr)) new)).

Lemma try_sessions_confined fuel now addr datagram candidates w w' :
  wf_table (table w) -> (forall h, h ∈ candidates -> is_Some (get (table w) h)) ->
  try_sessions fuel now w candidates addr datagram = Some w' -> confined w w' candidates addr.
Proof.
  revert w. induction candidates as [|h l IH]; intros w Hw Hc.
  { intros [= <-]. split; [done|]. split; [done|]. exists []. rewrite app_nil_r. by split; [|left]. }
  cbn [try_sessions]. destruct (Hc h ltac:(by left)) as [s Hg].
  destruct (with_tunn w h _) as [w1 a] eqn:Ew.
  assert (at_session w h s) as Ha by by exists s.
  pose proof (acts_with_tunn _ _ _ _ _ _ Ha Ew) as H1. pose proof (wf_acts _ _ _ _ H1 Hg Hw) as Hw1.
  pose proof (acts_undisturbed _ _ _ _ H1) as Hu1.
  assert (out w1 = out w) as Eo by (unfold with_tunn in Ew; rewrite Hg in Ew; destruct (decapsulate _ _ _); by injection Ew as <- _).
  assert (try_sessions fuel now w1 l addr datagram = Some w' -> confined w w' (h :: l) addr) as Hnext.
  { intros Ht. destruct (IH w1 Hw1) as (Hw' & Hu & new & En & Hn); [|done|].
    - intros j Hj. destruct (Hc j ltac:(by right)) as [sj Hgj].
      destruct (acts_get _ _ _ _ _ _ H1 Hg Hgj) as (s2 & Hg2 & _). by exists s2.
    - split; [done|]. split.
      { destruct Hu1 as (A & B & C & D), Hu as (A' & B' & C' & D'). split_and!; congruence. }
      exists new. rewrite En, Eo. split; [done|]. destruct Hn as [->|(j & s2 & Hj & Hg2 & Hp)]; [by left|right].
      destruct (Hc j ltac:(by right)) as [sj Hgj]. destruct (acts_get _ _ _ _ _ _ H1 Hg Hgj) as (s3 & Hg3 & F).
      assert (s3 = s2) as -> by congruence. exists j, sj. split_and!; [by right|done|].
      destruct Hp as [Hp|Hp]; [left|right]; eapply Forall_impl; try exact Hp; intros o; apply permitted_frozen; [done|].
      by destruct F as (? & ? & ? & ? & _). }
  assert (drain fuel now true (apply_wg_action now true
      (if is_wg_handshake_frame datagram
       then upd (upd (w1 <| table := learn_endpoint (table w1) h addr |>) h (fun s => note_direct_rx s now)) h (fun s => note_handshake_rx s true now)
       else upd (w1 <| table := learn_endpoint (table w1) h addr |>) h (fun s => note_direct_rx s now)) h a) h = Some w' ->
    confined w w' (h :: l) addr) as Hdone.
  { intros Hd. destruct (acts_at _ _ _ _ H1) as (s1 & Hg1 & F1).
    destruct (learn_session _ _ _ addr Hg1) as (s2 & Hg2 & F2).
    set (w2 := w1 <| table := learn_endpoint (table w1) h addr |>) in *.
    assert (wf_table (table w2)) as Hw2 by (apply wf_learn; [by exists s1|done]).
    assert (at_session w2 h s2) as Ha2 by by exists s2.
    pose proof (acts_upd h s2 w2 (fun s => note_direct_rx s now) (fun _ => frozen_refl _) Ha2) as H3.
    pose proof (acts_notes h s2 _ (is_wg_handshake_frame datagram) (fun s => note_handshake_rx s true now)
      (fun _ => frozen_refl _) (acts_at _ _ _ _ H3)) as H4.
    pose proof (acts_action h s2 _ now true a (acts_at _ _ _ _ H4)) as H5.
    pose proof (acts_drain _ _ _ _ _ _ _ (acts_at _ _ _ _ H5) Hd) as H6.
    pose proof (acts_trans _ _ _ _ _ H3 (acts_trans _ _ _ _ _ H4 (acts_trans _ _ _ _ _ H5 H6))) as Hall.
    split; [by eapply wf_acts|]. split.
    { destruct Hu1 as (A & B & C & D), (acts_undisturbed _ _ _ _ Hall) as (A' & B' & C' & D').
      split_and!; simpl in *; congruence. }
    destruct (acts_out _ _ _ _ Hall) as (new & En & Hp). exists new. simpl in En. rewrite En, Eo. split; [done|].
    right. exists h, s. split_and!; [by left|done|]. right. eapply Forall_impl; [exact Hp|].
    intros o Ho. apply (permitted_frozen (heard_from s1 addr) _ o F2) in Ho. revert Ho.
    apply permitted_frozen. by destruct F1 as (? & ? & ? & ? & _). }
  destruct a; [exact Hdone|exact Hdone|exact Hnext|exact Hnext].
Qed.

(** A datagram from the network is processed for one peer: the one its source
    address is indexed under or, for an unknown address, a live one that its
    tunnel accepts, which is then the peer heard from that address. The packets
    it puts on the host carry a source that peer may use, every answer goes to
    that peer's endpoint, and the addresses, keys and routes of the table stay as
    they are. *)
Theorem datagram_confined `{!TableOrderLaws} fuel now w addr datagram w' :
  wf_table (table w) -> udp_recv fuel now w addr datagram = Some w' ->
  confined w w' (match by_endpoint (table w) !! addr with Some h => [h] | None => snapshot (table w) end) addr.
Proof.
  intros Hw. unfold udp_recv. destruct (by_endpoint (table w) !! addr) as [h|] eqn:Ee.
  - intros Hp. destruct (wf_endpoint _ (table_index _ Hw) _ _ Ee) as [s Hg].
    assert (at_session w h s) as Ha by by exists s.
    pose proof (acts_process _ _ _ _ _ _ _ _ Ha Hp) as Hacts.
    split; [by eapply wf_acts|]. split; [by eapply acts_undisturbed|].
    destruct (acts_out _ _ _ _ Hacts) as (new & En & Hn). exists new. split; [done|]. right.
    exists h, s. split_and!; [by left|done|by left].
  - apply try_sessions_confined; [done|]. intros h (u & Hu)%elem_of_snapshot.
    destruct (wf_ula _ (table_index _ Hw) _ _ Hu) as (s & Hg & _). by exists s.
Qed.

(** ** What sending leaves alone

    A field of a session that the notes of the sending side never write. *)
Class SendStable {A} (f : PeerSession -> A) := {
  stable_probe : forall s now i, f (fst (should_probe_direct s now i)) = f s;
  stable_failure : forall s now, f (note_handshake_failure s now) = f s;
  stable_tx : forall s now, f (note_direct_tx s now) = f s;
}.
#[export] Instance stable_confirmed : SendStable direct_confirmed.
Proof. split; intros; try done. unfold should_probe_direct. by case_match. Qed.
#[export] Instance stable_tunn : SendStable tunn.
Proof. split; intros; try done. unfold should_probe_direct. by case_match. Qed.

Definition sees {A} (f : PeerSession -> A) w h : option A := f <$> get (table w) h.

Section Stable.
Context {A} (f : PeerSession -> A) `{!SendStable f}.

Lemma sees_upd w h g j : (forall s, f (g s) = f s) -> sees f (upd w h g) j = sees f w j.
Proof.
  intros Hg. unfold sees. simpl. rewrite get_modify. case_decide; [subst|done].
  destruct (get (table w) h); [|done]. simpl. by rewrite Hg.
Qed.

Lemma sees_probe w now h s r b j : sees f (probe_beside_relay now w h s r b) j = sees f w j.
Proof.
  unfold probe_beside_relay. destruct (_ && _); [|done]. destruct (endpoint s); [|done].
  destruct (should_probe_direct s now _) as [? []]; [|done].
  rewrite sees_upd by (intros; apply stable_failure).
  transitivity (sees f (upd w h (fun s => fst (should_probe_direct s now DIRECT_PROBE_INTERVAL_MICROS))) j); [done|].
  apply sees_upd. intros. apply stable_probe.
Qed.

Lemma sees_send w now h b j : sees f (send_wire now w h b) j = sees f w j.
Proof.
  unfold send_wire. destruct (get (table w) h) as [s|]; [|done].
  set (w1 := if negb (is_wg_keepalive b) then _ else w).
  assert (sees f w1 j = sees f w j) as Ew by (unfold w1; by destruct (negb _)). rewrite <- Ew. clearbody w1.
  destruct (if direct_confirmed s then endpoint s else None) as [ep|].
  - destruct (is_wg_data_frame b); [|done].
    transitivity (sees f (upd w1 h (fun s => note_direct_tx s now)) j); [done|].
    apply sees_upd. intros. apply stable_tx.
  - destruct (relay (table w1)) as [r|]; [|by destruct (endpoint s)].
    transitivity (sees f (probe_beside_relay now w1 h s r b) j); [done|]. apply sees_probe.
Qed.

Lemma sees_floored w now h b j : sees f (send_wire_relay_floored now w h b) j = sees f w j.
Proof.
  unfold send_wire_relay_floored. destruct (get (table w) h) as [s|]; [|done]. by destruct (negb _).
Qed.
End Stable.

Lemma sees_action w now via_direct h a j : sees tunn (apply_wg_action now via_direct w h a) j = sees tunn w j.
Proof.
  destruct a as [b|p| |]; simpl; [apply (sees_send tunn)| |done|done].
  destruct (get (table w) h) as [s|]; [|done]. unfold inner_source_allowed.
  destruct (ipv6_source p); [|done]. destruct (is_allowed_source s i); simpl; [|done].
  destruct via_direct; [|done].
  transitivity (sees tunn (upd (w <| table := note_inbound_data_frame (table w) now |>) h (fun s => confirm_direct s now)) j); [done|].
  by rewrite sees_upd.
Qed.

(** ** The drain loop ends *)

(** The tunnel has at most [n] more packets to flush. *)
Fixpoint flushes (n : nat) (now : Z) (tn : Tunn) : Prop :=
  classify_tunn_result (decapsulate tn now []).2 = ActNothing
  \/ match n with O => False | S n => flushes n now (decapsulate tn now []).1 end.

Lemma drain_total n now via_direct w h tn :
  sees tunn w h = Some tn -> flushes n now tn -> is_Some (drain (S n) now via_direct w h).
Proof.
  revert w tn. induction n as [|n IH]; intros w tn Ht Hf; cbn [drain]; unfold with_tunn;
    apply fmap_Some in Ht as (s & Hg & ->); rewrite Hg; cbn [flushes] in Hf;
    destruct (decapsulate (tunn s) now []) as [tn' res]; simpl in Hf.
  - destruct Hf as [->|[]]. by eexists.
  - destruct (classify_tunn_result res) eqn:Ec; [| |by eexists|];
      destruct Hf as [Hf|Hf]; try discriminate Hf; apply (IH _ tn'); try done;
      rewrite sees_action; unfold sees; simpl; rewrite get_modify, decide_True, Hg; done.
Qed.

(** Processing a datagram always comes to an end: when the tunnel that gets it has
    finitely many packets to flush afterwards, enough turns of the loop produce a
    result. *)
Theorem inbound_terminates n now via_direct w h s datagram :
  get (table w) h = Some s -> flushes n now (decapsulate (tunn s) now datagram).1 ->
  is_Some (process_inbound_datagram (S n) now via_direct w h datagram).
Proof.
  intros Hg Hf. unfold process_inbound_datagram, with_tunn. rewrite Hg.
  destruct (decapsulate (tunn s) now datagram) as [tn res]. simpl in Hf.
  eapply drain_total; [|exact Hf]. rewrite sees_action.
  set (w1 := upd w h _).
  assert (sees tunn w1 h = Some tn) as E1.
  { unfold sees, w1. simpl. by rewrite get_modify, decide_True, Hg. }
  clearbody w1. destruct (via_direct && _), (is_wg_handshake_frame datagram && _); rewrite ?sees_upd; done.
Qed.
End Props.
