(* ===== verification/EndToEnd.v ===== *)
(** * The coordinator and a joiner together

    The two halves of the mesh meet in the bodies of the HTTP answers and in the
    frames of the relay. Here the answers of the coordinator's handlers are fed to
    the joiner's operations, and the frames of one joiner to the coordinator and on
    to another joiner. *)

From S2P Require Import Prelude NetAddr AddrText Json Types Policy RelayFrame Reflexive Auth RosterStore Allocator HolePunch DirectFlags.
From S2P Require Import RelayRegistry Coordinator Apply Registration Heartbeat CoordInv Membership Joining RelayRoute Topology Stream Api Dto ApiProps.
From S2P Require Import PeerSession SessionTable SessionInv CommandGate PeerSync PeerSyncProps DataPlane DataPlaneProps Client Wire.

Open Scope Z_scope.

Section EndToEnd.
Context {EX : Externals} {EXL : ExternalLaws} {IT : Iteration} {ITL : IterationLaws}
  {RS : RosterSerde} {CH : Channels} {CS : ClaimsSerde} {UC : UrlCodec} {PS : PolicySerde} {HC : HeaderCodec}.
Context {NO : Noise} {TO : TableOrder} {TOL : TableOrderLaws} {SG : Signatures} {JT : JsonText} {JTL : JsonTextLaws}.

(** What the client receives when the handler answers [resp]. *)
Definition answer_of (resp : Response) : HttpAnswer := Answer (status resp) (body_text (body resp)).

(** ** The roster as it travels *)

(** Public keys are bytes, and times are of 64 bits. *)
Definition typed_member (f : PeerEntry) : Prop := Forall is_u8 (Types.wg_public_key f) /\ is_i64 (Types.joined_at_micros f).
Definition typed_members (s : Inner) : Prop := forall i f, roster s !! i = Some f -> typed_member f.

(** The member [f] as the joiner reads it. *)
Definition remote_of (f : PeerEntry) : RemotePeer :=
  {| r_peer_id := Types.peer_id f;
     r_wg_public_key := b64_encode (Types.wg_public_key f);
     r_ula := fmt_ipv6 (Types.ula f);
     r_listen_endpoint := Types.listen_endpoint f;
     r_display_name := Types.display_name f;
     r_tags := Types.tags f;
     r_hosted_app_ulas := Types.hosted_app_ulas f;
     r_software_version := Types.software_version f;
     r_mesh_version := Types.mesh_version f;
     r_joined_at_micros := Types.joined_at_micros f |}.

Lemma wire_peer_to_info f : wire_peer (to_info f) = Some (remote_of f).
Proof. unfold wire_peer, to_info, to_info_with_connectivity. simpl. by rewrite uuid_parse_to_string. Qed.

Lemma mapM_fmap_Some {A B C} (f : A -> B) (g : B -> option C) (h : A -> C) l :
  (forall x, g (f x) = Some (h x)) -> mapM g (f <$> l) = Some (h <$> l).
Proof. intros Hf. apply mapM_Some. apply Forall2_fmap_2, Forall_Forall2_diag, Forall_forall. eauto. Qed.

(** The members that [visible_peers] selects. *)
Definition visible_entries (s : Inner) (id : Uuid) (tg : list string) : list PeerEntry :=
  sort_by_key peer_index
    (List.filter (fun e => negb (bool_decide (Types.peer_id e = id)) && can_see (current (policy_store s)) tg (Types.tags e))
       (entries s)).

Lemma visible_entries_spec s id tg f :
  wf_inner s ->
  f ∈ visible_entries s id tg <->
  exists j, roster s !! j = Some f /\ j <> id /\ can_see (current (policy_store s)) tg (Types.tags f) = true.
Proof.
  intros Hwf. pose proof (core_id _ _ _ (inner_core _ Hwf)) as Hid. unfold visible_entries.
  rewrite sort_by_key_perm, list_elem_of_In, filter_In, <- list_elem_of_In, entries_spec, andb_true_iff, negb_true_iff,
    bool_decide_eq_false. split.
  - intros [[j Hj] [Hne Hc]]. exists j. rewrite (Hid _ _ Hj) in Hne. done.
  - intros (j & Hj & Hne & Hc). rewrite (Hid _ _ Hj). by split; [exists j|].
Qed.

Lemma wire_visible s id tg :
  mapM wire_peer (visible_peers s id tg) = Some (remote_of <$> visible_entries s id tg).
Proof. apply mapM_fmap_Some, wire_peer_to_info. Qed.

Lemma typed_visible s id tg : wf_inner s -> typed_members s -> Forall typed_peer (visible_peers s id tg).
Proof.
  intros Hwf Hb. apply Forall_fmap, Forall_forall. intros f (j & Hj & _)%(visible_entries_spec _ _ _ _ Hwf).
  by split; [apply (Hb _ _ Hj)|].
Qed.

(** The joiner reads a member under its address and its key. *)
Lemma remote_info env f :
  wf_ipv6 (Types.ula f) -> length (Types.wg_public_key f) = 32%nat -> Forall is_u8 (Types.wg_public_key f) ->
  exists info, remote_to_info env (remote_of f) = Ok info
    /\ i_ula info = Types.ula f /\ i_wg_public_key info = Types.wg_public_key f /\ i_peer_id info = Types.peer_id f.
Proof.
  intros Hu Hl Hb. unfold remote_to_info, PeerSync.decode_pubkey. simpl.
  rewrite b64_decode_encode, Hl by done. simpl. rewrite parse_fmt_ipv6 by done. by eexists.
Qed.

(** A roster in which no address has two keys gives each address its own. *)
Lemma roster_key_spec infos u k :
  (forall x y, x ∈ infos -> y ∈ infos -> i_ula x = i_ula y -> i_wg_public_key x = i_wg_public_key y) ->
  roster_key infos None u = Some k <-> exists x, x ∈ infos /\ i_ula x = u /\ i_wg_public_key x = k.
Proof.
  intros Hu.
  assert (forall k0, (roster_key infos k0 u = k0 /\ u ∉ i_ula <$> infos)
    \/ exists x, x ∈ infos /\ i_ula x = u /\ roster_key infos k0 u = Some (i_wg_public_key x)) as Hr.
  { clear Hu. unfold roster_key. induction infos as [|x l IH]; intros k0; simpl; [left; split; [done|apply not_elem_of_nil]|].
    destruct (IH (if decide (u = i_ula x) then Some (i_wg_public_key x) else k0)) as [[-> Hn]|(y & Hy & Hyu & ->)].
    - case_decide; [right; exists x; subst; by split; [left|]|left]. split; [done|]. by apply not_elem_of_cons.
    - right. exists y. split; [by right|done]. }
  destruct (Hr None) as [[-> Hn]|(x & Hx & Hxu & ->)].
  - split; [done|]. intros (x & Hx & <- & _). exfalso. apply Hn. by apply list_elem_of_fmap_2.
  - split; [intros [= <-]; by exists x|]. intros (y & Hy & Hyu & <-). f_equal. apply Hu; congruence.
Qed.

(** The member behind an address, as the viewer [id] with tags [tg] may see it. *)
Definition sees_member (s : Inner) (id : Uuid) (tg : list string) (u : Ipv6Addr) (k : list Z) : Prop :=
  exists j f, roster s !! j = Some f /\ j <> id /\ can_see (current (policy_store s)) tg (Types.tags f) = true
    /\ Types.ula f = u /\ Types.wg_public_key f = k.

(** The roster of an answer is, for the joiner, exactly the members it may see. *)
Lemma roster_arrives env s id tg u k :
  wf_inner s -> typed_members s ->
  roster_key (roster_infos env (remote_of <$> visible_entries s id tg)) None u = Some k <-> sees_member s id tg u k.
Proof.
  intros Hwf Hb.
  assert (forall x, x ∈ roster_infos env (remote_of <$> visible_entries s id tg) <->
    exists f, f ∈ visible_entries s id tg /\ remote_to_info env (remote_of f) = Ok x) as Hin.
  { intros x. unfold roster_infos. rewrite list_elem_of_omap. split.
    - intros (r & (f & -> & Hf)%list_elem_of_fmap & Hx). exists f. split; [done|].
      destruct (remote_to_info env (remote_of f)); [by injection Hx as ->|done].
    - intros (f & Hf & Hx). exists (remote_of f). split; [by apply list_elem_of_fmap_2|]. by rewrite Hx. }
  assert (forall f, f ∈ visible_entries s id tg -> exists info, remote_to_info env (remote_of f) = Ok info
    /\ i_ula info = Types.ula f /\ i_wg_public_key info = Types.wg_public_key f) as Hinfo.
  { intros f (j & Hj & _)%(visible_entries_spec _ _ _ _ Hwf).
    destruct (core_entry _ _ _ (inner_core _ Hwf) _ _ Hj) as (Hu & _ & _ & Hl).
    destruct (remote_info env f Hu Hl (proj1 (Hb _ _ Hj))) as (i & Hi & ? & ? & _). by exists i. }
  rewrite roster_key_spec.
  - split.
    + intros (x & (f & Hf & Hx)%Hin & <- & <-). destruct (Hinfo f Hf) as (i & Hi & Hu & Hk).
      assert (i = x) as -> by congruence. apply (visible_entries_spec _ _ _ _ Hwf) in Hf as (j & Hj & Hne & Hc).
      by exists j, f.
    + intros (j & f & Hj & Hne & Hc & <- & <-).
      assert (f ∈ visible_entries s id tg) as Hf by (apply visible_entries_spec; [done|]; by exists j).
      destruct (Hinfo f Hf) as (i & Hi & Hu & Hk). exists i. split; [|done]. apply Hin. by exists f.
  - intros x y (f & Hf & Hx)%Hin (g & Hg & Hy)%Hin Hu.
    destruct (Hinfo f Hf) as (i & Hi & Hfu & Hfk), (Hinfo g Hg) as (i' & Hi' & Hgu & Hgk).
    assert (i = x) as -> by congruence. assert (i' = y) as -> by congruence.
    apply (visible_entries_spec _ _ _ _ Hwf) in Hf as (j1 & Hj1 & _), Hg as (j2 & Hj2 & _).
    assert (j1 = j2) as -> by (eapply (core_ula _ _ _ (inner_core _ Hwf)); eauto; congruence). congruence.
Qed.

(** ** A heartbeat *)

Lemma ensure_success_ok {A} (decode : string -> option A) resp x :
  is_success (status resp) = true -> decode (body_text (body resp)) = Some x ->
  ensure_success decode (answer_of resp) = Some (Ok x).
Proof. intros Hs Hd. unfold ensure_success, answer_of. by rewrite Hs, Hd. Qed.

(** The roster seen by [id] depends on the other members only. *)
Lemma sees_member_elsewhere s s' id e' tg u k :
  roster s' = <[id := e']> (roster s) -> policy_store s' = policy_store s ->
  sees_member s' id tg u k <-> sees_member s id tg u k.
Proof.
  intros Hr Hp. unfold sees_member. rewrite Hp, Hr.
  split; intros (j & f & Hj & Hne & H); exists j, f; rewrite lookup_insert_ne in * by done; done.
Qed.

(** A command that the joiner can read: its times are of 64 bits, its id is one and its
    verb is known. *)
Definition readable (c : NodeCommandDto) : Prop := typed_command c /\ is_Some (wire_command c).

Lemma heartbeat_answer env s observed req id e :
  wf_inner s -> typed_members s -> uuid_parse (hr_peer_id req) = Ok id -> roster s !! id = Some e ->
  (forall c, c ∈ undelivered e (hr_executed_command_ids req) -> readable c) ->
  exists reply, ensure_success heartbeat_of_json (answer_of (heartbeat_handler env s observed req).2) = Some (Ok reply)
    /\ mapM wire_command (undelivered e (hr_executed_command_ids req)) = Some (pending_commands reply)
    /\ forall surroundings u k,
        roster_key (roster_infos surroundings (hb_peers reply)) None u = Some k <-> sees_member s id (Types.tags e) u k.
Proof.
  intros Hwf Hb Hu He Hc. pose proof (wf_heartbeat_handler env s observed req Hwf) as Hw.
  destruct (heartbeat_handler_effect env s observed req id e Hwf Hu He) as (s' & r & e1 & t & Hh & Hk & Hps & Hr & Hp & Hv).
  rewrite Hh in *. cbn [fst snd] in *.
  destruct Hk as (Hcore & _ & Htg & _ & _ & _ & _ & Hjo & _).
  destruct (mapM_is_Some_2 wire_command (undelivered e (hr_executed_command_ids req))) as [cs Hcs].
  { apply Forall_forall. intros c Hin. by apply Hc. }
  assert (typed_members s') as Hb'.
  { intros i f. rewrite Hr, lookup_insert_Some. intros [[<- <-]|[_ Hf]]; [|by eapply Hb].
    unfold typed_member. simpl. destruct Hcore as (_ & -> & _). rewrite Hjo. by eapply Hb. }
  eexists (mkHeartbeatReply (remote_of <$> visible_entries s' id (Types.tags e1)) cs). split_and!.
  - apply ensure_success_ok; [done|]. cbn [body respond]. rewrite heartbeat_arrives.
    + unfold wire_heartbeat. by rewrite Hv, wire_visible, Hp, Hcs.
    + rewrite Hv. by apply typed_visible.
    + rewrite Hp. apply Forall_forall. intros c Hin. by apply Hc.
  - done.
  - intros surroundings u k. cbn [hb_peers]. rewrite roster_arrives by done. rewrite Htg.
    by eapply sees_member_elsewhere.
Qed.

(** C6: A heartbeat brings the joiner to the coordinator's view: the member's own
    heartbeat is answered with a body it can read, and afterwards its live sessions
    are exactly the other members that the policy lets it see, each under its
    address and with its public key. Nothing else is live, its own address is not,
    and what it acknowledges next are the commands delivered with the answer, which
    are those it had not acknowledged with this request. The commands must be ones
    the joiner can read. *)
Theorem heartbeat_synchronises envc env our now post strict requested writes observed relay_only port hosted sv mv
    (s : Inner) (st : HeartbeatState) e :
  let id := shared_peer_id st in
  let req := heartbeat_body st relay_only port hosted sv mv now in
  let undelivered := undelivered e (pending_acks st) in
  wf_inner s -> typed_members s -> wf_table (sessions st) -> roster s !! id = Some e ->
  (forall c, c ∈ undelivered -> readable c) ->
  let '(s', resp) := heartbeat_handler envc s observed req in
  exists reply, ensure_success heartbeat_of_json (answer_of resp) = Some (Ok reply)
    /\ let st' := tick_once env our now post strict requested writes (Ok reply) st in
       wf_inner s' /\ wf_table (sessions st')
       /\ (forall u k, key_at (sessions st') u = Some k <-> sees_member s' id (Types.tags e) u k)
       /\ key_at (sessions st') (Types.ula e) = None
       /\ exists cs, mapM wire_command undelivered = Some cs
            /\ pending_acks st' = (uuid_to_string ∘ nc_command_id) <$> cs.
Proof.
  intros id req und Hwf Hb Ht He Hc.
  assert (uuid_parse (hr_peer_id req) = Ok id) as Hu by apply uuid_parse_to_string.
  destruct (heartbeat_answer envc s observed req id e Hwf Hb Hu He Hc) as (reply & Hr & Hcs & Hk).
  pose proof (wf_heartbeat_handler envc s observed req Hwf) as Hw.
  destruct (heartbeat_handler_effect envc s observed req id e Hwf Hu He) as (s' & r & e1 & t & Hh & _ & Hps & Hro & _).
  rewrite Hh in *. cbn [fst snd] in *. exists reply. split; [done|].
  destruct (tick_cases env our now post strict requested writes (Ok reply) st Ht) as (Hwt & Hkey & _ & _ & Hacks).
  assert (forall u k, key_at (sessions (tick_once env our now post strict requested writes (Ok reply) st)) u = Some k
    <-> sees_member s' id (Types.tags e) u k) as Hall.
  { intros u k. rewrite Hkey, Hk. symmetry. by eapply sees_member_elsewhere. }
  split_and!; [done|done|done| |].
  - destruct (key_at _ (Types.ula e)) as [k|] eqn:E; [exfalso|done].
    rewrite Hkey in E. apply Hk in E as (j & f & Hj & Hne & _ & Hf & _). apply Hne.
    by eapply (core_ula _ _ _ (inner_core _ Hwf)).
  - by exists (pending_commands reply).
Qed.

(** ** After the coordinator lost its roster *)

Lemma heartbeat_unknown env s observed req id :
  uuid_parse (hr_peer_id req) = Ok id -> roster s !! id = None ->
  heartbeat_handler env s observed req = (s, coord_err_to_response (UnknownPeer id)).
Proof. intros Hu He. unfold heartbeat_handler. rewrite Hu. unfold heartbeat. by rewrite He. Qed.

Lemma refresh_existing_joined env s id req claims resolved observed s' entry :
  refresh_existing env s id req claims resolved observed = (s', Ok entry) ->
  exists old, roster s !! id = Some old /\ Types.joined_at_micros entry = Types.joined_at_micros old.
Proof.
  unfold refresh_existing. destruct (roster s !! id) as [old|]; [|done]. intros H. exists old. split; [done|].
  assert (forall realloc, Types.joined_at_micros (refresh_entry env req (stamp_identity req claims) resolved observed realloc old)
    = Types.joined_at_micros old) as Hj by (intros [[? ?]|]; by destruct observed).
  destruct (_ && _); [|injection H as _ <-; apply Hj].
  destruct (allocate _ _) as [a [[i addr]|e]]; simpl in H; [|done].
  destruct (held_by_other _ addr id); [done|]. injection H as _ <-. apply Hj.
Qed.
(** The time a member joined is the coordinator's clock at its first registration. *)
Lemma register_Ok_joined env s req bearer reply observed s' entry outcome :
  register_authenticated env s req bearer reply observed = Some (s', Ok (entry, outcome)) ->
  Types.joined_at_micros entry = wall env
  \/ exists i old, roster s !! i = Some old /\ Types.joined_at_micros entry = Types.joined_at_micros old.
Proof.
  unfold register_authenticated.
  destruct (authenticate s bearer reply) as [[claims|e]|]; [|done..].
  destruct (authorize_fixed_requested_ula _ _) as [[]|]; [|done].
  destruct (Types.decode_pubkey _) as [pubkey|]; [|done].
  destruct (length pubkey =? 32)%nat; simpl; [|done].
  intros H. destruct (Coordinator.by_pubkey s !! pubkey) as [id|].
  - right. exists id. destruct (refresh_existing _ _ _ _ _ _ _) as [s1 [e1|]] eqn:Hr; [|done].
    injection H as _ <- _. by eapply refresh_existing_joined.
  - left. revert H. unfold register_new. destruct (resolve_ula _ _ _) as [s2 [[i addr]|e]]; [|done].
    unfold apply_peer_joined. simpl.
    destruct (uuid_parse _); [|done]. destruct (parse_ipv6 _); [|done]. destruct (held_by_other _ _ _); [done|].
    intros [= _ <- _]. by destruct observed.
Qed.

(** A registration's answer is read as the new id and the roster it may see. *)
Lemma register_answer env s observed headers http req s' resp pk :
  wf_inner s -> roster s !! fresh_id env = None -> typed_members s -> is_i64 (wall env) ->
  rr_wg_public_key req = b64_encode pk -> Forall is_u8 pk ->
  register_handler env s observed headers http req = Some (s', resp) -> is_success (status resp) = true ->
  exists reply e, ensure_success register_of_json (answer_of resp) = Some (Ok reply)
    /\ wf_inner s' /\ roster s' !! rg_peer_id reply = Some e /\ Types.wg_public_key e = pk
    /\ rg_ula reply = fmt_ipv6 (Types.ula e)
    /\ forall surroundings u k, roster_key (roster_infos surroundings (rg_peers reply)) None u = Some k
         <-> sees_member s' (rg_peer_id reply) (Types.tags e) u k.
Proof.
  intros Hwf Hid Hb Hwall Hpk Hu8 H Hs. unfold register_handler in H. apply bind_Some in H as ([s1 r] & Hr & H).
  pose proof (wf_register_authenticated _ _ _ _ _ _ _ _ Hwf Hid Hr) as Hw.
  destruct r as [[entry outcome]|er]; injection H as <- <-.
  2: { exfalso. revert Hs. by destruct er. }
  destruct (register_Ok_effect _ _ _ _ _ _ _ _ _ Hwf Hid Hr) as (Hst & Hkey & _ & Hold).
  unfold Types.decode_pubkey in Hkey. rewrite Hpk, b64_decode_encode in Hkey by done. injection Hkey as Hkey.
  assert (typed_members s1) as Hb1.
  { intros j f Hj. destruct (decide (j = Types.peer_id entry)) as [->|Hne]; [|eapply Hb, Hold; done].
    rewrite Hst in Hj. injection Hj as <-. split; [by rewrite <- Hkey|].
    destruct (register_Ok_joined _ _ _ _ _ _ _ _ _ Hr) as [->|(i & old & Ho & ->)]; [done|by eapply Hb]. }
  exists (mkRegisterReply (Types.peer_id entry) (fmt_ipv6 (Types.ula entry))
    (remote_of <$> visible_entries s1 (Types.peer_id entry) (Types.tags entry))), entry.
  split_and!; try done.
  - apply ensure_success_ok; [done|]. cbn [body respond rp_peers]. rewrite register_arrives by (by apply typed_visible).
    unfold wire_register. simpl. by rewrite uuid_parse_to_string, wire_visible.
  - intros surroundings u k. by apply roster_arrives.
Qed.

(** The coordinator serves the [n]th registration of the joiner, and the joiner reads its
    answer. *)
Definition serves_attempt (post : nat -> option string -> Result RegisterReply JoinerError)
    inputs port sv mv observed (n : nat) (requested : option string) (s s' : Inner) (resp : Response) : Prop :=
  exists envr headers http,
    roster s !! fresh_id envr = None /\ is_i64 (wall envr)
    /\ register_handler envr s observed headers http (register_body inputs port sv mv requested) = Some (s', resp)
    /\ Some (post n requested) = ensure_success register_of_json (answer_of resp).

(** It accepts the registration, or refuses the requested address, which the joiner does
    not insist on, and accepts the one without a request. *)
Definition accepts_joiner (post : nat -> option string -> Result RegisterReply JoinerError)
    inputs port sv mv observed (requested : option string) (s s' : Inner) : Prop :=
  (exists resp, serves_attempt post inputs port sv mv observed 0 requested s s' resp /\ is_success (status resp) = true)
  \/ exists s1 resp1 resp2, strict_requested_ula inputs = false
       /\ serves_attempt post inputs port sv mv observed 0 requested s s1 resp1 /\ status resp1 = 409
       /\ serves_attempt post inputs port sv mv observed 1 None s1 s' resp2 /\ is_success (status resp2) = true.

Lemma attempt_accepted post inputs port sv mv observed n requested s s' resp :
  wf_inner s -> typed_members s -> Forall is_u8 (our_public inputs) ->
  serves_attempt post inputs port sv mv observed n requested s s' resp -> is_success (status resp) = true ->
  exists reply e, post n requested = Ok reply /\ roster s' !! rg_peer_id reply = Some e
    /\ Types.wg_public_key e = our_public inputs
    /\ forall surroundings u k, roster_key (roster_infos surroundings (rg_peers reply)) None u = Some k
         <-> sees_member s' (rg_peer_id reply) (Types.tags e) u k.
Proof.
  intros Hwf Hb Hu8 (envr & headers & http & Hfr & Hwall & Hreg & Hpost) Hs.
  destruct (register_answer envr s observed headers http (register_body inputs port sv mv requested) s' resp (our_public inputs)
    Hwf Hfr Hb Hwall eq_refl Hu8 Hreg Hs) as (reply & e & Hr & Hw & He & Hk & _ & Hros).
  exists reply, e. split_and!; try done. congruence.
Qed.

Lemma attempt_refused post inputs port sv mv observed n requested s s' resp :
  wf_inner s -> typed_members s -> serves_attempt post inputs port sv mv observed n requested s s' resp ->
  status resp = 409 -> post n requested = Err (HttpStatus 409) /\ wf_inner s' /\ typed_members s'.
Proof.
  intros Hwf Hb (envr & headers & http & Hfr & _ & Hreg & Hpost) Hs. split.
  { revert Hpost. unfold ensure_success, answer_of. rewrite Hs. change (is_success 409) with false. cbn [negb].
    destruct (body_excerpt_text _); [|done]. by intros [= ->]. }
  unfold register_handler in Hreg. apply bind_Some in Hreg as ([s1 r1] & Hr & H).
  pose proof (wf_register_authenticated _ _ _ _ _ _ _ _ Hwf Hfr Hr) as Hw.
  destruct r1 as [[entry outcome]|er]; injection H as <- <-; [done|]. split; [done|].
  destruct (refused_join_admits_nobody _ _ _ _ _ _ _ _ Hwf Hr) as (Hsub & _).
  intros j f Hj. eapply Hb. by eapply lookup_weaken.
Qed.

Lemma joiner_accepted post inputs port sv mv observed requested s s' :
  wf_inner s -> typed_members s -> Forall is_u8 (our_public inputs) ->
  accepts_joiner post inputs port sv mv observed requested s s' ->
  exists reply e, register_with_409_fallback post (strict_requested_ula inputs) requested = Ok reply
    /\ roster s' !! rg_peer_id reply = Some e /\ Types.wg_public_key e = our_public inputs
    /\ forall surroundings u k, roster_key (roster_infos surroundings (rg_peers reply)) None u = Some k
         <-> sees_member s' (rg_peer_id reply) (Types.tags e) u k.
Proof.
  intros Hwf Hb Hu8 [(resp & Ha & Hs)|(s1 & resp1 & resp2 & Hstrict & Ha & Hs & Ha2 & Hs2)]; unfold register_with_409_fallback.
  - destruct (attempt_accepted _ _ _ _ _ _ _ _ _ _ _ Hwf Hb Hu8 Ha Hs) as (reply & e & -> & H). by exists reply, e.
  - destruct (attempt_refused _ _ _ _ _ _ _ _ _ _ _ Hwf Hb Ha Hs) as (-> & Hw1 & Hb1). rewrite Hstrict.
    destruct (attempt_accepted _ _ _ _ _ _ _ _ _ _ _ Hw1 Hb1 Hu8 Ha2 Hs2) as (reply & e & -> & H). by exists reply, e.
Qed.

(** C8: The mesh heals after the coordinator has lost its roster: the heartbeat of a
    member it does not know leaves it as it is and is answered 404 (in a body that the
    joiner can excerpt without cutting it); a joiner that is not still in the recovery from an earlier loss (that guard is cleared only by an
    accepted heartbeat) then registers again, and when the coordinator accepts that,
    or refuses the requested address with 409 and, unless the joiner insists on it,
    accepts the second registration without one, it goes on under its new id, as the
    member with its own key, and its live sessions are exactly the other members that
    the policy lets the new entry see, whatever it was talking to before. *)
Theorem roster_loss_recovers envc env our now post inputs port requested writes observed
    relay_only hosted sv mv (s s' : Inner) (st : HeartbeatState) :
  let req := heartbeat_body st relay_only port hosted sv mv now in
  let lost := heartbeat_handler envc s observed req in
  wf_inner s -> typed_members s -> wf_table (sessions st) -> Forall is_u8 (our_public inputs) ->
  roster s !! shared_peer_id st = None -> handling_roster_loss st = false ->
  (String.length (body_text (Api.body lost.2)) <= BODY_EXCERPT_MAX)%nat ->
  accepts_joiner post inputs port sv mv observed requested s s' ->
  lost.1 = s /\ ensure_success heartbeat_of_json (answer_of lost.2) = Some (Err (HttpStatus 404))
  /\ let st' := tick_once env our now post (strict_requested_ula inputs) requested writes (Err (HttpStatus 404)) st in
     wf_table (sessions st')
     /\ exists e, roster s' !! shared_peer_id st' = Some e /\ Types.wg_public_key e = our_public inputs
          /\ forall u k, key_at (sessions st') u = Some k <-> sees_member s' (shared_peer_id st') (Types.tags e) u k.
Proof.
  intros req lost Hwf Hb Ht Hu8 Hid Hl Hlen Hacc.
  assert (lost = (s, coord_err_to_response (UnknownPeer (shared_peer_id st)))) as El.
  { apply heartbeat_unknown; [apply uuid_parse_to_string|done]. }
  rewrite El in *. cbn [fst snd] in *.
  destruct (joiner_accepted _ _ _ _ _ _ _ _ _ Hwf Hb Hu8 Hacc) as (reply & e & Hr & He & Hk & Hros).
  split; [done|]. split.
  { unfold ensure_success, answer_of. change (is_success _) with false. cbn [negb]. unfold body_excerpt_text.
    by rewrite (proj2 (Nat.ltb_ge _ _) Hlen). }
  destruct (tick_cases env our now post (strict_requested_ula inputs) requested writes (Err (HttpStatus 404)) st Ht)
    as (Hwt & _ & _ & Hloss).
  destruct (Hloss Hl) as [_ Hcase]. rewrite Hr in Hcase. destruct Hcase as [Hi Hkey].
  split; [done|]. exists e. rewrite Hi. split; [done|]. split; [done|]. intros u k. by rewrite Hkey, Hros.
Qed.

(** ** A packet across the relay *)

Lemma relay_probe now w h session r b :
  SessionTable.relay (table (probe_beside_relay now w h session r b)) = SessionTable.relay (table w).
Proof.
  unfold probe_beside_relay. destruct (_ && _); [|done]. destruct (endpoint session); [|done].
  by destruct (should_probe_direct session now _) as [? []].
Qed.

(** A packet for a peer without a confirmed direct path goes to the relay's lanes,
    under the peer's key, as the one frame that the tunnel makes of it. *)
Lemma tun_read_relays now me w packet dst h ps r tn b :
  ipv6_destination packet = Some dst -> dst <> me -> session_for (table w) dst = Some h -> get (table w) h = Some ps ->
  direct_confirmed ps = false -> SessionTable.relay (table w) = Some r ->
  encapsulate (tunn ps) now packet = (tn, WriteToNetwork b) ->
  SessionTable.relay (table (tun_read now me w packet)) = Some (try_relay r (peer_pubkey ps) b).
Proof.
  intros Hd Hne Hs Hg Hc Hr He. unfold tun_read. rewrite Hd, bool_decide_false, Hs by done.
  unfold encapsulate_and_send, with_tunn. rewrite Hg, He. simpl. unfold send_wire. simpl.
  rewrite get_modify, decide_True, Hg by done. simpl. rewrite Hc.
  destruct (negb (is_wg_keepalive b)); simpl; rewrite Hr; simpl; by rewrite relay_probe; simpl; rewrite Hr.
Qed.

(** A frame that the coordinator forwards. *)
Lemma route_forwards envc s src dst b s' frame :
  route_uplink envc s src (encode_relay_frame dst b) = (s', Some frame) -> length dst = PUBKEY_LEN ->
  exists i j x y, Coordinator.by_pubkey s !! src = Some i /\ Coordinator.by_pubkey s !! dst = Some j
    /\ roster s !! i = Some x /\ roster s !! j = Some y
    /\ can_see (current (policy_store s)) (Types.tags x) (Types.tags y) = true
    /\ b <> [] /\ frame = encode_relay_frame src b
    /\ exists c t prio, conns (Coordinator.relay s) !! dst = Some c /\ pick c prio = Some t
         /\ sent (Coordinator.relay s') = sent (Coordinator.relay s) ++ [(t, frame)].
Proof.
  intros Hr Hl. unfold route_uplink in Hr.
  destruct (decode_relay_frame (encode_relay_frame dst b)) as [[dst' b']|] eqn:Hd; [|done].
  apply decode_relay_frame_Some in Hd as (Hl' & Hb & He). apply app_inj_1 in He as [<- <-]; [|congruence].
  destruct (can_relay s src dst) eqn:Hc; [|done].
  apply can_relay_spec in Hc as (i & j & x & y & Hi & Hj & Hx & Hy & Hv).
  exists i, j, x, y. do 6 (split; [done|]). revert Hr. cbn [negb].
  match goal with |- context [forward ?rg ?t ?d ?f ?p] => pose proof (forward_accounts rg t d f p) as Hf;
    destruct (forward rg t d f p) as [rr []] end.
  { intros [= <- <-]. split; [done|]. destruct Hf as (Hok & _). destruct (Hok eq_refl) as (c & t & H1 & H2 & _ & H4 & _).
    exists c, t. eexists. split; [exact H1|]. split; [exact H2|]. unfold note_relay_pair_forwarded. simpl. by rewrite Hi, Hj. }
  destruct (_ && _); [|done]. do 2 (destruct (peer_for_pubkey _ _) as [[]|]; [|done]).
  by destruct (take_wake_slot _ _ _) as [? []].
Qed.

(** What a tunnel makes of a datagram is handed to the host if its source is one the
    peer may use. *)
Lemma relayed_delivery now w buf src b h ps tn packet a :
  decode_relay_frame buf = Some (src, b) -> SessionTable.by_pubkey (table w) !! src = Some h -> get (table w) h = Some ps ->
  decapsulate (tunn ps) now b = (tn, WriteToTunnelV6 packet a) -> classify_tunn_result (decapsulate tn now []).2 = ActNothing ->
  exists w', handle_inbound 1 now w buf = Some w'
    /\ DataPlane.out w' = DataPlane.out w ++ (if match ipv6_source packet with Some x => is_allowed_source ps x | None => false end
                          then [TunWrite packet] else []).
Proof.
  intros Hd Hk Hg Hdec Hdone. unfold handle_inbound. rewrite Hd, Hk.
  unfold process_inbound_datagram, with_tunn. rewrite Hg, Hdec. cbn [andb classify_tunn_result].
  set (w1 := if is_wg_handshake_frame b && _ then _ else _).
  assert (exists ps1, get (table w1) h = Some ps1 /\ tunn ps1 = tn /\ allowed_ips ps1 = allowed_ips ps
    /\ DataPlane.out w1 = DataPlane.out w) as (ps1 & Hg1 & Htn & Hal & Ho).
  { unfold w1. destruct (_ && _); simpl; rewrite !get_modify, !decide_True, Hg by done; by eexists. }
  clearbody w1. unfold apply_wg_action. rewrite Hg1. unfold inner_source_allowed.
  assert (forall x, is_allowed_source ps1 x = is_allowed_source ps x) as Has.
  { intros x. unfold is_allowed_source. by rewrite Hal. }
  assert (forall w2, get (table w2) h = Some ps1 -> exists w', drain 1 now false w2 h = Some w' /\ DataPlane.out w' = DataPlane.out w2) as Hdr.
  { intros w2 Hg2. simpl. unfold with_tunn. rewrite Hg2, Htn. destruct (decapsulate tn now []) as [tn' res].
    simpl in Hdone. rewrite Hdone. by eexists. }
  destruct (ipv6_source packet) as [x|]; [rewrite <- Has; destruct (is_allowed_source ps1 x)|]; cbn [negb];
    match goal with |- context [drain 1 now false ?w2 h] => destruct (Hdr w2) as (w' & -> & Hw'); [exact Hg1|] end;
    eexists; (split; [done|]); rewrite Hw'; simpl; by rewrite ?app_nil_r, Ho.
Qed.

(** C7: A packet from one host to another through the relay: a node that has a relay and
    no confirmed direct path to the peer that owns the destination hands its tunnel's
    frame to the relay under the key of that peer; when the coordinator forwards that
    frame, the two members may see each other, it is handed to a socket connected under
    that key and to nothing else, and the receiving joiner gives it to its session with
    the sender's key; the one packet that this tunnel makes of it reaches the host if
    its source address is one of the sender's, and nothing reaches the host otherwise.
    The lane of the sender and the coordinator change nothing of the frame. *)
Theorem packet_crosses_the_relay envc env_now_a env_now_b me (s s' : Inner) wa wb packet dst ha pa r tn b key_a frame hb pb tb got src :
  ipv6_destination packet = Some dst -> dst <> me -> session_for (table wa) dst = Some ha -> get (table wa) ha = Some pa ->
  direct_confirmed pa = false -> SessionTable.relay (table wa) = Some r ->
  encapsulate (tunn pa) env_now_a packet = (tn, WriteToNetwork b) ->
  length key_a = PUBKEY_LEN -> length (peer_pubkey pa) = PUBKEY_LEN ->
  route_uplink envc s key_a (encode_relay_frame (peer_pubkey pa) b) = (s', Some frame) ->
  wf_table (table wb) -> SessionTable.by_pubkey (table wb) !! key_a = Some hb -> get (table wb) hb = Some pb ->
  decapsulate (tunn pb) env_now_b b = (tb, WriteToTunnelV6 got src) ->
  classify_tunn_result (decapsulate tb env_now_b []).2 = ActNothing ->
  SessionTable.relay (table (tun_read env_now_a me wa packet)) = Some (try_relay r (peer_pubkey pa) b)
  /\ (exists i j x y, Coordinator.by_pubkey s !! key_a = Some i /\ Coordinator.by_pubkey s !! peer_pubkey pa = Some j
        /\ roster s !! i = Some x /\ roster s !! j = Some y
        /\ can_see (current (policy_store s)) (Types.tags x) (Types.tags y) = true)
  /\ (exists c t prio, conns (Coordinator.relay s) !! peer_pubkey pa = Some c /\ pick c prio = Some t
        /\ sent (Coordinator.relay s') = sent (Coordinator.relay s) ++ [(t, frame)])
  /\ peer_pubkey pb = key_a
  /\ exists wb', handle_inbound 1 env_now_b wb frame = Some wb'
       /\ DataPlane.out wb' = DataPlane.out wb
            ++ (if match ipv6_source got with Some x => is_allowed_source pb x | None => false end then [TunWrite got] else []).
Proof.
  intros Hd Hne Hs Hg Hc Hr He Hlen Hlen' Hroute Hwb Hk Hgb Hdec Hdone.
  split; [by eapply tun_read_relays|].
  apply route_forwards in Hroute as (i & j & x & y & Hi & Hj & Hx & Hy & Hsee & Hb & -> & Hto); [|done].
  split; [by exists i, j, x, y|]. split; [exact Hto|]. split.
  - destruct (wf_pubkey _ (table_index _ Hwb) _ _ Hk) as (ps & Hg' & Hkey & _). congruence.
  - eapply relayed_delivery; [|done..]. by apply decode_relay_frame_Some.
Qed.
End EndToEnd.
