(* ===== verification/HeartbeatLoop.v ===== *)
(** * The heartbeat task ([coordinator/heartbeat.rs])

    The loop around [tick_once] of [PeerSync.v], with the requests it sends and the
    answers as they arrive: how often it registers again, what it does after its
    recovery has failed, and how it stops. *)

From S2P Require Import Json Wire.
From S2P Require Import Prelude NetAddr AddrText Types Auth PeerSession SessionTable SessionInv.
From S2P Require Import CommandGate PeerSync PeerSyncProps Client EndToEnd.

Open Scope Z_scope.

Section HeartbeatLoop.
Context {EX : Externals} {NO : Noise} {TO : TableOrder} {TOL : TableOrderLaws} {SG : Signatures} {JT : JsonText}.

(** What the task is started with, apart from its state. *)
Record HeartbeatTask := mkHeartbeatTask {
  our_private : StaticSecret;
  reregister : ReregisterInputs;
  task_listen_port : Z;
  task_software_version : option string;
  task_mesh_version : option string;
}.

(** One tick: what the node hosts, the clocks, the disk of the command gate, and the
    answers to the heartbeat and to each registration it may lead to. *)
Record Pass := mkPass {
  pass_hosted : gset Ipv6Addr;
  pass_env : Surroundings;
  pass_now : Z;
  pass_writes : string -> option (option string);
  beat_answer : HttpAnswer;
  register_answers : nat -> HttpAnswer;
}.

(** What the task sends. *)
Inductive Post := PostedHeartbeat (req : HeartbeatRequest) | PostedRegister (req : RegisterRequest).

Definition is_404 {A} (r : Result A JoinerError) : bool :=
  match r with Err (HttpStatus s) => s =? 404 | _ => false end.
Definition is_409 {A} (r : Result A JoinerError) : bool :=
  match r with Err (HttpStatus s) => s =? 409 | _ => false end.

Definition register_answer_of (p : Pass) (n : nat) : option (Result RegisterReply JoinerError) :=
  ensure_success register_of_json (register_answers p n).

(** The bodies that [register_with_409_fallback] posts through [register_attempt] after
    a loss of the roster; [None] when reading an answer panics. *)
Definition recovery_attempts (task : HeartbeatTask) (p : Pass) : option (list RegisterRequest) :=
  let inputs := reregister task in
  let body := register_body inputs (task_listen_port task) None None in
  r ← register_answer_of p 0;
  if is_409 r && negb (strict_requested_ula inputs) then
    _ ← register_answer_of p 1;
    Some [body (requested_ula inputs); body None]
  else Some [body (requested_ula inputs)].

Definition beat_body (task : HeartbeatTask) (p : Pass) (st : HeartbeatState) : HeartbeatRequest :=
  heartbeat_body st (ri_relay_only (reregister task)) (task_listen_port task) (pass_hosted p)
    (task_software_version task) (task_mesh_version task) (pass_now p).

(** [tick_once] with its requests: the state after it and what was sent; [None] when
    reading an answer panics, which ends the task. *)
Definition tick (task : HeartbeatTask) (p : Pass) (st : HeartbeatState) : option (HeartbeatState * list Post) :=
  let inputs := reregister task in
  reply ← ensure_success heartbeat_of_json (beat_answer p);
  attempts ← (if is_404 reply && negb (handling_roster_loss st) then recovery_attempts task p else Some []);
  let post n (_ : option string) := default (Err OtherError) (register_answer_of p n) in
  Some (tick_once (pass_env p) (our_private task) (pass_now p) post (strict_requested_ula inputs) (requested_ula inputs)
          (pass_writes p) reply st,
        PostedHeartbeat (beat_body task p st) :: (PostedRegister <$> attempts)).

(** What the loop's [select!] is woken by, the shutdown signal first: the value the
    signal has, or a tick, before which other tasks have changed the session table. *)
Inductive Wake := ShutdownChanged (shutdown : bool) | Ticked (found : SessionTable -> SessionTable) (p : Pass).
Inductive RunEnd := Running | Stopped | Crashed.

(** [run]: the state, all that was sent, and how it ended. *)
Fixpoint run (task : HeartbeatTask) (wakes : list Wake) (st : HeartbeatState) : HeartbeatState * list Post * RunEnd :=
  match wakes with
  | [] => (st, [], Running)
  | ShutdownChanged true :: _ => (st, [], Stopped)
  | ShutdownChanged false :: wakes => run task wakes st
  | Ticked found p :: wakes =>
      let st := st <| sessions := found (sessions st) |> in
      match tick task p st with
      | None => (st, [PostedHeartbeat (beat_body task p st)], Crashed)
      | Some (st, posts) =>
          let '(st, rest, ended) := run task wakes st in
          (st, posts ++ rest, ended)
      end
  end.

(** The state the loop begins with. *)
Definition heartbeat_start (sessions : SessionTable) (id : Uuid) (gate : CommandGate) : HeartbeatState :=
  mkHeartbeatState sessions id false [] gate [].

(** ** One tick *)

Lemma run_effects_same our effects st :
  handling_roster_loss (foldl (run_effect our) st effects) = handling_roster_loss st
  /\ shared_peer_id (foldl (run_effect our) st effects) = shared_peer_id st.
Proof.
  revert st. induction effects as [|e effects IH]; intros st; [done|]. cbn [foldl].
  destruct (IH (run_effect our st e)) as [-> ->]. by destruct e.
Qed.

Lemma tick_facts task p st st' posts :
  tick task p st = Some (st', posts) ->
  exists reply attempts, ensure_success heartbeat_of_json (beat_answer p) = Some reply
    /\ posts = PostedHeartbeat (beat_body task p st) :: (PostedRegister <$> attempts)
    /\ (length attempts <= (if is_404 reply && negb (handling_roster_loss st) then 2 else 0))%nat
    /\ handling_roster_loss st' = (match reply with Ok _ => false | Err _ => is_404 reply || handling_roster_loss st end)
    /\ (is_404 reply && negb (handling_roster_loss st) = false -> shared_peer_id st' = shared_peer_id st)
    /\ (is_ok reply = false -> is_404 reply && negb (handling_roster_loss st) = false ->
          sessions st' = sessions st /\ command_gate st' = command_gate st /\ command_sink st' = command_sink st).
Proof.
  unfold tick. destruct (ensure_success heartbeat_of_json _) as [reply|]; [|done]. cbn [mbind option_bind].
  destruct (if is_404 reply && _ then _ else _) as [attempts|] eqn:Ea; [|done]. cbn [mbind option_bind]. intros [= <- <-].
  exists reply, attempts. split; [done|]. split; [done|]. split.
  { destruct (is_404 reply && _); [|by injection Ea as <-]. unfold recovery_attempts in Ea.
    destruct (register_answer_of p 0) as [r|]; [|done]. cbn [mbind option_bind] in Ea.
    destruct (_ && _); [|by injection Ea as <-; simpl; lia].
    destruct (register_answer_of p 1); [|done]. injection Ea as <-. simpl. lia. }
  clear Ea attempts. unfold tick_once. destruct reply as [resp|e].
  - case_bool_decide; [done|]. destruct (process_commands _ _ _ _) as [[g effects] acks].
    match goal with |- context [foldl (run_effect _) ?s0 effects] =>
      destruct (run_effects_same (our_private task) effects s0) as [Hl Hi] end.
    simpl in *. by rewrite Hl, Hi.
  - destruct (decide (e = HttpStatus 404)) as [->|Hne].
    + simpl. destruct (handling_roster_loss st) eqn:El; [by simpl|]. simpl.
      unfold reregister_after_roster_loss. by destruct (register_with_409_fallback _ _ _) as [resp|e'].
    + rewrite not_404 by done.
      assert (is_404 (Err e : Result HeartbeatReply JoinerError) = false) as ->.
      { destruct e as [s|]; [|done]. simpl. destruct (Z.eqb_spec s 404); [by subst|done]. }
      simpl. by destruct (pending_acks st).
Qed.

(** ** The loop *)

Definition registrations (posts : list Post) : list RegisterRequest :=
  omap (fun p => match p with PostedRegister req => Some req | PostedHeartbeat _ => None end) posts.
Lemma registrations_app a b : registrations (a ++ b) = registrations a ++ registrations b.
Proof. apply omap_app. Qed.
Lemma registrations_posted l : registrations (PostedRegister <$> l) = l.
Proof. unfold registrations. induction l as [|x l IH]; [done|]. cbn. by f_equal. Qed.

(** The ticks whose heartbeat is answered with a roster. *)
Definition successes (wakes : list Wake) : nat :=
  length (List.filter (fun w => match w with
    | Ticked _ p => match ensure_success heartbeat_of_json (beat_answer p) with Some (Ok _) => true | _ => false end
    | ShutdownChanged _ => false end) wakes).

(** C40: A coordinator that has lost its roster is not flooded: a node registers again at most
    twice (the second time after a conflict) for each heartbeat that succeeds, and twice
    more when the loop begins with the guard against a second recovery down, as it does
    at the start of the task, however long the loop runs and whatever it is answered. A
    loop that begins with the guard up and hears no roster never registers. *)
Theorem registrations_bounded task wakes st :
  (length (registrations (run task wakes st).1.2)
   <= 2 * (successes wakes + if handling_roster_loss st then 0 else 1))%nat.
Proof.
  revert st. induction wakes as [|[[]|found p] wakes IH]; intros st; cbn [run]; [simpl; lia|simpl; lia|apply IH|].
  set (st1 := st <| sessions := found (sessions st) |>).
  destruct (tick task p st1) as [[st2 posts]|] eqn:Ht; [|simpl; lia].
  apply tick_facts in Ht as (reply & attempts & Hr & -> & Hl & Hf & _).
  specialize (IH st2). destruct (run task wakes st2) as [[st3 rest] ended]. cbn [fst snd] in *.
  rewrite registrations_app. cbn [registrations omap list_omap]. change (omap _ (PostedRegister <$> attempts)) with
    (registrations (PostedRegister <$> attempts)). rewrite length_app, registrations_posted.
  change (handling_roster_loss st1) with (handling_roster_loss st) in *.
  unfold successes in *. cbn [List.filter]. rewrite Hr. destruct reply as [resp|e]; cbn [length].
  - rewrite Hf in IH. simpl in Hl. destruct (handling_roster_loss st); lia.
  - rewrite Hf in IH. destruct (is_404 (Err e)), (handling_roster_loss st); simpl in *; lia.
Qed.

(** Once the signal says so, nothing is sent any more. *)
Lemma shutdown_is_final task before after st :
  (run task (before ++ ShutdownChanged true :: after) st) = (run task (before ++ [ShutdownChanged true]) st).
Proof.
  revert st. induction before as [|[[]|found p] before IH]; intros st; simpl; [done|done|apply IH|].
  destruct (tick task p _) as [[st2 posts]|]; [|done]. by rewrite IH.
Qed.

End HeartbeatLoop.
