(* ===== verification/RelayClient.v ===== *)
(** * The joiner's relay client ([relay/client.rs])

    One task per lane keeps a web socket to a relay: it drains the lane's queue onto
    the socket, hands inbound frames to the data plane, pings, and redials when the
    socket dies, failing over along the ordered list of relays. A connection is a
    sequence of events in any order the scheduler may choose. *)

From S2P Require Import Prelude Text NetAddr Types RelayFrame PeerSession SessionTable SessionInv.
From S2P Require Import DataPlane DataPlaneProps.

Open Scope Z_scope.

(** ** URLs *)

(** [str::split_once] with a string pattern. *)
Fixpoint split_once (pat s : string) : option (string * string) :=
  match strip_prefix pat s with
  | Some rest => Some (EmptyString, rest)
  | None =>
      match s with
      | EmptyString => None
      | String c s => '(before, rest) ← split_once pat s; Some (String c before, rest)
      end
  end.

Definition derive_relay_url (coordinator_url : string) (relay_url : option string) : string :=
  match relay_url with
  | Some url => url
  | None =>
      let trimmed := trim_end_slashes coordinator_url in
      let '(scheme, rest) :=
        match split_once "://" trimmed with
        | None => ("ws", trimmed)
        | Some (s, r) => (if bool_decide (s = "https") || bool_decide (s = "wss") then "wss" else "ws", r)
        end in
      scheme +:+ "://" +:+ rest +:+ "/v1/mesh/relay"
  end.

(** The loop of [resolve_relay_urls]: each URL once, where it is first seen. *)
Definition push_unseen (out : list string) (url : string) : list string :=
  if bool_decide (url ∈ out) then out else out ++ [url].
Definition resolve_relay_urls (coordinator_url : string) (configured : list string) : list string :=
  match configured with
  | [] => [derive_relay_url coordinator_url None]
  | _ => foldl push_unseen [] configured
  end.

(** ** Lanes *)

Inductive RelayLane := Hi | Lo.
Definition as_str (l : RelayLane) : string := match l with Hi => "hi" | Lo => "lo" end.
Definition lane_queue (l : RelayLane) (r : RelayHandle) : list RelayOutbound :=
  match l with Hi => tx_hi r | Lo => tx_lo r end.
Definition set_lane (l : RelayLane) (q : list RelayOutbound) (r : RelayHandle) : RelayHandle :=
  match l with Hi => r <| tx_hi := q |> | Lo => r <| tx_lo := q |> end.

(** [self.outbound_rx.recv()], when something is queued. *)
Definition recv_outbound `{Noise} `{TableOrder} (l : RelayLane) (w : World) : option (RelayOutbound * World) :=
  match relay (table w) with
  | Some r =>
      match lane_queue l r with
      | out :: q => Some (out, w <| table := (table w) <| relay := Some (set_lane l q r) |> |>)
      | [] => None
      end
  | None => None
  end.

(** ** One connection *)

Inductive ConnOutcome := ShutdownRequested | Disconnected (reason : string).

Inductive Message := Ping | Binary (buf : list Z) | Close | OtherMessage.

(** What the loop of [connect_once] waits for, with the instant in milliseconds
    where it reads one, and how the socket's sends go. [Queued] is a datagram that
    another task puts on a lane. *)
Inductive ConnEvent :=
| ShutdownChanged (value : bool)
| LivenessTick (at_ms : Z) (ping_sent : bool)
| Outbound (frame_sent : bool)
| StreamNext (at_ms now_micros : Z) (next : option (option Message))
| Queued (dst : list Z) (bytes : list Z).

Definition IDLE_DEADLINE_MS : Z := 45000.

Section Client.
Context `{Noise} `{TableOrder}.

Record Connection := mkConnection {
  world : World;
  last_rx_ms : Z;
  wire : list Message;  (** what has been sent on the socket *)
}.
#[export] Instance eta_Connection : Eta Connection := fun c =>
  mkConnection (world c) (last_rx_ms c) (wire c).

(** One turn of the loop of [connect_once]; [None] is exhausted fuel of the data
    plane. [Instant::elapsed] never goes below zero. *)
Definition conn_step (fuel : nat) (l : RelayLane) (c : Connection) (e : ConnEvent) : option (Connection * option ConnOutcome) :=
  match e with
  | ShutdownChanged v => Some (c, if v then Some ShutdownRequested else None)
  | LivenessTick at_ms ping_sent =>
      if IDLE_DEADLINE_MS <=? Z.max 0 (at_ms - last_rx_ms c) then Some (c, Some (Disconnected "idle-timeout"))
      else if ping_sent then Some (c <| wire := wire c ++ [Ping] |>, None)
      else Some (c, Some (Disconnected "ping-send-failed"))
  | Outbound frame_sent =>
      match recv_outbound l (world c) with
      | None => Some (c, None)
      | Some (out, w) =>
          let frame := encode_relay_frame (dst_pubkey out) (payload out) in
          let c := c <| world := w |> in
          if frame_sent then Some (c <| wire := wire c ++ [Binary frame] |>, None)
          else Some (c, Some (Disconnected "sink-send-failed"))
      end
  | StreamNext _ _ None => Some (c, Some (Disconnected "stream-ended"))
  | StreamNext _ _ (Some None) => Some (c, Some (Disconnected "stream-error"))
  | StreamNext at_ms now (Some (Some (Binary buf))) =>
      let c := c <| last_rx_ms := at_ms |> in
      w ← handle_inbound fuel now (world c) buf;
      Some (c <| world := w |>, None)
  | StreamNext _ _ (Some (Some Close)) => Some (c, Some (Disconnected "close"))
  | StreamNext at_ms _ (Some (Some _)) => Some (c <| last_rx_ms := at_ms |>, None)
  | Queued dst bytes => Some (c <| world := relay_out (world c) dst bytes |>, None)
  end.

(** The loop; an open connection has no outcome yet. *)
Fixpoint conn_run (fuel : nat) (l : RelayLane) (c : Connection) (es : list ConnEvent)
    : option (Connection * option ConnOutcome) :=
  match es with
  | [] => Some (c, None)
  | e :: es =>
      '(c, o) ← conn_step fuel l c e;
      match o with Some o => Some (c, Some o) | None => conn_run fuel l c es end
  end.

(** ** Reconnecting *)

(** How one attempt goes: whether shutdown is already requested, what dialling
    leads to, and whether the pause after it is cut short by a shutdown. *)
Inductive Dialled := ConnectFailed | ShutdownDuringConnect (value : bool) | Connected (es : list ConnEvent) (at_ms : Z).
Record Attempt := mkAttempt { shutdown_before : bool; dialled : Dialled; shutdown_asleep : bool }.

Definition connect_once (fuel : nat) (l : RelayLane) (w : World) (d : Dialled) : option (World * option ConnOutcome) :=
  match d with
  | ConnectFailed => Some (w, Some (Disconnected "connect-failed"))
  | ShutdownDuringConnect v => Some (w, Some (if v then ShutdownRequested else Disconnected "shutdown-flap"))
  | Connected es at_ms =>
      '(c, o) ← conn_run fuel l (mkConnection w at_ms []) es;
      Some (world c, o)
  end.

Definition backoff : list Z := [1; 2; 5; 10].
Definition backoff_delay (attempt : nat) : Z := default 0 (backoff !! Nat.min attempt (length backoff - 1)).

(** One dial: the URL, and the pause after it when there was one. *)
Record Dial := mkDial { url : string; delay : option Z }.

Definition dial_url (relays : list string) (current : nat) (pubkey_q : string) (l : RelayLane) : string :=
  default EmptyString (relays !! current) +:+ "?pubkey=" +:+ pubkey_q +:+ "&lane=" +:+ as_str l.

Definition fail_over (relays : list string) (current attempt : nat) : nat * nat :=
  let attempt := S attempt in
  let next := ((current + 1) mod length relays)%nat in
  if bool_decide (next <> current) then (next, 0%nat) else (current, attempt).

(** The loop of [run], one attempt after another. *)
Fixpoint run_loop (fuel : nat) (l : RelayLane) (relays : list string) (pubkey_q : string) (current attempt : nat)
    (w : World) (attempts : list Attempt) : option (World * list Dial) :=
  match attempts with
  | [] => Some (w, [])
  | a :: attempts =>
      if shutdown_before a then Some (w, [])
      else
        let u := dial_url relays current pubkey_q l in
        '(w, o) ← connect_once fuel l w (dialled a);
        match o with
        | None => Some (w, [mkDial u None])
        | Some ShutdownRequested => Some (w, [mkDial u None])
        | Some (Disconnected _) =>
            let d := mkDial u (Some (backoff_delay attempt)) in
            if shutdown_asleep a then Some (w, [d])
            else
              let '(current, attempt) := fail_over relays current attempt in
              '(w, dials) ← run_loop fuel l relays pubkey_q current attempt w attempts;
              Some (w, d :: dials)
        end
  end.

Definition relay_run (fuel : nat) (l : RelayLane) (insecure_no_mtls : bool) (coordinator_url : string)
    (relay_urls : list string) (pubkey_q : string) (w : World) (attempts : list Attempt) : option (World * list Dial) :=
  if negb insecure_no_mtls then Some (w, [])
  else run_loop fuel l (resolve_relay_urls coordinator_url relay_urls) pubkey_q 0 0 w attempts.

(** ** The list of relays *)

Lemma foldl_push_unseen out l :
  NoDup out -> NoDup (foldl push_unseen out l) /\ (forall u, u ∈ foldl push_unseen out l <-> u ∈ out \/ u ∈ l).
Proof.
  revert out. induction l as [|v l IH]; intros out Hn; simpl; [split; [done|]; set_solver|].
  assert (NoDup (push_unseen out v)) as Hn'.
  { unfold push_unseen. case_bool_decide as Hv; [done|]. apply NoDup_app. split_and!; [done| |by apply NoDup_singleton].
    intros x Hx ->%list_elem_of_singleton. done. }
  destruct (IH _ Hn') as [A B]. split; [done|]. intros u. rewrite B, elem_of_cons. unfold push_unseen.
  case_bool_decide as Hv; [naive_solver|]. rewrite elem_of_app, list_elem_of_singleton. tauto.
Qed.

Lemma resolve_nonempty c l : resolve_relay_urls c l <> [].
Proof.
  destruct l as [|u l]; [done|]. intros He. destruct (foldl_push_unseen [] (u :: l) (NoDup_nil_2)) as [_ Hin].
  assert (u ∈ foldl push_unseen [] (u :: l)) as Hu by (apply Hin; right; by left).
  change (resolve_relay_urls c (u :: l)) with (foldl push_unseen [] (u :: l)) in He. rewrite He in Hu. by apply elem_of_nil in Hu.
Qed.

(** ** Failover *)

(** An attempt that ends in a disconnection, the task going on afterwards. *)
Definition goes_on (fuel : nat) (l : RelayLane) (a : Attempt) : Prop :=
  shutdown_before a = false /\ shutdown_asleep a = false
  /\ forall w, exists w' reason, connect_once fuel l w (dialled a) = Some (w', Some (Disconnected reason)).

(** The pause after the [n]th disconnection in a row. *)
Definition nth_delay (relays : list string) (n : nat) : Z :=
  if (length relays =? 1)%nat then backoff_delay n else 1.

Definition nth_dial (relays : list string) (pubkey_q : string) (l : RelayLane) (n : nat) : Dial :=
  mkDial (dial_url relays (n mod length relays) pubkey_q l) (Some (nth_delay relays n)).

Lemma fail_over_spec relays n a :
  relays <> [] -> nth_delay relays n = backoff_delay a ->
  (length relays = 1%nat -> a = n) ->
  exists a', fail_over relays (n mod length relays) a = ((S n) mod length relays, a')%nat
    /\ nth_delay relays (S n) = backoff_delay a' /\ (length relays = 1%nat -> a' = S n).
Proof.
  intros Hr Hd Ha. unfold fail_over. assert (length relays <> 0)%nat as Hl by by destruct relays.
  assert ((n mod length relays + 1) mod length relays = S n mod length relays)%nat as En.
  { rewrite Nat.Div0.add_mod_idemp_l. f_equal. lia. }
  assert (length relays <> 1%nat -> S n mod length relays <> n mod length relays)%nat as Hne.
  { rewrite <- En. intros H1. pose proof (Nat.mod_upper_bound n (length relays) Hl). set (r := (n mod length relays)%nat) in *.
    destruct (decide (r + 1 < length relays)%nat); [rewrite Nat.mod_small by done; lia|].
    replace (r + 1)%nat with (length relays) by lia. rewrite Nat.Div0.mod_same. lia. }
  rewrite En.
  destruct (decide (length relays = 1%nat)) as [H1|H1].
  - rewrite H1 in *. rewrite !Nat.mod_1_r. rewrite bool_decide_eq_false_2 by (intros Hx; by apply Hx).
    exists (S a). rewrite (Ha eq_refl). split_and!; try done. unfold nth_delay. by rewrite H1.
  - rewrite bool_decide_eq_true_2.
    + exists 0%nat. split_and!; [done| |done]. unfold nth_delay.
      destruct (length relays =? 1)%nat eqn:E; [apply Nat.eqb_eq in E; done|done].
    + by apply Hne.
Qed.

Lemma run_loop_dials fuel l relays q attempts n a w :
  relays <> [] -> nth_delay relays n = backoff_delay a -> (length relays = 1%nat -> a = n) ->
  Forall (goes_on fuel l) attempts ->
  exists w', run_loop fuel l relays q (n mod length relays) a w attempts
    = Some (w', nth_dial relays q l <$> seq n (length attempts)).
Proof.
  intros Hr. revert n a w. induction attempts as [|at_ attempts IH]; intros n a w Hd Ha Hf; [by exists w|].
  apply Forall_cons in Hf as [(Hb & Hs & Hc) Hf]. cbn [run_loop]. rewrite Hb.
  destruct (Hc w) as (w1 & reason & ->). cbn [mbind option_bind]. rewrite Hs.
  destruct (fail_over_spec relays n a Hr Hd Ha) as (a' & -> & Hd' & Ha').
  destruct (IH (S n) a' w1 Hd' Ha' Hf) as (w2 & ->). exists w2. cbn. by rewrite <- Hd.
Qed.

(** The relay client never gives up: however its connections end, it dials again,
    round-robin over the relays it was given (each once, in the order listed, or
    the one derived from the coordinator's address) starting with the first; with
    a single relay it waits 1, 2, 5 and then always 10 seconds, with several it
    always waits one second. Under mTLS it does not dial at all. *)
Theorem relay_redials_round_robin fuel l coordinator_url relay_urls q w attempts :
  Forall (goes_on fuel l) attempts ->
  let relays := resolve_relay_urls coordinator_url relay_urls in
  relays <> [] /\ NoDup relays /\ (relay_urls <> [] -> forall u, u ∈ relays <-> u ∈ relay_urls)
  /\ (exists w', relay_run fuel l true coordinator_url relay_urls q w attempts
        = Some (w', nth_dial relays q l <$> seq 0 (length attempts)))
  /\ relay_run fuel l false coordinator_url relay_urls q w attempts = Some (w, []).
Proof.
  intros Hf relays. pose proof (resolve_nonempty coordinator_url relay_urls) as Hr.
  split; [done|]. split; [|split; [|split; [|done]]].
  - unfold relays. destruct relay_urls as [|u us]; [apply NoDup_singleton|].
    apply (foldl_push_unseen [] (u :: us)), NoDup_nil_2.
  - intros Hne u. unfold relays. destruct relay_urls as [|v us]; [done|].
    destruct (foldl_push_unseen [] (v :: us) NoDup_nil_2) as [_ Hin]. rewrite Hin. set_solver.
  - destruct (run_loop_dials fuel l relays q attempts 0 0 w Hr) as (w' & Hw); [|done|done|].
    + unfold nth_delay. by destruct (length relays =? 1)%nat.
    + exists w'. rewrite <- Hw. unfold relay_run. simpl. f_equal. symmetry. apply Nat.Div0.mod_0_l.
Qed.

(** ** What a lane puts on its socket *)

Definition datagrams (ms : list Message) : list (list Z) :=
  omap (fun m => match m with Binary b => Some b | _ => None end) ms.
Definition encode_outbound (o : RelayOutbound) : list Z := encode_relay_frame (dst_pubkey o) (payload o).

(** What lies on the lane of the table. *)
Definition queued l w : list RelayOutbound := match relay (table w) with Some r => lane_queue l r | None => [] end.

Lemma try_relay_lane l r d b : exists more, lane_queue l (try_relay r d b) = lane_queue l r ++ more.
Proof.
  unfold try_relay. destruct l; simpl; destruct (match head b with Some t => _ | None => _ end); simpl;
    (by eexists) || (exists []; by rewrite app_nil_r).
Qed.

Lemma try_relays_lane l d frames r : exists more,
  lane_queue l (foldl (fun r b => try_relay r d b) r frames) = lane_queue l r ++ more.
Proof.
  revert r. induction frames as [|b frames IH]; intros r; simpl; [exists []; by rewrite app_nil_r|].
  destruct (IH (try_relay r d b)) as [m2 ->]. destruct (try_relay_lane l r d b) as [m1 ->].
  exists (m1 ++ m2). by rewrite app_assoc.
Qed.

Lemma acts_lane l h s w w' : acts_for h s w w' -> exists more, queued l w' = queued l w ++ more.
Proof.
  intros Ha. destruct (acts_relay _ _ _ _ Ha) as [frames Hr]. unfold queued. rewrite Hr.
  destruct (relay (table w)) as [r|]; simpl; [apply try_relays_lane|by exists []].
Qed.

Lemma recv_queued l w out w' :
  recv_outbound l w = Some (out, w') -> queued l w = out :: queued l w'
  /\ (wf_table (table w) -> wf_table (table w')).
Proof.
  unfold recv_outbound, queued. destruct (relay (table w)) as [r|]; [|done].
  destruct (lane_queue l r) as [|o q] eqn:Eq; [done|]. intros [= <- <-]. split; [by destruct l|].
  intros [[A B C] D E]. by split; [split| |].
Qed.

Lemma datagrams_snoc ms m : datagrams (ms ++ [m]) = datagrams ms ++ datagrams [m].
Proof. unfold datagrams. by rewrite omap_app. Qed.

Lemma wf_relay_out w d b : wf_table (table w) -> wf_table (table (relay_out w d b)).
Proof. intros [[A B C] D E]. by split; [split| |]. Qed.

(** What one turn does to the lane and the socket: [sent] went out, [lost] was taken
    off the lane and did not, [more] was queued. *)
Lemma conn_step_lane fuel l c e c' o :
  wf_table (table (world c)) -> conn_step fuel l c e = Some (c', o) ->
  wf_table (table (world c')) /\
  exists sent lost more, queued l (world c) ++ more = sent ++ lost ++ queued l (world c')
    /\ datagrams (wire c') = datagrams (wire c) ++ (encode_outbound <$> sent)
    /\ (lost = [] \/ (o = Some (Disconnected "sink-send-failed") /\ length lost = 1%nat)).
Proof.
  intros Hw.
  assert (forall c1, queued l (world c1) = queued l (world c) -> datagrams (wire c1) = datagrams (wire c) ->
    wf_table (table (world c1)) -> wf_table (table (world c1)) /\
    exists sent lost more, queued l (world c) ++ more = sent ++ lost ++ queued l (world c1)
    /\ datagrams (wire c1) = datagrams (wire c) ++ (encode_outbound <$> sent)
    /\ (lost = [] \/ (o = Some (Disconnected "sink-send-failed") /\ length lost = 1%nat))) as Hsame.
  { intros c1 Hq Hd Hw1. split; [done|]. exists [], [], []. rewrite Hq, Hd, !app_nil_r. (split; [done|]); (split; [done|by left]). }
  destruct e as [v|t ok|ok|t now next|d b]; cbn [conn_step].
  - intros [= <- _]. by apply Hsame.
  - case_match; [intros [= <- _]; by apply Hsame|]. destruct ok; intros [= <- _]; apply Hsame; try done.
    simpl. by rewrite datagrams_snoc, app_nil_r.
  - destruct (recv_outbound l (world c)) as [[out w1]|] eqn:Er; [|intros [= <- _]; by apply Hsame].
    destruct (recv_queued _ _ _ _ Er) as [Hq Hw1]. destruct ok; intros [= <- <-]; simpl; (split; [by apply Hw1|]).
    + exists [out], [], []. rewrite Hq, datagrams_snoc, app_nil_r. (split; [done|]); (split; [done|by left]).
    + exists [], [out], []. rewrite Hq, !app_nil_r. (split; [done|]); (split; [done|by right]).
  - destruct next as [[[|buf| |]|]|]; try (intros [= <- _]; by apply Hsame).
    cbn [world set_field]. destruct (handle_inbound fuel now _ buf) as [w1|] eqn:Eh; [|done]. intros [= <- _].
    simpl in Eh. destruct (inbound_acts fuel now (world c) buf w1 Hw Eh) as [->|(src & p & h & s & _ & Hg & _ & _ & Ha)].
    { by apply Hsame. }
    simpl. split; [by eapply wf_acts|]. destruct (acts_lane l _ _ _ _ Ha) as [more Hm].
    exists [], [], more. rewrite Hm, app_nil_r. (split; [done|]); (split; [done|by left]).
  - intros [= <- _]. simpl. split; [by apply wf_relay_out|].
    assert (exists more, queued l (relay_out (world c) d b) = queued l (world c) ++ more) as [more Hm].
    { unfold queued, relay_out. simpl. destruct (relay (table (world c))) as [r|]; simpl; [apply try_relay_lane|by exists []]. }
    exists [], [], more. rewrite Hm, app_nil_r. (split; [done|]); (split; [done|by left]).
Qed.

(** A connection puts the lane's datagrams on the socket in the order they were
    queued, each once, as the frame the other end decodes; what is still on the
    lane waits for the next connection, and the only one that can be lost is the
    one whose send failed and ended the connection. *)
Theorem lane_in_order fuel l c es c' o :
  wf_table (table (world c)) -> conn_run fuel l c es = Some (c', o) ->
  exists sent lost more, queued l (world c) ++ more = sent ++ lost ++ queued l (world c')
    /\ datagrams (wire c') = datagrams (wire c) ++ (encode_outbound <$> sent)
    /\ (lost = [] \/ (o = Some (Disconnected "sink-send-failed") /\ length lost = 1%nat)).
Proof.
  revert c. induction es as [|e es IH]; intros c Hw; cbn [conn_run].
  { intros [= <- <-]. exists [], [], []. rewrite !app_nil_r. (split; [done|]); (split; [done|by left]). }
  destruct (conn_step fuel l c e) as [[c1 o1]|] eqn:Es; [|done]. cbn [mbind option_bind].
  destruct (conn_step_lane _ _ _ _ _ _ Hw Es) as (Hw1 & sent & lost & more & Hq & Hd & Hl).
  destruct o1 as [o1|]; [intros [= <- <-]; by exists sent, lost, more|]. destruct Hl as [->|[[=] _]].
  intros (sent' & lost' & more' & Hq' & Hd' & Hl')%IH; [|done].
  exists (sent ++ sent'), lost', (more ++ more'). rewrite app_assoc, Hq, fmap_app, Hd', Hd, <- !app_assoc. simpl.
  split_and!; [by rewrite Hq'|done|done].
Qed.

(** ** Dead sockets *)

(** Ticks of the liveness timer and sends, during which nothing arrives. *)
Definition silent (e : ConnEvent) : Prop :=
  match e with StreamNext _ _ _ | ShutdownChanged _ => False | _ => True end.

Lemma silent_last_rx fuel l c es c' o :
  Forall silent es -> conn_run fuel l c es = Some (c', o) -> last_rx_ms c' = last_rx_ms c.
Proof.
  revert c. induction es as [|e es IH]; intros c Hs; cbn [conn_run]; [by intros [= <- _]|].
  apply Forall_cons in Hs as [He Hs]. destruct (conn_step fuel l c e) as [[c1 o1]|] eqn:Es; [|done]. cbn [mbind option_bind].
  assert (last_rx_ms c1 = last_rx_ms c) as E1.
  { destruct e as [v|t ok|ok|t now next|d b]; try done; cbn [conn_step] in Es; repeat case_match; by injection Es as <- _. }
  destruct o1; [by intros [= <- _]|]. intros Hr. by rewrite (IH c1 Hs Hr).
Qed.

(** A half-open socket is found out: once nothing has arrived for 45 seconds the next
    liveness tick ends the connection, so with a tick every 15 seconds it is
    redialled within a minute; and the idle check never ends a connection on
    which something arrived less than 45 seconds before. *)
Theorem half_open_is_detected fuel l c es c' at_ms ping_sent :
  Forall silent es -> conn_run fuel l c es = Some (c', None) -> last_rx_ms c <= at_ms ->
  (IDLE_DEADLINE_MS <= at_ms - last_rx_ms c ->
     conn_run fuel l c (es ++ [LivenessTick at_ms ping_sent]) = Some (c', Some (Disconnected "idle-timeout")))
  /\ (at_ms - last_rx_ms c < IDLE_DEADLINE_MS -> ping_sent = true ->
     conn_run fuel l c (es ++ [LivenessTick at_ms ping_sent]) = Some (c' <| wire := wire c' ++ [Ping] |>, None)).
Proof.
  intros Hs Hr Ht. pose proof (silent_last_rx _ _ _ _ _ _ Hs Hr) as El.
  assert (forall e, conn_run fuel l c (es ++ [e]) = conn_run fuel l c' [e]) as Happ.
  { intros e. clear -Hr. revert c Hr. induction es as [|x es IH]; intros c; cbn [conn_run app]; [by intros [= <-]|].
    destruct (conn_step fuel l c x) as [[c1 [o1|]]|]; [done| |done]. cbn [mbind option_bind]. apply IH. }
  rewrite Happ. cbn [conn_run conn_step]. rewrite El. split.
  - intros Hd. destruct (IDLE_DEADLINE_MS <=? Z.max 0 (at_ms - last_rx_ms c)) eqn:E; [done|lia].
  - intros Hd ->. destruct (IDLE_DEADLINE_MS <=? Z.max 0 (at_ms - last_rx_ms c)) eqn:E; [lia|done].
Qed.
End Client.
