(* ===== verification/Platform.v ===== *)
(** * Addresses of the overlay interface ([platform/mod.rs])

    The joiner configures the host by running [ifconfig], [route] and [ip]. A host
    is anything that can run a program: its state and the result of a run are
    parameters; the functions here say which commands are run and which failures
    count as success. *)

From S2P Require Import Prelude NetAddr Text.

Open Scope Z_scope.

Inductive Os := MacOs | Linux | OtherOs.

(** [Command::output]: the program could not be started, or it ended. The texts are
    those of [from_utf8_lossy]; [status] is the text of the exit status. *)
Inductive CommandOutput :=
| SpawnFailed (e : string)
| Exited (success : bool) (status stdout stderr : string).

(** The build's target and the host's programs. *)
Class Host := {
  HostState : Type;
  target_os : Os;
  invoke : HostState -> string -> list string -> HostState * CommandOutput;
}.

(** [JoinerError::TunSetup]: its message. *)
Abbreviation TunSetup := string (only parsing).

Section Platform.
Context `{Host}.

Definition cmd_repr (program : string) (args : list string) : string := program +:+ " " +:+ string_join " " args.

Definition already_applied (stderr : string) : bool :=
  let lower := to_lowercase stderr in contains lower "already assigned" || contains lower "file exists".

Definition spawn_text (program : string) (args : list string) (e : string) : string :=
  "spawn `" +:+ cmd_repr program args +:+ "`: " +:+ e +:+ " (install iproute2 / make sure " +:+ program +:+ " is on PATH)".
Definition exit_text (program : string) (args : list string) (status stderr : string) : string :=
  "`" +:+ cmd_repr program args +:+ "` exited " +:+ status +:+ ": " +:+ stderr +:+ " (need sudo / CAP_NET_ADMIN?)".

(** What [run_command] makes of the output. *)
Definition command_result (program : string) (args : list string) (o : CommandOutput) : Result unit TunSetup :=
  match o with
  | SpawnFailed e => Err (spawn_text program args e)
  | Exited true _ _ _ => Ok tt
  | Exited false status _ stderr => if already_applied stderr then Ok tt else Err (exit_text program args status stderr)
  end.
Definition run_command (st : HostState) (program : string) (args : list string) : HostState * Result unit TunSetup :=
  let '(st, o) := invoke st program args in (st, command_result program args o).

(** [or_else] with a closure that accepts some messages. *)
Definition or_tolerate (tolerated : string -> bool) (r : HostState * Result unit TunSetup) : HostState * Result unit TunSetup :=
  match r with
  | (st, Err msg) => if tolerated msg then (st, Ok tt) else (st, Err msg)
  | (st, Ok _) => (st, Ok tt)
  end.
Definition lower_has (needles : list string) (msg : string) : bool :=
  existsb (contains (to_lowercase msg)) needles.
Definition has (needles : list string) (msg : string) : bool := existsb (contains msg) needles.

Definition unsupported (st : HostState) : HostState * Result unit TunSetup :=
  (st, Err "unsupported platform — only macOS and Linux are wired").

Definition OVERLAY_ROUTE_PREFIX : string := "fd5a:1f00:1::/48".

Definition assign_ula (st : HostState) (iface : string) (ula : Ipv6Addr) : HostState * Result unit TunSetup :=
  match target_os with
  | MacOs => run_command st "ifconfig" [iface; "inet6"; fmt_ipv6 ula +:+ "/64"; "alias"]
  | Linux => or_tolerate (has ["File exists"]) (run_command st "ip" ["-6"; "addr"; "add"; fmt_ipv6 ula +:+ "/64"; "dev"; iface])
  | OtherOs => unsupported st
  end.

Definition assign_app_ula (st : HostState) (iface : string) (app_ula : Ipv6Addr) : HostState * Result unit TunSetup :=
  match target_os with
  | MacOs => or_tolerate (lower_has ["file exists"; "already assigned"])
               (run_command st "ifconfig" [iface; "inet6"; fmt_ipv6 app_ula +:+ "/128"; "alias"])
  | Linux => or_tolerate (lower_has ["file exists"; "already assigned"])
               (run_command st "ip" ["-6"; "addr"; "add"; fmt_ipv6 app_ula +:+ "/128"; "dev"; iface])
  | OtherOs => unsupported st
  end.

Definition release_app_ula (st : HostState) (iface : string) (app_ula : Ipv6Addr) : HostState * Result unit TunSetup :=
  match target_os with
  | MacOs => or_tolerate (lower_has ["can't assign"; "no such"; "cannot assign"])
               (run_command st "ifconfig" [iface; "inet6"; fmt_ipv6 app_ula +:+ "/128"; "-alias"])
  | Linux => or_tolerate (lower_has ["cannot assign"; "no such"])
               (run_command st "ip" ["-6"; "addr"; "del"; fmt_ipv6 app_ula +:+ "/128"; "dev"; iface])
  | OtherOs => unsupported st
  end.

Definition add_overlay_route (st : HostState) (iface : string) : HostState * Result unit TunSetup :=
  match target_os with
  | MacOs => or_tolerate (has ["File exists"; "already in table"])
               (run_command st "route" ["-n"; "add"; "-inet6"; "-net"; OVERLAY_ROUTE_PREFIX; "-interface"; iface])
  | Linux => or_tolerate (has ["File exists"])
               (run_command st "ip" ["-6"; "route"; "add"; OVERLAY_ROUTE_PREFIX; "dev"; iface])
  | OtherOs => unsupported st
  end.

(** ** Failures *)

(** A pattern in the program's own words is a pattern in the message. *)
Lemma exit_text_has program args status stderr needles :
  lower_has needles stderr = true -> lower_has needles (exit_text program args status stderr) = true.
Proof.
  unfold lower_has. rewrite !existsb_elem. intros (n & Hn & Hc). exists n. split; [done|].
  unfold exit_text. rewrite !to_lowercase_app. do 5 apply contains_app_l. by apply contains_app_r.
Qed.
Lemma spawn_text_has program args e needles :
  lower_has needles e = true -> lower_has needles (spawn_text program args e) = true.
Proof.
  unfold lower_has. rewrite !existsb_elem. intros (n & Hn & Hc). exists n. split; [done|].
  unfold spawn_text. rewrite !to_lowercase_app. do 3 apply contains_app_l. by apply contains_app_r.
Qed.

Lemma run_tolerated st program args tolerated :
  let '(st', r) := or_tolerate tolerated (run_command st program args) in
  let '(st0, o) := invoke st program args in
  st' = st0 /\ match command_result program args o with
               | Ok _ => r = Ok tt
               | Err msg => r = if tolerated msg then Ok tt else Err msg
               end.
Proof.
  unfold run_command. destruct (invoke st program args) as [st' o]. destruct (command_result program args o) as [[]|m]; [done|].
  simpl. by destruct (tolerated m).
Qed.

(** A release is a success when the command succeeds and when the host says that
    there was nothing to release. A host without the [ip] program says "No such file
    or directory" when it is started, and that counts as released too, although the
    address may well be there. *)
Lemma release_outcomes st iface app_ula :
  target_os = Linux ->
  let args := ["-6"; "addr"; "del"; fmt_ipv6 app_ula +:+ "/128"; "dev"; iface] in
  let '(st', r) := release_app_ula st iface app_ula in
  let '(st0, o) := invoke st "ip" args in
  st' = st0 /\ match o with
               | Exited true _ _ _ => r = Ok tt
               | Exited false status _ stderr =>
                   already_applied stderr = true \/ lower_has ["cannot assign"; "no such"] stderr = true -> r = Ok tt
               | SpawnFailed e => lower_has ["cannot assign"; "no such"] e = true -> r = Ok tt
               end.
Proof.
  intros Hos. cbn zeta. unfold release_app_ula. rewrite Hos.
  pose proof (run_tolerated st "ip" ["-6"; "addr"; "del"; fmt_ipv6 app_ula +:+ "/128"; "dev"; iface] (lower_has ["cannot assign"; "no such"])) as Hr.
  destruct (or_tolerate _ _) as [st' r]. destruct (invoke _ _ _) as [st0 o]. destruct Hr as [-> Hr]. split; [done|].
  destruct o as [e|[] status out err]; cbn [command_result] in Hr.
  - intros He. by rewrite spawn_text_has in Hr.
  - done.
  - intros [Ha|Ha]; [by rewrite Ha in Hr|]. destruct (already_applied err); [done|]. by rewrite exit_text_has in Hr.
Qed.
End Platform.
