(* ===== verification/Routes.v ===== *)
(** * Kernel routes of the sessions ([platform/route.rs])

    Every live session has one host route through the overlay interface, either in
    the main table or in a private one that a policy rule selects for packets from
    the joiner's own address. *)

From S2P Require Import Prelude NetAddr AddrText Text Types PeerSession SessionTable SessionInv Platform.

Open Scope Z_scope.

Definition DEFAULT_ROUTE_METRIC : Z := 1024.

Record SourceScope := mkSourceScope { own_ula : Ipv6Addr; scope_table : Z; pref : Z }.

(** FNV-1a, 64 bits *)
Definition fnv_step (h b : Z) : Z := u64_wrapping_mul (Z.lxor h b) 0x100000001b3.
Definition fnv1a64 (bytes : list Z) : Z := foldl fnv_step 0xcbf29ce484222325 bytes.

(** The casts keep the low 32 bits. *)
Definition for_ula (own_ula : Ipv6Addr) : SourceScope :=
  let h := fnv1a64 (octets own_ula) in
  {| own_ula := own_ula;
     scope_table := 256 + (h mod (u32_max - 512)) mod 2 ^ 32;
     pref := 100 + (h mod 32000) mod 2 ^ 32 |}.

(** [{:0>width$x}] *)
Definition fmt_hex_pad (width : nat) (z : Z) : string :=
  let d := digits 16 16 z in
  string_of_bytes (replicate (width - String.length d) 48) +:+ d.
Definition stable_tun_name (own_ula : Ipv6Addr) : string :=
  let h := fnv1a64 (octets own_ula) in
  "tun" +:+ fmt_hex_pad 10 (Z.land h 0xffffffffff).

Section Routes.
Context `{Host}.

Definition tolerate_missing_route : string -> bool :=
  lower_has ["no such process"; "no such file"; "not found"; "not in table"; "does not exist"].

(** ** The policy rule *)

Definition rule_key (scope : SourceScope) : list string :=
  ["from"; fmt_ipv6 (own_ula scope) +:+ "/128"; "lookup"; fmt_u (scope_table scope); "pref"; fmt_u (pref scope)].
Definition rule_args (verb : string) (scope : SourceScope) : list string := ["-6"; "rule"; verb] ++ rule_key scope.

Definition del_source_rule_tolerant (st : HostState) (scope : SourceScope) : HostState :=
  fst (or_tolerate tolerate_missing_route (run_command st "ip" (rule_args "del" scope))).

Definition install_source_rule (st : HostState) (scope : SourceScope) : HostState * Result unit TunSetup :=
  match target_os with
  | Linux =>
      let st := del_source_rule_tolerant st scope in
      run_command st "ip" (rule_args "add" scope)
  | _ => (st, Ok tt)
  end.

Definition flush_args (table : Z) : list string := ["-6"; "route"; "flush"; "table"; fmt_u table].
Definition remove_source_rule (st : HostState) (scope : SourceScope) : HostState :=
  match target_os with
  | Linux =>
      let st := del_source_rule_tolerant st scope in
      fst (or_tolerate tolerate_missing_route (run_command st "ip" (flush_args (scope_table scope))))
  | _ => st
  end.

Definition needle (scope : SourceScope) : string :=
  "from " +:+ fmt_ipv6 (own_ula scope) +:+ " lookup " +:+ fmt_u (scope_table scope).
Definition rule_listing_contains (listing : string) (scope : SourceScope) : bool :=
  existsb (fun l => contains (string_join " " (split_whitespace l)) (needle scope)) (lines listing).

Definition source_rule_present (st : HostState) (scope : SourceScope) : HostState * bool :=
  let '(st, out) := invoke st "ip" ["-6"; "rule"; "show"] in
  (st, match out with Exited true _ stdout _ => rule_listing_contains stdout scope | _ => true end).

Definition reassert_source_rule (st : HostState) (scope : SourceScope) : HostState :=
  match target_os with
  | Linux =>
      let '(st, present) := source_rule_present st scope in
      if present then st else fst (install_source_rule st scope)
  | _ => st
  end.

(** ** Routes *)

(** What identifies a route: the prefix, its metric and its table. *)
Definition route_prefix (u : Ipv6Addr) : string := fmt_ipv6 u +:+ "/128".
Definition ip_route_args (verb : string) (peer_ula : Ipv6Addr) (iface : string) (metric : Z) (table : option Z) : list string :=
  ["-6"; "route"; verb; route_prefix peer_ula; "dev"; iface; "metric"; fmt_u metric]
  ++ match table with Some t => ["table"; fmt_u t] | None => [] end.

Definition macos_route_args (verb : string) (peer_ula : Ipv6Addr) (iface : string) : list string :=
  ["-n"; verb; "-inet6"; "-host"; fmt_ipv6 peer_ula; "-interface"; iface].

Definition add_peer_route (st : HostState) (iface : string) (peer_ula : Ipv6Addr) (metric : Z)
    : HostState * Result unit TunSetup :=
  match target_os with
  | MacOs => run_command st "route" (macos_route_args "add" peer_ula iface)
  | Linux => run_command st "ip" (ip_route_args "add" peer_ula iface metric None)
  | OtherOs => unsupported st
  end.
Definition del_peer_route (st : HostState) (iface : string) (peer_ula : Ipv6Addr) (metric : Z)
    : HostState * Result unit TunSetup :=
  match target_os with
  | MacOs => or_tolerate (lower_has ["not in table"; "no such"])
               (run_command st "route" (macos_route_args "delete" peer_ula iface))
  | Linux => or_tolerate (lower_has ["no such process"; "not found"])
               (run_command st "ip" (ip_route_args "del" peer_ula iface metric None))
  | OtherOs => unsupported st
  end.
Definition add_peer_route_in_table (st : HostState) (iface : string) (peer_ula : Ipv6Addr) (table metric : Z)
    : HostState * Result unit TunSetup :=
  match target_os with
  | Linux => run_command st "ip" (ip_route_args "replace" peer_ula iface metric (Some table))
  | _ => add_peer_route st iface peer_ula metric
  end.
Definition del_peer_route_in_table (st : HostState) (iface : string) (peer_ula : Ipv6Addr) (table metric : Z)
    : HostState * Result unit TunSetup :=
  match target_os with
  | Linux => or_tolerate tolerate_missing_route
               (run_command st "ip" (ip_route_args "del" peer_ula iface metric (Some table)))
  | _ => del_peer_route st iface peer_ula metric
  end.

(** ** The sink of the session table *)

Record TunRouteSink := mkTunRouteSink { sink_iface : string; scope : option SourceScope; route_metric : Z }.
Definition sink_new (iface : string) : TunRouteSink := mkTunRouteSink iface None DEFAULT_ROUTE_METRIC.
Definition source_scoped (iface : string) (s : SourceScope) : TunRouteSink := mkTunRouteSink iface (Some s) DEFAULT_ROUTE_METRIC.
Definition with_route_metric (k : TunRouteSink) (metric : Z) : TunRouteSink :=
  mkTunRouteSink (sink_iface k) (scope k) metric.

(** The body of the task that one call of the sink spawns; the calls for apps are
    the trait's defaults, which do nothing. *)
Definition sink_task (k : TunRouteSink) (st : HostState) (call : RouteSink) : HostState :=
  match call with
  | add_allowed u =>
      fst (match scope k with
           | Some s => add_peer_route_in_table st (sink_iface k) u (scope_table s) (route_metric k)
           | None => add_peer_route st (sink_iface k) u (route_metric k)
           end)
  | remove_allowed u =>
      fst (match scope k with
           | Some s => del_peer_route_in_table st (sink_iface k) u (scope_table s) (route_metric k)
           | None => del_peer_route st (sink_iface k) u (route_metric k)
           end)
  | add_app_route _ | remove_app_route _ => st
  end.

(** The tasks, in the order in which they come to run. *)
Definition run_tasks (k : TunRouteSink) (st : HostState) (calls : list RouteSink) : HostState := foldl (sink_task k) st calls.
End Routes.

(** ** Derived identifiers *)

Lemma fnv_u64 bytes : is_u64 (fnv1a64 bytes).
Proof.
  unfold fnv1a64. apply (foldl_inv is_u64); [intros; apply u64_wrapping_mul_u64|]. vm_compute. by split.
Qed.

Lemma digits_fuel_more k n z : 0 <= z < 16 ^ Z.of_nat (S n) -> digits (S n + k) 16 z = digits (S n) 16 z.
Proof.
  revert z. induction n as [|n IH]; intros z Hz.
  - change (1 + k)%nat with (S k). rewrite !digits_S.
    replace (z / 16 =? 0) with true; [done|]. pose proof (div_fuel 16 ltac:(lia) 0 z Hz) as Hd. simpl in Hd. lia.
  - change (S (S n) + k)%nat with (S (S n + k)). rewrite (digits_S (S n + k)), (digits_S (S n)), (IH (z / 16)); [done|]. apply div_fuel; [lia|done].
Qed.

Lemma fmt_hex_pad_length z : 0 <= z < 2 ^ 40 -> String.length (fmt_hex_pad 10 z) = 10%nat.
Proof.
  intros Hz. unfold fmt_hex_pad. change 16%nat with (10 + 6)%nat at 1 2.
  rewrite (digits_fuel_more 6 9) by (simpl; lia).
  pose proof (digits_length 16 ltac:(lia) 9 z ltac:(simpl; lia)) as Hl. rewrite string_app_length.
  assert (forall n, String.length (string_of_bytes (replicate n 48)) = n) as Hr.
  { clear. intros n. unfold string_of_bytes. induction n as [|n IH]; [done|]. rewrite replicate_S, fmap_cons. cbn [String.string_of_list_ascii String.length]. by rewrite IH. }
  rewrite Hr. lia.
Qed.

(** What a joiner derives from its address stays inside the kernel's limits, for
    every address: the private table is a 32-bit id above every reserved table and
    below the last 256, the preference of its rule comes before that of the main
    table, and the name of its interface has 13 bytes. *)
Theorem derived_ids_in_range u :
  let s := for_ula u in
  own_ula s = u /\ 256 <= scope_table s < u32_max - 256 /\ is_u32 (scope_table s)
  /\ 100 <= pref s < 32100 /\ pref s < 32766
  /\ String.length (stable_tun_name u) = 13%nat.
Proof.
  pose proof (fnv_u64 (octets u)) as Hh. unfold for_ula, stable_tun_name. set (h := fnv1a64 _) in *. clearbody h. cbn [own_ula scope_table pref].
  unfold is_u64, u64_max, is_u32, u32_max in *.
  pose proof (Z.mod_pos_bound h (4294967295 - 512) ltac:(lia)) as H1.
  pose proof (Z.mod_pos_bound h 32000 ltac:(lia)) as H2.
  rewrite (Z.mod_small (h mod (4294967295 - 512))), (Z.mod_small (h mod 32000)) by lia.
  split_and!; try done; try lia.
  rewrite string_app_length, fmt_hex_pad_length; [done|].
  change 0xffffffffff with (Z.ones 40). rewrite Z.land_ones by lia. apply Z.mod_pos_bound. lia.
Qed.

(** ** iproute2 *)

(** The kernel's view of the route of [u]: the texts of prefix, metric and table. *)
Definition route_key (u : Ipv6Addr) (metric : Z) (table : option Z) : list string :=
  [route_prefix u; fmt_u metric] ++ match table with Some t => [fmt_u t] | None => [] end.

(** What the joiner relies on of a Linux host with the privileges: the routes by
    their keys with the device, the rules with their repetitions, and the commands'
    documented effects on them. *)
Class Iproute2 `{Host} := {
  fib : HostState -> gmap (list string) string;
  rules : HostState -> list (list string);
}.
Class Iproute2Laws `{Iproute2} := {
  on_linux : target_os = Linux;
  ip_route_add : forall st u dev m t,
    fib (invoke st "ip" (ip_route_args "add" u dev m t)).1
    = match fib st !! route_key u m t with Some _ => fib st | None => <[route_key u m t := dev]> (fib st) end;
  ip_route_replace : forall st u dev m t,
    fib (invoke st "ip" (ip_route_args "replace" u dev m t)).1 = <[route_key u m t := dev]> (fib st);
  ip_route_del : forall st u dev m t,
    fib (invoke st "ip" (ip_route_args "del" u dev m t)).1
    = if bool_decide (fib st !! route_key u m t = Some dev) then delete (route_key u m t) (fib st) else fib st;
  ip_rule_add : forall st s, rules (invoke st "ip" (rule_args "add" s)).1 ≡ₚ rule_key s :: rules st;
  ip_rule_del : forall st s,
    let l := rules (invoke st "ip" (rule_args "del" s)).1 in
    if bool_decide (rule_key s ∈ rules st) then rules st ≡ₚ rule_key s :: l else l = rules st;
  ip_route_flush : forall st t, rules (invoke st "ip" (flush_args t)).1 = rules st;
  ip_rule_show : forall st, exists status stdout stderr,
    invoke st "ip" ["-6"; "rule"; "show"] = (st, Exited true status stdout stderr)
    /\ forall s, rule_key s ∈ rules st -> exists l, l ∈ lines stdout
         /\ string_join " " (split_whitespace l) = fmt_u (pref s) +:+ ": " +:+ needle s;
}.

Section Properties.
Context `{Iproute2Laws}.

Lemma run_command_state st p args : (run_command st p args).1 = (invoke st p args).1.
Proof. unfold run_command. by destruct (invoke st p args). Qed.
Lemma or_tolerate_state f r : (or_tolerate f r).1 = r.1.
Proof. destruct r as [st [[]|m]]; simpl; [done|]. by destruct (f m). Qed.

(** ** Routes follow the calls *)

Definition sink_key (k : TunRouteSink) (u : Ipv6Addr) : list string := route_key u (route_metric k) (scope_table <$> scope k).

Lemma task_add k st u :
  fib (sink_task k st (add_allowed u))
  = match scope k with
    | Some _ => <[sink_key k u := sink_iface k]> (fib st)
    | None => match fib st !! sink_key k u with Some _ => fib st | None => <[sink_key k u := sink_iface k]> (fib st) end
    end.
Proof.
  cbn [sink_task]. unfold sink_key. destruct (scope k) as [s|]; simpl.
  - unfold add_peer_route_in_table. by rewrite on_linux, run_command_state, ip_route_replace.
  - unfold add_peer_route. by rewrite on_linux, run_command_state, ip_route_add.
Qed.
Lemma task_remove k st u :
  fib (sink_task k st (remove_allowed u))
  = if bool_decide (fib st !! sink_key k u = Some (sink_iface k)) then delete (sink_key k u) (fib st) else fib st.
Proof.
  cbn [sink_task]. unfold sink_key. destruct (scope k) as [s|]; simpl.
  - unfold del_peer_route_in_table. by rewrite on_linux, or_tolerate_state, run_command_state, ip_route_del.
  - unfold del_peer_route. by rewrite on_linux, or_tolerate_state, run_command_state, ip_route_del.
Qed.

Lemma route_key_inj k u v : wf_ipv6 u -> wf_ipv6 v -> sink_key k u = sink_key k v -> u = v.
Proof.
  unfold sink_key, route_key. intros Hu Hv Hk. injection Hk as Hk.
  apply string_app_inv_tail in Hk as Hf.
  apply (f_equal parse_ipv6) in Hf. rewrite !parse_fmt_ipv6 in Hf by done. congruence.
Qed.

(** The calls for one address, in their order. *)
Definition about (u : Ipv6Addr) (c : RouteSink) : bool :=
  match c with add_allowed v | remove_allowed v => bool_decide (v = u) | _ => false end.
Definition call_wf (c : RouteSink) : Prop :=
  match c with add_allowed v | remove_allowed v => wf_ipv6 v | _ => True end.

Lemma routes_left_about l u : u ∈ (routes_left l).1 <-> u ∈ (routes_left (List.filter (about u) l)).1.
Proof.
  unfold routes_left.
  assert (forall r r' : gset Ipv6Addr * gset Ipv6Addr, (u ∈ r.1 <-> u ∈ r'.1) ->
    u ∈ (foldl route_step r l).1 <-> u ∈ (foldl route_step r' (List.filter (about u) l)).1) as Hg; [|by apply Hg].
  induction l as [|c l IH]; intros r r' Hr; [done|]. cbn [List.filter].
  destruct c as [v|v|v|v]; cbn [about]; try (case_bool_decide; [subst v|]); cbn [foldl]; apply IH; simpl; set_solver.
Qed.

Lemma run_tasks_routes k st calls :
  Forall call_wf calls -> (forall u, wf_ipv6 u -> fib st !! sink_key k u = None) ->
  forall u, wf_ipv6 u ->
    fib (run_tasks k st calls) !! sink_key k u
    = if decide (u ∈ (routes_left calls).1) then Some (sink_iface k) else None.
Proof.
  intros Hc Hn. induction calls as [|c calls IH] using rev_ind; intros u Hu; [by apply Hn|].
  apply Forall_app in Hc as [Hc [Hc' _]%Forall_cons_1]. specialize (IH Hc).
  unfold run_tasks in *. rewrite foldl_app, routes_left_snoc. cbn [foldl]. set (st' := foldl (sink_task k) st calls) in *.
  destruct c as [v|v|v|v]; cbn [call_wf route_step fst] in *.
  - rewrite task_add. pose proof (IH v Hc') as Hv.
    destruct (decide (u = v)) as [->|Hne].
    + rewrite decide_True by set_solver. destruct (scope k); [by rewrite lookup_insert_eq|].
      destruct (fib st' !! sink_key k v) eqn:E; [|by rewrite lookup_insert_eq]. rewrite E. by case_decide.
    + assert (sink_key k v <> sink_key k u) as Hk by (intros He; by apply route_key_inj in He).
      assert (forall x, <[sink_key k v := x]> (fib st') !! sink_key k u = fib st' !! sink_key k u) as Hi.
      { intros x. by rewrite lookup_insert_ne. }
      destruct (scope k), (fib st' !! sink_key k v); rewrite ?Hi, IH by done; apply decide_ext; set_solver.
  - rewrite task_remove. destruct (decide (u = v)) as [->|Hne].
    + rewrite decide_False by set_solver. case_bool_decide as Hd; [by rewrite lookup_delete_eq|].
      rewrite (IH v Hu) in Hd |- *. by case_decide.
    + assert (sink_key k v <> sink_key k u) as Hk by (intros He; by apply route_key_inj in He).
      case_bool_decide; rewrite ?lookup_delete_ne, IH by done; apply decide_ext; set_solver.
  - by apply IH.
  - by apply IH.
Qed.

(** C33: The kernel routes exactly the live sessions: once the tasks that the session
    table's calls have spawned have all run, in any order that keeps the calls for
    one address in sequence, an address has the sink's route, through the overlay
    interface, exactly when there is a live session for it, provided the host had
    no such routes when the joiner started. *)
Theorem kernel_routes_follow_sessions `{Noise} `{TableOrder} k st (t : SessionTable) log calls :
  wf_table t -> route_sink t = Some log ->
  Forall call_wf calls -> (forall u, List.filter (about u) calls = List.filter (about u) log) ->
  (forall u, wf_ipv6 u -> fib st !! sink_key k u = None) ->
  forall u, wf_ipv6 u ->
    (is_Some (by_ula t !! u) -> fib (run_tasks k st calls) !! sink_key k u = Some (sink_iface k))
    /\ (by_ula t !! u = None -> fib (run_tasks k st calls) !! sink_key k u = None).
Proof.
  intros Ht Hlog Hc Horder Hn u Hu. rewrite (run_tasks_routes k st calls Hc Hn u Hu).
  pose proof (table_routes _ Ht) as Hr. unfold routes_are in Hr. rewrite Hlog in Hr.
  assert (u ∈ (routes_left calls).1 <-> is_Some (by_ula t !! u)) as Hiff.
  { rewrite routes_left_about, Horder, <- routes_left_about, Hr. simpl. apply elem_of_dom. }
  split; intros Hx.
  - by rewrite decide_True by by apply Hiff.
  - rewrite decide_False; [done|]. rewrite Hiff, Hx. by intros [? ?].
Qed.

(** ** The policy rule *)

Definition copies (s : SourceScope) (st : HostState) : nat := length (filter (.= rule_key s) (rules st)).

Lemma copies_perm s l l' : l ≡ₚ l' -> length (filter (.= rule_key s) l) = length (filter (.= rule_key s) l').
Proof. intros Hp. by rewrite Hp. Qed.

Lemma copies_pos s st : (0 < copies s st)%nat <-> rule_key s ∈ rules st.
Proof.
  unfold copies. split; intros Hx.
  - destruct (filter (.= rule_key s) (rules st)) as [|x l] eqn:E; [simpl in Hx; lia|].
    assert (x ∈ filter (.= rule_key s) (rules st)) as Hin by (rewrite E; by left).
    by apply list_elem_of_filter in Hin as [-> Hin].
  - assert (rule_key s ∈ filter (.= rule_key s) (rules st)) as Hin by by apply list_elem_of_filter.
    destruct (filter (.= rule_key s) (rules st)); [by apply elem_of_nil in Hin|simpl; lia].
Qed.

(** Deleting a rule takes one copy of it away, if there is one. *)
Lemma del_rule_copies st s s' :
  copies s' (del_source_rule_tolerant st s)
  = if decide (rule_key s' = rule_key s) then (copies s' st - 1)%nat else copies s' st.
Proof.
  unfold del_source_rule_tolerant, copies. rewrite or_tolerate_state, run_command_state.
  pose proof (ip_rule_del st s) as Hd. cbn zeta in Hd. case_bool_decide as Hin.
  - apply (copies_perm s') in Hd. rewrite Hd, filter_cons. case_decide as He; case_decide as He'; simpl; try lia; congruence.
  - rewrite Hd. case_decide as He; [|done]. rewrite He. rewrite <- copies_pos in Hin. unfold copies in Hin. lia.
Qed.
Lemma add_rule_copies st s s' :
  copies s' (run_command st "ip" (rule_args "add" s)).1
  = if decide (rule_key s = rule_key s') then S (copies s' st) else copies s' st.
Proof.
  unfold copies. rewrite run_command_state, (copies_perm s' _ _ (ip_rule_add st s)), filter_cons.
  by case_decide.
Qed.

Lemma install_copies st s s' :
  copies s' (fst (install_source_rule st s))
  = if decide (rule_key s' = rule_key s) then (S (copies s' st - 1))%nat else copies s' st.
Proof.
  unfold install_source_rule. rewrite on_linux, add_rule_copies, del_rule_copies. repeat case_decide; congruence.
Qed.
Lemma remove_copies st s s' :
  copies s' (remove_source_rule st s)
  = if decide (rule_key s' = rule_key s) then (copies s' st - 1)%nat else copies s' st.
Proof.
  unfold remove_source_rule. rewrite on_linux. unfold copies at 1.
  rewrite or_tolerate_state, run_command_state, ip_route_flush. apply del_rule_copies.
Qed.

Lemma needle_listed st s : (0 < copies s st)%nat -> snd (source_rule_present st s) = true /\ fst (source_rule_present st s) = st.
Proof.
  intros Hc. unfold source_rule_present.
  destruct (ip_rule_show st) as (status & stdout & stderr & -> & Hl). simpl. split; [|done].
  apply copies_pos in Hc as Hin.
  destruct (Hl s Hin) as (l & Hll & Hj). unfold rule_listing_contains. apply existsb_elem. exists l. split; [done|].
  rewrite Hj. do 2 apply contains_app_l. apply contains_spec. exists EmptyString, EmptyString. by rewrite string_app_nil_r.
Qed.

(** The policy rule over a joiner's life: installing never stacks a second copy and
    leaves exactly one when there was at most one; while the rule is there the
    periodic check only reads and changes nothing; when it was flushed, and the
    listing shows no other rule that matches, the check puts exactly one back;
    leaving takes it away again; and no other rule is ever touched. *)
Theorem source_rule_lifecycle st s s' :
  (copies s (fst (install_source_rule st s)) = Nat.max 1 (copies s st))
  /\ ((0 < copies s st)%nat -> reassert_source_rule st s = st)
  /\ (copies s st = 0%nat -> snd (source_rule_present st s) = false -> copies s (reassert_source_rule st s) = 1%nat)
  /\ ((copies s st <= 1)%nat -> copies s (remove_source_rule st s) = 0%nat)
  /\ (rule_key s' <> rule_key s ->
        copies s' (fst (install_source_rule st s)) = copies s' st
        /\ copies s' (reassert_source_rule st s) = copies s' st
        /\ copies s' (remove_source_rule st s) = copies s' st).
Proof.
  split; [rewrite install_copies, decide_True by done; lia|]. split.
  { intros Hc. destruct (needle_listed st s Hc) as [Hp Hs]. unfold reassert_source_rule. rewrite on_linux.
    destruct (source_rule_present st s) as [st' []]; [exact Hs|done]. }
  assert (fst (source_rule_present st s) = st) as Hs.
  { unfold source_rule_present. by destruct (ip_rule_show st) as (? & ? & ? & -> & _). }
  split.
  { intros Hc Hp. unfold reassert_source_rule. rewrite on_linux. destruct (source_rule_present st s) as [st' p].
    simpl in *. subst. rewrite install_copies, decide_True by done. lia. }
  split; [intros; rewrite remove_copies, decide_True by done; lia|].
  intros Hne. rewrite install_copies, remove_copies, !decide_False by done. split; [done|]. split; [|done].
  unfold reassert_source_rule. rewrite on_linux. destruct (source_rule_present st s) as [st' p]. simpl in Hs. subst st'.
  destruct p; [done|]. by rewrite install_copies, decide_False.
Qed.
End Properties.
