(* ===== verification/Firewall.v ===== *)
(** * The firewall's trust in the overlay interface ([platform/firewall.rs])

    Best effort: failures are only logged. Whether the rule is there is read off the
    listing of the chain, and it is deleted by its position there. *)

From S2P Require Import Prelude NetAddr AddrText Text Platform.

Open Scope Z_scope.

Section Firewall.
Context `{Host}.

Definition rule_args (iface : string) : list string := ["-i"; iface; "-j"; "ACCEPT"].
Definition accept_line (iface : string) : string := "-A INPUT -i " +:+ iface +:+ " -j ACCEPT".

(** [Iterator::position] *)
Fixpoint position {A} (f : A -> bool) (l : list A) : option nat :=
  match l with
  | [] => None
  | x :: l => if f x then Some 0%nat else S <$> position f l
  end.

Definition find_rule_index (listing iface : string) : option nat :=
  S <$> position (fun l => bool_decide (trim l = accept_line iface))
          (List.filter (starts_with "-A INPUT") (lines listing)).

Definition list_input (st : HostState) (bin : string) : HostState * option string :=
  let '(st, out) := invoke st bin ["-S"; "INPUT"] in
  (st, match out with Exited true _ stdout _ => Some stdout | _ => None end).

Definition insert_args (iface : string) : list string := ["-I"; "INPUT"; "1"] ++ rule_args iface.
(** [{}] of a [usize] *)
Definition fmt_usize (n : nat) : string := digits (S n) 10 (Z.of_nat n).
Definition delete_args (index : nat) : list string := ["-D"; "INPUT"; fmt_usize index].

Definition ensure_one (st : HostState) (bin iface : string) : HostState * bool :=
  let '(st, listing) := list_input st bin in
  match listing with
  | None => (st, false)
  | Some listing =>
      match find_rule_index listing iface with
      | Some _ => (st, true)
      | None =>
          let '(st, out) := invoke st bin (insert_args iface) in
          (st, match out with Exited true _ _ _ => true | _ => false end)
      end
  end.

Definition ensure_tun_trust (st : HostState) (iface : string) : HostState * bool :=
  let '(st, v6) := ensure_one st "ip6tables" iface in
  let '(st, _) := ensure_one st "iptables" iface in
  (st, v6).

(** One turn of the loop of [remove_tun_trust]. *)
Definition remove_one (st : HostState) (bin iface : string) : HostState :=
  let '(st, listing) := list_input st bin in
  match listing with
  | None => st
  | Some listing =>
      match find_rule_index listing iface with
      | None => st
      | Some index => fst (invoke st bin (delete_args index))
      end
  end.
Definition remove_tun_trust (st : HostState) (iface : string) : HostState :=
  foldl (fun st bin => remove_one st bin iface) st ["ip6tables"; "iptables"].

(** [trust_loop]: what wakes it, and the messages it logs. *)
Inductive TrustEvent := ShutdownChanged (value : bool) | Tick.
Inductive TrustLog := WarnNotAsserted | InfoRestored.
Fixpoint trust_loop (st : HostState) (iface : string) (warned : bool) (events : list TrustEvent) : HostState * list TrustLog :=
  match events with
  | [] => (st, [])
  | ShutdownChanged true :: _ => (st, [])
  | ShutdownChanged false :: events => trust_loop st iface warned events
  | Tick :: events =>
      let '(st, ok) := ensure_tun_trust st iface in
      if negb ok && negb warned then
        let '(st, log) := trust_loop st iface true events in (st, WarnNotAsserted :: log)
      else if ok && warned then
        let '(st, log) := trust_loop st iface false events in (st, InfoRestored :: log)
      else trust_loop st iface warned events
  end.

End Firewall.

(** ** iptables *)

(** What the joiner relies on of the firewall binaries, when they can be run: the
    rules of the INPUT chain of each family as [-S] prints them, and the documented
    effects of listing, inserting in front and deleting by number. A rule that this
    program inserts is listed by [accept_line]; the names of interfaces have no white
    space in them. *)
Definition iface_ok (iface : string) : Prop :=
  plain_line (accept_line iface) = true /\ trim (accept_line iface) = accept_line iface.
Definition families : list string := ["ip6tables"; "iptables"].
Class Iptables `{Host} := { chain : HostState -> string -> list string }.
Class IptablesLaws `{Iptables} := {
  chain_lines : forall st bin, Forall (fun l => plain_line l = true /\ trim l = l /\ starts_with "-A INPUT" l = true) (chain st bin);
  ipt_list : forall st bin, bin ∈ families -> exists status policy stderr,
    invoke st bin ["-S"; "INPUT"] = (st, Exited true status (unlines (policy :: chain st bin)) stderr)
    /\ plain_line policy = true /\ starts_with "-A INPUT" policy = false;
  ipt_insert : forall st bin iface, bin ∈ families -> iface_ok iface -> exists st' status stdout stderr,
    invoke st bin (insert_args iface) = (st', Exited true status stdout stderr)
    /\ chain st' bin = accept_line iface :: chain st bin
    /\ forall bin', bin' <> bin -> chain st' bin' = chain st bin';
  ipt_delete : forall st bin i, bin ∈ families -> (1 <= i <= length (chain st bin))%nat ->
    let st' := fst (invoke st bin (delete_args i)) in
    chain st' bin = delete (i - 1)%nat (chain st bin) /\ forall bin', bin' <> bin -> chain st' bin' = chain st bin';
}.

Lemma fam6 : "ip6tables" ∈ families. Proof. by left. Qed.
Lemma fam4 : "iptables" ∈ families. Proof. by right; left. Qed.

Section Properties.
Context `{IptablesLaws}.

Lemma position_Some {A} (f : A -> bool) l i :
  position f l = Some i <-> exists x, l !! i = Some x /\ f x = true /\ forall j y, (j < i)%nat -> l !! j = Some y -> f y = false.
Proof.
  revert i. induction l as [|x l IH]; intros i; cbn [position]; [split; [done|by intros (? & ? & _)]|].
  destruct (f x) eqn:E.
  - split.
    + intros [= <-]. exists x. split_and!; [done|done|lia].
    + intros (y & Hy & Hf & Hl). destruct i; [done|]. specialize (Hl 0%nat x ltac:(lia) eq_refl). congruence.
  - rewrite fmap_Some. split.
    + intros (k & (y & Hy & Hf & Hl)%IH & ->). exists y. split_and!; [done|done|]. intros [|j] z Hj; [by intros [= <-]|].
      apply Hl. lia.
    + intros (y & Hy & Hf & Hl). destruct i as [|i]; [simpl in Hy; congruence|]. exists i. split; [|done].
      apply IH. exists y. split_and!; [done|done|]. intros j z Hj. apply (Hl (S j) z). lia.
Qed.
Lemma position_None {A} (f : A -> bool) l : position f l = None <-> Forall (fun x => f x = false) l.
Proof.
  induction l as [|x l IH]; cbn [position]; [by split|]. rewrite Forall_cons, <- IH.
  destruct (f x) eqn:E; [split; [done|by intros [? _]]|]. rewrite fmap_None. naive_solver.
Qed.

Lemma filter_all_true {A} (f : A -> bool) l : Forall (fun x => f x = true) l -> List.filter f l = l.
Proof. induction 1 as [|x l Hx _ IH]; [done|]. simpl. by rewrite Hx, IH. Qed.

(** The listing is the chain. *)
Lemma list_input_chain st bin :
  bin ∈ families ->
  exists text, list_input st bin = (st, Some text) /\ List.filter (starts_with "-A INPUT") (lines text) = chain st bin.
Proof.
  intros Hb. destruct (ipt_list st bin Hb) as (status & policy & err & He & Hp & Hs). unfold list_input. rewrite He.
  eexists. split; [done|]. pose proof (chain_lines st bin) as Hc.
  rewrite lines_unlines; [|constructor; [done|by eapply Forall_impl; [exact Hc|intros ? []]]].
  cbn [List.filter]. rewrite Hs. apply filter_all_true. eapply Forall_impl; [exact Hc|]. by intros ? (_ & _ & ?).
Qed.

Lemma find_chain st bin text iface :
  List.filter (starts_with "-A INPUT") (lines text) = chain st bin ->
  find_rule_index text iface = S <$> position (fun l => bool_decide (l = accept_line iface)) (chain st bin).
Proof.
  intros Hl. unfold find_rule_index. rewrite Hl. f_equal. pose proof (chain_lines st bin) as Hc. clear Hl. revert Hc.
  generalize (chain st bin). intros c Hc. induction Hc as [|l c (_ & Ht & _) _ IH]; [done|]. cbn [position].
  rewrite Ht. by case_bool_decide; rewrite ?IH.
Qed.

(** Asserting adds the rule in front when it is missing and changes nothing when it is
    there. *)
Lemma ensure_one_effect st bin iface :
  bin ∈ families -> iface_ok iface ->
  exists st', ensure_one st bin iface = (st', true)
    /\ chain st' bin = (if bool_decide (accept_line iface ∈ chain st bin) then chain st bin else accept_line iface :: chain st bin)
    /\ forall bin', bin' <> bin -> chain st' bin' = chain st bin'.
Proof.
  intros Hb Hok. destruct (list_input_chain st bin Hb) as (text & Hl & Hf). unfold ensure_one. rewrite Hl, (find_chain st bin) by done.
  destruct (position _ (chain st bin)) as [i|] eqn:Hp; simpl.
  - apply position_Some in Hp as (x & Hx & Hd & _). apply bool_decide_eq_true in Hd as ->.
    exists st. rewrite bool_decide_true by by eapply list_elem_of_lookup_2. done.
  - apply position_None in Hp. destruct (ipt_insert st bin iface Hb Hok) as (st' & ? & ? & ? & -> & Hc & Ho).
    exists st'. rewrite bool_decide_false; [done|]. intros Hin. rewrite Forall_forall in Hp.
    specialize (Hp _ Hin). by apply bool_decide_eq_false in Hp.
Qed.

(** Removing takes the first copy of the rule away, whatever stands around it. *)
Lemma remove_one_effect st bin iface :
  bin ∈ families ->
  let st' := remove_one st bin iface in
  (accept_line iface ∉ chain st bin -> st' = st)
  /\ (forall a b, chain st bin = a ++ accept_line iface :: b -> accept_line iface ∉ a -> chain st' bin = a ++ b)
  /\ forall bin', bin' <> bin -> chain st' bin' = chain st bin'.
Proof.
  intros Hb. destruct (list_input_chain st bin Hb) as (text & Hl & Hf). unfold remove_one. rewrite Hl, (find_chain st bin) by done.
  destruct (position _ (chain st bin)) as [i|] eqn:Hp; simpl.
  - apply position_Some in Hp as (x & Hx & Hd & Hfirst). apply bool_decide_eq_true in Hd as ->.
    pose proof (lookup_lt_Some _ _ _ Hx) as Hi. destruct (ipt_delete st bin (S i) Hb ltac:(lia)) as [Hc Ho].
    split_and!; [intros Hn; destruct Hn; by eapply list_elem_of_lookup_2| |done].
    intros a b Hab Ha. rewrite Hc. replace (S i - 1)%nat with i by lia.
    assert (i = length a) as ->; [|by rewrite Hab, delete_middle].
    rewrite Hab in Hx, Hfirst. destruct (lt_eq_lt_dec i (length a)) as [[Hlt|He]|Hgt]; [|done|].
    + rewrite lookup_app_l in Hx by done. destruct Ha. by eapply list_elem_of_lookup_2.
    + specialize (Hfirst (length a) (accept_line iface) Hgt). rewrite list_lookup_middle in Hfirst by done.
      specialize (Hfirst eq_refl). by apply bool_decide_eq_false in Hfirst.
  - apply position_None in Hp. split_and!; [done| |done]. intros a b Hab. rewrite Hab, Forall_app, Forall_cons in Hp.
    destruct Hp as (_ & Hp & _). by apply bool_decide_eq_false in Hp.
Qed.

(** The firewall trusts the overlay interface while the joiner runs, and is as it
    was afterwards: asserting the trust succeeds and puts the rule first in both
    families unless it is there already, asserting it again changes nothing, and
    removing it gives back the very rules there were, those of other interfaces
    included. *)
Theorem trust_lifecycle st iface :
  iface_ok iface ->
  (forall bin, accept_line iface ∉ chain st bin) ->
  exists st', ensure_tun_trust st iface = (st', true)
    /\ (forall bin, bin ∈ families -> chain st' bin = accept_line iface :: chain st bin)
    /\ (exists st2, ensure_tun_trust st' iface = (st2, true) /\ forall bin, chain st2 bin = chain st' bin)
    /\ forall bin, chain (remove_tun_trust st' iface) bin = chain st bin.
Proof.
  intros Hok Hn. unfold ensure_tun_trust.
  destruct (ensure_one_effect st "ip6tables" iface fam6 Hok) as (s1 & -> & C1 & O1).
  destruct (ensure_one_effect s1 "iptables" iface fam4 Hok) as (s2 & -> & C2 & O2).
  rewrite bool_decide_false in C1 by apply Hn. rewrite O1, bool_decide_false in C2 by (done || apply Hn).
  assert (chain s2 "ip6tables" = accept_line iface :: chain st "ip6tables") as C1' by by rewrite O2.
  exists s2. split; [done|]. split; [|split].
  - intros bin [->|[->|[]%elem_of_nil]%elem_of_cons]%elem_of_cons; done.
  - destruct (ensure_one_effect s2 "ip6tables" iface fam6 Hok) as (s3 & -> & C3 & O3).
    destruct (ensure_one_effect s3 "iptables" iface fam4 Hok) as (s4 & -> & C4 & O4).
    rewrite C1', bool_decide_true in C3 by by left. rewrite O3, C2, bool_decide_true in C4 by (done || by left).
    exists s4. split; [done|]. intros bin.
    destruct (decide (bin = "iptables")) as [->|Hne]; [by rewrite C4, C2|]. rewrite O4 by done.
    destruct (decide (bin = "ip6tables")) as [->|Hne']; [by rewrite C3, C1'|by rewrite O3].
  - unfold remove_tun_trust. cbn [foldl].
    destruct (remove_one_effect s2 "ip6tables" iface fam6) as (_ & R1 & P1). set (s3 := remove_one s2 _ _) in *.
    destruct (remove_one_effect s3 "iptables" iface fam4) as (_ & R2 & P2).
    specialize (R1 [] _ C1' (not_elem_of_nil _)). rewrite P1, C2 in R2 by done. specialize (R2 [] _ eq_refl (not_elem_of_nil _)).
    intros bin. destruct (decide (bin = "iptables")) as [->|Hne]; [done|]. rewrite P2 by done.
    destruct (decide (bin = "ip6tables")) as [->|Hne']; [done|]. by rewrite P1, O2, O1.
Qed.
End Properties.

(** However long the binaries are missing, the loop warns once per outage. *)
Lemma trust_loop_warns `{Host} st iface warned events :
  let '(_, log) := trust_loop st iface warned events in
  Forall (fun p => p.1 <> p.2) (zip (if warned then WarnNotAsserted :: log else InfoRestored :: log) log).
Proof.
  revert st warned. induction events as [|e events IH]; intros st warned; cbn [trust_loop]; [by destruct warned|].
  destruct e as [[]|]; [by destruct warned|apply IH|].
  destruct (ensure_tun_trust st iface) as [st' okv]. destruct okv, warned; cbn [negb andb].
  - specialize (IH st' false). destruct (trust_loop st' iface false events) as [s log]. by constructor.
  - apply (IH st' false).
  - apply (IH st' true).
  - specialize (IH st' true). destruct (trust_loop st' iface true events) as [s log]. by constructor.
Qed.
