(* ===== verification/Identity.v ===== *)
(** * The joiner's identity on disk ([wg/persistent_identity.rs],
    [wg/persistent_keypair.rs], [wg/keypair.rs])

    A key pair, and with an identity file also the address, survive restarts. The
    file system is a map from paths to contents and modes; each of its calls may
    fail, and a crash is a call that does not come back. The key pairs of the fabric are
    in the module [Keys]. *)

From S2P Require Import Prelude NetAddr AddrText Types RosterStore Text.

Open Scope Z_scope.

(** ** Paths *)

(** The components of a [Path] that has neither [.] nor [..] in it. *)
Record Path := mkPath { absolute : bool; components : list string }.
#[export] Instance Path_eq_dec : EqDecision Path.
Proof. solve_decision. Defined.
#[export] Instance Path_countable : Countable Path.
Proof.
  apply (inj_countable' (fun p => (absolute p, components p)) (fun '(a, c) => mkPath a c)). by intros [].
Defined.

Definition path_parent (p : Path) : option Path :=
  match rev (components p) with
  | [] => None
  | _ :: r => Some (mkPath (absolute p) (rev r))
  end.
Definition path_is_empty (p : Path) : bool := negb (absolute p) && bool_decide (components p = []).
Definition path_join (p : Path) (name : string) : Path := mkPath (absolute p) (components p ++ [name]).

Definition dot : Ascii.ascii := Ascii.ascii_of_N 46.
(** What stands before the last dot of a file name; [None] without a dot. *)
Fixpoint before_last_dot (s : string) : option string :=
  match s with
  | EmptyString => None
  | String c s' =>
      match before_last_dot s' with
      | Some stem => Some (String c stem)
      | None => if bool_decide (c = dot) then Some EmptyString else None
      end
  end.
(** [Path::file_stem]: a name that only starts with a dot has no extension. *)
Definition file_stem (name : string) : string :=
  match before_last_dot name with
  | None | Some EmptyString => name
  | Some stem => stem
  end.
Definition map_file_name (f : string -> string) (p : Path) : Path :=
  match rev (components p) with
  | [] => p
  | name :: r => mkPath (absolute p) (rev (f name :: r))
  end.
Definition with_extension (p : Path) (ext : string) : Path := map_file_name (fun n => file_stem n +:+ "." +:+ ext) p.
Definition corrupt_path (p : Path) : Path :=
  match rev (components p) with
  | [] => mkPath (absolute p) [".corrupt"]
  | name :: r => mkPath (absolute p) (rev ((name +:+ ".corrupt") :: r))
  end.

(** ** The file system *)

(** [0o600] *)
Definition OWNER_ONLY : Z := 384.


Record File := mkFile { content : list Z; mode : Z }.
Abbreviation Disk := (gmap Path File).

Inductive ErrorKind := InvalidData | OtherKind.
#[export] Instance ErrorKind_eq_dec : EqDecision ErrorKind.
Proof. solve_decision. Defined.

(** How the calls of one operation go. Writing a file that fails, or a crash in the
    middle of it, leaves anything in it; new files get [umask_mode]. *)
Record FsCalls := mkFsCalls {
  stat_ok : bool;
  read_ok : bool;
  dirs_ok : bool;
  write_tmp : WriteOutcome;
  chmod_ok : bool;
  rename_done : bool;
  umask_mode : Z;
}.
Definition fs_ok : FsCalls := mkFsCalls true true true WriteOk true true 420.

Definition exists_ (d : Disk) (io : FsCalls) (p : Path) : bool := bool_decide (is_Some (d !! p)) && stat_ok io.
Definition fs_read (d : Disk) (io : FsCalls) (p : Path) : Result (list Z) ErrorKind :=
  match d !! p with
  | Some f => if read_ok io then Ok (content f) else Err OtherKind
  | None => Err OtherKind
  end.
(** [fs::write] keeps the mode of a file that is there. *)
Definition fs_write (d : Disk) (io : FsCalls) (p : Path) (bytes : list Z) : Disk :=
  <[p := mkFile bytes (from_option mode (umask_mode io) (d !! p))]> d.
Definition fs_rename (d : Disk) (from to : Path) : Disk :=
  match d !! from with Some f => <[to := f]> (delete from d) | None => d end.

(** [create_dir_all] of the parent, if the path has one. *)
Definition parent_made (io : FsCalls) (p : Path) : bool :=
  match path_parent p with Some parent => path_is_empty parent || dirs_ok io | None => true end.

(** The write of the temporary file, [set_permissions] and [rename], as [store] and
    [load_or_generate] run them on Unix. *)
Definition write_private (d : Disk) (io : FsCalls) (p : Path) (bytes : list Z) : Disk * Result unit ErrorKind :=
  let tmp := with_extension p "tmp" in
  match write_tmp io with
  | WriteFailed left_behind =>
      (match left_behind with Some b => fs_write d io tmp b | None => d end, Err OtherKind)
  | WriteOk =>
      let d := fs_write d io tmp bytes in
      if negb (chmod_ok io) then (d, Err OtherKind)
      else
        let d := <[tmp := mkFile bytes OWNER_ONLY]> d in
        if negb (rename_done io) then (d, Err OtherKind) else (fs_rename d tmp p, Ok tt)
  end.

(** ** Key pairs *)

(** The [x25519] library: the public key of a private one. *)
Class Curve := { public_of : list Z -> list Z }.
Record WgKeypair := mkWgKeypair { private : list Z; public : list Z }.

(** The JSON of the identity file. *)
Record IdentityFile := mkIdentityFile { private_key : string; ula_text : string }.
Class IdentitySerde := {
  identity_from_slice : list Z -> option IdentityFile;
  identity_to_vec : IdentityFile -> option (list Z);
}.
Class IdentitySerdeLaws `{IdentitySerde} := {
  identity_writes : forall r, is_Some (identity_to_vec r);
  identity_reads : forall r bytes, identity_to_vec r = Some bytes -> identity_from_slice bytes = Some r;
}.

Record PeerIdentity := mkPeerIdentity { id_keypair : WgKeypair; id_ula : Ipv6Addr }.

Section Identity.
Context `{Externals} `{Curve} `{IdentitySerde}.

Definition keypair_of (secret : list Z) : WgKeypair := mkWgKeypair secret (public_of secret).
(** [generate], with the bytes of the random number generator. *)
Definition generate (random : list Z) : WgKeypair := keypair_of random.

Definition parse_identity (data : list Z) : Result PeerIdentity ErrorKind :=
  match identity_from_slice data with
  | None => Err InvalidData
  | Some record =>
      match b64_decode (private_key record) with
      | Err _ => Err InvalidData
      | Ok raw =>
          if negb (length raw =? 32)%nat then Err InvalidData
          else match parse_ipv6 (ula_text record) with
               | None => Err InvalidData
               | Some u => Ok (mkPeerIdentity (keypair_of raw) u)
               end
      end
  end.

Definition load (d : Disk) (io : FsCalls) (p : Path) : Result (option PeerIdentity) ErrorKind :=
  if negb (exists_ d io p) then Ok None
  else match fs_read d io p with
       | Err e => Err e
       | Ok data => match parse_identity data with Ok id => Ok (Some id) | Err e => Err e end
       end.

Definition store (d : Disk) (io : FsCalls) (p : Path) (kp : WgKeypair) (u : Ipv6Addr) : Disk * Result unit ErrorKind :=
  if negb (parent_made io p) then (d, Err OtherKind)
  else match identity_to_vec (mkIdentityFile (b64_encode (private kp)) (fmt_ipv6 u)) with
       | None => (d, Err InvalidData)
       | Some json => write_private d io p json
       end.

Definition load_or_fresh (d : Disk) (io : FsCalls) (p : Path) (random : list Z)
    : Disk * Result (WgKeypair * option Ipv6Addr) ErrorKind :=
  match load d io p with
  | Ok (Some id) => (d, Ok (id_keypair id, Some (id_ula id)))
  | Ok None => (d, Ok (generate random, None))
  | Err InvalidData =>
      (if rename_done io then fs_rename d p (corrupt_path p) else d, Ok (generate random, None))
  | Err e => (d, Err e)
  end.

Definition load_or_generate (d : Disk) (io : FsCalls) (p : Path) (random : list Z) : Disk * Result WgKeypair ErrorKind :=
  if exists_ d io p then
    (d, match fs_read d io p with
        | Err e => Err e
        | Ok bytes => if negb (length bytes =? 32)%nat then Err InvalidData else Ok (keypair_of bytes)
        end)
  else
    let kp := generate random in
    if negb (parent_made io p) then (d, Err OtherKind)
    else
      let '(d, r) := write_private d io p (private kp) in
      (d, match r with Ok _ => Ok kp | Err e => Err e end).

(** ** Writing is atomic *)

(** The file at the path afterwards is the one before, or the new one with mode 600. *)
Lemma write_private_effect d io p bytes :
  with_extension p "tmp" <> p ->
  let '(d', r) := write_private d io p bytes in
  (forall q, q <> p -> q <> with_extension p "tmp" -> d' !! q = d !! q)
  /\ match r with
     | Ok _ => d' !! p = Some (mkFile bytes OWNER_ONLY)
     | Err e => e = OtherKind /\ d' !! p = d !! p
     end.
Proof.
  intros Hne. unfold write_private. set (tmp := with_extension p "tmp") in *.
  destruct (write_tmp io) as [|[b|]]; unfold fs_write.
  - destruct (chmod_ok io); cbn [negb].
    + destruct (rename_done io); cbn [negb]; unfold fs_rename; rewrite ?lookup_insert_eq; cbv iota beta.
      * split; [|done]. intros q Hq Ht. by rewrite lookup_insert_ne, lookup_delete_ne, !lookup_insert_ne.
      * split; [intros q Hq Ht; by rewrite !lookup_insert_ne|]. split; [done|]. by rewrite !lookup_insert_ne.
    + split; [intros q Hq Ht; by rewrite !lookup_insert_ne|]. split; [done|]. by rewrite !lookup_insert_ne.
  - split; [intros q Hq Ht; by rewrite !lookup_insert_ne|]. split; [done|]. by rewrite !lookup_insert_ne.
  - done.
Qed.

End Identity.

Section Properties.
Context `{ExternalLaws} `{Curve} `{IdentitySerdeLaws}.

Lemma parse_stored kp u json :
  length (private kp) = 32%nat -> Forall is_u8 (private kp) -> wf_ipv6 u -> kp = keypair_of (private kp) ->
  identity_to_vec (mkIdentityFile (b64_encode (private kp)) (fmt_ipv6 u)) = Some json ->
  parse_identity json = Ok (mkPeerIdentity kp u).
Proof.
  intros Hl Hb Hu Hkp Hj. unfold parse_identity. rewrite (identity_reads _ _ Hj). simpl.
  rewrite b64_decode_encode, Hl by done. simpl. rewrite parse_fmt_ipv6 by done. by rewrite <- Hkp.
Qed.

(** A key pair as the joiner makes them. *)
Definition wf_keypair (kp : WgKeypair) : Prop :=
  length (private kp) = 32%nat /\ Forall is_u8 (private kp) /\ kp = keypair_of (private kp).

Lemma store_load d io p kp u :
  with_extension p "tmp" <> p -> wf_keypair kp -> wf_ipv6 u ->
  let '(d', r) := store d io p kp u in
  match r with
  | Ok _ => load d' fs_ok p = Ok (Some (mkPeerIdentity kp u)) /\ mode <$> d' !! p = Some OWNER_ONLY
  | Err e => e = OtherKind /\ d' !! p = d !! p /\ forall io', load d' io' p = load d io' p
  end.
Proof.
  intros Hne (Hl & Hb & Hkp) Hu. unfold store. destruct (parent_made io p); [cbn [negb]|done].
  destruct (identity_writes (mkIdentityFile (b64_encode (private kp)) (fmt_ipv6 u))) as [json Hj]. rewrite Hj.
  pose proof (write_private_effect d io p json Hne) as He. destruct (write_private d io p json) as [d' [[]|e]].
  - destruct He as [_ He]. rewrite He. split; [|done]. unfold load, exists_, fs_read. rewrite He. simpl.
    by rewrite (parse_stored kp u json).
  - destruct He as (_ & -> & He). split; [done|]. split; [done|]. intros io'. unfold load, exists_, fs_read. by rewrite He.
Qed.

(** An identity that was stored is the identity that is loaded: after a successful
    store the file holds the key pair and the address, readable by the owner only,
    and loading gives exactly them back; however a store fails, in the middle of a
    crash included, loading gives what it gave before. The path must not itself end
    in the extension of the temporary file. *)
Theorem identity_roundtrip d io p kp u :
  with_extension p "tmp" <> p -> wf_keypair kp -> wf_ipv6 u ->
  let '(d', r) := store d io p kp u in
  match r with
  | Ok _ => load d' fs_ok p = Ok (Some (mkPeerIdentity kp u)) /\ mode <$> d' !! p = Some OWNER_ONLY
  | Err e => e = OtherKind /\ d' !! p = d !! p /\ forall io', load d' io' p = load d io' p
  end.
Proof. apply store_load. Qed.

Lemma load_cases d io p :
  match load d io p with
  | Ok None => exists_ d io p = false
  | Ok (Some id) => exists f, d !! p = Some f /\ parse_identity (content f) = Ok id
  | Err InvalidData => exists f, d !! p = Some f /\ parse_identity (content f) = Err InvalidData
  | Err OtherKind => is_Some (d !! p) /\ read_ok io = false
  end.
Proof.
  unfold load. destruct (exists_ d io p) eqn:Ex; [|done]. apply andb_true_iff in Ex as [Ex _].
  apply bool_decide_eq_true in Ex as [f Hf]. unfold fs_read. simpl. rewrite Hf. destruct (read_ok io); [|done].
  destruct (parse_identity (content f)) as [id|e] eqn:Hp; [by exists f|].
  assert (e = InvalidData) as ->; [|by exists f].
  unfold parse_identity in Hp. repeat case_match; congruence.
Qed.

(** A damaged identity file never stops the node: whatever the file holds, the
    joiner gets a key pair unless the disk itself fails to read; a file that cannot
    be understood leads to a fresh key pair and no address, is moved aside under a
    name of its own, unread data included, and every other file is left alone. *)
Theorem damaged_identity_never_bricks d io p random :
  let '(d', r) := load_or_fresh d io p random in
  (forall e, r = Err e -> e = OtherKind /\ read_ok io = false /\ d' = d)
  /\ (forall f, d !! p = Some f -> parse_identity (content f) = Err InvalidData -> stat_ok io = true -> read_ok io = true ->
        r = Ok (generate random, None)
        /\ if rename_done io then d' = <[corrupt_path p := f]> (delete p d) else d' = d)
  /\ (forall f id, d !! p = Some f -> parse_identity (content f) = Ok id -> stat_ok io = true -> read_ok io = true ->
        r = Ok (id_keypair id, Some (id_ula id)) /\ d' = d)
  /\ (d !! p = None -> r = Ok (generate random, None) /\ d' = d).
Proof.
  unfold load_or_fresh. pose proof (load_cases d io p) as Hc.
  assert (forall f, d !! p = Some f -> stat_ok io = true -> read_ok io = true ->
    load d io p = match parse_identity (content f) with Ok id => Ok (Some id) | Err e => Err e end) as Hl.
  { intros f Hf Hs Hr. unfold load, exists_, fs_read. by rewrite Hf, Hs, Hr. }
  assert (d !! p = None -> load d io p = Ok None) as Hn.
  { intros Hf. unfold load, exists_. by rewrite Hf. }
  destruct (load d io p) as [[id|]|[]]; (split; [|split; [|split]]).
  all: try (intros e [= <-]; by destruct Hc as [_ ->]).
  all: try (intros f Hf Hp Hs Hr; specialize (Hl f Hf Hs Hr); rewrite Hp in Hl; try discriminate Hl).
  all: try (intros f id' Hf Hp Hs Hr; specialize (Hl f Hf Hs Hr); rewrite Hp in Hl; by simplify_eq).
  all: try (intros Hf; specialize (Hn Hf); by simplify_eq).
  all: try done.
  split; [done|]. unfold fs_rename. rewrite Hf. by destruct (rename_done io).
Qed.

Lemma load_or_generate_again d io p random d' kp :
  with_extension p "tmp" <> p -> length random = 32%nat ->
  load_or_generate d io p random = (d', Ok kp) ->
  kp = keypair_of (private kp)
  /\ forall io' random', stat_ok io' = true -> read_ok io' = true -> load_or_generate d' io' p random' = (d', Ok kp).
Proof.
  intros Hne Hlen Hg.
  assert (forall f io' random', d' !! p = Some f -> length (content f) = 32%nat -> stat_ok io' = true -> read_ok io' = true ->
    load_or_generate d' io' p random' = (d', Ok (keypair_of (content f)))) as Hagain.
  { intros f io' random' Hf Hl Hs Hr. unfold load_or_generate, exists_, fs_read. by rewrite Hf, Hs, Hr, Hl. }
  unfold load_or_generate in Hg. destruct (exists_ d io p) eqn:Ex.
  - injection Hg as <- Hg. unfold fs_read in Hg. destruct (d !! p) as [f|] eqn:Hf; [|done].
    destruct (read_ok io); [|done]. destruct (length (content f) =? 32)%nat eqn:Hl; [|done]. injection Hg as <-.
    split; [done|]. intros io' random'. apply (Hagain f); [done|]. by apply Nat.eqb_eq.
  - destruct (parent_made io p); [cbn [negb] in Hg|done].
    pose proof (write_private_effect d io p (private (generate random)) Hne) as He.
    destruct (write_private d io p _) as [d1 [[]|e]]; [|done]. injection Hg as <- <-. destruct He as [_ He].
    split; [done|]. intros io' random'. by apply (Hagain (mkFile random OWNER_ONLY)).
Qed.

(** A node keeps its key: once a start has obtained a key pair from the key file,
    made by it or found there, every later start that can read the file obtains the
    same pair and leaves the file alone, whatever the random number generator
    would say by then. *)
Theorem keypair_survives_restarts d io p random d' kp :
  with_extension p "tmp" <> p -> length random = 32%nat ->
  load_or_generate d io p random = (d', Ok kp) ->
  kp = keypair_of (private kp)
  /\ forall io' random', stat_ok io' = true -> read_ok io' = true -> load_or_generate d' io' p random' = (d', Ok kp).
Proof. apply load_or_generate_again. Qed.

(** While the identity is being stored its private key is in a file with the mode of any
    new file; if the mode cannot be set it stays there. *)
Lemma key_in_open_file d io p kp u json :
  dirs_ok io = true -> write_tmp io = WriteOk -> chmod_ok io = false -> d !! with_extension p "tmp" = None ->
  identity_to_vec (mkIdentityFile (b64_encode (private kp)) (fmt_ipv6 u)) = Some json ->
  store d io p kp u = (<[with_extension p "tmp" := mkFile json (umask_mode io)]> d, Err OtherKind).
Proof.
  intros Hd Hw Hc Hn Hj. unfold store, write_private.
  assert (parent_made io p = true) as -> by (unfold parent_made; destruct (path_parent p); rewrite ?Hd, ?orb_true_r; done).
  rewrite Hj, Hw, Hc. unfold fs_write. by rewrite Hn.
Qed.
End Properties.

(** * Key pairs of the fabric ([mesh-fabric]: [wireguard/keys.rs])

    A key pair is drawn from the operating system's generator, and its debug text,
    which ends up in logs, shows the public half only. *)

Module Keys.
(** [{b:02x}] of every byte *)
Definition hex_byte (b : Z) : string := String (digit_char (b / 16)) (String (digit_char (b mod 16)) EmptyString).
Definition hex (bytes : list Z) : string := foldr (fun b s => hex_byte b +:+ s) EmptyString bytes.

(** [Debug] of a [WireGuardKeypair]: the fields of [debug_struct], strings quoted. *)
Definition dquote : string := String (Ascii.ascii_of_N 34) EmptyString.
Definition debug_str (s : string) : string := dquote +:+ s +:+ dquote.
Definition debug_keypair (kp : WgKeypair) : string :=
  "WireGuardKeypair { private: " +:+ debug_str "<redacted>" +:+ ", public: " +:+ debug_str (hex (public kp)) +:+ " }".

Section Keys.
Context `{Curve}.

(** [generate_keypair]: 32 bytes of the generator, and their public key. *)
Definition generate_keypair (random : list Z) : WgKeypair := mkWgKeypair random (public_of random).
End Keys.

(** [WireGuardPeerSpec] *)
Record WireGuardPeerSpec := mkWireGuardPeerSpec { spec_node_id : string; spec_endpoint : SocketAddr; spec_public_key : list Z }.

Lemma hex_byte_inj a b : is_u8 a -> is_u8 b -> hex_byte a = hex_byte b -> a = b.
Proof.
  unfold is_u8, u8_max, hex_byte. intros Ha Hb [= H1 H2].
  apply digit_char_inj in H1; [|split; [apply Z.div_pos; lia|apply Z.div_lt_upper_bound; lia]..].
  apply digit_char_inj in H2; [|apply Z.mod_pos_bound; lia..].
  rewrite (Z.div_mod a 16), (Z.div_mod b 16) by lia. lia.
Qed.
Lemma hex_inj l m : Forall is_u8 l -> Forall is_u8 m -> hex l = hex m -> l = m.
Proof.
  intros Hl. revert m. induction Hl as [|a l Ha _ IH]; intros m [|b m' Hb Hm]; try done.
  unfold hex. cbn [foldr]. unfold hex_byte at 1 2. rewrite !string_app_cons, !string_app_nil. intros [= H1 H2 He].
  f_equal; [|by apply IH]. apply hex_byte_inj; [done..|]. unfold hex_byte. congruence.
Qed.
Lemma hex_length l : String.length (hex l) = (2 * length l)%nat.
Proof. induction l as [|b l IH]; [done|]. cbn [hex foldr]. rewrite string_app_length. fold (hex l). rewrite IH. cbn. lia. Qed.

(** The debug text of a key pair is that of its public key: it does not depend on the
    private one, and it tells public keys apart. *)
Lemma debug_shows_public_only kp kp' :
  Forall is_u8 (public kp) -> Forall is_u8 (public kp') ->
  debug_keypair kp = debug_keypair kp' <-> public kp = public kp'.
Proof.
  intros Hk Hk'. split; [|by unfold debug_keypair; intros ->]. unfold debug_keypair, debug_str. intros He.
  apply hex_inj; [done..|]. revert He. rewrite <- !string_app_assoc. intros He.
  apply string_app_inv_tail in He. rewrite !string_app_assoc in He.
  repeat match type of He with (?a +:+ _) = (?a +:+ _) => apply (inj (String.append a)) in He end.
  by apply string_app_inv_tail in He.
Qed.
End Keys.
