(* ===== verification/Startup.v ===== *)
(** * Joining and leaving the mesh ([joiner.rs], [config.rs], [net_reach.rs])

    What a joiner does from its configuration to a running node, in order and with
    every way it can fail, what the running node offers its host, and how it leaves.
    The disk and the host's commands are those of [Identity.v] and [Platform.v]; the
    sockets, the coordinator's answers and the TUN driver are arguments. *)

From S2P Require Import Prelude NetAddr AddrText Text Types Reflexive Stun PeerSession SessionTable SessionInv.
From S2P Require Import CommandGate PeerSync PeerSyncProps DataPlane RelayClient Client RosterStore Identity Platform Routes Firewall.

Open Scope Z_scope.

(** ** Configuration *)

Record JoinConfig := mkJoinConfig {
  jc_coordinator_url : string;
  jc_display_name : string;
  jc_tags : list string;
  jc_join_token : option string;
  jc_listen_port : option Z;
  jc_tun_name : option string;
  jc_heartbeat_interval_secs : Z;
  jc_advertise_endpoint : option string;
  jc_keypair_path : option Path;
  jc_tls_cert : option Path;
  jc_tls_key : option Path;
  jc_tls_ca : option Path;
  jc_insecure_no_mtls : bool;
  jc_requested_ula : option string;
  jc_kind : option string;
  jc_parent : option string;
  jc_app_uuid : option string;
  jc_identity_path : option Path;
  jc_software_version : option string;
  jc_relay_enabled : bool;
  jc_relay_url : option string;
  jc_relay_urls : list string;
  jc_relay_only : bool;
  jc_source_scoped_routes : bool;
  jc_manage_firewall : bool;
  jc_stun_server : option SocketAddr;
  jc_route_metric : Z;
}.
Definition join_config_default : JoinConfig := {|
  jc_coordinator_url := "http://127.0.0.1:8888";
  jc_display_name := "tabbify-mesh-joiner";
  jc_tags := [];
  jc_join_token := None;
  jc_listen_port := None;
  jc_tun_name := None;
  jc_heartbeat_interval_secs := 20;
  jc_advertise_endpoint := None;
  jc_keypair_path := None;
  jc_tls_cert := None;
  jc_tls_key := None;
  jc_tls_ca := None;
  jc_insecure_no_mtls := true;
  jc_requested_ula := None;
  jc_kind := None;
  jc_parent := None;
  jc_app_uuid := None;
  jc_identity_path := None;
  jc_software_version := None;
  jc_relay_enabled := true;
  jc_relay_url := None;
  jc_relay_urls := [];
  jc_relay_only := false;
  jc_source_scoped_routes := false;
  jc_manage_firewall := false;
  jc_stun_server := None;
  jc_route_metric := DEFAULT_ROUTE_METRIC;
|}.

Definition DEFAULT_WG_LISTEN_PORT : Z := 51820.

(** ** What can go wrong *)

Inductive JoinFailure :=
| LoadIdentity (e : ErrorKind)
| LoadKeypair (e : ErrorKind)
| UlaDiffers (requested sticky : string)
| UdpBind (port : Z)
| LocalAddr
| InvalidConfig
| BuildClient
| Registration (e : JoinerError)
| MalformedUla (raw : string)
| PersistIdentity (e : ErrorKind)
| OpenTun
| HostSetup (message : string).

(** ** Advertised endpoints ([net_reach.rs])

    The classification is the coordinator's, line for line. *)

Definition stun_mapping_to_advertise (mapping : SocketAddr) : option string :=
  if is_unreachable_for_peers (sock_ip mapping) then None else Some (fmt_sock mapping).

Definition warn_if_private_advertise (advertise : string) : bool :=
  match parse_sock advertise with
  | None => false
  | Some sa => is_unreachable_for_peers (sock_ip sa)
  end.

(** [discover_wg_mapping], with the time that seeds the transaction id and the
    datagram that arrived in time; [None] is a panic. *)
Definition discover_wg_mapping (seed : Z) (sent : bool) (reply : option (list Z)) : option (option SocketAddr) :=
  if negb sent then Some None
  else match reply with
       | None => Some None
       | Some resp => parse_xor_mapped_address (take 512 resp) (build_binding_request seed).2
       end.

(** The endpoint to advertise after the STUN step of [join_with_commands]. *)
Definition advertise_after_stun (configured : option string) (mapping : option SocketAddr) : option string :=
  match mapping ≫= stun_mapping_to_advertise with
  | Some adv => Some adv
  | None => configured
  end.

(** ** The WireGuard socket *)

Definition BIND_RETRY_ATTEMPTS : nat := 5.

(** The loop of [bind_udp_with_fallback]; [bind attempt port] is the port that the
    call bound. The count is that of the pauses. *)
Fixpoint bind_retry (bind : nat -> Z -> option Z) (port : Z) (attempts_left attempt : nat) : option (Result Z JoinFailure) * nat :=
  match attempts_left with
  | O => (None, 0%nat)
  | S attempts_left =>
      match bind attempt port with
      | Some bound => (Some (Ok bound), 0%nat)
      | None =>
          if port =? 0 then (Some (Err (UdpBind port)), 0%nat)
          else
            let '(r, pauses) := bind_retry bind port attempts_left (S attempt) in
            (r, if (attempts_left =? 0)%nat then pauses else S pauses)
      end
  end.
Definition bind_udp_with_fallback (bind : nat -> Z -> option Z) (preferred_port : Z) : Result Z JoinFailure :=
  match fst (bind_retry bind preferred_port BIND_RETRY_ATTEMPTS 1) with
  | Some r => r
  | None =>
      match bind (S BIND_RETRY_ATTEMPTS) 0 with
      | Some bound => Ok bound
      | None => Err (UdpBind 0)
      end
  end.
Definition bind_wg_socket (bind : nat -> Z -> option Z) (local_addr_ok : bool) (preferred_port : Z) : Result Z JoinFailure :=
  let? bound := bind_udp_with_fallback bind preferred_port in
  if local_addr_ok then Ok bound else Err LocalAddr.

(** ** Paths *)

(** [None] when [HOME] is not set. *)
Definition default_keypair_path (home : option Path) : Path :=
  path_join (path_join (default (mkPath false ["."]) home) ".tabbify-mesh") "keypair".
Definition default_command_nonce_path (config : JoinConfig) (home : option Path) : Path :=
  let dir := match jc_identity_path config ≫= path_parent with
             | Some dir => dir
             | None => default (mkPath false ["."]) (path_parent (default_keypair_path home))
             end in
  path_join dir "mesh-command-nonces.json".

Definition resolve_configured_relay_urls (config : JoinConfig) : list string :=
  match jc_relay_urls config with
  | [] => option_list (jc_relay_url config)
  | urls => urls
  end.

(** ** Identity *)

Section Joining.
Context `{Externals} `{Curve} `{IdentitySerde} `{Noise} `{TableOrder} `{Signatures} `{Host}.

Definition resolve_identity (config : JoinConfig) (home : option Path) (d : Disk) (io : FsCalls) (random : list Z)
    : Disk * Result (WgKeypair * option Ipv6Addr * option string) JoinFailure :=
  let '(d, r) :=
    match jc_identity_path config with
    | Some id_path =>
        let '(d, r) := load_or_fresh d io id_path random in (d, map_err LoadIdentity r)
    | None =>
        let kp_path := default (default_keypair_path home) (jc_keypair_path config) in
        let '(d, r) := load_or_generate d io kp_path random in
        (d, match r with Ok kp => Ok (kp, None) | Err e => Err (LoadKeypair e) end)
    end in
  (d, let? found := r in
      let '(kp, sticky) := found in
      match jc_requested_ula config, sticky with
      | Some requested, Some sticky_ula =>
          if bool_decide (requested = fmt_ipv6 sticky_ula) then Ok (kp, sticky, Some requested)
          else Err (UlaDiffers requested (fmt_ipv6 sticky_ula))
      | Some requested, None => Ok (kp, sticky, Some requested)
      | None, Some sticky_ula => Ok (kp, sticky, Some (fmt_ipv6 sticky_ula))
      | None, None => Ok (kp, sticky, None)
      end).

Definition persist_identity_if_fresh (config : JoinConfig) (d : Disk) (io : FsCalls) (kp : WgKeypair)
    (my_ula : Ipv6Addr) (sticky : option Ipv6Addr) : Disk * Result unit JoinFailure :=
  match jc_identity_path config, sticky with
  | Some id_path, None => let '(d, r) := store d io id_path kp my_ula in (d, map_err PersistIdentity r)
  | _, _ => (d, Ok tt)
  end.

Definition build_reregister_inputs (config : JoinConfig) (advertise : option string) (our_public : list Z)
    (effective_requested_ula : option string) : ReregisterInputs :=
  {| Client.our_public := our_public;
     advertise_endpoint := advertise;
     ri_display_name := jc_display_name config;
     ri_tags := jc_tags config;
     join_token := jc_join_token config;
     requested_ula := effective_requested_ula;
     strict_requested_ula := bool_decide (is_Some (jc_requested_ula config));
     ri_kind := jc_kind config;
     ri_parent := jc_parent config;
     ri_app_uuid := jc_app_uuid config;
     ri_relay_only := jc_relay_only config |}.

(** ** The interface *)

Definition resolve_tun_name (config : JoinConfig) (my_ula : Ipv6Addr) : option string :=
  match jc_tun_name config with
  | Some name => Some name
  | None =>
      match target_os with
      | Linux => if jc_source_scoped_routes config || jc_manage_firewall config then Some (stable_tun_name my_ula) else None
      | _ => None
      end
  end.

Definition setup_host_integration (config : JoinConfig) (st : HostState) (my_ula : Ipv6Addr) (iface : string)
    : HostState * Result (option SourceScope) JoinFailure :=
  let '(st, r) :=
    if jc_source_scoped_routes config then
      let scope := for_ula my_ula in
      let '(st, r) := install_source_rule st scope in
      (st, match r with Ok _ => Ok (Some scope) | Err m => Err (HostSetup m) end)
    else (st, Ok None) in
  match r with
  | Err e => (st, Err e)
  | Ok scope => (if jc_manage_firewall config then fst (ensure_tun_trust st iface) else st, Ok scope)
  end.

Definition build_relay_channel (relay_enabled insecure_no_mtls relay_only : bool) : option RelayHandle :=
  if relay_enabled && insecure_no_mtls then Some (mkRelayHandle [] [] relay_only) else None.

(** ** The first roster *)

Definition seed_initial_roster (env : Surroundings) (our_private : StaticSecret) (t : SessionTable)
    (peer_info : gmap Ipv6Addr PeerInfo) (remote : list RemotePeer) : SessionTable * gmap Ipv6Addr PeerInfo :=
  let infos := roster_infos env remote in
  (install_all env our_private t infos, foldl (fun m i => <[i_ula i := i]> m) peer_info infos).

(** ** Joining *)

(** [CoordinatorClient::new] *)
Definition client_new (config : JoinConfig) (builds : bool) : Result unit JoinFailure :=
  if negb (jc_insecure_no_mtls config)
     && negb (bool_decide (is_Some (jc_tls_cert config) /\ is_Some (jc_tls_key config) /\ is_Some (jc_tls_ca config)))
  then Err InvalidConfig
  else if builds then Ok tt else Err BuildClient.

(** What the node meets on its way in. *)
Record Outside := mkOutside {
  home : option Path;
  identity_io : FsCalls;
  store_io : FsCalls;
  random : list Z;
  bind : nat -> Z -> option Z;
  local_addr_ok : bool;
  debug_assertions : bool;   (** a build with [debug_assert!] *)
  stun_seed : Z;
  stun_sent : bool;
  stun_reply : option (list Z);
  client_builds : bool;
  post : nat -> option string -> Result RegisterReply JoinerError;
  open_tun : option string -> Ipv6Addr -> option string;   (** the interface's name *)
  surroundings : Surroundings;
}.

(** The running node. *)
Record Joiner := mkJoiner {
  my_peer_id : Uuid;
  node_key : WgKeypair;
  my_ula : Ipv6Addr;
  node_sessions : SessionTable;
  peer_info : gmap Ipv6Addr PeerInfo;
  iface_name : option string;
  hosted_app_ulas : gset Ipv6Addr;
  source_scope : option SourceScope;
  manage_firewall : bool;
  route_sink_of : TunRouteSink;
  wg_listen_port : Z;
  reregister : ReregisterInputs;
  relay_urls : list string;
  command_nonce_path : Path;
}.

Context (secret_from : list Z -> StaticSecret).

(** From the registration's answer on. *)
Definition bring_up (config : JoinConfig) (o : Outside) (d : Disk) (st : HostState) (kp : WgKeypair)
    (sticky : option Ipv6Addr) (port : Z) (inputs : ReregisterInputs) (resp : RegisterReply)
    : Disk * HostState * Result Joiner JoinFailure :=
  match parse_ipv6 (rg_ula resp) with
  | None => (d, st, Err (MalformedUla (rg_ula resp)))
  | Some my_ula =>
      let '(d, r) := persist_identity_if_fresh config d (store_io o) kp my_ula sticky in
      match r with
      | Err e => (d, st, Err e)
      | Ok _ =>
          match open_tun o (resolve_tun_name config my_ula) my_ula with
          | None => (d, st, Err OpenTun)
          | Some iface =>
              let '(st, r) := assign_ula st iface my_ula in
              match r with
              | Err m => (d, st, Err (HostSetup m))
              | Ok _ =>
                  let '(st, r) := setup_host_integration config st my_ula iface in
                  match r with
                  | Err e => (d, st, Err e)
                  | Ok scope =>
                      let relay := build_relay_channel (jc_relay_enabled config) (jc_insecure_no_mtls config) (jc_relay_only config) in
                      let k := with_route_metric
                                 (match scope with Some s => source_scoped iface s | None => sink_new iface end)
                                 (jc_route_metric config) in
                      let '(t, infos) := seed_initial_roster (surroundings o) (secret_from (private kp))
                        (with_convergence_tx (with_route_sink_and_relay relay)) ∅ (rg_peers resp) in
                      (d, st, Ok {|
                        my_peer_id := rg_peer_id resp;
                        node_key := kp;
                        my_ula := my_ula;
                        node_sessions := t;
                        peer_info := infos;
                        iface_name := Some iface;
                        hosted_app_ulas := ∅;
                        source_scope := scope;
                        manage_firewall := jc_manage_firewall config;
                        route_sink_of := k;
                        wg_listen_port := port;
                        reregister := inputs;
                        relay_urls := resolve_relay_urls (jc_coordinator_url config) (resolve_configured_relay_urls config);
                        command_nonce_path := default_command_nonce_path config (home o) |})
                  end
              end
          end
      end
  end.

(** [join_with_commands], without a command sink or a nonce path of its own; [None] is
    a panic: that of [debug_assert!], or of the STUN parser. *)
Definition join (config : JoinConfig) (o : Outside) (d : Disk) (st : HostState)
    : option (Disk * HostState * Result Joiner JoinFailure) :=
  let '(d, r) := resolve_identity config (home o) d (identity_io o) (random o) in
  match r with
  | Err e => Some (d, st, Err e)
  | Ok (kp, sticky, requested) =>
      match bind_wg_socket (bind o) (local_addr_ok o) (default DEFAULT_WG_LISTEN_PORT (jc_listen_port config)) with
      | Err e => Some (d, st, Err e)
      | Ok port =>
          if debug_assertions o && negb (jc_relay_enabled config) then None
          else
          mapping ← match jc_stun_server config with
                    | Some _ => discover_wg_mapping (stun_seed o) (stun_sent o) (stun_reply o)
                    | None => Some None
                    end;
          let advertise := advertise_after_stun (jc_advertise_endpoint config) mapping in
          match client_new config (client_builds o) with
          | Err e => Some (d, st, Err e)
          | Ok _ =>
              let inputs := build_reregister_inputs config advertise (public kp) requested in
              match register_with_409_fallback (post o) (strict_requested_ula inputs) requested with
              | Err e => Some (d, st, Err (Registration e))
              | Ok resp => Some (bring_up config o d st kp sticky port inputs resp)
              end
          end
      end
  end.

(** ** The running node *)

Definition tun_name (j : Joiner) : option string := iface_name j.

Definition host_app_ula (j : Joiner) (st : HostState) (app_ula : Ipv6Addr) : Joiner * HostState * Result unit (option TunSetup) :=
  match iface_name j with
  | None => (j, st, Err None)
  | Some iface =>
      let '(st, r) := assign_app_ula st iface app_ula in
      match r with
      | Err m => (j, st, Err (Some m))
      | Ok _ =>
          (mkJoiner (my_peer_id j) (node_key j) (my_ula j) (node_sessions j) (peer_info j) (iface_name j)
             ({[app_ula]} ∪ hosted_app_ulas j) (source_scope j) (manage_firewall j) (route_sink_of j)
             (wg_listen_port j) (reregister j) (relay_urls j) (command_nonce_path j), st, Ok tt)
      end
  end.
Definition unhost_app_ula (j : Joiner) (st : HostState) (app_ula : Ipv6Addr) : Joiner * HostState * Result unit (option TunSetup) :=
  let j := mkJoiner (my_peer_id j) (node_key j) (my_ula j) (node_sessions j) (peer_info j) (iface_name j)
             (hosted_app_ulas j ∖ {[app_ula]}) (source_scope j) (manage_firewall j) (route_sink_of j)
             (wg_listen_port j) (reregister j) (relay_urls j) (command_nonce_path j) in
  match iface_name j with
  | None => (j, st, Ok tt)
  | Some iface => let '(st, r) := release_app_ula st iface app_ula in (j, st, map_err Some r)
  end.

Definition synth_info (s : PeerSession) : PeerInfo :=
  {| i_peer_id := peer_id s;
     i_wg_public_key := replicate 32 0;
     i_ula := ula s;
     i_listen_endpoint := endpoint s;
     i_display_name := EmptyString;
     i_tags := [];
     i_hosted_app_ulas := [];
     i_software_version := None;
     i_mesh_version := None;
     i_joined_at_micros := 0 |}.
Definition peers (j : Joiner) (t : SessionTable) : list PeerInfo :=
  (fun s => default (synth_info s) (peer_info j !! ula s)) <$> omap (get t) (snapshot t).

(** One turn of [source_scope_reassert_loop] for the live sessions [live]. *)
Definition reassert_tick (scope : SourceScope) (iface : string) (metric : Z) (st : HostState) (live : list Ipv6Addr) : HostState :=
  foldl (fun st u => fst (add_peer_route_in_table st iface u (scope_table scope) metric))
    (reassert_source_rule st scope) live.

(** What [leave] does to the host once the tasks are gone. *)
Definition leave_host (j : Joiner) (st : HostState) : HostState :=
  let st := match manage_firewall j, iface_name j with
            | true, Some iface => remove_tun_trust st iface
            | _, _ => st
            end in
  match source_scope j with Some scope => remove_source_rule st scope | None => st end.
End Joining.
