(* ===== verification/Tls.v ===== *)
(** * Mutual TLS: who issues the certificates and who trusts them
    ([tools/tabbify-mesh-ca], [http/mtls.rs], [coordinator/client/tls.rs])

    The certificate tool writes the files of a certificate authority and of its peers;
    the coordinator and a joiner load them into the configuration of their end of a
    connection. The cryptography, the PEM format and the TLS libraries are the class
    [Pki]. *)

From S2P Require Import Prelude NetAddr AddrText Text Types RosterStore Boot CommandGate Identity Startup.

Open Scope Z_scope.

(** What the tool sets of rcgen's [CertificateParams]. *)
Record CertificateParams := mkCertificateParams {
  alt_names : list string;
  is_ca : bool;
  key_cert_sign : bool;
  crl_sign : bool;
  common_name : string;
}.

Class Pki := {
  Key : Type;
  Cert : Type;
  (** rcgen: [CertificateParams::new] accepts the names, [self_signed], [signed_by] with
      the subject's key and the issuer's certificate and key, [pem], [serialize_pem],
      [KeyPair::from_pem] and [CertificateParams::from_ca_cert_pem]. A signature is
      drawn anew each time: the first argument is the randomness. *)
  names_ok : list string -> bool;
  self_signed : Z -> CertificateParams -> Key -> option Cert;
  signed_by : Z -> CertificateParams -> Key -> Cert -> Key -> option Cert;
  cert_pem : Cert -> string;
  key_pem : Key -> string;
  key_from_pem : string -> option Key;
  params_from_ca_pem : string -> option CertificateParams;
  (** rustls and rustls_pemfile *)
  certs_of : list Z -> option (list Cert);
  private_key_of : list Z -> option (option Key);
  root_ok : Cert -> bool;
  single_cert_ok : list Cert -> Key -> bool;
  (** reqwest: [Identity::from_pem], [Certificate::from_pem] and [build] *)
  identity_of : list Z -> option (list Cert * Key);
  certificates_of : list Z -> option (list Cert);
  client_builds : list Cert * Key -> list Cert -> bool;
  (** A root lets the peer's certificate pass. *)
  vouches : Cert -> Cert -> bool;
  (** reqwest: the name or address by which the server of a url must identify itself;
      [None] for a url that cannot be parsed or is not of [https]. *)
  server_name : string -> option string;
  (** webpki: a certificate is valid for a name or address, which an alternative name
      that rcgen was given covers, be it a DNS name or an address. *)
  valid_for : Cert -> string -> bool;
  covers : string -> string -> bool;
}.

(** ** Files *)

Section Tls.
Context {PK : Pki}.

(** [std::fs::write]: when it fails, or is cut short, it has left something or nothing. *)
Definition write_file (d : Disk) (w : WriteOutcome) (io : FsCalls) (p : Path) (text : string) : Disk * Result unit ErrorKind :=
  match w with
  | WriteOk => (fs_write d io p (bytes_of_string text), Ok tt)
  | WriteFailed left_behind =>
      (match left_behind with Some b => fs_write d io p b | None => d end, Err OtherKind)
  end.

(** ** The certificate tool *)

Inductive ToolError := FsError | RcgenError.

(** How the calls of one run go: the outcomes of its two writes, the key that is
    generated, and the randomness of its signatures. *)
Record ToolRun := mkToolRun {
  tr_io : FsCalls;
  first_write : WriteOutcome;
  second_write : WriteOutcome;
  generated : option Key;
  seed : Z;
}.

Definition ca_params : CertificateParams := mkCertificateParams ["tabbify-mesh-ca"] true true true "tabbify-mesh-ca".

Definition two_files (d : Disk) (run : ToolRun) (p1 : Path) (t1 : string) (p2 : Path) (t2 : string) : Disk * Result unit ToolError :=
  match write_file d (first_write run) (tr_io run) p1 t1 with
  | (d, Err _) => (d, Err FsError)
  | (d, Ok _) =>
      match write_file d (second_write run) (tr_io run) p2 t2 with
      | (d, Err _) => (d, Err FsError)
      | (d, Ok _) => (d, Ok tt)
      end
  end.

Definition init_ca (d : Disk) (run : ToolRun) (out : Path) : Disk * Result unit ToolError :=
  if negb (dirs_ok (tr_io run)) then (d, Err FsError)
  else if negb (names_ok (alt_names ca_params)) then (d, Err RcgenError)
  else
    match (key_pair ← generated run; cert ← self_signed (seed run) ca_params key_pair; Some (key_pair, cert)) with
    | None => (d, Err RcgenError)
    | Some (key_pair, cert) =>
        two_files d run (path_join out "ca.crt") (cert_pem cert) (path_join out "ca.key") (key_pem key_pair)
    end.

(** [read_to_string]; [None] also for text that is not UTF-8, which no PEM is. *)
Definition read_text (d : Disk) (io : FsCalls) (p : Path) : option string := string_of_bytes <$> ok (fs_read d io p).

Definition peer_params (name : string) : CertificateParams := mkCertificateParams [name] false false false name.

Definition issue_peer (d : Disk) (run : ToolRun) (name : string) (ca_dir out : Path) : Disk * Result unit ToolError :=
  match read_text d (tr_io run) (path_join ca_dir "ca.crt"), read_text d (tr_io run) (path_join ca_dir "ca.key") with
  | None, _ | _, None => (d, Err FsError)
  | Some ca_cert_pem, Some ca_key_pem =>
      match (ca_key ← key_from_pem ca_key_pem;
             params ← params_from_ca_pem ca_cert_pem;
             ca_cert ← self_signed (seed run) params ca_key;
             _ ← (if names_ok [name] then Some tt else None);
             peer_key ← generated run;
             peer_cert ← signed_by (seed run) (peer_params name) peer_key ca_cert ca_key;
             Some (peer_key, peer_cert)) with
      | None => (d, Err RcgenError)
      | Some (peer_key, peer_cert) =>
          if negb (dirs_ok (tr_io run)) then (d, Err FsError)
          else two_files d run (path_join out "peer.crt") (cert_pem peer_cert) (path_join out "peer.key") (key_pem peer_key)
      end
  end.

(** The commands and their dispatch in [main]. *)
Inductive Cmd := Init (out : Path) | IssuePeer (name : string) (ca_dir out : Path).
Definition ca_main (d : Disk) (run : ToolRun) (cmd : Cmd) : Disk * Result unit ToolError :=
  match cmd with
  | Init out => init_ca d run out
  | IssuePeer name ca_dir out => issue_peer d run name ca_dir out
  end.

(** ** The coordinator's end *)

Record ServerConfig := mkServerConfig { chain : list Cert; server_key : Key; client_roots : list Cert }.
Inductive ServerConfigError :=
| ReadFile (p : Path) | ParseCerts (p : Path) | ParseKey (p : Path) | NoPrivateKey (p : Path)
| AddCaCert | BuildVerifier | BadServerConfig.

Definition load_certs (d : Disk) (io : FsCalls) (p : Path) : Result (list Cert) ServerConfigError :=
  match fs_read d io p with
  | Err _ => Err (ReadFile p)
  | Ok bytes => match certs_of bytes with Some certs => Ok certs | None => Err (ParseCerts p) end
  end.
Definition load_key (d : Disk) (io : FsCalls) (p : Path) : Result Key ServerConfigError :=
  match fs_read d io p with
  | Err _ => Err (ReadFile p)
  | Ok bytes =>
      match private_key_of bytes with
      | None => Err (ParseKey p)
      | Some None => Err (NoPrivateKey p)
      | Some (Some key) => Ok key
      end
  end.
(** The verifier's builder demands a root. *)
Definition build_server_config (d : Disk) (io : FsCalls) (cert_path key_path ca_path : Path) : Result ServerConfig ServerConfigError :=
  let? certs := load_certs d io cert_path in
  let? key := load_key d io key_path in
  let? ca_certs := load_certs d io ca_path in
  if negb (forallb root_ok ca_certs) then Err AddCaCert
  else if bool_decide (length ca_certs = 0%nat) then Err BuildVerifier
  else if negb (single_cert_ok certs key) then Err BadServerConfig
  else Ok (mkServerConfig certs key ca_certs).

(** ** The joiner's end *)

Record ClientConfig := mkClientConfig { client_identity : option (list Cert * Key); built_in_roots : bool; extra_roots : list Cert }.
Inductive ClientError := MissingPaths | ReadCert | ReadKey | ReadCa | ParseIdentity | ParseCa | ClientBuild.

Definition terminated (bytes : list Z) : list Z := if bool_decide (last bytes = Some 10) then bytes else bytes ++ [10].
Definition build_mtls_client_builder (d : Disk) (io : FsCalls) (cert_path key_path ca_path : Path) : Result ClientConfig ClientError :=
  let? cert_pem := map_err (fun _ => ReadCert) (fs_read d io cert_path) in
  let? key_pem := map_err (fun _ => ReadKey) (fs_read d io key_path) in
  let? ca_pem := map_err (fun _ => ReadCa) (fs_read d io ca_path) in
  match identity_of (terminated cert_pem ++ key_pem) with
  | None => Err ParseIdentity
  | Some id =>
      match certificates_of ca_pem with
      | None => Err ParseCa
      | Some root_ca => Ok (mkClientConfig (Some id) false root_ca)
      end
  end.

Record CoordinatorClient := mkCoordinatorClient { http : ClientConfig; base_url : string }.
(** [CoordinatorClient::new]; [plain_builds] is [build] without certificates. *)
Definition coordinator_client_new (d : Disk) (io : FsCalls) (plain_builds : bool) (url : string)
    (tls_cert tls_key tls_ca : option Path) (insecure : bool) : Result CoordinatorClient ClientError :=
  let trimmed := trim_end_slashes url in
  let? builder :=
    (if insecure then Ok (mkClientConfig None true [])
     else match tls_cert, tls_key, tls_ca with
          | Some cert_path, Some key_path, Some ca_path => build_mtls_client_builder d io cert_path key_path ca_path
          | _, _, _ => Err MissingPaths
          end) in
  let builds := match client_identity builder with Some i => client_builds i (extra_roots builder) | None => plain_builds end in
  if builds then Ok (mkCoordinatorClient builder trimmed) else Err ClientBuild.

(** The two ends accept each other: each trusts a root that vouches for the other's
    first certificate, and the joiner, whose builder leaves the check of the name on,
    finds that certificate valid for the host it called. The coordinator asks for no
    name. *)
Definition accepts (roots : list Cert) (presented : list Cert) : bool :=
  match presented with leaf :: _ => existsb (fun r => vouches r leaf) roots | [] => false end.
Definition identifies (presented : list Cert) (url : string) : bool :=
  match presented, server_name url with leaf :: _, Some host => valid_for leaf host | _, _ => false end.
Definition handshake (server : ServerConfig) (client : CoordinatorClient) : bool :=
  match client_identity (http client) with
  | Some (chain_, _) =>
      accepts (client_roots server) chain_
      && accepts (extra_roots (http client)) (chain server) && identifies (chain server) (base_url client)
  | None => false
  end.

(** ** What the libraries document *)

Class PkiLaws := {
  certs_of_pem : forall c, certs_of (bytes_of_string (cert_pem c)) = Some [c];
  private_key_of_pem : forall k, private_key_of (bytes_of_string (key_pem k)) = Some (Some k);
  key_from_pem_pem : forall k, key_from_pem (key_pem k) = Some k;
  identity_of_bundle : forall c k,
    identity_of (terminated (bytes_of_string (cert_pem c)) ++ bytes_of_string (key_pem k)) = Some ([c], k);
  certificates_of_pem : forall c, certificates_of (bytes_of_string (cert_pem c)) = Some [c];
  (** the parameters of an authority are in its certificate *)
  ca_params_read : forall s p k c, self_signed s p k = Some c -> is_ca p = true -> params_from_ca_pem (cert_pem c) = Some p;
  root_ok_ca : forall s p k c, self_signed s p k = Some c -> is_ca p = true -> root_ok c = true;
  single_cert_own_key : forall s p k i ki c, signed_by s p k i ki = Some c -> single_cert_ok [c] k = true;
  client_own_key : forall s p k i ki c roots, signed_by s p k i ki = Some c -> client_builds ([c], k) roots = true;
  (** a root vouches for what its key signed under its name, and for nothing that
      another key signed *)
  vouches_issued : forall s p k r s' i s'' q kq c, self_signed s p k = Some r -> self_signed s' p k = Some i ->
    is_ca p = true -> key_cert_sign p = true -> signed_by s'' q kq i k = Some c -> vouches r c = true;
  vouches_only : forall s p k r s' q kq i k' c, self_signed s p k = Some r -> signed_by s' q kq i k' = Some c ->
    vouches r c = true -> k' = k;
  (** a certificate is valid for what its alternative names cover: no name of its
      issuer's and no common name *)
  valid_names : forall s q k i ki c host, signed_by s q k i ki = Some c ->
    valid_for c host = existsb (fun n => covers n host) (alt_names q);
}.

(** ** The files of a run *)

Lemma path_join_inj p q a b : path_join p a = path_join q b <-> p = q /\ a = b.
Proof.
  split; [|by intros [-> ->]]. destruct p as [x l], q as [y m]. unfold path_join. cbn. intros [= -> He].
  apply app_inj_tail in He as [-> ->]. done.
Qed.

Lemma two_files_Ok d run p1 t1 p2 t2 d' :
  two_files d run p1 t1 p2 t2 = (d', Ok tt) -> p1 <> p2 ->
  content <$> d' !! p1 = Some (bytes_of_string t1) /\ content <$> d' !! p2 = Some (bytes_of_string t2)
  /\ forall p, p <> p1 -> p <> p2 -> d' !! p = d !! p.
Proof.
  intros H Hne. unfold two_files, write_file in H. destruct (first_write run); [|done]. destruct (second_write run); [|done].
  injection H as <-. unfold fs_write. split_and!.
  - rewrite lookup_insert_ne, lookup_insert_eq by done. done.
  - by rewrite lookup_insert_eq.
  - intros p H1 H2. by rewrite !lookup_insert_ne.
Qed.
Lemma read_content d io p bytes : content <$> d !! p = Some bytes -> read_ok io = true -> fs_read d io p = Ok bytes.
Proof. unfold fs_read. intros (f & -> & <-)%fmap_Some ->. done. Qed.

(** What is on the disk after [init]. *)
Definition ca_files (d : Disk) (ca : Path) (k : Key) (r : Cert) : Prop :=
  content <$> d !! path_join ca "ca.crt" = Some (bytes_of_string (cert_pem r))
  /\ content <$> d !! path_join ca "ca.key" = Some (bytes_of_string (key_pem k))
  /\ exists s, self_signed s ca_params k = Some r.
Lemma init_ca_files d run ca d' : init_ca d run ca = (d', Ok tt) -> exists k r, generated run = Some k /\ ca_files d' ca k r.
Proof.
  unfold init_ca. destruct (dirs_ok _); [|done]. destruct (names_ok _); [|done]. cbn [negb].
  destruct (generated run) as [k|]; [|done]. cbn [mbind option_bind].
  destruct (self_signed (seed run) ca_params k) as [r|] eqn:Hr; [|done]. cbn [mbind option_bind]. intros Hf.
  apply two_files_Ok in Hf as (H1 & H2 & _); [|by intros [_ [=]]%path_join_inj].
  exists k, r. split; [done|]. split_and!; [done|done|by eexists].
Qed.

(** What is on the disk after [issue-peer]: a key and a certificate for it and the name,
    signed by a certificate of the authority; the files elsewhere are as they were. *)
Definition peer_files (d : Disk) (out : Path) (name : string) (ca_key key : Key) (c : Cert) : Prop :=
  content <$> d !! path_join out "peer.crt" = Some (bytes_of_string (cert_pem c))
  /\ content <$> d !! path_join out "peer.key" = Some (bytes_of_string (key_pem key))
  /\ exists s i s', self_signed s ca_params ca_key = Some i /\ signed_by s' (peer_params name) key i ca_key = Some c.
Lemma issue_peer_files `{!PkiLaws} d run name ca out d' k r :
  ca_files d ca k r -> issue_peer d run name ca out = (d', Ok tt) ->
  (exists key c, peer_files d' out name k key c)
  /\ forall p, p <> path_join out "peer.crt" -> p <> path_join out "peer.key" -> d' !! p = d !! p.
Proof.
  intros (Hc & Hk & s & Hs) Hi. unfold issue_peer, read_text in Hi.
  destruct (fs_read d _ (path_join ca "ca.crt")) as [cb|] eqn:Ec; [|done].
  destruct (fs_read d _ (path_join ca "ca.key")) as [kb|] eqn:Ek; [|done].
  assert (forall p b b', fs_read d (tr_io run) p = Ok b -> content <$> d !! p = Some b' -> b = b') as Hread.
  { intros p b b' H1 (f & Hf & ->)%fmap_Some. unfold fs_read in H1. rewrite Hf in H1. destruct (read_ok _); congruence. }
  rewrite (Hread _ _ _ Ec Hc), (Hread _ _ _ Ek Hk) in Hi. cbn [ok fmap option_fmap option_map] in Hi.
  rewrite !string_of_bytes_of, key_from_pem_pem in Hi. cbn [mbind option_bind] in Hi.
  rewrite (ca_params_read _ _ _ _ Hs eq_refl) in Hi. cbn [mbind option_bind] in Hi.
  destruct (self_signed (seed run) ca_params k) as [i|] eqn:Hss; [|done]. cbn [mbind option_bind] in Hi.
  destruct (names_ok [name]); [|done]. cbn [mbind option_bind] in Hi.
  destruct (generated run) as [key|]; [|done]. cbn [mbind option_bind] in Hi.
  destruct (signed_by _ _ key i k) as [c|] eqn:Hc'; [|done]. cbn [mbind option_bind] in Hi.
  destruct (dirs_ok _); [|done]. cbn [negb] in Hi.
  apply two_files_Ok in Hi as (H1 & H2 & Hrest); [|by intros [_ [=]]%path_join_inj].
  split; [|done]. exists key, c. split_and!; [done|done|]. by eexists _, i, _.
Qed.

(** ** The two ends *)

Lemma load_certs_file `{!PkiLaws} d io p c :
  content <$> d !! p = Some (bytes_of_string (cert_pem c)) -> read_ok io = true -> load_certs d io p = Ok [c].
Proof. intros Hp Hr. unfold load_certs. by rewrite (read_content _ _ _ _ Hp Hr), certs_of_pem. Qed.

Lemma server_config_built `{!PkiLaws} d io ca out name k r key c :
  ca_files d ca k r -> peer_files d out name k key c -> read_ok io = true ->
  build_server_config d io (path_join out "peer.crt") (path_join out "peer.key") (path_join ca "ca.crt")
  = Ok (mkServerConfig [c] key [r]).
Proof.
  intros (Hr & _ & s & Hs) (Hc & Hk & s1 & i & s2 & Hi & Hsig) Hio. unfold build_server_config, load_key.
  rewrite (load_certs_file d io _ c Hc Hio).
  rewrite (read_content _ _ _ _ Hk Hio), private_key_of_pem.
  rewrite (load_certs_file d io _ r Hr Hio). cbn [forallb negb length].
  by rewrite (root_ok_ca _ _ _ _ Hs), (single_cert_own_key _ _ _ _ _ _ Hsig).
Qed.
Lemma client_config_built `{!PkiLaws} d io ca out name k r key c plain url :
  ca_files d ca k r -> peer_files d out name k key c -> read_ok io = true ->
  coordinator_client_new d io plain url (Some (path_join out "peer.crt")) (Some (path_join out "peer.key"))
    (Some (path_join ca "ca.crt")) false
  = Ok (mkCoordinatorClient (mkClientConfig (Some ([c], key)) false [r]) (trim_end_slashes url)).
Proof.
  intros (Hr & _ & s & Hs) (Hc & Hk & s1 & i & s2 & Hi & Hsig) Hio.
  unfold coordinator_client_new, build_mtls_client_builder.
  rewrite (read_content _ _ _ _ Hc Hio), (read_content _ _ _ _ Hk Hio), (read_content _ _ _ _ Hr Hio).
  cbn [map_err]. rewrite identity_of_bundle, certificates_of_pem. cbn [client_identity extra_roots].
  by rewrite (client_own_key _ _ _ _ _ _ _ Hsig).
Qed.

(** The root vouches for a certificate exactly when the authority's key signed it. *)
Lemma vouches_exactly `{!PkiLaws} d ca k r s q key i k' c s' :
  ca_files d ca k r -> self_signed s' ca_params k' = Some i -> signed_by s q key i k' = Some c ->
  vouches r c = true <-> k' = k.
Proof.
  intros (_ & _ & s0 & Hs) Hi Hc. split; [by eapply vouches_only|]. intros ->. by eapply vouches_issued.
Qed.

(** C23: The certificates that the tool issues connect the mesh, and nothing else does.
    After an authority was initialised and a certificate issued from it to each of two
    directories, the coordinator builds its configuration from the one and a joiner its
    client from the other, each with the authority as the only root it trusts (no
    built-in roots are left on the joiner). They accept each other exactly when the
    joiner's url, less its trailing slashes, names a host that the name of the
    coordinator's certificate covers; the name of the joiner's own does not matter. And
    a certificate that some other key signed, even for the same name and by an authority
    of the same name, is accepted by neither. *)
Theorem certificates_connect `{!PkiLaws} d run run1 run2 name1 name2 ca out1 out2 d0 d1 d2 io plain url ca_key :
  ca_main d run (Init ca) = (d0, Ok tt) -> generated run = Some ca_key ->
  ca_main d0 run1 (IssuePeer name1 ca out1) = (d1, Ok tt) -> ca_main d1 run2 (IssuePeer name2 ca out2) = (d2, Ok tt) ->
  out1 <> out2 -> read_ok io = true ->
  exists server client,
    build_server_config d2 io (path_join out1 "peer.crt") (path_join out1 "peer.key") (path_join ca "ca.crt") = Ok server
    /\ coordinator_client_new d2 io plain url (Some (path_join out2 "peer.crt")) (Some (path_join out2 "peer.key"))
         (Some (path_join ca "ca.crt")) false = Ok client
    /\ handshake server client
       = match server_name (trim_end_slashes url) with Some host => covers name1 host | None => false end
    /\ built_in_roots (http client) = false
    /\ forall s q key i k' c, signed_by s q key i k' = Some c -> k' <> ca_key ->
         accepts (client_roots server) [c] = false /\ accepts (extra_roots (http client)) [c] = false.
Proof.
  intros H0 Hg H1 H2 Hne Hio. cbn [ca_main] in *.
  apply init_ca_files in H0 as (k & r & Hk & Hca). assert (k = ca_key) as -> by congruence.
  destruct (issue_peer_files _ _ _ _ _ _ _ _ Hca H1) as ((key1 & c1 & Hp1) & Hrest1).
  assert (ca_files d1 ca ca_key r) as Hca1.
  { destruct Hca as (Ha & Hb & Hs). split_and!; [rewrite Hrest1; [exact Ha|..]|rewrite Hrest1; [exact Hb|..]|exact Hs];
      by intros [_ [=]]%path_join_inj. }
  destruct (issue_peer_files _ _ _ _ _ _ _ _ Hca1 H2) as ((key2 & c2 & Hp2) & Hrest2).
  assert (ca_files d2 ca ca_key r) as Hca2.
  { destruct Hca1 as (Ha & Hb & Hs). split_and!; [rewrite Hrest2; [exact Ha|..]|rewrite Hrest2; [exact Hb|..]|exact Hs];
      by intros [_ [=]]%path_join_inj. }
  assert (peer_files d2 out1 name1 ca_key key1 c1) as Hp1'.
  { destruct Hp1 as (Ha & Hb & Hs). split_and!; [rewrite Hrest2; [exact Ha|..]|rewrite Hrest2; [exact Hb|..]|exact Hs];
      by intros [He ?]%path_join_inj. }
  eexists _, _. split; [by eapply server_config_built|]. split; [by eapply client_config_built|].
  assert (forall out name key c, peer_files d2 out name ca_key key c -> vouches r c = true) as Hv.
  { intros out name key c (_ & _ & s1 & i & s2 & Hi & Hsig). by apply (vouches_exactly _ _ _ _ _ _ _ _ _ _ _ Hca2 Hi Hsig). }
  split_and!; [|done|].
  - unfold handshake, accepts, identifies. cbn -[trim_end_slashes]. rewrite (Hv _ _ _ _ Hp1'), (Hv _ _ _ _ Hp2). cbn -[trim_end_slashes].
    destruct (server_name _) as [host|]; [|done]. destruct Hp1' as (_ & _ & s1 & i & s2 & _ & Hsig).
    rewrite (valid_names _ _ _ _ _ _ host Hsig). apply orb_false_r.
  - intros s q key i k' c Hsig Hk'. unfold accepts. cbn. rewrite !orb_false_r.
    assert (vouches r c = false) as ->; [|done]. apply not_true_iff_false. intros Hvc. apply Hk'.
    destruct Hca2 as (_ & _ & s0 & Hs0). by eapply vouches_only.
Qed.

(** Nothing is written for a peer unless the authority's files were read and the
    certificate was made. *)
Lemma failed_issue_writes_nothing d run name ca out d' e :
  issue_peer d run name ca out = (d', Err e) -> first_write run = WriteOk -> second_write run = WriteOk -> d' = d.
Proof.
  unfold issue_peer. intros H H1 H2. destruct (read_text _ _ _); [|by injection H]. destruct (read_text _ _ _); [|by injection H].
  match type of H with context [match ?x with Some _ => _ | None => _ end] => destruct x as [[k c]|] end; [|by injection H].
  destruct (negb _); [by injection H|]. unfold two_files, write_file in H. by rewrite H1, H2 in H.
Qed.

(** ** In the programs *)

(** The coordinator's [main] and the joiner's start ask whether the configuration
    builds. *)
Lemma serving_tls d io cert key ca (path : string -> Path) args bind_ok allow_insecure :
  insecure_no_mtls args = false -> tls_cert args = Some cert -> tls_key args = Some key -> tls_ca args = Some ca ->
  is_ok (serving args allow_insecure (is_ok (build_server_config d io (path cert) (path key) (path ca))) bind_ok)
  = is_ok (build_server_config d io (path cert) (path key) (path ca)) && bind_ok.
Proof. unfold serving. intros -> -> -> ->. by destruct (build_server_config _ _ _ _ _), bind_ok. Qed.
Lemma client_new_tls d io plain config :
  is_ok (client_new config (is_ok (coordinator_client_new d io plain (jc_coordinator_url config)
    (jc_tls_cert config) (jc_tls_key config) (jc_tls_ca config) (jc_insecure_no_mtls config))))
  = is_ok (coordinator_client_new d io plain (jc_coordinator_url config)
    (jc_tls_cert config) (jc_tls_key config) (jc_tls_ca config) (jc_insecure_no_mtls config)).
Proof.
  match goal with |- context [is_ok ?x] => match x with coordinator_client_new _ _ _ _ _ _ _ _ => set (r := x) end end.
  destruct (is_ok r) eqn:Er; unfold client_new; [|by destruct (_ && _)].
  assert (jc_insecure_no_mtls config = true
    \/ (is_Some (jc_tls_cert config) /\ is_Some (jc_tls_key config) /\ is_Some (jc_tls_ca config))) as [-> | Hs]; [|done|].
  - unfold r, coordinator_client_new in Er. destruct (jc_insecure_no_mtls config); [by left|right].
    by destruct (jc_tls_cert config), (jc_tls_key config), (jc_tls_ca config).
  - rewrite (bool_decide_eq_true_2 _ Hs). by rewrite andb_false_r.
Qed.
End Tls.

(** ** Certificates on paper

    Keys are numbers and a certificate tells whose key signed it. *)
Module Paper.
Record Certificate := mkCertificate { subject : CertificateParams; subject_key : Z; issuer_key : Z; stamp : Z }.
#[export] Instance Params_eq_dec : EqDecision CertificateParams.
Proof. solve_decision. Defined.
#[export] Instance Params_countable : Countable CertificateParams.
Proof.
  apply (inj_countable' (fun p => (alt_names p, is_ca p, key_cert_sign p, crl_sign p, common_name p))
    (fun '(a, b, c, d, e) => mkCertificateParams a b c d e)). by intros [].
Defined.
#[export] Instance Certificate_eq_dec : EqDecision Certificate.
Proof. solve_decision. Defined.
#[export] Instance Certificate_countable : Countable Certificate.
Proof.
  apply (inj_countable' (fun c => (subject c, subject_key c, issuer_key c, stamp c)) (fun '(a, b, c, d) => mkCertificate a b c d)).
  by intros [].
Defined.

(** A section is a tag, the bits of what it holds, and a newline. *)
Definition section_text (tag : string) (p : positive) : string := tag +:+ Toy.string_of_positive p +:+ String newline EmptyString.
Fixpoint next_line (s : string) : option (string * string) :=
  match s with
  | EmptyString => None
  | String c s => if bool_decide (c = newline) then Some (EmptyString, s) else '(l, r) ← next_line s; Some (String c l, r)
  end.
Definition read_section {A} `{Countable A} (tag s : string) : option (A * string) :=
  s ← strip_prefix tag s; '(l, r) ← next_line s; a ← decode (Toy.positive_of_string l); Some (a, r).
Definition only {A} (x : option (A * string)) : option A := '(a, r) ← x; if bool_decide (r = EmptyString) then Some a else None.

Lemma next_line_bits p t : next_line (Toy.string_of_positive p +:+ String newline t) = Some (Toy.string_of_positive p, t).
Proof.
  induction p as [p IH|p IH|]; [| |done]; cbn [Toy.string_of_positive]; rewrite string_app_assoc, string_app_cons, string_app_nil;
    cbn [next_line]; rewrite bool_decide_false by done; by rewrite IH.
Qed.
Lemma read_section_text {A} `{Countable A} tag (a : A) t : read_section tag (section_text tag (encode a) +:+ t) = Some (a, t).
Proof.
  unfold read_section, section_text. rewrite !string_app_assoc.
  rewrite (proj2 (strip_prefix_spec _ _ _) eq_refl). cbn [mbind option_bind].
  rewrite string_app_cons, string_app_nil, next_line_bits. cbn [mbind option_bind].
  by rewrite Toy.positive_of_string_of, decode_encode.
Qed.
Lemma read_section_only {A} `{Countable A} tag (a : A) : read_section tag (section_text tag (encode a)) = Some (a, EmptyString).
Proof. by rewrite <- (string_app_nil_r (section_text _ _)), read_section_text. Qed.

(** The host of an [https] url, up to its port or path. *)
Fixpoint host_part (s : string) : string :=
  match s with
  | EmptyString => EmptyString
  | String c s => if bool_decide (c = Ascii.ascii_of_nat 58 \/ c = Ascii.ascii_of_nat 47) then EmptyString else String c (host_part s)
  end.

#[export] Instance paper : Pki := {|
  Key := Z;
  Cert := Certificate;
  names_ok _ := true;
  self_signed s p k := Some (mkCertificate p k k s);
  signed_by s p k _ ki := Some (mkCertificate p k ki s);
  cert_pem c := section_text "C" (encode c);
  key_pem k := section_text "K" (encode k);
  key_from_pem s := only (read_section "K" s);
  params_from_ca_pem s := c ← (only (read_section "C" s) : option Certificate); if is_ca (subject c) then Some (subject c) else None;
  certs_of bytes := (fun c => [c]) <$> only (read_section "C" (string_of_bytes bytes));
  private_key_of bytes := Some <$> only (read_section "K" (string_of_bytes bytes));
  root_ok c := is_ca (subject c);
  single_cert_ok chain k := match chain with c :: _ => subject_key c =? k | [] => false end;
  identity_of bytes :=
    '(c, r) ← (read_section "C" (string_of_bytes bytes) : option (Certificate * string)); k ← only (read_section "K" r); Some ([c], k);
  certificates_of bytes := (fun c => [c]) <$> only (read_section "C" (string_of_bytes bytes));
  client_builds id _ := match id.1 with c :: _ => subject_key c =? id.2 | [] => false end;
  vouches r c := is_ca (subject r) && (subject_key r =? issuer_key c);
  server_name url := host_part <$> strip_prefix "https://" url;
  valid_for c host := existsb (fun n => String.eqb n host) (alt_names (subject c));
  covers := String.eqb;
|}.

Lemma terminated_section tag p : terminated (bytes_of_string (section_text tag p)) = bytes_of_string (section_text tag p).
Proof.
  unfold terminated, section_text. rewrite !bytes_of_app. change (bytes_of_string (String newline EmptyString)) with [10].
  by rewrite app_assoc, last_snoc.
Qed.
#[export] Instance paper_laws : PkiLaws.
Proof.
  split; cbn -[string_of_bytes bytes_of_string read_section section_text terminated only].
  - intros c. by rewrite string_of_bytes_of, read_section_only.
  - intros k. by rewrite string_of_bytes_of, read_section_only.
  - intros k. by rewrite read_section_only.
  - intros c k. rewrite terminated_section, <- bytes_of_app, string_of_bytes_of, read_section_text.
    cbn [mbind option_bind]. by rewrite read_section_only.
  - intros c. by rewrite string_of_bytes_of, read_section_only.
  - intros s p k c [= <-] Hca. rewrite read_section_only. unfold only. cbn [mbind option_bind]. rewrite bool_decide_true by done. cbn. by rewrite Hca.
  - by intros s p k c [= <-] Hca.
  - intros s p k i ki c [= <-]. apply Z.eqb_refl.
  - intros s p k i ki c roots [= <-]. apply Z.eqb_refl.
  - intros s p k r s' i s'' q kq c [= <-] _ Hca _ [= <-]. cbn. by rewrite Hca, Z.eqb_refl.
  - intros s p k r s' q kq i k' c [= <-] [= <-]. cbn. intros [_ He]%andb_true_iff. lia.
  - by intros s q k i ki c host [= <-].
Qed.

Definition run (key : Z) : ToolRun := mkToolRun fs_ok WriteOk WriteOk (Some key) key.
Definition dir (name : string) : Path := mkPath true [name].
End Paper.

Import Paper.
Lemma ran d r cmd : is_ok (ca_main d r cmd).2 = true -> ca_main d r cmd = ((ca_main d r cmd).1, Ok tt).
Proof. by destruct (ca_main d r cmd) as [d' [[]|e]]. Qed.

(** The joiner of the directory [b] calls the coordinator, whose certificate is in the
    directory [a], by its name and by another one. *)
Definition initialised : Disk := (ca_main ∅ (run 1) (Init (dir "ca"))).1.
Definition half_issued : Disk := (ca_main initialised (run 2) (IssuePeer "coordinator" (dir "ca") (dir "a"))).1.
Definition both_issued : Disk := (ca_main half_issued (run 3) (IssuePeer "node" (dir "ca") (dir "b"))).1.
Definition joiner_calls (url : string) : Result CoordinatorClient ClientError :=
  coordinator_client_new both_issued fs_ok true url (Some (path_join (dir "b") "peer.crt")) (Some (path_join (dir "b") "peer.key"))
    (Some (path_join (dir "ca") "ca.crt")) false.

Definition meets (url : string) (met : bool) : Prop :=
  exists server client,
    build_server_config both_issued fs_ok (path_join (dir "a") "peer.crt") (path_join (dir "a") "peer.key") (path_join (dir "ca") "ca.crt") = Ok server
    /\ joiner_calls url = Ok client
    /\ handshake server client = met
    /\ accepts (extra_roots (http client)) [mkCertificate (peer_params "coordinator") 3 7 0] = false.

Lemma certificates_connect_witness :
  meets "https://coordinator:8443/" true /\ meets "https://10.0.0.1:8443/" false /\ meets "coordinator:8443" false.
Proof.
  assert (forall url, meets url match server_name (trim_end_slashes url) with
                                | Some host => covers "coordinator" host | None => false end) as Hm.
  { intros url.
    destruct (certificates_connect ∅ (run 1) (run 2) (run 3) "coordinator" "node" (dir "ca") (dir "a") (dir "b") initialised half_issued both_issued fs_ok true url 1)
      as (server & client & Hs & Hc & Hh & _ & Hx).
    - apply ran. vm_compute. reflexivity.
    - reflexivity.
    - apply ran. vm_compute. reflexivity.
    - apply ran. vm_compute. reflexivity.
    - discriminate.
    - reflexivity.
    - exists server, client. split; [exact Hs|]. split; [exact Hc|]. split; [exact Hh|].
      by apply (Hx 0 (peer_params "coordinator") 3 (mkCertificate (peer_params "coordinator") 3 7 0) 7). }
  split; [exact (Hm "https://coordinator:8443/")|]. split; [exact (Hm "https://10.0.0.1:8443/")|exact (Hm "coordinator:8443")].
Defined.
