(* ===== verification/StartupProps.v ===== *)
(** * Joining, restarting and leaving

    What the steps of [Startup.v] add up to: failed joins, the node's identity over
    restarts, the endpoint it advertises, the port it binds, and the host after it
    has left. *)

From S2P Require Import Prelude NetAddr AddrText Text Types Reflexive Stun CoordInv PeerSession SessionTable SessionInv.
From S2P Require Import CommandGate PeerSync PeerSyncProps DataPlane DataPlaneProps RelayClient Client RosterStore Identity Platform Routes Firewall Startup.

Open Scope Z_scope.

(** ** The port *)

(** The first attempts fail up to the [n]th, which succeeds. *)
Lemma bind_retry_spec bind port left attempt :
  port <> 0 ->
  match fst (bind_retry bind port left attempt) with
  | Some (Ok bound) => exists n, (n < left)%nat /\ bind (attempt + n)%nat port = Some bound
      /\ forall m, (m < n)%nat -> bind (attempt + m)%nat port = None
  | Some (Err _) => False
  | None => forall n, (n < left)%nat -> bind (attempt + n)%nat port = None
  end /\ (snd (bind_retry bind port left attempt) <= left - 1)%nat.
Proof.
  intros Hp. revert attempt. induction left as [|left IH]; intros attempt; cbn [bind_retry].
  { split; [|simpl; lia]. simpl. intros n Hn. lia. }
  destruct (bind attempt port) as [b|] eqn:Hb.
  { split; [|simpl; lia]. exists 0%nat. rewrite Nat.add_0_r. split_and!; [lia|done|lia]. }
  apply Z.eqb_neq in Hp as ->. destruct (IH (S attempt)) as [Hr Hs].
  destruct (bind_retry bind port left (S attempt)) as [r pauses]. cbn [fst snd] in *.
  split; [|destruct left; cbn [Nat.eqb]; lia]. destruct r as [[bound|e]|]; [|done|].
  - destruct Hr as (n & Hn & Hbn & Hf). exists (S n). rewrite <- Nat.add_succ_comm. split_and!; [lia|done|].
    intros [|m] Hm; [by rewrite Nat.add_0_r|]. rewrite <- Nat.add_succ_comm. apply Hf. lia.
  - intros [|n] Hn; [by rewrite Nat.add_0_r|]. rewrite <- Nat.add_succ_comm. apply Hr. lia.
Qed.

(** The node takes its preferred port whenever one of five attempts gets it, and the
    first one that does; otherwise it asks for any port, once; with the preference
    "any" it asks once only. It fails only if that last request does, and it pauses
    at most four times. *)
Theorem bind_prefers_the_port bind port :
  let r := bind_udp_with_fallback bind port in
  (port <> 0 ->
     (forall n bound, (1 <= n <= 5)%nat -> bind n port = Some bound -> (forall m, (1 <= m < n)%nat -> bind m port = None) -> r = Ok bound)
     /\ ((forall n, (1 <= n <= 5)%nat -> bind n port = None) ->
           r = match bind 6%nat 0 with Some bound => Ok bound | None => Err (UdpBind 0) end))
  /\ (port = 0 -> r = match bind 1%nat 0 with Some bound => Ok bound | None => Err (UdpBind 0) end)
  /\ (snd (bind_retry bind port BIND_RETRY_ATTEMPTS 1) <= 4)%nat.
Proof.
  cbn zeta. unfold bind_udp_with_fallback. destruct (decide (port = 0)) as [->|Hp].
  - split; [done|]. unfold BIND_RETRY_ATTEMPTS. simpl. destruct (bind 1%nat 0); simpl; split; done || lia.
  - destruct (bind_retry_spec bind port BIND_RETRY_ATTEMPTS 1 Hp) as [Hr Hs]. unfold BIND_RETRY_ATTEMPTS in *.
    split; [|split; [done|lia]]. intros _. destruct (bind_retry bind port 5 1) as [[[b|e]|] pauses]; cbn [fst snd] in *; [|done|].
    + destruct Hr as (n & Hn & Hb & Hf). split.
      * intros k bound Hk Hbk Hfk. f_equal. destruct (lt_eq_lt_dec k (1 + n)) as [[Hlt| ->]|Hgt]; [|congruence|].
        -- specialize (Hf (k - 1)%nat ltac:(lia)). replace (1 + (k - 1))%nat with k in Hf by lia. congruence.
        -- specialize (Hfk (1 + n)%nat ltac:(lia)). congruence.
      * intros Hn'. specialize (Hn' (1 + n)%nat ltac:(lia)). congruence.
    + split; [|done]. intros k bound Hk Hbk. specialize (Hr (k - 1)%nat ltac:(lia)).
      replace (1 + (k - 1))%nat with k in Hr by lia. congruence.
Qed.

(** Binding fails as a bind or in reading the bound address. *)
Lemma bind_failure bind okl port e : bind_wg_socket bind okl port = Err e -> e = LocalAddr \/ exists p, e = UdpBind p.
Proof.
  unfold bind_wg_socket, bind_udp_with_fallback.
  assert (forall left attempt e', fst (bind_retry bind port left attempt) = Some (Err e') -> exists p, e' = UdpBind p) as Hb.
  { induction left as [|left IH]; intros attempt e'; cbn [bind_retry]; [done|].
    destruct (bind attempt port); [done|]. destruct (port =? 0); [intros [= <-]; by eexists|].
    specialize (IH (S attempt) e'). by destruct (bind_retry bind port left (S attempt)). }
  destruct (fst (bind_retry _ _ _ _)) as [[b|e']|] eqn:E.
  - destruct okl; [done|]. intros [= <-]. by left.
  - intros [= <-]. right. by eapply Hb.
  - destruct (bind _ 0); [destruct okl; [done|]; intros [= <-]; by left|]. intros [= <-]. right. by eexists.
Qed.

(** ** The advertised endpoint *)

Lemma discover_total seed sent reply : is_Some (discover_wg_mapping seed sent reply).
Proof.
  unfold discover_wg_mapping. destruct sent; [|by eexists]. destruct reply; [|by eexists]. apply parse_never_panics.
Qed.

Lemma advertise_public configured mapping :
  advertise_after_stun configured mapping = configured
  \/ exists m, mapping = Some m /\ is_public (sock_ip m) = true /\ advertise_after_stun configured mapping = Some (fmt_sock m).
Proof.
  unfold advertise_after_stun, stun_mapping_to_advertise. destruct mapping as [m|]; simpl; [|by left].
  destruct (is_unreachable_for_peers (sock_ip m)) eqn:E; [by left|]. right. exists m.
  split; [done|]. split; [|done]. unfold is_public. by rewrite E.
Qed.

Section Props.
Context `{ExternalLaws} `{Curve} `{IdentitySerdeLaws} `{Noise} `{TableOrderLaws} `{Signatures} `{Host}.
Context (secret_from : list Z -> StaticSecret).

(** ** Joining *)

(** The stages of a join, in their order. *)
Lemma join_stages config o d st r :
  join secret_from config o d st = Some r ->
  exists d1 res, resolve_identity config (home o) d (identity_io o) (random o) = (d1, res)
  /\ ((exists e, r = (d1, st, Err e) /\ forall m, e <> HostSetup m)
      \/ exists kp sticky requested port mapping resp, res = Ok (kp, sticky, requested)
         /\ bind_wg_socket (bind o) (local_addr_ok o) (default DEFAULT_WG_LISTEN_PORT (jc_listen_port config)) = Ok port
         /\ (forall m, mapping = Some m -> discover_wg_mapping (stun_seed o) (stun_sent o) (stun_reply o) = Some (Some m))
         /\ let inputs := build_reregister_inputs config (advertise_after_stun (jc_advertise_endpoint config) mapping) (public kp) requested in
            register_with_409_fallback (post o) (strict_requested_ula inputs) requested = Ok resp
            /\ r = bring_up secret_from config o d1 st kp sticky port inputs resp).
Proof.
  unfold join. destruct (resolve_identity config (home o) d (identity_io o) (random o)) as [d1 res] eqn:Hres.
  intros Hj. exists d1, res. split; [done|].
  assert (forall e, res = Err e -> forall m, e <> HostSetup m) as Hid.
  { intros e -> m ->. revert Hres. unfold resolve_identity.
    destruct (jc_identity_path config); [destruct (load_or_fresh _ _ _ _) as [? [[]|]]|destruct (load_or_generate _ _ _ _) as [? []]];
      simpl; repeat case_match; intros [= _ He]; try done; repeat case_match; done. }
  destruct res as [[[kp sticky] requested]|e].
  2: { injection Hj as <-. left. exists e. split; [done|]. by apply Hid. }
  destruct (bind_wg_socket _ _ _) as [port|e] eqn:Hb.
  2: { injection Hj as <-. left. exists e. split; [done|]. apply bind_failure in Hb as [->|[p ->]]; done. }
  destruct (_ && _); [done|].
  apply bind_Some in Hj as (mapping & Hm & Hj).
  destruct (client_new config (client_builds o)) as [[]|e] eqn:Hc.
  2: { injection Hj as <-. left. exists e. split; [done|]. revert Hc. unfold client_new.
       destruct (_ && _); [|destruct (client_builds o); [done|]]; by intros [= <-]. }
  destruct (register_with_409_fallback _ _ _) as [resp|e] eqn:Hreg.
  2: { injection Hj as <-. left. by exists (Registration e). }
  injection Hj as <-. right. exists kp, sticky, requested, port, mapping, resp. split_and!; try done.
  intros m ->. destruct (jc_stun_server config); [done|]. by injection Hm.
Qed.

Lemma host_integration_err config st u iface st' e :
  setup_host_integration config st u iface = (st', Err e) -> exists m, e = HostSetup m.
Proof.
  unfold setup_host_integration. destruct (jc_source_scoped_routes config).
  - destruct (install_source_rule st (for_ula u)) as [st1 [[]|m]]; [done|]. intros [= _ <-]. by exists m.
  - by intros [= _ ?].
Qed.

Lemma wf_join_start r : wf_table (with_convergence_tx (with_route_sink_and_relay r)).
Proof. split; [split|done|]; intros ?; set_solver. Qed.

(** Coming up: which failures leave the host as it was, and what the node is then. *)
Lemma bring_up_cases config o d st kp sticky port inputs resp d' st' r :
  bring_up secret_from config o d st kp sticky port inputs resp = (d', st', r) ->
  match r with
  | Err (HostSetup _) => True
  | Err _ => st' = st
  | Ok j =>
      my_peer_id j = rg_peer_id resp /\ parse_ipv6 (rg_ula resp) = Some (my_ula j) /\ node_key j = kp
      /\ reregister j = inputs /\ manage_firewall j = jc_manage_firewall config /\ hosted_app_ulas j = ∅
      /\ node_sessions j = install_all (surroundings o) (secret_from (private kp))
           (with_convergence_tx (with_route_sink_and_relay
              (build_relay_channel (jc_relay_enabled config) (jc_insecure_no_mtls config) (jc_relay_only config))))
           (roster_infos (surroundings o) (rg_peers resp))
      /\ persist_identity_if_fresh config d (store_io o) kp (my_ula j) sticky = (d', Ok tt)
      /\ exists iface st1, iface_name j = Some iface
           /\ assign_ula st iface (my_ula j) = (st1, Ok tt)
           /\ setup_host_integration config st1 (my_ula j) iface = (st', Ok (source_scope j))
  end.
Proof.
  unfold bring_up. destruct (parse_ipv6 (rg_ula resp)) as [u|]; [|by intros [= _ <- <-]].
  destruct (persist_identity_if_fresh config d (store_io o) kp u sticky) as [d1 [[]|e]] eqn:Hper.
  2: { intros [= _ <- <-]. revert Hper. unfold persist_identity_if_fresh.
       destruct (jc_identity_path config), sticky; try done. destruct (store _ _ _ _ _) as [? []]; simpl; [done|].
       by intros [= _ <-]. }
  destruct (open_tun o (resolve_tun_name config u) u) as [iface|]; [|by intros [= _ <- <-]].
  destruct (assign_ula st iface u) as [st1 [[]|m]] eqn:Ha; [|by intros [= _ _ <-]].
  destruct (setup_host_integration config st1 u iface) as [st2 [scope|e]] eqn:Hs.
  2: { apply host_integration_err in Hs as [m ->]. by intros [= _ _ <-]. }
  unfold seed_initial_roster. intros [= <- <- <-]. cbn. split_and!; try done. by exists iface, st1.
Qed.

(** C12: A join ends in one of these ways: it panics, in a build with debug assertions
    whose configuration turns the relay off, and in no other case; it fails before it
    has touched the host, in everything up to the opening of the interface; it fails
    in one of the host's own commands, after the coordinator has accepted the node;
    or it runs, under the id and the address that the coordinator gave, with exactly
    the roster of the answer as its live sessions, advertising either the configured
    endpoint or a public address that STUN has seen. *)
Theorem join_outcomes config o d st :
  match join secret_from config o d st with
  | None => debug_assertions o = true /\ jc_relay_enabled config = false
  | Some (_, _, Err (HostSetup _)) => exists n u resp, post o n u = Ok resp
  | Some (_, st', Err _) => st' = st
  | Some (_, _, Ok j) =>
      exists n u resp, post o n u = Ok resp
      /\ my_peer_id j = rg_peer_id resp /\ parse_ipv6 (rg_ula resp) = Some (my_ula j)
      /\ wf_table (node_sessions j)
      /\ (forall v, key_at (node_sessions j) v = roster_key (roster_infos (surroundings o) (rg_peers resp)) None v)
      /\ (advertise_endpoint (reregister j) = jc_advertise_endpoint config
          \/ exists m, discover_wg_mapping (stun_seed o) (stun_sent o) (stun_reply o) = Some (Some m)
               /\ is_public (sock_ip m) = true /\ advertise_endpoint (reregister j) = Some (fmt_sock m))
  end.
Proof.
  destruct (join secret_from config o d st) as [[[d' st'] r]|] eqn:Hj.
  2: { revert Hj. unfold join.
       destruct (resolve_identity _ _ _ _ _) as [? [[[] ?]|]]; [|done]. destruct (bind_wg_socket _ _ _); [|done].
       destruct (debug_assertions o && negb (jc_relay_enabled config)) eqn:Ed.
       { intros _. apply andb_true_iff in Ed as [? ?%negb_true_iff]. done. }
       destruct (discover_total (stun_seed o) (stun_sent o) (stun_reply o)) as [m Hm].
       destruct (jc_stun_server config); simpl; rewrite ?Hm; simpl;
         (destruct (client_new _ _); [|done]; by destruct (register_with_409_fallback _ _ _)). }
  destruct (join_stages config o d st _ Hj) as (d1 & res & _ & [(e & [= -> -> ->] & He)|Hs]).
  { destruct e; try done. by destruct (He message). }
  destruct Hs as (kp & sticky & requested & port & mapping & resp & _ & _ & Hm & Hreg & Hup).
  assert (exists n u, post o n u = Ok resp) as (n & u & Hpost).
  { revert Hreg. unfold register_with_409_fallback. destruct (post o 0%nat requested) as [x|e] eqn:E0; [intros [= <-]; by eexists _, _|].
    intros Hreg. repeat case_match; simplify_eq; try done; by eexists _, _. }
  symmetry in Hup. apply bring_up_cases in Hup. destruct r as [j|e]; [|by destruct e; eauto].
  destruct Hup as (Hid & Hu & _ & Hre & _ & _ & Ht & _). exists n, u, resp. split_and!; try done.
  - rewrite Ht. apply wf_install_all, wf_join_start.
  - intros v. rewrite Ht, key_install_all by apply wf_join_start. unfold roster_key. by f_equal.
  - rewrite Hre. cbn. destruct (advertise_public (jc_advertise_endpoint config) mapping) as [->|(m & -> & Hp & ->)]; [by left|].
    right. exists m. by rewrite (Hm m).
Qed.

(** ** Restarting *)

Lemma load_existing d io p f id :
  d !! p = Some f -> parse_identity (content f) = Ok id -> stat_ok io = true -> read_ok io = true ->
  load d io p = Ok (Some id).
Proof. intros Hf Hp Hs Hr. unfold load, exists_, fs_read. by rewrite Hf, Hs, Hr, Hp. Qed.

(** What a start with the key pair [kp] and the address [u] on file goes on with: an
    address that the configuration names must be spelled as the one on file. *)
Definition known_identity (config : JoinConfig) (kp : WgKeypair) (u : Ipv6Addr)
    : Result (WgKeypair * option Ipv6Addr * option string) JoinFailure :=
  match jc_requested_ula config with
  | Some requested => if bool_decide (requested = fmt_ipv6 u) then Ok (kp, Some u, Some (fmt_ipv6 u)) else Err (UlaDiffers requested (fmt_ipv6 u))
  | None => Ok (kp, Some u, Some (fmt_ipv6 u))
  end.

Lemma resolve_loaded config hm d io rnd id_path id :
  jc_identity_path config = Some id_path -> load d io id_path = Ok (Some id) ->
  resolve_identity config hm d io rnd = (d, known_identity config (id_keypair id) (id_ula id)).
Proof.
  intros Hp Hl. unfold resolve_identity, load_or_fresh, known_identity. rewrite Hp, Hl. cbn [map_err].
  destruct (jc_requested_ula config) as [q|]; [|done]. by case_bool_decide; subst.
Qed.

Lemma resolve_from_file config hm d io rnd id_path id d1 kp sticky requested :
  jc_identity_path config = Some id_path -> load d io id_path = Ok (Some id) ->
  resolve_identity config hm d io rnd = (d1, Ok (kp, sticky, requested)) ->
  d1 = d /\ kp = id_keypair id /\ sticky = Some (id_ula id).
Proof.
  intros Hp Hl. rewrite (resolve_loaded _ _ _ _ _ _ id Hp Hl). unfold known_identity. intros [= <- Hk].
  repeat case_match; by simplify_eq.
Qed.

Lemma resolve_fresh config hm d io rnd id_path d1 kp sticky requested :
  jc_identity_path config = Some id_path -> (forall id, load d io id_path <> Ok (Some id)) ->
  resolve_identity config hm d io rnd = (d1, Ok (kp, sticky, requested)) ->
  kp = generate rnd /\ sticky = None.
Proof.
  intros Hp Hl. unfold resolve_identity, load_or_fresh. rewrite Hp.
  destruct (load d io id_path) as [[id|]|[]] eqn:E; cbn [map_err]; try by destruct (Hl id).
  all: intros Hq; repeat case_match; by simplify_eq.
Qed.

(** C31: A node with an identity file keeps its name in the mesh: after a join, every
    later start that can read the file takes the same key pair and the same address,
    whatever its random numbers and its environment. It asks for that address, unless
    the configuration names one that is spelled in another way, even of the same
    address: then it is refused. The address is the one the coordinator gave, when the
    node had none before; a node that came with an address keeps to that one, even if
    the coordinator gave it another. The name of the identity file must not end in
    [.tmp], which is the temporary file it is written through. *)
Theorem identity_is_sticky config o d st d' st' j id_path :
  jc_identity_path config = Some id_path -> with_extension id_path "tmp" <> id_path ->
  length (random o) = 32%nat -> Forall is_u8 (random o) ->
  join secret_from config o d st = Some (d', st', Ok j) ->
  exists u, (forall later hm io rnd, jc_identity_path later = Some id_path -> stat_ok io = true -> read_ok io = true ->
      resolve_identity later hm d' io rnd
      = (d', match jc_requested_ula later with
             | Some requested => if bool_decide (requested = fmt_ipv6 u) then Ok (node_key j, Some u, Some (fmt_ipv6 u))
                                 else Err (UlaDiffers requested (fmt_ipv6 u))
             | None => Ok (node_key j, Some u, Some (fmt_ipv6 u))
             end))
    /\ match load d (identity_io o) id_path with
       | Ok (Some id) => u = id_ula id /\ node_key j = id_keypair id /\ d' = d
       | _ => u = my_ula j /\ node_key j = generate (random o)
       end.
Proof.
  intros Hp Hne Hlen Hb Hj.
  destruct (join_stages config o d st _ Hj) as (d1 & res & Hres & [(e & [=] & _)|Hs]).
  destruct Hs as (kp & sticky & requested & port & mapping & resp & -> & _ & _ & _ & Hup).
  symmetry in Hup. apply bring_up_cases in Hup as (_ & Hu & -> & _ & _ & _ & _ & Hper & _).
  unfold persist_identity_if_fresh in Hper. rewrite Hp in Hper.
  assert ((exists id, load d (identity_io o) id_path = Ok (Some id)) \/ forall id, load d (identity_io o) id_path <> Ok (Some id)) as [[id Hl]|Hl].
  { destruct (load d (identity_io o) id_path) as [[id|]|]; [by left; exists id|by right|by right]. }
  - pose proof (load_cases d (identity_io o) id_path) as Hc. rewrite Hl in Hc |- *. destruct Hc as (f & Hf & Hpf).
    destruct (resolve_from_file _ _ _ _ _ _ _ _ _ _ _ Hp Hl Hres) as (-> & -> & ->). injection Hper as <-. exists (id_ula id).
    split; [|done]. intros later hm io rnd Hlp Hst Hrd. apply (resolve_loaded later hm d io rnd id_path id Hlp). by eapply load_existing.
  - destruct (resolve_fresh _ _ _ _ _ _ _ _ _ _ Hp Hl Hres) as (-> & ->). exists (my_ula j).
    split; [|by destruct (load d (identity_io o) id_path) as [[id|]|]; [destruct (Hl id)|..]].
    assert (wf_keypair (generate (random o))) as Hkp by by split_and!.
    pose proof (store_load d1 (store_io o) id_path _ (my_ula j) Hne Hkp (parse_ipv6_wf _ _ Hu)) as Hsl.
    destruct (store d1 (store_io o) id_path _ _) as [d2 [[]|e]]; [|done]. injection Hper as <-.
    destruct Hsl as [Hload _]. pose proof (load_cases d2 fs_ok id_path) as Hc. rewrite Hload in Hc. destruct Hc as (f & Hf & Hpf).
    intros later hm io rnd Hlp Hst Hrd.
    apply (resolve_loaded later hm d2 io rnd id_path (mkPeerIdentity (generate (random o)) (my_ula j)) Hlp). by eapply load_existing.
Qed.
End Props.

(** ** Leaving *)

(** The commands keep to their own part of the kernel. *)
Class SeparateCommands {HO : Host} {IP : Iproute2} {IT : Iptables} := {
  ip_keeps_chains : forall st args bin, chain (invoke st "ip" args).1 bin = chain st bin;
  iptables_keeps_rules : forall st bin args, bin ∈ families -> rules (invoke st bin args).1 = rules st;
  addr_keeps_rules : forall st args, rules (invoke st "ip" ("-6" :: "addr" :: args)).1 = rules st;
  route_keeps_rules : forall st args, rules (invoke st "ip" ("-6" :: "route" :: args)).1 = rules st;
  show_keeps : forall st, (invoke st "ip" ["-6"; "rule"; "show"]).1 = st;
}.

Section Leaving.
Context {EX : Externals} {EXL : ExternalLaws} {CU : Curve} {ISD : IdentitySerde} {NO : Noise} {TO : TableOrder}
  {TOL : TableOrderLaws} {HO : Host} {IP : Iproute2} {IPL : Iproute2Laws} {IT : Iptables} {ITL : IptablesLaws} {SEP : SeparateCommands}.
Context (secret_from : list Z -> StaticSecret).

(** Where the joiner's marks on the host stand: [n] copies of the rule of [scope], and
    the firewall of [c] with or without the interface's own line in front. *)
Definition marks (scope : SourceScope) (iface : string) (c : string -> list string) (n : nat) (trusted : bool) (st : HostState) : Prop :=
  copies scope st = n
  /\ forall bin, chain st bin = (if trusted && bool_decide (bin ∈ families) then [accept_line iface] else []) ++ c bin.

(** What the tasks of a running node do to the host. *)
Inductive upkeep (j : Joiner) : HostState -> HostState -> Prop :=
| upkeep_rest st : upkeep j st st
| upkeep_scope st st' scope iface live :
    source_scope j = Some scope -> iface_name j = Some iface ->
    upkeep j (reassert_tick scope iface (route_metric (route_sink_of j)) st live) st' -> upkeep j st st'
| upkeep_trust st st' iface :
    manage_firewall j = true -> iface_name j = Some iface -> upkeep j (fst (ensure_tun_trust st iface)) st' -> upkeep j st st'
| upkeep_route st st' call : upkeep j (sink_task (route_sink_of j) st call) st' -> upkeep j st st'
| upkeep_host st st' app : upkeep j (host_app_ula j st app).1.2 st' -> upkeep j st st'
| upkeep_unhost st st' app : upkeep j (unhost_app_ula j st app).1.2 st' -> upkeep j st st'.

Lemma copies_same s st st' : rules st' = rules st -> copies s st' = copies s st.
Proof. unfold copies. by intros ->. Qed.

Lemma run_ip_same st args :
  (forall s, copies s (run_command st "ip" ("-6" :: "addr" :: args)).1 = copies s st)
  /\ (forall s, copies s (run_command st "ip" ("-6" :: "route" :: args)).1 = copies s st).
Proof. split; intros s; rewrite run_command_state; apply copies_same; [apply addr_keeps_rules|apply route_keeps_rules]. Qed.
Lemma run_ip_chain st args bin : chain (run_command st "ip" args).1 bin = chain st bin.
Proof. rewrite run_command_state. apply ip_keeps_chains. Qed.

(** A command of [ip] on addresses or routes leaves the marks. *)
Lemma marks_ip scope iface c n tr st f args verb :
  verb = "addr" \/ verb = "route" ->
  marks scope iface c n tr st -> marks scope iface c n tr (or_tolerate f (run_command st "ip" ("-6" :: verb :: args))).1.
Proof.
  intros Hv [Hn Hc]. split.
  - rewrite or_tolerate_state. destruct (run_ip_same st args) as [Ha Hr]. by destruct Hv as [-> | ->]; rewrite ?Ha, ?Hr.
  - intros bin. by rewrite or_tolerate_state, run_ip_chain.
Qed.
Lemma or_none r : (@or_tolerate HO (fun _ => false) r).1 = r.1.
Proof. apply or_tolerate_state. Qed.

Lemma marks_route scope iface c n tr st st' :
  marks scope iface c n tr st -> rules st' = rules st -> (forall bin, chain st' bin = chain st bin) -> marks scope iface c n tr st'.
Proof. intros [Hn Hc] Hr Hch. split; [by rewrite (copies_same _ st)|]. intros bin. by rewrite Hch. Qed.

Lemma marks_sink k call scope iface c n tr st :
  marks scope iface c n tr st -> marks scope iface c n tr (sink_task k st call).
Proof.
  intros Hm. destruct call as [u|u|u|u]; cbn [sink_task]; try done; destruct (Routes.scope k).
  - unfold add_peer_route_in_table. rewrite on_linux, <- or_none. by apply marks_ip; [right|].
  - unfold add_peer_route. rewrite on_linux, <- or_none. by apply marks_ip; [right|].
  - unfold del_peer_route_in_table. rewrite on_linux. by apply marks_ip; [right|].
  - unfold del_peer_route. rewrite on_linux. by apply marks_ip; [right|].
Qed.

Lemma marks_rule_chain st verb s bin : chain (run_command st "ip" (Routes.rule_args verb s)).1 bin = chain st bin.
Proof. apply run_ip_chain. Qed.

Lemma chain_install st s bin : chain (install_source_rule st s).1 bin = chain st bin.
Proof.
  unfold install_source_rule, del_source_rule_tolerant. rewrite on_linux, marks_rule_chain, or_tolerate_state. apply marks_rule_chain.
Qed.
Lemma chain_reassert st s bin : chain (reassert_source_rule st s) bin = chain st bin.
Proof.
  unfold reassert_source_rule. rewrite on_linux. unfold source_rule_present.
  destruct (invoke st "ip" ["-6"; "rule"; "show"]) as [st' o] eqn:E. pose proof (show_keeps st) as Hs. rewrite E in Hs. simpl in Hs. subst.
  destruct (match o with Exited true _ stdout _ => _ | _ => true end); [done|]. apply chain_install.
Qed.

(** While the rule is there, the periodic check leaves it alone. *)
Lemma marks_tick scope iface c tr st metric live if_ :
  marks scope iface c 1 tr st -> marks scope iface c 1 tr (reassert_tick scope if_ metric st live).
Proof.
  intros Hm. unfold reassert_tick.
  assert (reassert_source_rule st scope = st) as ->.
  { unfold reassert_source_rule. rewrite on_linux. destruct Hm as [Hn _].
    destruct (needle_listed st scope ltac:(lia)) as [Hp Hs]. destruct (source_rule_present st scope) as [st' []]; [exact Hs|done]. }
  apply (foldl_inv (marks scope iface c 1 tr)); [|done]. intros st' u _ Hm'.
  unfold add_peer_route_in_table. rewrite on_linux, <- or_none. by apply marks_ip; [right|].
Qed.

Lemma rules_ensure_one st bin iface : bin ∈ families -> rules (ensure_one st bin iface).1 = rules st.
Proof.
  intros Hb. unfold ensure_one, list_input. pose proof (iptables_keeps_rules st bin ["-S"; "INPUT"] Hb) as Hl.
  destruct (invoke st bin ["-S"; "INPUT"]) as [st1 o]. simpl in Hl.
  destruct (match o with Exited true _ stdout _ => Some stdout | _ => None end); [|done].
  destruct (find_rule_index _ _); [done|]. pose proof (iptables_keeps_rules st1 bin (insert_args iface) Hb) as Hi.
  destruct (invoke st1 bin (insert_args iface)). simpl in *. congruence.
Qed.

Lemma rules_trust st iface : rules (ensure_tun_trust st iface).1 = rules st.
Proof.
  unfold ensure_tun_trust. pose proof (rules_ensure_one st "ip6tables" iface ltac:(set_solver)) as H1.
  destruct (ensure_one st "ip6tables" iface) as [s1 b1]. simpl in H1.
  pose proof (rules_ensure_one s1 "iptables" iface ltac:(set_solver)) as H2.
  destruct (ensure_one s1 "iptables" iface) as [s2 b2]. simpl in *. congruence.
Qed.

Lemma chain_trust st iface bin :
  iface_ok iface ->
  chain (ensure_tun_trust st iface).1 bin
  = if bool_decide (bin ∈ families) && negb (bool_decide (accept_line iface ∈ chain st bin))
    then accept_line iface :: chain st bin else chain st bin.
Proof.
  intros Hok. unfold ensure_tun_trust.
  destruct (ensure_one_effect st "ip6tables" iface fam6 Hok) as (s1 & -> & C1 & O1).
  destruct (ensure_one_effect s1 "iptables" iface fam4 Hok) as (s2 & -> & C2 & O2). simpl.
  destruct (decide (bin = "iptables")) as [->|Hne].
  - rewrite C2, O1 by done. rewrite (bool_decide_true ("iptables" ∈ _)) by set_solver.
    destruct (decide (accept_line iface ∈ chain st "iptables")); [by rewrite !bool_decide_true|by rewrite !bool_decide_false].
  - rewrite O2 by done. destruct (decide (bin = "ip6tables")) as [->|Hne'].
    + rewrite C1, (bool_decide_true ("ip6tables" ∈ _)) by set_solver.
      destruct (decide (accept_line iface ∈ chain st "ip6tables")); [by rewrite !bool_decide_true|by rewrite !bool_decide_false].
    + rewrite O1, (bool_decide_false (bin ∈ _)) by set_solver. done.
Qed.

Lemma marks_trust scope iface c n tr st :
  iface_ok iface -> (forall bin, accept_line iface ∉ c bin) -> marks scope iface c n tr st -> marks scope iface c n true (ensure_tun_trust st iface).1.
Proof.
  intros Hok Hn [Hk Hc]. split; [by rewrite (copies_same _ st) by apply rules_trust|]. intros bin. rewrite chain_trust, Hc by done.
  destruct (bool_decide (bin ∈ _)), tr; simpl; try done.
  - by rewrite bool_decide_true by by left.
  - by rewrite bool_decide_false by apply Hn.
Qed.

Lemma rules_remove_one st bin iface : bin ∈ families -> rules (remove_one st bin iface) = rules st.
Proof.
  intros Hb. unfold remove_one, list_input. pose proof (iptables_keeps_rules st bin ["-S"; "INPUT"] Hb) as Hl.
  destruct (invoke st bin ["-S"; "INPUT"]) as [st1 o]. simpl in Hl.
  destruct (match o with Exited true _ stdout _ => Some stdout | _ => None end) as [text|]; [|done].
  destruct (find_rule_index text iface) as [i|]; [|done]. rewrite <- Hl. by apply iptables_keeps_rules.
Qed.

Lemma marks_untrust scope iface c n tr st :
  (forall bin, accept_line iface ∉ c bin) -> marks scope iface c n tr st -> marks scope iface c n false (remove_tun_trust st iface).
Proof.
  intros Hn [Hk Hc]. unfold remove_tun_trust. cbn [foldl].
  split.
  { rewrite <- Hk. apply copies_same. rewrite !rules_remove_one by set_solver. done. }
  assert (forall st0 bin l, bin ∈ families -> chain st0 bin = l ++ c bin -> l = [] \/ l = [accept_line iface] ->
    chain (remove_one st0 bin iface) bin = c bin) as Hone.
  { intros st0 bin l Hb Hl Hor. destruct (remove_one_effect st0 bin iface Hb) as (R0 & R1 & _). destruct Hor as [-> | ->].
    - simpl in Hl. rewrite R0; [done|]. rewrite Hl. apply Hn.
    - by rewrite (R1 [] (c bin)) by (done || apply not_elem_of_nil). }
  assert (forall bin, bin ∈ families -> exists l, chain st bin = l ++ c bin /\ (l = [] \/ l = [accept_line iface])) as Hst.
  { intros bin Hb. rewrite Hc, (bool_decide_true _ Hb). destruct tr; simpl; [exists [accept_line iface]|exists []]; eauto. }
  destruct (remove_one_effect st "ip6tables" iface fam6) as (_ & _ & P1). set (s1 := remove_one st "ip6tables" iface) in *.
  destruct (remove_one_effect s1 "iptables" iface fam4) as (_ & _ & P2). set (s2 := remove_one s1 "iptables" iface) in *.
  intros bin. simpl. destruct (decide (bin = "iptables")) as [->|Hne].
  - destruct (Hst "iptables") as (l & Hl & Hor); [set_solver|]. apply (Hone s1 "iptables" l); [apply fam4|by rewrite P1|done].
  - rewrite P2 by done. destruct (decide (bin = "ip6tables")) as [->|Hne'].
    + destruct (Hst "ip6tables") as (l & Hl & Hor); [set_solver|]. by apply (Hone st "ip6tables" l fam6).
    + rewrite P1, Hc by done. by rewrite (bool_decide_false (bin ∈ _)), andb_false_r by set_solver.
Qed.

Definition rule_count (j : Joiner) : nat := match source_scope j with Some _ => 1 | None => 0 end.

(** The marks of a running node last as long as it runs. *)
Lemma marks_upkeep j st st' scope iface c :
  iface_name j = Some iface -> iface_ok iface -> (forall bin, accept_line iface ∉ c bin) ->
  (forall s, source_scope j = Some s -> s = scope) ->
  marks scope iface c (rule_count j) (manage_firewall j) st -> upkeep j st st' ->
  marks scope iface c (rule_count j) (manage_firewall j) st'.
Proof.
  intros Hif Hok Hn Hsc Hm Hu. induction Hu as [st|st st' sc i live Hs Hi _ IH|st st' i Ht Hi _ IH|st st' call _ IH|st st' a _ IH|st st' a _ IH];
    [done|..]; apply IH; clear IH.
  - unfold rule_count in *. rewrite Hs in Hm |- *. rewrite (Hsc sc Hs). by apply marks_tick.
  - rewrite Hif in Hi. injection Hi as <-. rewrite Ht in Hm |- *. by eapply marks_trust.
  - by apply marks_sink.
  - unfold host_app_ula. rewrite Hif. unfold assign_app_ula. rewrite on_linux.
    pose proof (marks_ip scope iface c _ _ st (lower_has ["file exists"; "already assigned"])
      ["add"; fmt_ipv6 a +:+ "/128"; "dev"; iface] "addr" (or_introl eq_refl) Hm) as H1.
    revert H1. by destruct (or_tolerate _ _) as [s1 [[]|]].
  - unfold unhost_app_ula. rewrite Hif. cbn [iface_name]. unfold release_app_ula. rewrite on_linux.
    pose proof (marks_ip scope iface c _ _ st (lower_has ["cannot assign"; "no such"])
      ["del"; fmt_ipv6 a +:+ "/128"; "dev"; iface] "addr" (or_introl eq_refl) Hm) as H1.
    revert H1. by destruct (or_tolerate _ _) as [s1 r].
Qed.

(** C13: Leaving takes back what joining did to the host: on a host without a policy rule
    for the node's address and without trust in its interface, once a node has
    joined, run for any time with its periodic repairs, routes and hosted apps, and
    left, there is no such rule and the firewall's chains are as they were, the
    rules of other nodes on the same host included. *)
Theorem leave_undoes_join config o d st d' st' j st2 :
  join secret_from config o d st = Some (d', st', Ok j) -> upkeep j st' st2 ->
  copies (for_ula (my_ula j)) st = 0%nat ->
  (forall iface, iface_name j = Some iface -> iface_ok iface /\ forall bin, accept_line iface ∉ chain st bin) ->
  copies (for_ula (my_ula j)) (leave_host j st2) = 0%nat /\ forall bin, chain (leave_host j st2) bin = chain st bin.
Proof.
  intros Hj Hup Hk Hn.
  destruct (join_stages secret_from config o d st _ Hj) as (d1 & res & _ & [(e & [=] & _)|Hs]).
  destruct Hs as (kp & sticky & requested & port & mapping & resp & _ & _ & _ & _ & Hb).
  symmetry in Hb. apply bring_up_cases in Hb as (_ & _ & _ & _ & Hmf & _ & _ & _ & iface & st1 & Hif & Ha & Hset).
  destruct (Hn iface Hif) as [Hok Hn']. clear Hn.
  set (scope := for_ula (my_ula j)) in *. set (c := chain st).
  assert (marks scope iface c 0 false st) as M0 by by split.
  assert (marks scope iface c 0 false st1) as M1.
  { unfold assign_ula in Ha. rewrite on_linux in Ha. pose proof (marks_ip scope iface c _ _ st (has ["File exists"])
      ["add"; fmt_ipv6 (my_ula j) +:+ "/64"; "dev"; iface] "addr" (or_introl eq_refl) M0) as H1. by rewrite Ha in H1. }
  assert (marks scope iface c (rule_count j) (manage_firewall j) st'
    /\ forall s, source_scope j = Some s -> s = scope) as [M2 Hsc].
  { unfold rule_count. unfold setup_host_integration in Hset. destruct (jc_source_scoped_routes config).
    - pose proof (chain_install st1 scope) as Hci. pose proof (install_copies st1 scope scope) as Hco.
      rewrite decide_True in Hco by done. fold scope in Hset. destruct (install_source_rule st1 scope) as [s1 [[]|m]]; [|done].
      simpl in *. destruct M1 as [Hk1 Hc1].
      assert (marks scope iface c 1 false s1) as M1' by (split; [rewrite Hco, Hk1; done|intros bin; by rewrite Hci]).
      injection Hset as <- Hss. rewrite <- Hss, Hmf. split; [|by intros s [= <-]].
      destruct (jc_manage_firewall config); [by eapply marks_trust|done].
    - injection Hset as <- Hss. rewrite <- Hss, Hmf. split; [|done]. destruct (jc_manage_firewall config); [by eapply marks_trust|done]. }
  pose proof (marks_upkeep j st' st2 scope iface c Hif Hok Hn' Hsc M2 Hup) as M3.
  unfold leave_host. rewrite Hif.
  assert (marks scope iface c (rule_count j) false
    (if manage_firewall j then remove_tun_trust st2 iface else st2)) as M4.
  { destruct (manage_firewall j); [by eapply marks_untrust|done]. }
  unfold rule_count in M4. destruct (source_scope j) as [s|] eqn:Es; [|by destruct (manage_firewall j); destruct M4].
  rewrite (Hsc s eq_refl).
  destruct M4 as [Hk4 Hc4]. split; [by rewrite remove_copies, decide_True, Hk4|].
  intros bin. unfold remove_source_rule, del_source_rule_tolerant. rewrite on_linux, or_tolerate_state, run_ip_chain, or_tolerate_state, run_ip_chain.
  apply Hc4.
Qed.
End Leaving.
