(* ===== verification/Fabric.v ===== *)
(** * Fabrics ([mesh-fabric]: [trait_def.rs], [ula.rs], [in_process.rs])

    A fabric delivers messages to overlay addresses: to the endpoints registered with
    it, through channels, and to other nodes, in a way of its own. The trait is a
    class with the laws that its documentation promises; the fabric for tests is its
    first instance. *)

From S2P Require Import Prelude NetAddr Types PeerSession SessionTable.

Open Scope Z_scope.

(** ** Addresses of applications *)

Record UlaPrefix := mkUlaPrefix { magic : Z; tenant : Z }.

(** [(hi << 8) | lo] *)
Definition be16 (bytes : list Z) (i : nat) : Z := u16_from_be_bytes (nth i bytes 0) (nth (S i) bytes 0).
(** [app_uuid] is the bytes of the UUID. *)
Definition from_components (prefix : UlaPrefix) (app_uuid : list Z) (instance : Z) : Ipv6Addr :=
  Ipv6 0xfd5a (Z.lor 0x1f00 (magic prefix)) (tenant prefix)
    (be16 app_uuid 0) (be16 app_uuid 2) (be16 app_uuid 4) (be16 app_uuid 6) instance.

Lemma be16_inj a b i :
  Forall is_u8 a -> Forall is_u8 b -> (S i < length a)%nat -> (S i < length b)%nat ->
  be16 a i = be16 b i -> nth i a 0 = nth i b 0 /\ nth (S i) a 0 = nth (S i) b 0.
Proof.
  intros Ha Hb La Lb. rewrite Forall_nth in Ha, Hb. unfold be16.
  rewrite (u16_from_be_bytes_eq (nth i a 0)), (u16_from_be_bytes_eq (nth i b 0)) by (apply Ha || apply Hb; done).
  pose proof (Ha i ltac:(lia)). pose proof (Hb i ltac:(lia)). pose proof (Ha (S i) La). pose proof (Hb (S i) Lb).
  unfold is_u8, u8_max in *. lia.
Qed.
Lemma be16_u16 a i : Forall is_u8 a -> is_u16 (be16 a i).
Proof.
  intros Ha.
  assert (forall j, is_u8 (nth j a 0)) as Hn.
  { intros j. destruct (decide (j < length a)%nat) as [Hj|Hj]; [by rewrite Forall_nth in Ha; apply Ha|].
    rewrite nth_overflow by lia. by split. }
  unfold be16. pose proof (Hn i) as H1. pose proof (Hn (S i)) as H2.
  rewrite (u16_from_be_bytes_eq _ _ H2). unfold is_u8, is_u16, u8_max, u16_max in *. lia.
Qed.

Definition wf_prefix (p : UlaPrefix) : Prop := is_u8 (magic p) /\ is_u16 (tenant p).

(** An application's address tells everything that went into it, as far as it went
    into it: it is an address of the overlay, and two applications share one exactly
    when cluster, tenant, instance and the first half of the UUID agree. *)
Theorem app_address_determines p q u v i j :
  wf_prefix p -> wf_prefix q -> is_u16 i -> is_u16 j ->
  Forall is_u8 u -> Forall is_u8 v -> length u = 16%nat -> length v = 16%nat ->
  wf_ipv6 (from_components p u i)
  /\ (from_components p u i = from_components q v j <-> p = q /\ take 8 u = take 8 v /\ i = j).
Proof.
  intros [Hp Tp] [Hq Tq] Hi Hj Hu Hv Lu Lv.
  assert (forall m, is_u8 m -> Z.lor 0x1f00 m = 0x1f00 + m) as Hor.
  { intros m Hm. change 0x1f00 with (Z.shiftl 31 8). pose proof (u16_from_be_bytes_eq 31 m Hm) as He.
    unfold u16_from_be_bytes in He. rewrite He. done. }
  split.
  - unfold wf_ipv6, segments, from_components. cbn [seg0 seg1 seg2 seg3 seg4 seg5 seg6 seg7]. rewrite Hor by done.
    unfold is_u8, u8_max in Hp. repeat (apply Forall_cons; split; [by apply be16_u16 || done || (unfold is_u16, u16_max; lia)|]). by constructor.
  - split; [|intros (-> & Ht & ->)].
    + unfold from_components. rewrite !Hor by done. intros [= Hm Ht H0 H2 H4 H6 ->].
      apply be16_inj in H0, H2, H4, H6; try done; try lia.
      split; [destruct p, q; simpl in *; f_equal; lia|]. split; [|done].
      do 9 (destruct u as [|? u]; [simpl in Lu; lia|]). do 9 (destruct v as [|? v]; [simpl in Lv; lia|]). simpl in *.
      destruct H0, H2, H4, H6. by subst.
    + unfold from_components. do 9 (destruct u as [|? u]; [simpl in Lu; lia|]). do 9 (destruct v as [|? v]; [simpl in Lv; lia|]).
      simpl in Ht. injection Ht as -> -> -> -> -> -> -> ->. done.
Qed.

(** ** Octets *)

Lemma be_bytes_of hi lo : is_u8 hi -> is_u8 lo -> u16_to_be_bytes (u16_from_be_bytes hi lo) = [hi; lo].
Proof.
  intros Hh Hl. rewrite u16_from_be_bytes_eq by done. unfold u16_to_be_bytes, is_u8, u8_max in *.
  rewrite !land_255, Z.shiftr_div_pow2 by lia. change (2 ^ 8) with 256.
  rewrite Z.div_add_l, (Z.div_small lo), Z.add_0_r, Z.add_comm, Z.mod_add, !Z.mod_small by lia. done.
Qed.

(** Sixteen octets are those of the address they make. *)
Lemma of_octets_octets l a : Forall is_u8 l -> of_octets l = Some a -> wf_ipv6 a /\ l = octets a.
Proof.
  intros Hl. do 16 (destruct l as [|? l]; [done|]). destruct l; [|done]. intros [= <-].
  rewrite !Forall_cons in Hl. destruct_and!. split.
  - unfold wf_ipv6, segments. cbn [seg0 seg1 seg2 seg3 seg4 seg5 seg6 seg7].
    assert (forall hi lo, is_u8 hi -> is_u8 lo -> is_u16 (u16_from_be_bytes hi lo)) as Hb.
    { intros hi lo Hh Hlo. rewrite u16_from_be_bytes_eq by done. unfold is_u8, is_u16, u8_max, u16_max in *. lia. }
    repeat (apply Forall_cons; split; [by apply Hb|]). by constructor.
  - unfold octets, segments. cbn [seg0 seg1 seg2 seg3 seg4 seg5 seg6 seg7 fmap list_fmap concat].
    by rewrite !be_bytes_of.
Qed.

(** ** Channels and endpoints *)

Inductive FabricError := NoRoute (dst : Ipv6Addr) | Transport (m : string) | Encoding (m : string).

(** What stands on a channel: the address it was sent to, and the message. *)
Abbreviation Inbound := (Ipv6Addr * list Z)%type.

(** An unbounded channel; its sender lives as long as the entry that holds it. *)
Record Channel := mkChannel { queue : list Inbound; receiver_alive : bool }.
#[export] Instance eta_Channel : Eta Channel := fun c => mkChannel (queue c) (receiver_alive c).

Record EndpointEntry := mkEndpointEntry { ep_id : string; tx : nat }.

(** The endpoints of a fabric and every channel it has made; a channel is its number. *)
Record Local := mkLocal { endpoints : gmap Ipv6Addr EndpointEntry; channels : list Channel }.
#[export] Instance eta_Local : Eta Local := fun l => mkLocal (endpoints l) (channels l).
Definition local_new : Local := mkLocal ∅ [].

Definition chan (l : Local) (c : nat) : Channel := nth c (channels l) (mkChannel [] false).

(** [tx.send] *)
Definition chan_send (l : Local) (c : nat) (m : Inbound) : Local * Result unit FabricError :=
  if receiver_alive (chan l c) then
    (l <| channels := <[c := (chan l c) <| queue := queue (chan l c) ++ [m] |>]> (channels l) |>, Ok tt)
  else (l, Err (Transport "channel closed")).

(** The lookup and the [send] that all three fabrics start with. *)
Definition send_local (l : Local) (dst : Ipv6Addr) (msg : list Z) : option (Local * Result unit FabricError) :=
  entry ← endpoints l !! dst; Some (chan_send l (tx entry) (dst, msg)).

Definition local_register (l : Local) (u : Ipv6Addr) (endpoint_id : string) : Local * nat :=
  let c := length (channels l) in
  (mkLocal (<[u := mkEndpointEntry endpoint_id c]> (endpoints l)) (channels l ++ [mkChannel [] true]), c).
Definition local_unregister (l : Local) (u : Ipv6Addr) : Local := l <| endpoints := delete u (endpoints l) |>.

(** The receiver's side: [recv], which waits when nothing is there, and its drop. *)
Inductive Received := Message (m : Inbound) | Waiting | Disconnected.
Definition chan_recv (l : Local) (c : nat) : Local * Received :=
  match queue (chan l c) with
  | m :: q => (l <| channels := <[c := (chan l c) <| queue := q |>]> (channels l) |>, Message m)
  | [] => (l, if existsb (fun p => (tx p.2 =? c)%nat) (map_to_list (endpoints l)) then Waiting else Disconnected)
  end.
Definition chan_drop (l : Local) (c : nat) : Local :=
  l <| channels := <[c := (chan l c) <| receiver_alive := false |>]> (channels l) |>.

(** Every endpoint has a channel of its own. *)
Definition wf_local (l : Local) : Prop :=
  (forall u e, endpoints l !! u = Some e -> (tx e < length (channels l))%nat)
  /\ forall u v e f, endpoints l !! u = Some e -> endpoints l !! v = Some f -> tx e = tx f -> u = v.

Lemma chan_insert l c c' ch :
  (c < length (channels l))%nat ->
  chan (l <| channels := <[c := ch]> (channels l) |>) c' = if decide (c' = c) then ch else chan l c'.
Proof.
  intros Hc. unfold chan. simpl. rewrite !nth_lookup. case_decide as Hd.
  - subst. by rewrite list_lookup_insert_eq.
  - by rewrite list_lookup_insert_ne.
Qed.

Lemma chan_alive_lt l c : receiver_alive (chan l c) = true -> (c < length (channels l))%nat.
Proof.
  intros Ha. destruct (decide (c < length (channels l))%nat) as [Hc|Hc]; [done|]. unfold chan in Ha. by rewrite nth_overflow in Ha by lia.
Qed.

(** A message goes to the end of the queue of its endpoint, and nowhere else. *)
Lemma send_local_cases l dst msg :
  match send_local l dst msg with
  | None => endpoints l !! dst = None
  | Some (l', r) =>
      exists e, endpoints l !! dst = Some e /\ endpoints l' = endpoints l
      /\ (forall c, c <> tx e -> chan l' c = chan l c)
      /\ receiver_alive (chan l' (tx e)) = receiver_alive (chan l (tx e))
      /\ if receiver_alive (chan l (tx e)) then r = Ok tt /\ queue (chan l' (tx e)) = queue (chan l (tx e)) ++ [(dst, msg)]
         else r = Err (Transport "channel closed") /\ l' = l
  end.
Proof.
  unfold send_local. destruct (endpoints l !! dst) as [e|] eqn:He; [|done]. simpl.
  unfold chan_send. destruct (receiver_alive (chan l (tx e))) eqn:Ha; exists e; rewrite Ha; [|by split_and!].
  apply chan_alive_lt in Ha as Hlt. split_and!; try done.
  - intros c Hc. by rewrite chan_insert, decide_False.
  - by rewrite chan_insert, decide_True.
  - by rewrite chan_insert, decide_True.
Qed.

Lemma wf_send_local l dst msg l' r : wf_local l -> send_local l dst msg = Some (l', r) -> wf_local l'.
Proof.
  intros [H1 H2] Hs. pose proof (send_local_cases l dst msg) as Hc. rewrite Hs in Hc. destruct Hc as (e & _ & He & _).
  split; rewrite He; [|done]. intros u f Hf. apply H1 in Hf. revert Hs. unfold send_local, chan_send.
  destruct (endpoints l !! dst) as [e'|]; [simpl|done]. destruct (receiver_alive _); intros [= <- _]; simpl; by rewrite ?length_insert.
Qed.
Lemma wf_local_register l u id : wf_local l -> wf_local (local_register l u id).1.
Proof.
  intros [H1 H2]. split; simpl.
  - intros v e. rewrite length_app. simpl. destruct (decide (u = v)) as [->|Hne].
    + rewrite lookup_insert_eq. intros [= <-]. simpl. lia.
    + rewrite lookup_insert_ne by done. intros He%H1. lia.
  - intros v w e f. destruct (decide (u = v)) as [->|Hv], (decide (v = w)) as [->|Hw]; try done.
    + rewrite lookup_insert_eq, lookup_insert_ne by done. intros [= <-] Hf%H1 He. simpl in He. lia.
    + destruct (decide (u = w)) as [->|Hu]; [|rewrite !lookup_insert_ne by done; apply H2].
      rewrite lookup_insert_eq, lookup_insert_ne by done. intros He%H1 [= <-] Hf. simpl in Hf. lia.
Qed.
Lemma wf_local_unregister l u : wf_local l -> wf_local (local_unregister l u).
Proof.
  intros [H1 H2]. split; simpl.
  - intros v e [_ He]%lookup_delete_Some. by eapply H1.
  - intros v w e f [_ He]%lookup_delete_Some [_ Hf]%lookup_delete_Some. by apply H2.
Qed.

(** ** The trait *)

Record RoutingSnapshot := mkRoutingSnapshot {
  local_endpoints : list (Ipv6Addr * string);
  remote_routes : list (Ipv6Addr * string);
}.

(** [Network] is what one call meets on its way; the mutators of peers and routes
    differ from fabric to fabric. *)
Class MeshFabric := {
  Fabric : Type;
  Network : Type;
  fabric_send : Fabric -> Network -> Ipv6Addr -> list Z -> Fabric * Result unit FabricError;
  fabric_register : Fabric -> Ipv6Addr -> string -> Fabric * nat;
  fabric_unregister : Fabric -> Ipv6Addr -> Fabric;
  fabric_snapshot : Fabric -> RoutingSnapshot;
  fabric_local : Fabric -> Local;
}.

Definition routed `{MeshFabric} (f : Fabric) (u : Ipv6Addr) : Prop := u ∈ (remote_routes (fabric_snapshot f)).*1.

(** What the documentation of the trait promises. *)
Class MeshFabricLaws `{MeshFabric} := {
  send_here : forall f net dst msg l' r,
    send_local (fabric_local f) dst msg = Some (l', r) ->
    let '(f', r') := fabric_send f net dst msg in fabric_local f' = l' /\ r' = r;
  send_elsewhere : forall f net dst msg,
    endpoints (fabric_local f) !! dst = None -> fabric_local (fabric_send f net dst msg).1 = fabric_local f;
  send_nowhere : forall f net dst msg,
    endpoints (fabric_local f) !! dst = None -> ~ routed f dst -> fabric_send f net dst msg = (f, Err (NoRoute dst));
  send_keeps_routes : forall f net dst msg u, routed (fabric_send f net dst msg).1 u <-> routed f u;
  register_here : forall f u id,
    let '(f', c) := fabric_register f u id in local_register (fabric_local f) u id = (fabric_local f', c);
  unregister_here : forall f u, fabric_local (fabric_unregister f u) = local_unregister (fabric_local f) u;
  unregister_keeps_routes : forall f u v, routed (fabric_unregister f u) v <-> routed f v;
  snapshot_endpoints : forall f,
    local_endpoints (fabric_snapshot f) ≡ₚ (fun p => (p.1, ep_id p.2)) <$> map_to_list (endpoints (fabric_local f));
}.

Section Contract.
Context `{MeshFabricLaws}.

(** One task's sends, one after another, and their results. *)
Fixpoint send_all (f : Fabric) (ms : list (Network * Ipv6Addr * list Z)) : Fabric * list (Result unit FabricError) :=
  match ms with
  | [] => (f, [])
  | (net, dst, msg) :: ms =>
      let '(f, r) := fabric_send f net dst msg in
      let '(f, rs) := send_all f ms in (f, r :: rs)
  end.

(** What one send does to the endpoint at [u] with an open channel. *)
Lemma send_step f net dst msg u e :
  wf_local (fabric_local f) -> endpoints (fabric_local f) !! u = Some e ->
  receiver_alive (chan (fabric_local f) (tx e)) = true ->
  let '(f', r) := fabric_send f net dst msg in
  wf_local (fabric_local f') /\ endpoints (fabric_local f') = endpoints (fabric_local f)
  /\ receiver_alive (chan (fabric_local f') (tx e)) = true
  /\ queue (chan (fabric_local f') (tx e)) = queue (chan (fabric_local f) (tx e)) ++ (if decide (dst = u) then [(u, msg)] else [])
  /\ (dst = u -> r = Ok tt).
Proof.
  intros Hwf He Ha. pose proof (send_local_cases (fabric_local f) dst msg) as Hc.
  destruct (send_local (fabric_local f) dst msg) as [[l' r]|] eqn:Hs.
  - pose proof (send_here f net dst msg l' r Hs) as Hh. pose proof (wf_send_local _ _ _ _ _ Hwf Hs) as Hwf'.
    destruct (fabric_send f net dst msg) as [f' r']. destruct Hh as [-> ->]. destruct Hc as (e' & He' & Hep & Hoth & Hal & Hq).
    split; [done|]. split; [done|]. case_decide as Hd.
    + subst. rewrite He in He'. injection He' as <-. rewrite Ha in Hq, Hal. by destruct Hq as [-> Hq].
    + assert (tx e <> tx e') as Hne by (intros Ht; apply Hd; by eapply (proj2 Hwf)).
      rewrite Hoth by done. by rewrite app_nil_r.
  - pose proof (send_elsewhere f net dst msg Hc) as Hl. destruct (fabric_send f net dst msg) as [f' r']. simpl in Hl. rewrite Hl.
    assert (dst <> u) as Hne by (intros ->; congruence). rewrite decide_False, app_nil_r by done. by split_and!.
Qed.

Lemma send_all_delivers f ms u e :
  wf_local (fabric_local f) -> endpoints (fabric_local f) !! u = Some e ->
  receiver_alive (chan (fabric_local f) (tx e)) = true ->
  let '(f', rs) := send_all f ms in
  queue (chan (fabric_local f') (tx e))
    = queue (chan (fabric_local f) (tx e)) ++ ((fun m => (u, m.2)) <$> filter (fun m => m.1.2 = u) ms)
  /\ endpoints (fabric_local f') = endpoints (fabric_local f)
  /\ Forall2 (fun m r => m.1.2 = u -> r = Ok tt) ms rs.
Proof.
  revert f. induction ms as [|[[net dst] msg] ms IH]; intros f Hwf He Ha; cbn [send_all].
  { split_and!; [by rewrite app_nil_r|done|constructor]. }
  pose proof (send_step f net dst msg u e Hwf He Ha) as Hs. destruct (fabric_send f net dst msg) as [f1 r].
  destruct Hs as (Hwf1 & Hep & Ha1 & Hq & Hr). specialize (IH f1 Hwf1 ltac:(by rewrite Hep) Ha1).
  destruct (send_all f1 ms) as [f2 rs]. destruct IH as (Hq2 & Hep2 & Hf). split_and!.
  - rewrite Hq2, Hq, filter_cons. cbn [fst snd]. case_decide; rewrite ?app_nil_r, <- ?app_assoc; done.
  - by rewrite Hep2.
  - by constructor.
Qed.

(** Sends leave a channel alone that belongs to no endpoint. *)
Lemma send_all_spares f ms c :
  (forall v e, endpoints (fabric_local f) !! v = Some e -> tx e <> c) ->
  chan (fabric_local (send_all f ms).1) c = chan (fabric_local f) c
  /\ endpoints (fabric_local (send_all f ms).1) = endpoints (fabric_local f).
Proof.
  revert f. induction ms as [|[[net dst] msg] ms IH]; intros f Hc; cbn [send_all]; [done|].
  assert (chan (fabric_local (fabric_send f net dst msg).1) c = chan (fabric_local f) c
    /\ endpoints (fabric_local (fabric_send f net dst msg).1) = endpoints (fabric_local f)) as [Hch He].
  { pose proof (send_local_cases (fabric_local f) dst msg) as Hs.
    destruct (send_local (fabric_local f) dst msg) as [[l' r]|] eqn:El; [|by rewrite send_elsewhere].
    pose proof (send_here f net dst msg l' r El) as Hh. destruct (fabric_send f net dst msg) as [f1 r1].
    destruct Hh as [Hl _], Hs as (e & He & Hep & Hoth & _). cbn [fst]. rewrite Hl. split; [|done].
    apply Hoth. intros ->. by eapply Hc. }
  destruct (fabric_send f net dst msg) as [f1 r]. cbn [fst] in *. destruct (IH f1) as [Hch2 He2].
  { intros v e. rewrite He. apply Hc. }
  destruct (send_all f1 ms) as [f2 rs]. cbn [fst] in *. by rewrite Hch2, Hch, He2, He.
Qed.

(** C15: The contract of a fabric, for every fabric that keeps the trait's promises:
    whoever registers an address gets exactly the messages that are sent to it from
    then on, each once and in the order of the sends, whose senders all get [Ok];
    an earlier registration of the address hears nothing any more, its receiver being
    told so once it has read what had been sent before; and once it is
    unregistered, sends to it fail with [NoRoute] unless there is a route to
    another node. *)
Theorem fabric_contract f u id ms net msg :
  wf_local (fabric_local f) ->
  let '(f1, c) := fabric_register f u id in
  let '(f2, rs) := send_all f1 ms in
  queue (chan (fabric_local f2) c) = (fun m => (u, m.2)) <$> filter (fun m => m.1.2 = u) ms
  /\ Forall2 (fun m r => m.1.2 = u -> r = Ok tt) ms rs
  /\ (forall v e, endpoints (fabric_local f2) !! v = Some e -> tx e = c -> v = u)
  /\ (forall old, endpoints (fabric_local f) !! u = Some old ->
        queue (chan (fabric_local f2) (tx old)) = queue (chan (fabric_local f) (tx old))
        /\ (queue (chan (fabric_local f) (tx old)) = [] -> (chan_recv (fabric_local f2) (tx old)).2 = Disconnected))
  /\ let f3 := fabric_unregister f2 u in
     (chan_recv (fabric_local f3) c).2
       = match head (filter (fun m => m.1.2 = u) ms) with Some m => Message (u, m.2) | None => Disconnected end
     /\ (~ routed f3 u -> (fabric_send f3 net u msg).2 = Err (NoRoute u)).
Proof.
  intros Hwf. pose proof (register_here f u id) as Hr. destruct (fabric_register f u id) as [f1 c].
  pose proof (wf_local_register _ u id Hwf) as Hwf1. rewrite Hr in Hwf1. simpl in Hwf1.
  assert (endpoints (fabric_local f1) !! u = Some (mkEndpointEntry id c) /\ chan (fabric_local f1) c = mkChannel [] true) as [He Hc].
  { unfold local_register in Hr. injection Hr as <- <-. simpl. rewrite lookup_insert_eq. split; [done|].
    unfold chan. simpl. by rewrite nth_lookup, lookup_app_r, Nat.sub_diag by lia. }
  assert (forall old, endpoints (fabric_local f) !! u = Some old ->
    chan (fabric_local f1) (tx old) = chan (fabric_local f) (tx old)
    /\ forall v e, endpoints (fabric_local f1) !! v = Some e -> tx e <> tx old) as Hold.
  { intros old Ho. pose proof (proj1 Hwf u old Ho) as Hlt. unfold local_register in Hr. injection Hr as <- <-. split.
    - unfold chan. simpl. rewrite !nth_lookup, lookup_app_l by done. done.
    - simpl. intros v e [[<- <-]|[Hne Hv]]%lookup_insert_Some; [simpl; lia|].
      intros Ht. apply Hne. symmetry. by eapply (proj2 Hwf). }
  assert (forall old, endpoints (fabric_local f) !! u = Some old ->
    chan (fabric_local (send_all f1 ms).1) (tx old) = chan (fabric_local f) (tx old)
    /\ forall v e, endpoints (fabric_local (send_all f1 ms).1) !! v = Some e -> tx e <> tx old) as Hspared.
  { intros old Ho. destruct (Hold old Ho) as [<- Hno]. destruct (send_all_spares f1 ms (tx old) Hno) as [-> ->]. done. }
  pose proof (send_all_delivers f1 ms u _ Hwf1 He) as Hs. cbn [tx] in Hs. rewrite Hc in Hs. specialize (Hs eq_refl).
  destruct (send_all f1 ms) as [f2 rs]. destruct Hs as (Hq & Hep & Hf). simpl in Hq.
  split; [done|]. split; [done|].
  assert (forall v e, endpoints (fabric_local f2) !! v = Some e -> tx e = c -> v = u) as Huniq.
  { intros v e Hv Ht. rewrite Hep in Hv. by eapply (proj2 Hwf1 v u e). }
  split; [done|]. split.
  { intros old Ho. destruct (Hspared old Ho) as [Hch Hno]. cbn [fst] in Hch, Hno. rewrite Hch. split; [done|]. intros Hempty.
    unfold chan_recv. rewrite Hch, Hempty. destruct (existsb _ _) eqn:Ex; [|done]. exfalso.
    apply existsb_elem in Ex as ([v e] & Hin & Ht). apply elem_of_map_to_list in Hin.
    by apply (Hno v e Hin), Nat.eqb_eq. }
  cbn zeta. rewrite unregister_here. split.
  - unfold chan_recv. change (chan (local_unregister (fabric_local f2) u) c) with (chan (fabric_local f2) c). rewrite Hq.
    destruct (filter _ ms) as [|m l]; [|done]. cbn [fmap list_fmap head snd].
    destruct (existsb _ _) eqn:Ex; [|done]. exfalso. apply existsb_elem in Ex as ([v e] & Hin & Ht).
    apply elem_of_map_to_list in Hin. cbn in Hin. apply lookup_delete_Some in Hin as [Hne Hv]. apply Hne. symmetry. apply (Huniq v e); [done|].
    by apply Nat.eqb_eq.
  - intros Hn. by rewrite send_nowhere by (rewrite ?unregister_here; simpl; by rewrite ?lookup_delete_eq).
Qed.
End Contract.

(** * The fabric for tests ([mesh-fabric]: [in_process.rs])

    Every node is in the same process, and a message goes straight into the channel
    of its address. *)

Module InProcess.
Section InProcess.
Context `{TableOrder}.

Abbreviation InProcessFabric := Local.

Definition new : InProcessFabric := local_new.
Definition send (f : InProcessFabric) (dst : Ipv6Addr) (msg : list Z) : InProcessFabric * Result unit FabricError :=
  match send_local f dst msg with Some r => r | None => (f, Err (NoRoute dst)) end.
Definition register_local (f : InProcessFabric) (u : Ipv6Addr) (endpoint_id : string) : InProcessFabric * nat :=
  local_register f u endpoint_id.
Definition unregister_local (f : InProcessFabric) (u : Ipv6Addr) : InProcessFabric := local_unregister f u.
Definition routing_snapshot (f : InProcessFabric) : RoutingSnapshot :=
  mkRoutingSnapshot ((fun p => (p.1, ep_id p.2)) <$> iter_ulas (endpoints f)) [].

(** The mutators *)
Definition add_peer (f : InProcessFabric) (node_id : string) (addr : SocketAddr) : InProcessFabric := f.
Definition remove_peer (f : InProcessFabric) (node_id : string) : InProcessFabric := f.
Definition add_remote_route (f : InProcessFabric) (u : Ipv6Addr) (node_id : string) : InProcessFabric := f.
Definition remove_remote_route (f : InProcessFabric) (u : Ipv6Addr) : InProcessFabric := f.

#[export] Instance in_process : MeshFabric := {|
  Fabric := InProcessFabric;
  Network := unit;
  fabric_send f _ dst msg := send f dst msg;
  fabric_register := register_local;
  fabric_unregister := unregister_local;
  fabric_snapshot := routing_snapshot;
  fabric_local f := f;
|}.
End InProcess.

#[export] Instance in_process_laws `{TableOrderLaws} : @MeshFabricLaws in_process.
Proof.
  split; simpl.
  - intros f _ dst msg l' r Hs. unfold send. by rewrite Hs.
  - intros f _ dst msg Hn. unfold send, send_local. by rewrite Hn.
  - intros f _ dst msg Hn _. unfold send, send_local. by rewrite Hn.
  - done.
  - done.
  - done.
  - done.
  - intros f. by rewrite iter_ulas_perm.
Qed.
End InProcess.
