(* ===== verification/Loopback.v ===== *)
(** * The fabric over TCP ([mesh-fabric]: [loopback.rs])

    Nodes on one host send each other frames over pooled TCP connections. A stream is
    the bytes that were written to it; the calls of the network come out as the
    caller's [SendIo] says. The module [Conns] has the connections of a node side by
    side. *)

From S2P Require Import Prelude NetAddr Types PeerSession SessionTable Fabric.

Open Scope Z_scope.

(** ** Frames *)

Definition MAX_FRAME_BODY : nat := 4 * 1024 * 1024.
Definition HEADER_LEN : nat := 32.
Arguments MAX_FRAME_BODY : simpl never.

(** [u64::to_le_bytes] and [from_le_bytes] *)
Fixpoint le_bytes (n : nat) (z : Z) : list Z :=
  match n with O => [] | S n => z mod 256 :: le_bytes n (z / 256) end.
Fixpoint from_le_bytes (l : list Z) : Z :=
  match l with [] => 0 | b :: l => b + 256 * from_le_bytes l end.

Definition fallback_source_ula : Ipv6Addr := Ipv6 0 0 0 0 0 0 0 0.

Definition encode_frame (dst src : Ipv6Addr) (payload : list Z) : Result (list Z) FabricError :=
  let body_len := (HEADER_LEN + length payload)%nat in
  if (MAX_FRAME_BODY <? body_len)%nat then
    Err (Encoding ("frame body " +:+ fmt_u (Z.of_nat body_len) +:+ " exceeds max " +:+ fmt_u (Z.of_nat MAX_FRAME_BODY)))
  else Ok (le_bytes 8 (Z.of_nat body_len) ++ octets dst ++ octets src ++ payload).

(** [read_exact] from what is left of a stream: the bytes, or what ended it. *)
Definition read_exact (n : nat) (s : list Z) : option (list Z * list Z) :=
  if (length s <? n)%nat then None else Some (take n s, drop n s).

(** How a stream ends: by the peer's closing it, or with an error. *)
Inductive StreamEnd := Eof | IoError.

Inductive FrameRead :=
| Frame (dst src : Ipv6Addr) (payload rest : list Z)
| Finished
| Broken.

Definition read_frame (s : list Z) (e : StreamEnd) : FrameRead :=
  match read_exact 8 s with
  | None => match e with Eof => Finished | IoError => Broken end
  | Some (len_buf, s) =>
      let body_len := from_le_bytes len_buf in
      if body_len <? Z.of_nat HEADER_LEN then Broken
      else if Z.of_nat MAX_FRAME_BODY <? body_len then Broken
      else match read_exact HEADER_LEN s with
           | None => Broken
           | Some (header, s) =>
               match of_octets (take 16 header), of_octets (drop 16 header) with
               | Some dst, Some src =>
                   match read_exact (Z.to_nat body_len - HEADER_LEN) s with
                   | None => Broken
                   | Some (payload, s) => Frame dst src payload s
                   end
               | _, _ => Broken   (** not for sixteen bytes *)
               end
           end
  end.

Lemma le_bytes_length n z : length (le_bytes n z) = n.
Proof. revert z. induction n as [|n IH]; intros z; simpl; [done|]. by rewrite IH. Qed.
Lemma le_bytes_u8 n z : Forall is_u8 (le_bytes n z).
Proof.
  revert z. induction n as [|n IH]; intros z; constructor; [|apply IH].
  pose proof (Z.mod_pos_bound z 256). unfold is_u8, u8_max. lia.
Qed.
Lemma le_roundtrip n z : 0 <= z < 256 ^ Z.of_nat n -> from_le_bytes (le_bytes n z) = z.
Proof.
  revert z. induction n as [|n IH]; intros z Hz; [simpl in *; lia|]. cbn [le_bytes from_le_bytes].
  rewrite IH; [pose proof (Z.div_mod z 256); lia|].
  rewrite Nat2Z.inj_succ, Z.pow_succ_r in Hz by lia. split; [apply Z.div_pos; lia|apply Z.div_lt_upper_bound; lia].
Qed.
Lemma from_le_inj l k :
  Forall is_u8 l -> Forall is_u8 k -> length l = length k -> from_le_bytes l = from_le_bytes k -> l = k.
Proof.
  intros Hl. revert k. induction Hl as [|b l Hb _ IH]; intros [|c k] Hk; try done.
  apply Forall_cons in Hk as [Hc Hk]. cbn [length from_le_bytes]. intros [= Hn] He. unfold is_u8, u8_max in *.
  assert (b = c /\ from_le_bytes l = from_le_bytes k) as [-> He'] by lia. by rewrite (IH k).
Qed.

Lemma read_exact_app l r : read_exact (length l) (l ++ r) = Some (l, r).
Proof.
  unfold read_exact. rewrite length_app. replace (_ <? _)%nat with false by (symmetry; apply Nat.ltb_ge; lia).
  by rewrite take_app_length, drop_app_length.
Qed.

Lemma encode_frame_spec dst src payload frame :
  encode_frame dst src payload = Ok frame <->
  (HEADER_LEN + length payload <= MAX_FRAME_BODY)%nat
  /\ frame = le_bytes 8 (Z.of_nat (HEADER_LEN + length payload)) ++ octets dst ++ octets src ++ payload.
Proof.
  unfold encode_frame. destruct (_ <? _)%nat eqn:Hl.
  - apply Nat.ltb_lt in Hl. split; [done|]. intros [? _]. lia.
  - apply Nat.ltb_ge in Hl. split; [intros He; split; [done|congruence]|by intros [_ ->]].
Qed.

Lemma read_encoded dst src payload rest e frame :
  wf_ipv6 dst -> wf_ipv6 src -> encode_frame dst src payload = Ok frame ->
  read_frame (frame ++ rest) e = Frame dst src payload rest.
Proof.
  intros Hd Hs [Hl ->]%encode_frame_spec. unfold read_frame. rewrite <- app_assoc.
  rewrite <- (le_bytes_length 8 (Z.of_nat (HEADER_LEN + length payload))) at 1. rewrite read_exact_app.
  rewrite le_roundtrip; [|unfold MAX_FRAME_BODY in Hl; lia].
  replace (_ <? _) with false by (symmetry; apply Z.ltb_ge; lia). replace (_ <? _) with false by (symmetry; apply Z.ltb_ge; lia).
  assert (HEADER_LEN = length (octets dst ++ octets src)) as Hh by done.
  rewrite Hh at 1. replace ((octets dst ++ octets src ++ payload) ++ rest) with ((octets dst ++ octets src) ++ (payload ++ rest))
    by by rewrite <- !app_assoc. rewrite read_exact_app.
  change 16%nat with (length (octets dst)). rewrite take_app_length, drop_app_length, !octets_roundtrip by done.
  replace (Z.to_nat (Z.of_nat (HEADER_LEN + length payload)) - HEADER_LEN)%nat with (length payload) by lia.
  by rewrite read_exact_app.
Qed.

Lemma read_exact_Some n s a b : read_exact n s = Some (a, b) <-> s = a ++ b /\ length a = n.
Proof.
  unfold read_exact. destruct (length s <? n)%nat eqn:E.
  - apply Nat.ltb_lt in E. split; [done|]. intros [-> <-]. rewrite length_app in E. lia.
  - apply Nat.ltb_ge in E. split.
    + intros [= <- <-]. rewrite take_drop, length_take. split; [done|lia].
    + intros [-> <-]. by rewrite take_app_length, drop_app_length.
Qed.

(** What is read as a frame is the encoding of what is read. *)
Lemma read_frame_encoded s e dst src payload rest :
  Forall is_u8 s -> read_frame s e = Frame dst src payload rest ->
  wf_ipv6 dst /\ wf_ipv6 src /\ exists frame, encode_frame dst src payload = Ok frame /\ s = frame ++ rest.
Proof.
  intros Hu. unfold read_frame. destruct (read_exact 8 s) as [[len_buf s1]|] eqn:E1; [|by destruct e].
  apply read_exact_Some in E1 as [-> Hl1]. apply Forall_app in Hu as [Hu1 Hu].
  destruct (_ <? _) eqn:Hlo; [done|]. destruct (Z.of_nat MAX_FRAME_BODY <? _) eqn:Hhi; [done|].
  apply Z.ltb_ge in Hlo, Hhi. destruct (read_exact HEADER_LEN s1) as [[header s2]|] eqn:E2; [|done].
  apply read_exact_Some in E2 as [-> Hl2]. apply Forall_app in Hu as [Hu2 Hu].
  destruct (of_octets (take 16 header)) as [d|] eqn:Ed; [|done]. destruct (of_octets (drop 16 header)) as [r|] eqn:Er; [|done].
  destruct (read_exact _ s2) as [[p s3]|] eqn:E3; [|done]. apply read_exact_Some in E3 as [-> Hl3]. intros [= <- <- <- <-].
  assert (Forall is_u8 (take 16 header)) as Ht by by apply Forall_take.
  assert (Forall is_u8 (drop 16 header)) as Hd by by apply Forall_drop.
  apply of_octets_octets in Ed as [Wd Ed]; [|done]. apply of_octets_octets in Er as [Wr Er]; [|done].
  split; [done|]. split; [done|].
  assert (Z.of_nat (HEADER_LEN + length p) = from_le_bytes len_buf) as Hlen by lia.
  exists (len_buf ++ octets d ++ octets r ++ p). split.
  - apply encode_frame_spec. split; [lia|]. f_equal. rewrite Hlen. apply from_le_inj; [done| | |].
    + apply le_bytes_u8.
    + by rewrite le_bytes_length.
    + rewrite le_roundtrip; [done|]. unfold MAX_FRAME_BODY, HEADER_LEN in *. lia.
  - rewrite <- Ed, <- Er, <- !app_assoc, (app_assoc (take 16 header)), take_drop. done.
Qed.

(** ** Receiving *)

(** One frame of [handle_connection]: for an address of this node, or dropped. *)
Definition dispatch (l : Local) (dst : Ipv6Addr) (payload : list Z) : Local :=
  match send_local l dst payload with Some (l, _) => l | None => l end.
Fixpoint handle_connection (fuel : nat) (l : Local) (s : list Z) (e : StreamEnd) : option Local :=
  match fuel with
  | O => None
  | S fuel =>
      match read_frame s e with
      | Frame dst _ payload rest => handle_connection fuel (dispatch l dst payload) rest e
      | Finished | Broken => Some l
      end
  end.

(** A frame takes at least its length and its header from the stream. *)
Lemma read_frame_shorter s e dst src payload rest :
  read_frame s e = Frame dst src payload rest -> (length rest + 40 <= length s)%nat.
Proof.
  unfold read_frame. destruct (read_exact 8 s) as [[len_buf s1]|] eqn:E1; [|by destruct e].
  apply read_exact_Some in E1 as [-> Hl1].
  destruct (_ <? _); [done|]. destruct (Z.of_nat MAX_FRAME_BODY <? _); [done|].
  destruct (read_exact HEADER_LEN s1) as [[header s2]|] eqn:E2; [|done]. apply read_exact_Some in E2 as [-> Hl2].
  destruct (of_octets (take 16 header)), (of_octets (drop 16 header)); try done.
  destruct (read_exact _ s2) as [[p s3]|] eqn:E3; [|done]. apply read_exact_Some in E3 as [-> Hl3]. intros [= _ _ _ <-].
  rewrite !length_app. unfold HEADER_LEN in *. lia.
Qed.
Lemma handle_total fuel l s e : (length s < fuel)%nat -> is_Some (handle_connection fuel l s e).
Proof.
  revert l s. induction fuel as [|fuel IH]; intros l s Hf; [lia|]. cbn [handle_connection].
  destruct (read_frame s e) as [dst src p rest| |] eqn:Hr; [|by eexists..].
  apply read_frame_shorter in Hr. apply IH. lia.
Qed.

(** A message on the wire: where to, from whom, and what. *)
Record Wire := mkWire { w_dst : Ipv6Addr; w_src : Ipv6Addr; w_payload : list Z }.
Definition wf_wire (w : Wire) : Prop := wf_ipv6 (w_dst w) /\ wf_ipv6 (w_src w) /\ (HEADER_LEN + length (w_payload w) <= MAX_FRAME_BODY)%nat.
Definition frame_of (w : Wire) : list Z :=
  match encode_frame (w_dst w) (w_src w) (w_payload w) with Ok f => f | Err _ => [] end.
Definition frames (ws : list Wire) : list Z := concat (frame_of <$> ws).
Definition dispatch_all (l : Local) (ws : list Wire) : Local := foldl (fun l w => dispatch l (w_dst w) (w_payload w)) l ws.

Lemma frame_of_spec w : wf_wire w -> encode_frame (w_dst w) (w_src w) (w_payload w) = Ok (frame_of w).
Proof. intros (_ & _ & Hl). unfold frame_of. rewrite (proj2 (encode_frame_spec _ _ _ _) (conj Hl eq_refl)). done. Qed.

Lemma frames_length ws : Forall wf_wire ws -> (length ws <= length (frames ws))%nat.
Proof.
  induction 1 as [|w l Hw _ IH]; [simpl; lia|]. change (frames (w :: l)) with (frame_of w ++ frames l).
  rewrite length_app. pose proof (frame_of_spec w Hw) as Hf. apply encode_frame_spec in Hf as [_ ->].
  rewrite !length_app, le_bytes_length. simpl. lia.
Qed.

(** Part of a frame is not a frame. *)
Lemma read_partial w n e : wf_wire w -> (n < length (frame_of w))%nat ->
  read_frame (take n (frame_of w)) e = Finished \/ read_frame (take n (frame_of w)) e = Broken.
Proof.
  intros Hw Hn. pose proof (frame_of_spec w Hw) as Hf. destruct Hw as (Hd & Hs & Hl).
  destruct (read_frame (take n (frame_of w)) e) as [dst src p rest| |] eqn:Hr; [exfalso|by left|by right].
  (* read on with the rest of the frame in place: the whole frame would be longer *)
  assert (read_frame (take n (frame_of w) ++ drop n (frame_of w)) e = Frame dst src p (rest ++ drop n (frame_of w))) as Hr'.
  { revert Hr. generalize (take n (frame_of w)), (drop n (frame_of w)). clear. intros s t. unfold read_frame.
    destruct (read_exact 8 s) as [[len_buf s1]|] eqn:E1; [|by destruct e]. apply read_exact_Some in E1 as [-> Hl1].
    destruct (_ <? _) eqn:H1; [done|]. destruct (Z.of_nat MAX_FRAME_BODY <? _) eqn:H2; [done|].
    destruct (read_exact HEADER_LEN s1) as [[header s2]|] eqn:E2; [|done]. apply read_exact_Some in E2 as [-> Hl2].
    destruct (of_octets (take 16 header)) as [d|] eqn:Ed; [|done]. destruct (of_octets (drop 16 header)) as [r|] eqn:Er; [|done].
    destruct (read_exact _ s2) as [[q s3]|] eqn:E3; [|done]. apply read_exact_Some in E3 as [-> Hl3]. intros [= <- <- <- <-].
    rewrite <- app_assoc, (proj2 (read_exact_Some 8 _ _ _) (conj eq_refl Hl1)), H1, H2.
    rewrite <- app_assoc, (proj2 (read_exact_Some HEADER_LEN _ _ _) (conj eq_refl Hl2)), Ed, Er.
    by rewrite <- app_assoc, (proj2 (read_exact_Some _ _ _ _) (conj eq_refl Hl3)). }
  rewrite take_drop in Hr'. pose proof (read_encoded _ _ _ [] e _ Hd Hs Hf) as He. rewrite app_nil_r in He. rewrite He in Hr'.
  injection Hr' as _ _ _ Hn'. symmetry in Hn'. apply app_eq_nil in Hn' as [_ Hn']. apply (f_equal length) in Hn'.
  rewrite length_drop in Hn'. simpl in Hn'. lia.
Qed.

(** The receiver of whole frames, with part of one at the end, delivers the whole ones
    in their order. *)
Lemma handle_frames ws tail l e :
  Forall wf_wire ws -> (tail = [] \/ exists w n, wf_wire w /\ (n < length (frame_of w))%nat /\ tail = take n (frame_of w)) ->
  forall fuel, (length ws < fuel)%nat -> handle_connection fuel l (frames ws ++ tail) e = Some (dispatch_all l ws).
Proof.
  intros Hws Ht. revert l. induction Hws as [|w ws Hw _ IH]; intros l [|fuel] Hf; try (simpl in Hf; lia); cbn [handle_connection].
  - simpl. destruct Ht as [->|(w & n & Hw & Hn & ->)].
    + unfold read_frame. simpl. by destruct e.
    + by destruct (read_partial w n e Hw Hn) as [-> | ->].
  - pose proof (frame_of_spec w Hw) as He. destruct Hw as (Hd & Hs & Hl).
    change (frames (w :: ws)) with (frame_of w ++ frames ws). rewrite <- app_assoc, (read_encoded _ _ _ _ e _ Hd Hs He).
    apply IH. simpl in Hf. lia.
Qed.

(** ** Sending *)

(** An outbound connection: the address it was opened to and what was written. *)
Record Stream := mkStream { st_peer : SocketAddr; written : list Z }.
#[export] Instance eta_Stream : Eta Stream := fun s => mkStream (st_peer s) (written s).

Record LoopbackFabric := mkLoopbackFabric {
  local_node_id : string;
  local_addr : SocketAddr;
  here : Local;
  lo_remote_routes : gmap Ipv6Addr string;
  lo_peers : gmap string SocketAddr;
  connections : gmap string nat;
  streams : list Stream;
}.
#[export] Instance eta_LoopbackFabric : Eta LoopbackFabric := fun f =>
  mkLoopbackFabric (local_node_id f) (local_addr f) (here f) (lo_remote_routes f) (lo_peers f) (connections f) (streams f).

(** [bind], where the system gave [bound] *)
Definition bind (bound : Result SocketAddr string) (node_id : string) : Result LoopbackFabric FabricError :=
  match bound with
  | Ok addr => Ok (mkLoopbackFabric node_id addr local_new ∅ ∅ ∅ [])
  | Err e => Err (Transport e)
  end.

(** How one attempt of a send goes: the connection is opened or not; another task may
    have pooled its own in the meantime; the write succeeds, or breaks off after so
    many bytes. *)
Inductive WriteResult := Written | BrokenOff (n : nat) (e : string).
Record Attempt := mkAttempt { connect_error : option string; raced : bool; write : WriteResult }.

Definition get_or_open_connection (f : LoopbackFabric) (a : Attempt) (node_id : string) (addr : SocketAddr)
    : LoopbackFabric * Result nat FabricError :=
  match connections f !! node_id with
  | Some existing => (f, Ok existing)
  | None =>
      match connect_error a with
      | Some e => (f, Err (Transport ("connect " +:+ node_id +:+ " (" +:+ fmt_sock addr +:+ "): " +:+ e)))
      | None =>
          let c := length (streams f) in
          let f := f <| streams := streams f ++ [mkStream addr []] |> in
          if raced a then
            let other := length (streams f) in
            (f <| streams := streams f ++ [mkStream addr []] |> <| connections := <[node_id := other]> (connections f) |>, Ok other)
          else (f <| connections := <[node_id := c]> (connections f) |>, Ok c)
      end
  end.

Definition append (f : LoopbackFabric) (c : nat) (bytes : list Z) : LoopbackFabric :=
  f <| streams := alter (fun s => s <| written := written s ++ bytes |>) c (streams f) |>.
Definition write_all (f : LoopbackFabric) (a : Attempt) (c : nat) (bytes : list Z) : LoopbackFabric * Result unit string :=
  match write a with
  | Written => (append f c bytes, Ok tt)
  | BrokenOff n e => (append f c (take n bytes), Err e)
  end.
Definition drop_connection (f : LoopbackFabric) (node_id : string) : LoopbackFabric :=
  f <| connections := delete node_id (connections f) |>.

Definition send_remote (f : LoopbackFabric) (io : Attempt * Attempt) (node_id : string) (dst : Ipv6Addr) (msg : list Z)
    : LoopbackFabric * Result unit FabricError :=
  match lo_peers f !! node_id with
  | None => (f, Err (Transport ("peer " +:+ node_id +:+ " has no registered address")))
  | Some addr =>
      match encode_frame dst fallback_source_ula msg with
      | Err e => (f, Err e)
      | Ok frame =>
          match get_or_open_connection f (fst io) node_id addr with
          | (f, Err e) => (f, Err e)
          | (f, Ok conn) =>
              match write_all f (fst io) conn frame with
              | (f, Ok _) => (f, Ok tt)
              | (f, Err _) =>
                  let f := drop_connection f node_id in
                  match get_or_open_connection f (snd io) node_id addr with
                  | (f, Err e) => (f, Err e)
                  | (f, Ok conn) =>
                      let '(f, r) := write_all f (snd io) conn frame in
                      (f, map_err (fun e => Transport ("peer write: " +:+ e)) r)
                  end
              end
          end
      end
  end.

Definition send (f : LoopbackFabric) (io : Attempt * Attempt) (dst : Ipv6Addr) (msg : list Z)
    : LoopbackFabric * Result unit FabricError :=
  match send_local (here f) dst msg with
  | Some (l, r) => (f <| here := l |>, r)
  | None =>
      match lo_remote_routes f !! dst with
      | Some node_id => send_remote f io node_id dst msg
      | None => (f, Err (NoRoute dst))
      end
  end.

Definition register_local (f : LoopbackFabric) (u : Ipv6Addr) (endpoint_id : string) : LoopbackFabric * nat :=
  let '(l, rx) := local_register (here f) u endpoint_id in (f <| here := l |>, rx).
Definition unregister_local (f : LoopbackFabric) (u : Ipv6Addr) : LoopbackFabric := f <| here := local_unregister (here f) u |>.

(** The mutators; [add_peer] and [remove_peer] also start a task that drops the cached
    connection, [drop_connection], which runs some time later. *)
Definition add_peer (f : LoopbackFabric) (node_id : string) (addr : SocketAddr) : LoopbackFabric :=
  f <| lo_peers := <[node_id := addr]> (lo_peers f) |>.
Definition remove_peer (f : LoopbackFabric) (node_id : string) : LoopbackFabric := f <| lo_peers := delete node_id (lo_peers f) |>.
Definition add_remote_route (f : LoopbackFabric) (u : Ipv6Addr) (node_id : string) : LoopbackFabric :=
  f <| lo_remote_routes := <[u := node_id]> (lo_remote_routes f) |>.
Definition remove_remote_route (f : LoopbackFabric) (u : Ipv6Addr) : LoopbackFabric :=
  f <| lo_remote_routes := delete u (lo_remote_routes f) |>.
(** A frame that arrives on some inbound connection. *)
Definition receive (f : LoopbackFabric) (dst : Ipv6Addr) (payload : list Z) : LoopbackFabric := f <| here := dispatch (here f) dst payload |>.

Definition routing_snapshot `{TableOrder} (f : LoopbackFabric) : RoutingSnapshot :=
  mkRoutingSnapshot ((fun p => (p.1, ep_id p.2)) <$> iter_ulas (endpoints (here f))) (iter_ulas (lo_remote_routes f)).

#[export] Instance loopback `{TableOrder} : MeshFabric := {|
  Fabric := LoopbackFabric;
  Network := Attempt * Attempt;
  fabric_send := send;
  fabric_register := register_local;
  fabric_unregister := unregister_local;
  fabric_snapshot := routing_snapshot;
  fabric_local := here;
|}.

(** ** What sending keeps *)

(** Everything but the pool and the streams. *)
Definition same_node (f g : LoopbackFabric) : Prop :=
  here f = here g /\ lo_remote_routes f = lo_remote_routes g /\ lo_peers f = lo_peers g.

Lemma same_send_remote f io node_id dst msg : same_node (send_remote f io node_id dst msg).1 f.
Proof.
  assert (forall f a n addr, same_node (get_or_open_connection f a n addr).1 f) as Hg.
  { intros g a n addr. unfold get_or_open_connection. destruct (connections g !! n); [done|]. destruct (connect_error a); [done|].
    by destruct (raced a). }
  assert (forall f a c b, same_node (write_all f a c b).1 f) as Hw by (intros g a c b; unfold write_all; by destruct (write a)).
  assert (forall f g h, same_node f g -> same_node g h -> same_node f h) as Ht.
  { unfold same_node. intros x y z (-> & -> & ->). done. }
  unfold send_remote. destruct (lo_peers f !! node_id) as [addr|]; [|done]. destruct (encode_frame _ _ _) as [frame|]; [|done].
  pose proof (Hg f io.1 node_id addr) as H1. destruct (get_or_open_connection f io.1 node_id addr) as [f1 [c|]]; [|done].
  pose proof (Hw f1 io.1 c frame) as H2. destruct (write_all f1 io.1 c frame) as [f2 [[]|]]; simpl in *; [by eapply Ht|].
  assert (same_node (drop_connection f2 node_id) f) as H3 by (eapply Ht; [|by eapply Ht]; done).
  pose proof (Hg (drop_connection f2 node_id) io.2 node_id addr) as H4.
  destruct (get_or_open_connection (drop_connection f2 node_id) io.2 node_id addr) as [f3 [c2|]]; simpl in *; [|by eapply Ht].
  pose proof (Hw f3 io.2 c2 frame) as H5. destruct (write_all f3 io.2 c2 frame) as [f4 r]. simpl in *. eapply Ht; [done|]. by eapply Ht.
Qed.

#[export] Instance loopback_laws `{TableOrderLaws} : @MeshFabricLaws loopback.
Proof.
  assert (forall f u, @routed loopback f u <-> is_Some (lo_remote_routes f !! u)) as Hrt.
  { intros f u. unfold routed. simpl. rewrite list_elem_of_fmap. setoid_rewrite (iter_ulas_perm _ (lo_remote_routes f)). split.
    - intros ([v n] & -> & Hin%elem_of_map_to_list). by eexists.
    - intros [n Hn]. exists (u, n). split; [done|]. by apply elem_of_map_to_list. }
  split; simpl.
  - intros f io dst msg l' r Hs. unfold send. by rewrite Hs.
  - intros f io dst msg Hn. unfold send, send_local. rewrite Hn. simpl. destruct (lo_remote_routes f !! dst) as [n|]; [|done].
    apply same_send_remote.
  - intros f io dst msg Hn Hr. unfold send, send_local. rewrite Hn. simpl. destruct (lo_remote_routes f !! dst) eqn:E; [|done].
    destruct Hr. apply Hrt. by rewrite E.
  - intros f io dst msg u. rewrite !Hrt. unfold send. destruct (send_local _ _ _) as [[l r]|]; [done|].
    destruct (lo_remote_routes f !! dst) as [n|]; [|done]. pose proof (same_send_remote f io n dst msg) as (_ & Hl & _). by rewrite Hl.
  - done.
  - done.
  - intros f u v. by rewrite !Hrt.
  - intros f. by rewrite iter_ulas_perm.
Qed.

(** ** Between two nodes *)

Definition wire_of (dst : Ipv6Addr) (msg : list Z) : Wire := mkWire dst fallback_source_ula msg.

(** A stream that carries whole messages. *)
Definition carries (f : LoopbackFabric) (c : nat) (ws : list Wire) : Prop :=
  Forall wf_wire ws /\ written <$> streams f !! c = Some (frames ws).
(** Every pooled connection does, and no two nodes share one. *)
Definition whole (f : LoopbackFabric) : Prop :=
  (forall n c, connections f !! n = Some c -> exists ws, carries f c ws)
  /\ forall n m c, connections f !! n = Some c -> connections f !! m = Some c -> n = m.

Lemma pooled_lt f n c : whole f -> connections f !! n = Some c -> (c < length (streams f))%nat.
Proof. intros [Hw _] Hc. apply Hw in Hc as (ws & _ & Hs). apply fmap_Some in Hs as (s & Hs & _). by eapply lookup_lt_Some. Qed.

Lemma carries_push f s c ws : carries f c ws -> carries (f <| streams := streams f ++ [s] |>) c ws.
Proof.
  intros [Hw Hs]. split; [done|]. simpl. apply fmap_Some in Hs as (st & Hs & Hwr).
  rewrite lookup_app_l by (by eapply lookup_lt_Some). by rewrite Hs, Hwr.
Qed.
Lemma carries_new f addr : carries (f <| streams := streams f ++ [mkStream addr []] |>) (length (streams f)) [].
Proof. split; [constructor|]. simpl. by rewrite list_lookup_middle. Qed.

(** Pooling a fresh stream. *)
Lemma whole_pool f n addr :
  whole f -> whole (f <| streams := streams f ++ [mkStream addr []] |> <| connections := <[n := length (streams f)]> (connections f) |>).
Proof.
  intros Hw. split.
  - intros m c. simpl. destruct (decide (n = m)) as [->|Hne].
    + rewrite lookup_insert_eq. intros [= <-]. exists []. apply (carries_new f).
    + rewrite lookup_insert_ne by done. intros Hc. destruct (proj1 Hw m c Hc) as [ws Hws]. exists ws. by apply carries_push.
  - intros m k c. simpl. destruct (decide (n = m)) as [->|Hm], (decide (m = k)) as [->|Hk]; try done.
    + rewrite lookup_insert_eq, lookup_insert_ne by done. intros [= <-] Hc. apply (pooled_lt f) in Hc; [lia|done].
    + destruct (decide (n = k)) as [->|Hnk]; [|rewrite !lookup_insert_ne by done; by apply (proj2 Hw)].
      rewrite lookup_insert_eq, lookup_insert_ne by done. intros Hc [= <-]. apply (pooled_lt f) in Hc; [lia|done].
Qed.
Lemma whole_push f s : whole f -> whole (f <| streams := streams f ++ [s] |>).
Proof.
  intros Hw. split; [|apply Hw]. intros n c Hc. destruct (proj1 Hw n c Hc) as [ws Hws]. exists ws. by apply carries_push.
Qed.

Lemma whole_open f a n addr :
  whole f ->
  let '(f', r) := get_or_open_connection f a n addr in
  whole f' /\ match r with
              | Ok c => connections f' !! n = Some c
              | Err e => (exists m, e = Transport m) /\ connections f' !! n = None
              end.
Proof.
  intros Hw. unfold get_or_open_connection. destruct (connections f !! n) as [c|] eqn:Hc; [done|].
  destruct (connect_error a); [split; [done|]; split; [by eexists|done]|]. destruct (raced a).
  - split; [|by simpl; rewrite lookup_insert_eq]. apply (whole_pool (f <| streams := streams f ++ [mkStream addr []] |>)). by apply whole_push.
  - split; [by apply (whole_pool f)|]. simpl. by rewrite lookup_insert_eq.
Qed.

Lemma carries_append f c bytes c' ws : c' <> c -> carries f c' ws -> carries (append f c bytes) c' ws.
Proof. intros Hne [Hf Hs]. split; [done|]. unfold append. simpl. by rewrite list_lookup_alter_ne. Qed.

(** A whole frame appended to a pooled stream. *)
Lemma whole_append f n c w :
  whole f -> connections f !! n = Some c -> wf_wire w ->
  whole (append f c (frame_of w)) /\ exists ws, carries (append f c (frame_of w)) c (ws ++ [w]).
Proof.
  intros Hw Hc Hwf. destruct (proj1 Hw n c Hc) as (ws & Hws & Hs).
  assert (carries (append f c (frame_of w)) c (ws ++ [w])) as Hca.
  { split; [by apply Forall_app; split; [done|by constructor]|]. unfold append. simpl. rewrite list_lookup_alter_eq.
    apply fmap_Some in Hs as (s & -> & Hs). simpl. rewrite <- Hs. unfold frames. rewrite fmap_app, concat_app. simpl. by rewrite app_nil_r. }
  split; [|by exists ws]. split; [|apply Hw]. intros m c' Hc'. destruct (decide (c' = c)) as [->|Hne]; [by eexists|].
  destruct (proj1 Hw m c' Hc') as [ws' Hws']. exists ws'. by apply carries_append.
Qed.
(** Whatever is appended to a stream that leaves the pool. *)
Lemma whole_drop f n c bytes : whole f -> connections f !! n = Some c -> whole (drop_connection (append f c bytes) n).
Proof.
  intros Hw Hc. split; simpl.
  - intros m c' [Hne Hc']%lookup_delete_Some. destruct (proj1 Hw m c' Hc') as [ws Hws]. exists ws.
    apply (carries_append f c bytes c' ws); [|done]. intros ->. by apply Hne, (proj2 Hw _ _ c).
  - intros m k c' [_ Hm]%lookup_delete_Some [_ Hk]%lookup_delete_Some. by apply (proj2 Hw m k c').
Qed.

(** The outcomes of sending to another node. *)
Lemma send_remote_cases f io n dst msg :
  whole f -> wf_ipv6 dst ->
  let '(f', r) := send_remote f io n dst msg in
  match r with
  | Ok _ => whole f' /\ exists c ws, connections f' !! n = Some c /\ carries f' c (ws ++ [wire_of dst msg])
  | Err (Encoding _) => f' = f /\ (MAX_FRAME_BODY < HEADER_LEN + length msg)%nat
  | Err (Transport _) => whole f' \/ exists k e, write (snd io) = BrokenOff k e
  | Err (NoRoute _) => False
  end.
Proof.
  intros Hw Hd. unfold send_remote. destruct (lo_peers f !! n) as [addr|]; [|by left].
  destruct (encode_frame dst fallback_source_ula msg) as [frame|e] eqn:He.
  2: { revert He. unfold encode_frame. destruct (_ <? _)%nat eqn:Hl; [|done]. intros [= <-]. by apply Nat.ltb_lt in Hl. }
  assert (wf_wire (wire_of dst msg)) as Hwf.
  { apply encode_frame_spec in He as [Hl _]. split; [done|]. split; [|done]. unfold wf_ipv6. simpl. repeat (apply Forall_cons; split; [by split|]). by constructor. }
  assert (frame = frame_of (wire_of dst msg)) as ->.
  { pose proof (frame_of_spec _ Hwf) as Hf. simpl in Hf. rewrite He in Hf. by injection Hf. }
  set (w := wire_of dst msg) in *.
  pose proof (whole_open f io.1 n addr Hw) as H1. destruct (get_or_open_connection f io.1 n addr) as [f1 [c|e]].
  2: { destruct H1 as [H1 [[m ->] _]]. by left. }
  destruct H1 as [W1 C1]. unfold write_all at 1. destruct (write io.1) as [|k1 e1].
  { destruct (whole_append f1 n c w W1 C1 Hwf) as [W2 [ws Hc]]. split; [done|]. by exists c, ws. }
  cbn [map_err]. pose proof (whole_drop f1 n c (take k1 (frame_of w)) W1 C1) as W2.
  pose proof (whole_open (drop_connection (append f1 c (take k1 (frame_of w))) n) io.2 n addr W2) as H3.
  destruct (get_or_open_connection _ io.2 n addr) as [f3 [c3|e]].
  2: { destruct H3 as [H3 [[m ->] _]]. by left. }
  destruct H3 as [W3 C3]. unfold write_all. destruct (write io.2) as [|k2 e2]; cbn [map_err].
  - destruct (whole_append f3 n c3 w W3 C3 Hwf) as [W4 [ws Hc]]. split; [done|]. by exists c3, ws.
  - right. by eexists _, _.
Qed.

Lemma last_dispatch l ws w e :
  wf_local l -> endpoints l !! w_dst w = Some e -> receiver_alive (chan l (tx e)) = true ->
  last (queue (chan (dispatch_all l (ws ++ [w])) (tx e))) = Some (w_dst w, w_payload w).
Proof.
  intros Hwf He Ha. unfold dispatch_all. rewrite foldl_app. simpl.
  assert (forall ws l, wf_local l -> endpoints l !! w_dst w = Some e -> receiver_alive (chan l (tx e)) = true ->
    let l' := foldl (fun l w => dispatch l (w_dst w) (w_payload w)) l ws in
    endpoints l' !! w_dst w = Some e /\ receiver_alive (chan l' (tx e)) = true) as Hk.
  { clear. induction ws as [|v ws IH]; intros l Hwf He Ha; [done|]. cbn [foldl]. apply IH; unfold dispatch.
    all: pose proof (send_local_cases l (w_dst v) (w_payload v)) as Hc.
    all: destruct (send_local l (w_dst v) (w_payload v)) as [[l' r]|] eqn:Hs; [|done].
    all: destruct Hc as (e' & He' & Hep & Hoth & Hal & _).
    - by eapply wf_send_local.
    - by rewrite Hep.
    - destruct (decide (tx e = tx e')) as [Ht|Ht]; [by rewrite Ht, Hal, <- Ht|by rewrite Hoth]. }
  specialize (Hk ws l Hwf He Ha). cbn zeta in Hk. set (l' := foldl _ l ws) in *. clearbody l'. destruct Hk as [He' Ha'].
  unfold dispatch. pose proof (send_local_cases l' (w_dst w) (w_payload w)) as Hc.
  destruct (send_local l' (w_dst w) (w_payload w)) as [[l2 r]|]; [|congruence].
  destruct Hc as (e' & He2 & _ & _ & _ & Hq). rewrite He' in He2. injection He2 as <-. rewrite Ha' in Hq. destruct Hq as [_ ->].
  by rewrite last_snoc.
Qed.

(** C14: A message for another node arrives: as long as the pooled connections carry whole
    frames, a send that returns [Ok] leaves it at the end of the connection to that
    node, and a node that reads the connection, with an endpoint registered at the
    address, gives it to that endpoint after everything sent before; the frames are
    whole again. A send that fails leaves them whole too, unless the second write
    broke off: that connection stays in the pool with part of a frame on it. *)
Theorem loopback_delivers f io n dst msg :
  whole f -> wf_ipv6 dst -> endpoints (here f) !! dst = None -> lo_remote_routes f !! dst = Some n ->
  let '(f', r) := send f io dst msg in
  match r with
  | Ok _ => whole f' /\ exists c s ws, connections f' !! n = Some c /\ streams f' !! c = Some s /\ Forall wf_wire ws
      /\ forall l e ep, wf_local l -> endpoints l !! dst = Some ep -> receiver_alive (chan l (tx ep)) = true ->
           exists l', handle_connection (S (length (written s))) l (written s) e = Some l'
             /\ l' = dispatch (dispatch_all l ws) dst msg /\ last (queue (chan l' (tx ep))) = Some (dst, msg)
  | Err (Encoding _) => f' = f /\ (MAX_FRAME_BODY < HEADER_LEN + length msg)%nat
  | Err (Transport _) => whole f' \/ exists k e, write (snd io) = BrokenOff k e
  | Err (NoRoute _) => False
  end.
Proof.
  intros Hw Hd He Hr. unfold send, send_local. rewrite He. simpl. rewrite Hr.
  pose proof (send_remote_cases f io n dst msg Hw Hd) as Hs. destruct (send_remote f io n dst msg) as [f' [[]|[]]]; try done.
  destruct Hs as [W (c & ws & Hc & Hws & Hst)]. split; [done|]. apply fmap_Some in Hst as (s & Hst & Hwr).
  apply Forall_app in Hws as Hws'. destruct Hws' as [Hws1 _]. exists c, s, ws. split_and!; try done.
  intros l e ep Hl Hep Hal. exists (dispatch_all l (ws ++ [wire_of dst msg])). split_and!.
  - rewrite <- Hwr. pose proof (handle_frames (ws ++ [wire_of dst msg]) [] l e Hws ltac:(by left)) as Hh. rewrite app_nil_r in Hh.
    apply (Hh (S (length (frames (ws ++ [wire_of dst msg]))))). pose proof (frames_length _ Hws). lia.
  - unfold dispatch_all. by rewrite foldl_app.
  - by apply (last_dispatch l ws (wire_of dst msg) ep).
Qed.

(** * The connections of a node ([accept_loop])

    Every connection that is accepted gets a task of its own; the tasks read their
    streams side by side and hand what they read to the node's endpoints, one frame
    at a time. *)

Module Conns.
(** A connection's task: the bytes it has not read yet, or it has returned. *)
Inductive Conn := Reading (s : list Z) (e : StreamEnd) | Closed.

(** The endpoints, the tasks, what each connection carries in all, and the frames in the
    order in which they were handed over, each with its connection. *)
Record Node := mkNode {
  n_local : Local;
  n_conns : list Conn;
  n_streams : list (list Z * StreamEnd);
  n_log : list (nat * Wire);
}.

(** [accept_loop], which goes on after an error, and the turns of [handle_connection]. *)
Inductive node_step (n : Node) : Node -> Prop :=
| accepted s e :
    node_step n (mkNode (n_local n) (n_conns n ++ [Reading s e]) (n_streams n ++ [(s, e)]) (n_log n))
| accept_failed : node_step n n
| frame_handed i s e dst src payload rest :
    n_conns n !! i = Some (Reading s e) -> read_frame s e = Frame dst src payload rest ->
    node_step n (mkNode (dispatch (n_local n) dst payload) (<[i := Reading rest e]> (n_conns n)) (n_streams n)
      (n_log n ++ [(i, mkWire dst src payload)]))
| connection_ended i s e :
    n_conns n !! i = Some (Reading s e) -> read_frame s e = Finished \/ read_frame s e = Broken ->
    node_step n (mkNode (n_local n) (<[i := Closed]> (n_conns n)) (n_streams n) (n_log n)).

Definition listening (l : Local) : Node := mkNode l [] [] [].

(** The frames of a stream, up to its end or the first byte that makes none. *)
Fixpoint frames_in (fuel : nat) (s : list Z) (e : StreamEnd) : list Wire :=
  match fuel with
  | O => []
  | S fuel =>
      match read_frame s e with
      | Frame dst src payload rest => mkWire dst src payload :: frames_in fuel rest e
      | Finished | Broken => []
      end
  end.
Definition stream_frames (s : list Z) (e : StreamEnd) : list Wire := frames_in (S (length s)) s e.

Lemma frames_in_enough fuel fuel' s e : (length s < fuel)%nat -> (length s < fuel')%nat -> frames_in fuel s e = frames_in fuel' s e.
Proof.
  revert fuel' s. induction fuel as [|fuel IH]; intros [|fuel'] s H1 H2; try lia. cbn [frames_in].
  destruct (read_frame s e) as [dst src p rest| |] eqn:Hr; [|done..]. apply read_frame_shorter in Hr.
  f_equal. apply IH; lia.
Qed.
Lemma stream_frames_eq s e :
  stream_frames s e
  = match read_frame s e with Frame dst src payload rest => mkWire dst src payload :: stream_frames rest e | _ => [] end.
Proof.
  unfold stream_frames at 1. cbn [frames_in]. destruct (read_frame s e) as [dst src p rest| |] eqn:Hr; [|done..].
  apply read_frame_shorter in Hr. f_equal. apply frames_in_enough; lia.
Qed.

(** [handle_connection] alone on a node hands over the frames of its stream. *)
Lemma handle_stream fuel l s e : (length s < fuel)%nat -> handle_connection fuel l s e = Some (dispatch_all l (stream_frames s e)).
Proof.
  revert l s. induction fuel as [|fuel IH]; intros l s Hf; [lia|]. cbn [handle_connection]. rewrite stream_frames_eq.
  destruct (read_frame s e) as [dst src p rest| |] eqn:Hr; [|done..]. apply read_frame_shorter in Hr.
  rewrite IH by lia. done.
Qed.

Definition of_conn (i : nat) (log : list (nat * Wire)) : list Wire := (filter (fun p => p.1 = i) log).*2.
Definition to_come (c : Conn) : list Wire := match c with Reading s e => stream_frames s e | Closed => [] end.

Lemma of_conn_app i a b : of_conn i (a ++ b) = of_conn i a ++ of_conn i b.
Proof. unfold of_conn. by rewrite filter_app, fmap_app. Qed.
Lemma of_conn_one i j w : of_conn i [(j, w)] = if decide (j = i) then [w] else [].
Proof. unfold of_conn. rewrite filter_cons. cbn. by case_decide. Qed.

Record node_inv (l : Local) (n : Node) : Prop := {
  ni_conns : length (n_conns n) = length (n_streams n);
  ni_local : n_local n = dispatch_all l (n_log n).*2;
  ni_frames : forall i c s e, n_conns n !! i = Some c -> n_streams n !! i = Some (s, e) ->
    of_conn i (n_log n) ++ to_come c = stream_frames s e;
  ni_log : forall i w, (i, w) ∈ n_log n -> (i < length (n_conns n))%nat;
}.

Lemma of_conn_none i log : (forall w, (i, w) ∉ log) -> of_conn i log = [].
Proof.
  intros Hn. unfold of_conn. induction log as [|[j w] log IH]; [done|]. rewrite filter_cons. cbn.
  case_decide as Hj; [subst; exfalso; apply (Hn w); by left|]. apply IH. intros w' Hw'. apply (Hn w'). by right.
Qed.

Lemma node_inv_step l n n' : node_inv l n -> node_step n n' -> node_inv l n'.
Proof.
  intros [Hc Hl Hf Hg] Hs. destruct Hs as [s e| |i s e dst src payload rest Hi Hr|i s e Hi Hr]; split; cbn [n_local n_conns n_streams n_log]; try done.
  - rewrite !length_app, Hc. done.
  - intros i c s' e' Hci Hsi. apply lookup_app_Some in Hci as [Hci|[Hge Hci]].
    + rewrite lookup_app_l in Hsi by (rewrite <- Hc; by eapply lookup_lt_Some). by eapply Hf.
    + apply list_lookup_singleton_Some in Hci as [Hz <-]. rewrite lookup_app_r in Hsi by lia.
      apply list_lookup_singleton_Some in Hsi as [_ [= <- <-]]. rewrite of_conn_none; [done|].
      intros w Hw. apply Hg in Hw. lia.
  - intros i w Hw. rewrite length_app. apply Hg in Hw. lia.
  - by rewrite length_insert.
  - rewrite fmap_app. unfold dispatch_all. rewrite foldl_app. cbn. unfold dispatch_all in Hl. by rewrite Hl.
  - intros j c s' e' Hcj Hsj. rewrite of_conn_app, of_conn_one, <- app_assoc. case_decide as Hij.
    + subst j. rewrite list_lookup_insert_eq in Hcj by (by eapply lookup_lt_Some). injection Hcj as <-.
      rewrite <- (Hf i (Reading s e) s' e' Hi Hsj). f_equal. cbn [to_come]. by rewrite (stream_frames_eq s e), Hr.
    + rewrite list_lookup_insert_ne in Hcj by done. by eapply Hf.
  - intros j w [Hw|Hw]%elem_of_app; rewrite length_insert; [by eapply Hg|].
    apply list_elem_of_singleton in Hw as [= -> _]. by eapply lookup_lt_Some.
  - by rewrite length_insert.
  - intros j c s' e' Hcj Hsj. destruct (decide (j = i)) as [->|Hne].
    + rewrite list_lookup_insert_eq in Hcj by (by eapply lookup_lt_Some). injection Hcj as <-.
      rewrite <- (Hf i (Reading s e) s' e' Hi Hsj). cbn [to_come]. rewrite (stream_frames_eq s e). by destruct Hr as [-> | ->].
    + rewrite list_lookup_insert_ne in Hcj by done. by eapply Hf.
  - intros j w Hw. rewrite length_insert. by eapply Hg.
Qed.

(** C25: However the tasks of a node's connections take turns, and however often
    accepting one fails, the endpoints are handed every connection's frames in the
    order of its stream: at any moment those that came from a connection are the first
    of its frames, and all of them once its task has returned; a stream that breaks off
    or is not made of frames ends its own connection and takes nothing from the others.
    What the endpoints then hold is what handing over these frames one by one gives. *)
Theorem connections_are_separate l n i s e :
  rtc node_step (listening l) n -> n_streams n !! i = Some (s, e) ->
  n_local n = dispatch_all l (n_log n).*2
  /\ exists c, n_conns n !! i = Some c /\ of_conn i (n_log n) ++ to_come c = stream_frames s e
       /\ (c = Closed -> of_conn i (n_log n) = stream_frames s e).
Proof.
  intros Hr Hi.
  assert (node_inv l n) as [Hc Hl Hf _].
  { assert (forall a, rtc node_step a n -> node_inv l a -> node_inv l n) as H; [|eapply H; [exact Hr|]].
    - clear. intros a. induction 1 as [|a b n Hs _ IH]; [done|]. intros Ha. apply IH. by eapply node_inv_step.
    - split; [done|done|done|]. intros j w Hw. by apply not_elem_of_nil in Hw. }
  split; [done|]. destruct (n_conns n !! i) as [c|] eqn:Ec.
  2: { apply lookup_ge_None in Ec. apply lookup_lt_Some in Hi. lia. }
  exists c. split; [done|]. pose proof (Hf _ _ _ _ Ec Hi) as He. split; [done|]. intros ->. by rewrite <- He, app_nil_r.
Qed.

(** One connection breaks off in the middle of a frame, and the other delivers. *)
Lemma connections_are_separate_witness :
  let w := mkWire (Ipv6 0xfd5a 0x1f02 0 0 0 0 0 1) fallback_source_ula [1; 2] in
  exists n, rtc node_step (listening local_new) n /\ of_conn 1 (n_log n) = [w] /\ of_conn 0 (n_log n) = [] /\ n_conns n = [Closed; Reading [] Eof].
Proof.
  intros w.
  assert (read_frame (frame_of w) Eof = Frame (w_dst w) (w_src w) (w_payload w) []) as Hf by (vm_compute; reflexivity).
  assert (read_frame (take 20 (frame_of w)) Eof = Broken) as Hb by (vm_compute; reflexivity).
  eassert (rtc node_step (listening local_new) _) as Hr.
  { eapply rtc_l; [apply (accepted _ (take 20 (frame_of w)) Eof)|]. eapply rtc_l; [apply (accepted _ (frame_of w) Eof)|].
    eapply rtc_l; [apply accept_failed|].
    eapply rtc_l; [eapply (frame_handed _ 1); [reflexivity|exact Hf]|].
    eapply rtc_l; [eapply (connection_ended _ 0); [reflexivity|right; exact Hb]|]. apply rtc_refl. }
  eexists. split; [exact Hr|].
  destruct (connections_are_separate local_new _ 0%nat _ _ Hr eq_refl) as (_ & c & Hc & _ & H0). injection Hc as <-.
  destruct (connections_are_separate local_new _ 1%nat _ _ Hr eq_refl) as (_ & c & Hc & H1 & _). injection Hc as <-.
  split; [|split; [|reflexivity]].
  - transitivity (stream_frames (frame_of w) Eof); [|rewrite stream_frames_eq, Hf; reflexivity].
    rewrite <- H1. cbn [to_come]. rewrite stream_frames_eq. reflexivity.
  - rewrite (H0 eq_refl), stream_frames_eq, Hb. reflexivity.
Defined.
End Conns.
