(* ===== verification/WgFabric.v ===== *)
(** * The fabric over WireGuard ([mesh-fabric]: [wireguard/])

    Messages travel in IPv6 packets of the fabric's own making through one tunnel per
    peer. A received datagram, a tick of the timers and a call are one step each,
    with one reading of the tunnels' clock. *)

From S2P Require Import Prelude NetAddr Types PeerSession SessionTable Fabric.

Open Scope Z_scope.

(** ** Packets ([wireguard/ipv6.rs]) *)

Definition IPV6_HEADER_LEN : nat := 40.
Definition MAX_APP_PAYLOAD : Z := u16_max - 64.
Definition MAX_UDP_FRAME : nat := 9 * 1000 + 1.
Arguments MAX_UDP_FRAME : simpl never.

Definition build_ipv6_packet (src dst : Ipv6Addr) (payload : list Z) : Result (list Z) FabricError :=
  let n := Z.of_nat (length payload) in
  if n <=? u16_max then
    Ok ([0x60; 0; 0; 0] ++ u16_to_be_bytes n ++ [59; 64] ++ octets src ++ octets dst ++ payload)
  else Err (Encoding ("payload " +:+ fmt_u n +:+ " > u16::MAX")).

Definition parse_ipv6_packet (bytes : list Z) : Result (Ipv6Addr * Ipv6Addr * list Z) FabricError :=
  if (length bytes <? IPV6_HEADER_LEN)%nat then
    Err (Encoding ("ipv6 packet too short: " +:+ fmt_u (Z.of_nat (length bytes))))
  else if negb (Z.shiftr (nth 0 bytes 0) 4 =? 6) then
    Err (Encoding ("not an ipv6 packet (version nibble = " +:+ fmt_u (Z.shiftr (nth 0 bytes 0) 4) +:+ ")"))
  else
    let payload_len := Z.to_nat (u16_from_be_bytes (nth 4 bytes 0) (nth 5 bytes 0)) in
    if (length bytes <? IPV6_HEADER_LEN + payload_len)%nat then
      Err (Encoding ("ipv6 length field " +:+ fmt_u (Z.of_nat payload_len) +:+ " exceeds available "
        +:+ fmt_u (Z.of_nat (length bytes - IPV6_HEADER_LEN)) +:+ " bytes"))
    else
      match of_octets (take 16 (drop 8 bytes)), of_octets (take 16 (drop 24 bytes)) with
      | Some src, Some dst => Ok (src, dst, take payload_len (drop IPV6_HEADER_LEN bytes))
      | _, _ => Err (Encoding EmptyString)   (** not for sixteen bytes *)
      end.

Lemma build_shape src dst payload packet :
  build_ipv6_packet src dst payload = Ok packet ->
  Z.of_nat (length payload) <= u16_max
  /\ packet = [0x60; 0; 0; 0] ++ u16_to_be_bytes (Z.of_nat (length payload)) ++ [59; 64] ++ octets src ++ octets dst ++ payload.
Proof. unfold build_ipv6_packet. destruct (_ <=? _) eqn:E; [|done]. apply Z.leb_le in E. intros Hp. split; [done|congruence]. Qed.

Lemma parse_built src dst payload packet trailer :
  wf_ipv6 src -> wf_ipv6 dst -> build_ipv6_packet src dst payload = Ok packet ->
  parse_ipv6_packet (packet ++ trailer) = Ok (src, dst, payload).
Proof.
  intros Hs Hd [Hl ->]%build_shape. unfold parse_ipv6_packet. rewrite <- !app_assoc. set (rest := payload ++ trailer).
  assert (length ([96; 0; 0; 0] ++ u16_to_be_bytes (Z.of_nat (length payload)) ++ [59; 64] ++ octets src ++ octets dst ++ rest)
    = (40 + (length payload + length trailer))%nat) as Hlen.
  { unfold rest. rewrite !length_app. simpl. lia. }
  rewrite Hlen. replace (40 + _ <? IPV6_HEADER_LEN)%nat with false by (symmetry; apply Nat.ltb_ge; unfold IPV6_HEADER_LEN; lia).
  change (Z.shiftr (nth 0 ([96; 0; 0; 0] ++ _) 0) 4) with 6. cbn [negb Z.eqb Pos.eqb].
  change (nth 4 ([96; 0; 0; 0] ++ ?a) 0) with (nth 0 a 0). change (nth 5 ([96; 0; 0; 0] ++ ?a) 0) with (nth 1 a 0).
  change (nth 0 (u16_to_be_bytes ?z ++ _) 0) with (Z.land (Z.shiftr z 8) 255). change (nth 1 (u16_to_be_bytes ?z ++ _) 0) with (Z.land z 255).
  rewrite u16_be_roundtrip by (unfold is_u16; lia). rewrite Nat2Z.id.
  replace (40 + _ <? IPV6_HEADER_LEN + _)%nat with false by (symmetry; apply Nat.ltb_ge; unfold IPV6_HEADER_LEN; lia).
  change (drop 8 ([96; 0; 0; 0] ++ u16_to_be_bytes ?z ++ [59; 64] ++ ?a)) with a.
  change (drop 24 ([96; 0; 0; 0] ++ u16_to_be_bytes ?z ++ [59; 64] ++ octets src ++ ?a)) with a.
  change (drop IPV6_HEADER_LEN ([96; 0; 0; 0] ++ u16_to_be_bytes ?z ++ [59; 64] ++ octets src ++ octets dst ++ ?a)) with a.
  change (take 16 (octets ?a ++ _)) with (octets a). rewrite !octets_roundtrip by done.
  unfold rest. by rewrite take_app_length.
Qed.

(** The fabric's packets round-trip: a payload that fits the length field is wrapped
    into a packet of forty bytes more, and unwrapping the packet, with whatever the
    tunnel left behind it, gives the two addresses and the payload; one that does not
    fit is refused. A packet cut short is never unwrapped. *)
Theorem ipv6_roundtrip src dst payload trailer n :
  wf_ipv6 src -> wf_ipv6 dst ->
  match build_ipv6_packet src dst payload with
  | Ok packet => Z.of_nat (length payload) <= u16_max /\ length packet = (IPV6_HEADER_LEN + length payload)%nat
      /\ parse_ipv6_packet (packet ++ trailer) = Ok (src, dst, payload)
      /\ ((n < length packet)%nat -> exists e, parse_ipv6_packet (take n packet) = Err (Encoding e))
  | Err e => u16_max < Z.of_nat (length payload) /\ exists m, e = Encoding m
  end.
Proof.
  intros Hs Hd. destruct (build_ipv6_packet src dst payload) as [packet|e] eqn:Hb.
  - pose proof (parse_built src dst payload packet trailer Hs Hd Hb) as Hp. apply build_shape in Hb as [Hl ->].
    split_and!; try done. intros Hn. unfold parse_ipv6_packet. rewrite length_take, Nat.min_l by lia.
    destruct (n <? IPV6_HEADER_LEN)%nat eqn:E; [by eexists|]. apply Nat.ltb_ge in E. unfold IPV6_HEADER_LEN in *.
    destruct (negb _); [by eexists|].
    assert (forall i, (i < n)%nat -> nth i (take n ([96; 0; 0; 0] ++ u16_to_be_bytes (Z.of_nat (length payload)) ++ [59; 64] ++ octets src ++ octets dst ++ payload)) 0
      = nth i ([96; 0; 0; 0] ++ u16_to_be_bytes (Z.of_nat (length payload)) ++ [59; 64] ++ octets src ++ octets dst ++ payload) 0) as Ht.
    { intros i Hi. by rewrite !nth_lookup, lookup_take_lt. }
    rewrite !Ht by lia. change (nth 4 ([96; 0; 0; 0] ++ u16_to_be_bytes ?z ++ _) 0) with (Z.land (Z.shiftr z 8) 255).
    change (nth 5 ([96; 0; 0; 0] ++ u16_to_be_bytes ?z ++ _) 0) with (Z.land z 255).
    rewrite u16_be_roundtrip by (unfold is_u16; lia). rewrite Nat2Z.id.
    replace (n <? 40 + length payload)%nat with true; [by eexists|]. symmetry. apply Nat.ltb_lt.
    rewrite !length_app in Hn. simpl in Hn. lia.
  - revert Hb. unfold build_ipv6_packet. destruct (_ <=? _) eqn:E; [done|]. apply Z.leb_gt in E. intros [= <-]. split; [done|by eexists].
Qed.

(** ** The fabric *)

(** The peers' map iterates in an order of its own. *)
Class PeerOrder := { iter_peers : forall {A}, gmap string A -> list (string * A) }.
Class PeerOrderLaws `{PeerOrder} := { iter_peers_perm : forall A (m : gmap string A), iter_peers m ≡ₚ map_to_list m }.

Section WireGuard.
Context `{Noise} `{TableOrder} `{PeerOrder}.

Record PeerState := mkPeerState { ps_endpoint : SocketAddr; ps_public : list Z; ps_tunn : Tunn }.
#[export] Instance eta_PeerState : Eta PeerState := fun p => mkPeerState (ps_endpoint p) (ps_public p) (ps_tunn p).

(** [sent] is what went out of the socket. *)
Record WireGuardFabric := mkWireGuardFabric {
  wg_node_id : string;
  wg_local_addr : SocketAddr;
  static_private : StaticSecret;
  here : Local;
  wg_remote_routes : gmap Ipv6Addr string;
  wg_peers : gmap string PeerState;
  sent : list (SocketAddr * list Z);
}.
#[export] Instance eta_WireGuardFabric : Eta WireGuardFabric := fun f =>
  mkWireGuardFabric (wg_node_id f) (wg_local_addr f) (static_private f) (here f) (wg_remote_routes f) (wg_peers f) (sent f).

Definition bind (bound : Result SocketAddr string) (node_id : string) (key : StaticSecret) : Result WireGuardFabric FabricError :=
  match bound with
  | Ok addr => Ok (mkWireGuardFabric node_id addr key local_new ∅ ∅ [])
  | Err e => Err (Transport e)
  end.

(** [socket.send_to] *)
Definition send_to (f : WireGuardFabric) (addr : SocketAddr) (bytes : list Z) : WireGuardFabric := f <| sent := sent f ++ [(addr, bytes)] |>.
Definition set_tunn (f : WireGuardFabric) (node_id : string) (tn : Tunn) : WireGuardFabric :=
  f <| wg_peers := alter (fun p => p <| ps_tunn := tn |>) node_id (wg_peers f) |>.

(** ** Receiving ([wireguard/loops.rs]) *)

Inductive DecapAction :=
| ToPeer (bytes : list Z)
| DeliverV6 (bytes : list Z)
| Nothing
| DropV4
| DecapError (e : string).

Definition classify_decap_result (res : TunnResult) : DecapAction :=
  match res with
  | TunnDone => Nothing
  | TunnErr e => DecapError e
  | WriteToNetwork bytes => ToPeer bytes
  | WriteToTunnelV4 _ _ => DropV4
  | WriteToTunnelV6 bytes _ => DeliverV6 bytes
  end.

(** A datagram that the socket does not take is only logged, like a message whose
    receiver has gone. *)
Definition apply_action (f : WireGuardFabric) (node_id : string) (action : DecapAction) : WireGuardFabric :=
  match action with
  | Nothing | DecapError _ | DropV4 => f
  | ToPeer bytes => match wg_peers f !! node_id with Some p => send_to f (ps_endpoint p) bytes | None => f end
  | DeliverV6 bytes =>
      match parse_ipv6_packet bytes with
      | Ok (_, dst_ula, payload) =>
          match send_local (here f) dst_ula payload with Some (l, _) => f <| here := l |> | None => f end
      | Err _ => f
      end
  end.

(** One call of [decapsulate] on the peer's tunnel. *)
Definition decap (f : WireGuardFabric) (now : Z) (node_id : string) (datagram : list Z) : WireGuardFabric * DecapAction :=
  match wg_peers f !! node_id with
  | None => (f, Nothing)
  | Some p => let '(tn, res) := decapsulate (ps_tunn p) now datagram in (set_tunn f node_id tn, classify_decap_result res)
  end.

Fixpoint flush (fuel : nat) (f : WireGuardFabric) (now : Z) (node_id : string) : option WireGuardFabric :=
  match fuel with
  | O => None
  | S fuel =>
      let '(f, next) := decap f now node_id [] in
      match next with Nothing => Some f | _ => flush fuel (apply_action f node_id next) now node_id end
  end.
Definition process_inbound (fuel : nat) (f : WireGuardFabric) (now : Z) (node_id : string) (datagram : list Z) : option WireGuardFabric :=
  let '(f, first) := decap f now node_id datagram in
  flush fuel (apply_action f node_id first) now node_id.

(** One turn of [receive_loop]: the socket cuts a longer datagram off. *)
Definition receive (fuel : nat) (f : WireGuardFabric) (now : Z) (peer_addr : SocketAddr) (datagram : list Z) : option WireGuardFabric :=
  match List.find (fun p => bool_decide (ps_endpoint p.2 = peer_addr)) (iter_peers (wg_peers f)) with
  | None => Some f
  | Some (node_id, _) => process_inbound fuel f now node_id (take MAX_UDP_FRAME datagram)
  end.

(** One turn of [timer_loop]. *)
Definition tick_peer (now : Z) (f : WireGuardFabric) (node_id : string) : WireGuardFabric :=
  match wg_peers f !! node_id with
  | None => f
  | Some p =>
      let '(tn, res) := update_timers (ps_tunn p) now in
      let f := set_tunn f node_id tn in
      match res with WriteToNetwork bytes => send_to f (ps_endpoint p) bytes | _ => f end
  end.
Definition timer_tick (f : WireGuardFabric) (now : Z) : WireGuardFabric :=
  foldl (tick_peer now) f (iter_peers (wg_peers f)).*1.

(** ** Sending ([wireguard/transport.rs]) *)

Definition add_wireguard_peer (f : WireGuardFabric) (node_id : string) (endpoint : SocketAddr) (public_key : list Z) (index : Z)
    : WireGuardFabric :=
  f <| wg_peers := <[node_id := mkPeerState endpoint public_key (tunn_new (static_private f) public_key index)]> (wg_peers f) |>.
Definition remove_wireguard_peer (f : WireGuardFabric) (node_id : string) : WireGuardFabric :=
  f <| wg_peers := delete node_id (wg_peers f) |>.

(** [udp_error] is that of the socket, if it has one. *)
Definition send_remote (f : WireGuardFabric) (now : Z) (udp_error : option string) (node_id : string) (dst_ula : Ipv6Addr) (msg : list Z)
    : WireGuardFabric * Result unit FabricError :=
  if MAX_APP_PAYLOAD <? Z.of_nat (length msg) then
    (f, Err (Encoding ("payload " +:+ fmt_u (Z.of_nat (length msg)) +:+ " exceeds max " +:+ fmt_u MAX_APP_PAYLOAD)))
  else
    match wg_peers f !! node_id with
    | None => (f, Err (Transport ("peer " +:+ node_id +:+ " not registered")))
    | Some p =>
        match build_ipv6_packet (Ipv6 0 0 0 0 0 0 0 0) dst_ula msg with
        | Err e => (f, Err e)
        | Ok framed =>
            let '(tn, res) := encapsulate (ps_tunn p) now framed in
            let f := set_tunn f node_id tn in
            match res with
            | WriteToNetwork bytes =>
                match udp_error with
                | None => (send_to f (ps_endpoint p) bytes, Ok tt)
                | Some e => (f, Err (Transport ("udp send: " +:+ e)))
                end
            | TunnDone => (f, Ok tt)
            | TunnErr e => (f, Err (Transport ("boringtun encapsulate error: " +:+ e)))
            | _ => (f, Err (Transport "boringtun encapsulate error: unexpected"))
            end
        end
    end.

Definition send (f : WireGuardFabric) (net : Z * option string) (dst : Ipv6Addr) (msg : list Z) : WireGuardFabric * Result unit FabricError :=
  match send_local (here f) dst msg with
  | Some (l, r) => (f <| here := l |>, r)
  | None =>
      match wg_remote_routes f !! dst with
      | Some node_id => send_remote f net.1 net.2 node_id dst msg
      | None => (f, Err (NoRoute dst))
      end
  end.

Definition register_local (f : WireGuardFabric) (u : Ipv6Addr) (endpoint_id : string) : WireGuardFabric * nat :=
  let '(l, rx) := local_register (here f) u endpoint_id in (f <| here := l |>, rx).
Definition unregister_local (f : WireGuardFabric) (u : Ipv6Addr) : WireGuardFabric := f <| here := local_unregister (here f) u |>.
Definition add_remote_route (f : WireGuardFabric) (u : Ipv6Addr) (node_id : string) : WireGuardFabric :=
  f <| wg_remote_routes := <[u := node_id]> (wg_remote_routes f) |>.
Definition remove_remote_route (f : WireGuardFabric) (u : Ipv6Addr) : WireGuardFabric :=
  f <| wg_remote_routes := delete u (wg_remote_routes f) |>.
(** The trait's [add_peer], which lacks the key *)
Definition add_peer (f : WireGuardFabric) (node_id : string) (addr : SocketAddr) : WireGuardFabric := f.
Definition remove_peer (f : WireGuardFabric) (node_id : string) : WireGuardFabric := remove_wireguard_peer f node_id.
Definition routing_snapshot (f : WireGuardFabric) : RoutingSnapshot :=
  mkRoutingSnapshot ((fun p => (p.1, ep_id p.2)) <$> iter_ulas (endpoints (here f))) (iter_ulas (wg_remote_routes f)).

(** ** Waiting for a handshake *)

Definition kick_handshake (f : WireGuardFabric) (now : Z) (udp_error : option string) (node_id : string)
    : WireGuardFabric * Result unit FabricError :=
  match wg_peers f !! node_id with
  | None => (f, Err (Transport ("peer " +:+ node_id +:+ " not registered")))
  | Some p =>
      let '(tn, res) := format_handshake_initiation (ps_tunn p) now false in
      let f := set_tunn f node_id tn in
      match res with
      | WriteToNetwork bytes =>
          match udp_error with
          | None => (send_to f (ps_endpoint p) bytes, Ok tt)
          | Some e => (f, Err (Transport ("kick handshake send: " +:+ e)))
          end
      | TunnDone => (f, Ok tt)
      | TunnErr e => (f, Err (Transport ("boringtun handshake error: " +:+ e)))
      | _ => (f, Err (Transport "unexpected boringtun handshake result"))
      end
  end.

(** [wait_until_handshake]: [clock] reads the time in milliseconds at each turn, [udp]
    is the socket's error then, if any, and [others] is what the other tasks have done
    by the end of the turn's pause. *)
Fixpoint wait_until_handshake (fuel : nat) (clock : nat -> Z) (udp : nat -> option string) (others : nat -> WireGuardFabric -> WireGuardFabric)
    (f : WireGuardFabric) (node_id : string) (deadline : Z) (turn : nat) : option (WireGuardFabric * Result unit FabricError) :=
  match fuel with
  | O => None
  | S fuel =>
      let established := match wg_peers f !! node_id with Some p => has_handshake (ps_tunn p) (clock turn) | None => false end in
      if established then Some (f, Ok tt)
      else if deadline <=? clock turn then
        Some (f, Err (Transport ("handshake to " +:+ node_id +:+ " did not complete within the timeout")))
      else
        let '(f, _) := kick_handshake f (clock turn) (udp turn) node_id in
        wait_until_handshake fuel clock udp others (others turn f) node_id deadline (S turn)
  end.

#[export] Instance wireguard : MeshFabric := {|
  Fabric := WireGuardFabric;
  Network := Z * option string;
  fabric_send := send;
  fabric_register := register_local;
  fabric_unregister := unregister_local;
  fabric_snapshot := routing_snapshot;
  fabric_local := here;
|}.

(** ** What a datagram does *)

(** What the tunnel makes of a datagram and of the empty ones after it. *)
Fixpoint tunn_flush (fuel : nat) (now : Z) (tn : Tunn) : option (Tunn * list DecapAction) :=
  match fuel with
  | O => None
  | S fuel =>
      let '(tn, res) := decapsulate tn now [] in
      match classify_decap_result res with
      | Nothing => Some (tn, [])
      | a => '(tn, acts) ← tunn_flush fuel now tn; Some (tn, a :: acts)
      end
  end.
Definition tunn_run (fuel : nat) (now : Z) (tn : Tunn) (datagram : list Z) : option (Tunn * list DecapAction) :=
  let '(tn, res) := decapsulate tn now datagram in
  '(tn, acts) ← tunn_flush fuel now tn; Some (tn, classify_decap_result res :: acts).

Definition deliver_v6 (l : Local) (a : DecapAction) : Local :=
  match a with
  | DeliverV6 bytes =>
      match parse_ipv6_packet bytes with
      | Ok (_, dst, payload) => match send_local l dst payload with Some (l, _) => l | None => l end
      | Err _ => l
      end
  | _ => l
  end.
Definition answer (addr : SocketAddr) (a : DecapAction) : list (SocketAddr * list Z) :=
  match a with ToPeer bytes => [(addr, bytes)] | _ => [] end.
(** The peer's tunnel is replaced, the packets go to this node's endpoints and the
    answers to the peer. *)
Definition effect (f : WireGuardFabric) (n : string) (p : PeerState) (tn : Tunn) (acts : list DecapAction) : WireGuardFabric :=
  mkWireGuardFabric (wg_node_id f) (wg_local_addr f) (static_private f) (foldl deliver_v6 (here f) acts) (wg_remote_routes f)
    (<[n := p <| ps_tunn := tn |>]> (wg_peers f)) (sent f ++ (acts ≫= answer (ps_endpoint p))).

Lemma apply_effect f n p tn acts a :
  apply_action (effect f n p tn acts) n a = effect f n p tn (acts ++ [a]).
Proof.
  unfold effect. rewrite bind_app, foldl_app, app_assoc. destruct a as [b|b| | |e]; cbn [apply_action foldl deliver_v6 answer mbind list_bind].
  all: rewrite ?app_nil_r; try done.
  - cbn [wg_peers]. rewrite lookup_insert_eq. done.
  - destruct (parse_ipv6_packet b) as [[[s d] m]|]; [|done]. cbn [here]. by destruct (send_local _ d m) as [[l r]|].
Qed.
Lemma decap_effect f n p tn acts now d :
  decap (effect f n p tn acts) now n d
  = (effect f n p (decapsulate tn now d).1 acts, classify_decap_result (decapsulate tn now d).2).
Proof.
  unfold decap, effect. cbn [wg_peers]. rewrite lookup_insert_eq. cbn [ps_tunn].
  change (ps_tunn (p <| ps_tunn := tn |>)) with tn.
  destruct (decapsulate tn now d) as [tn' res]. f_equal. unfold set_tunn. simpl. by rewrite alter_insert_eq.
Qed.
Lemma flush_effect fuel f n p tn acts now :
  flush fuel (effect f n p tn acts) now n
  = (fun r => effect f n p r.1 (acts ++ r.2)) <$> tunn_flush fuel now tn.
Proof.
  revert tn acts. induction fuel as [|fuel IH]; intros tn acts; [done|]. cbn [flush tunn_flush]. rewrite decap_effect.
  destruct (decapsulate tn now []) as [tn' res]. cbn [fst snd].
  destruct (classify_decap_result res) eqn:Ec; rewrite ?apply_effect, ?IH; simpl; rewrite ?app_nil_r; try done;
    destruct (tunn_flush fuel now tn') as [[t l]|]; simpl; by rewrite <- ?app_assoc.
Qed.
Lemma effect_id f n p : wg_peers f !! n = Some p -> effect f n p (ps_tunn p) [] = f.
Proof.
  intros Hp. unfold effect. simpl. rewrite app_nil_r. destruct f, p; simpl in *. f_equal. by apply insert_id.
Qed.
Lemma process_effect fuel f n p now d :
  wg_peers f !! n = Some p ->
  process_inbound fuel f now n d = (fun r => effect f n p r.1 r.2) <$> tunn_run fuel now (ps_tunn p) d.
Proof.
  intros Hp. unfold process_inbound, tunn_run. rewrite <- (effect_id f n p Hp) at 1. rewrite decap_effect.
  destruct (decapsulate (ps_tunn p) now d) as [tn res]. cbn [fst snd]. rewrite apply_effect, flush_effect.
  by destruct (tunn_flush fuel now tn) as [[t l]|].
Qed.
End WireGuard.

#[export] Instance wireguard_laws `{Noise} `{TableOrderLaws} : @MeshFabricLaws wireguard.
Proof.
  assert (forall f u, @routed wireguard f u <-> is_Some (wg_remote_routes f !! u)) as Hrt.
  { intros f u. unfold routed. simpl. rewrite list_elem_of_fmap. setoid_rewrite (iter_ulas_perm _ (wg_remote_routes f)). split.
    - intros ([v n] & -> & Hin%elem_of_map_to_list). by eexists.
    - intros [n Hn]. exists (u, n). split; [done|]. by apply elem_of_map_to_list. }
  assert (forall f now ue n dst msg, let f' := (send_remote f now ue n dst msg).1 in
    here f' = here f /\ wg_remote_routes f' = wg_remote_routes f) as Hs.
  { intros f now ue n dst msg. cbn zeta. unfold send_remote. destruct (_ <? _); [done|]. destruct (wg_peers f !! n) as [p|]; [|done].
    destruct (build_ipv6_packet _ _ _); [|done]. destruct (encapsulate _ _ _) as [tn []]; try done. by destruct ue. }
  split; simpl.
  - intros f net dst msg l' r Hl. unfold send. by rewrite Hl.
  - intros f net dst msg Hn. unfold send, send_local. rewrite Hn. simpl. destruct (wg_remote_routes f !! dst) as [n|]; [|done]. apply Hs.
  - intros f net dst msg Hn Hr. unfold send, send_local. rewrite Hn. simpl. destruct (wg_remote_routes f !! dst) eqn:E; [|done].
    destruct Hr. apply Hrt. by rewrite E.
  - intros f net dst msg u. rewrite !Hrt. unfold send. destruct (send_local _ _ _) as [[l r]|]; [done|].
    destruct (wg_remote_routes f !! dst) as [n|]; [|done]. pose proof (Hs f net.1 net.2 n dst msg) as [_ Hl]. by rewrite Hl.
  - done.
  - done.
  - intros f u v. by rewrite !Hrt.
  - intros f. by rewrite iter_ulas_perm.
Qed.

Section Props.
Context `{Noise} `{TableOrder} `{PeerOrderLaws}.

(** The peer whose datagrams come from an address. *)
Definition peer_at (f : WireGuardFabric) (addr : SocketAddr) : option (string * PeerState) :=
  List.find (fun p => bool_decide (ps_endpoint p.2 = addr)) (iter_peers (wg_peers f)).

Lemma peer_at_spec f addr :
  match peer_at f addr with
  | Some (n, p) => wg_peers f !! n = Some p /\ ps_endpoint p = addr
  | None => forall n p, wg_peers f !! n = Some p -> ps_endpoint p <> addr
  end.
Proof.
  unfold peer_at. destruct (List.find _ _) as [[n p]|] eqn:Hf.
  - apply find_Some_in in Hf as [Hin Hd]. rewrite iter_peers_perm in Hin. apply elem_of_map_to_list in Hin.
    by apply bool_decide_eq_true in Hd.
  - intros n p Hp He. apply (find_None_all _ _ (n, p)) in Hf; [cbn in Hf; by rewrite bool_decide_true in Hf|].
    rewrite iter_peers_perm. by apply elem_of_map_to_list.
Qed.

(** C37: A datagram does exactly what the tunnel of its sender makes of it: one from an
    address of no peer does nothing; otherwise it is cut to what the socket takes
    and goes through one peer's tunnel, of which nothing but the state changes; the
    packets that come out are unwrapped and go to this node's endpoints in their
    order, the answers go back to the very address the datagram came from; and it
    ends exactly when the tunnel's flushing does. *)
Theorem fabric_receive_functional fuel f now addr datagram :
  match peer_at f addr with
  | None => receive fuel f now addr datagram = Some f /\ forall n p, wg_peers f !! n = Some p -> ps_endpoint p <> addr
  | Some (n, p) => wg_peers f !! n = Some p /\ ps_endpoint p = addr
      /\ receive fuel f now addr datagram
         = (fun r => effect f n p r.1 r.2) <$> tunn_run fuel now (ps_tunn p) (take MAX_UDP_FRAME datagram)
  end.
Proof.
  pose proof (peer_at_spec f addr) as Hs. unfold receive. fold (peer_at f addr).
  destruct (peer_at f addr) as [[n p]|]; [|done]. destruct Hs as [Hp He]. split_and!; try done. by apply process_effect.
Qed.

(** A message over WireGuard: a send that returns [Ok] has given the peer's tunnel the
    message, wrapped, and has sent what the tunnel made of it to the peer; and when a
    fabric receives that datagram, from a peer whose tunnel makes the same packet of
    it, the endpoint registered at the address gets the message, at the end of its
    queue, provided the datagram is no longer than the receiver's buffer. *)
Theorem wireguard_delivers fa fb now now' dst msg n p tn b src m q tq tq' l :
  wf_ipv6 dst -> endpoints (here fa) !! dst = None -> wg_remote_routes fa !! dst = Some n -> wg_peers fa !! n = Some p ->
  Z.of_nat (length msg) <= MAX_APP_PAYLOAD ->
  (forall framed, build_ipv6_packet (Ipv6 0 0 0 0 0 0 0 0) dst msg = Ok framed ->
     encapsulate (ps_tunn p) now framed = (tn, WriteToNetwork b) /\ decapsulate (ps_tunn q) now' b = (tq, WriteToTunnelV6 framed src)) ->
  (length b <= MAX_UDP_FRAME)%nat -> decapsulate tq now' [] = (tq', TunnDone) ->
  peer_at fb l = Some (m, q) ->
  let '(fa', r) := send fa (now, None) dst msg in
  r = Ok tt /\ sent fa' = sent fa ++ [(ps_endpoint p, b)] /\ here fa' = here fa
  /\ exists fb', receive 1 fb now' l b = Some fb'
       /\ sent fb' = sent fb
       /\ here fb' = from_option fst (here fb) (send_local (here fb) dst msg)
       /\ forall ep, endpoints (here fb) !! dst = Some ep -> receiver_alive (chan (here fb) (tx ep)) = true ->
            queue (chan (here fb') (tx ep)) = queue (chan (here fb) (tx ep)) ++ [(dst, msg)].
Proof.
  intros Hd Hn Hr Hp Hlen Htn Hb Hflush Hat. unfold MAX_APP_PAYLOAD in Hlen.
  assert (send fa (now, None) dst msg = send_remote fa now None n dst msg) as ->.
  { unfold send. assert (send_local (here fa) dst msg = None) as -> by (unfold send_local; by rewrite Hn). by rewrite Hr. }
  unfold send_remote, MAX_APP_PAYLOAD. replace (_ <? _) with false by (symmetry; apply Z.ltb_ge; lia). rewrite Hp.
  destruct (build_ipv6_packet (Ipv6 0 0 0 0 0 0 0 0) dst msg) as [framed|e] eqn:Hf.
  2: { exfalso. revert Hf. unfold build_ipv6_packet. replace (_ <=? _) with true by (symmetry; apply Z.leb_le; lia). done. }
  destruct (Htn framed eq_refl) as [He Hde]. rewrite He. split_and!; try done.
  pose proof (fabric_receive_functional 1 fb now' l b) as Hrec. rewrite Hat in Hrec. destruct Hrec as (_ & _ & ->).
  rewrite take_ge by done. unfold tunn_run. rewrite Hde. cbn [tunn_flush]. rewrite Hflush. simpl.
  eexists. split; [done|]. unfold effect. cbn [sent here foldl deliver_v6 mbind list_bind answer app]. rewrite app_nil_r.
  assert (wf_ipv6 (Ipv6 0 0 0 0 0 0 0 0)) as Hz by (unfold wf_ipv6; simpl; repeat (apply Forall_cons; split; [by split|]); by constructor).
  pose proof (parse_built _ _ _ _ [] Hz Hd Hf) as Hpb. rewrite app_nil_r in Hpb. rewrite Hpb.
  split; [done|]. split; [by destruct (send_local (here fb) dst msg) as [[? ?]|]|].
  intros ep Hep Hal. pose proof (send_local_cases (here fb) dst msg) as Hc.
  destruct (send_local (here fb) dst msg) as [[l' r]|]; [|congruence]. destruct Hc as (ep' & Hep' & _ & _ & _ & Hq).
  rewrite Hep in Hep'. injection Hep' as <-. rewrite Hal in Hq. by destruct Hq.
Qed.

(** ** Waiting ends *)

Lemma wait_ends fuel clock udp others f n deadline turn :
  (forall i, clock (S i) >= clock i + 20) -> deadline - clock turn < 20 * Z.of_nat fuel ->
  exists f' r, wait_until_handshake (S fuel) clock udp others f n deadline turn = Some (f', r)
    /\ match r with
       | Ok _ => exists p t, (turn <= t)%nat /\ wg_peers f' !! n = Some p /\ has_handshake (ps_tunn p) (clock t) = true
       | Err e => (exists m, e = Transport m) /\ exists t, (turn <= t)%nat /\ deadline <= clock t
       end.
Proof.
  intros Hc. revert f turn. induction fuel as [|fuel IH]; intros f turn Hd; cbn [wait_until_handshake].
  - destruct (wg_peers f !! n) as [p|] eqn:Hp; [destruct (has_handshake _ _) eqn:Hh|].
    + eexists _, _. split; [done|]. by exists p, turn.
    + replace (deadline <=? clock turn) with true by lia. eexists _, _. split; [done|]. split; [by eexists|]. exists turn. lia.
    + replace (deadline <=? clock turn) with true by lia. eexists _, _. split; [done|]. split; [by eexists|]. exists turn. lia.
  - destruct (match wg_peers f !! n with Some p => has_handshake (ps_tunn p) (clock turn) | None => false end) eqn:Hh.
    + destruct (wg_peers f !! n) as [p|] eqn:Hp; [|done]. eexists _, _. split; [done|]. by exists p, turn.
    + destruct (deadline <=? clock turn) eqn:Ed.
      { eexists _, _. split; [done|]. split; [by eexists|]. exists turn. lia. }
      destruct (kick_handshake f (clock turn) (udp turn) n) as [f1 r1].
      destruct (IH (others turn f1) (S turn)) as (f' & r & Hw & Hr); [pose proof (Hc turn); lia|].
      exists f', r. split; [exact Hw|]. destruct r as [[]|e].
      * destruct Hr as (p & t & Ht & Hp & Hhs). exists p, t. split_and!; [lia|done|done].
      * destruct Hr as [He (t & Ht & Hdt)]. split; [done|]. exists t. split; [lia|done].
Qed.

(** Waiting for a handshake always ends: with pauses of at least twenty milliseconds,
    one turn per twenty milliseconds of the timeout, and two more, are enough,
    whatever the other tasks do meanwhile, even if the peer never appears or is
    removed; it succeeds only when the tunnel then has a handshake, and fails only
    after the timeout. *)
Theorem wait_returns clock udp others f n timeout :
  (forall i, clock (S i) >= clock i + 20) -> 0 <= timeout ->
  exists f' r, wait_until_handshake (S (S (Z.to_nat (timeout / 20)))) clock udp others f n (clock 0%nat + timeout) 0 = Some (f', r)
    /\ match r with
       | Ok _ => exists p t, wg_peers f' !! n = Some p /\ has_handshake (ps_tunn p) (clock t) = true
       | Err e => (exists m, e = Transport m) /\ exists t, clock 0%nat + timeout <= clock t
       end.
Proof.
  intros Hc Ht. destruct (wait_ends (S (Z.to_nat (timeout / 20))) clock udp others f n (clock 0%nat + timeout) 0 Hc) as (f' & r & Hw & Hr).
  { pose proof (Z.div_mod timeout 20). pose proof (Z.mod_pos_bound timeout 20). pose proof (Z.div_pos timeout 20). lia. }
  exists f', r. split; [exact Hw|]. destruct r as [[]|e]; [|destruct Hr as [? (t & _ & ?)]; eauto].
  destruct Hr as (p & t & _ & Hp & Hh). eauto.
Qed.
End Props.
