(* ===== verification/Tun.v ===== *)
(** * TUN devices ([mesh-fabric/tun/{mod,linux,macos}.rs])

    Opening an interface by a name, and carrying IP packets over its file descriptor.
    The kernel answers each system call through a parameter; what is here is the names,
    the frames and the meaning given to the answers. *)

From S2P Require Import Prelude NetAddr AddrText Text Platform.

Open Scope Z_scope.

(** ** Errors *)

(** The [errno]s that are told apart. *)
Definition EPERM : Z := 1.
Definition ENOENT : Z := 2.
Definition EACCES : Z := 13.
Definition EBUSY : Z := 16.

Inductive IoError :=
| Errno (code : Z)
| MissingDevice
| NameTaken (requested : string)
| NotUtf8 | Unterminated
| ControlUnknown (code : Z)
| IpAddrFailed (message : string) | IpLinkFailed (message : string)
| ShortFrame (n : nat) | BufferTooSmall (need got : nat) | EmptyBuffer | TooLarge (n : nat).
Inductive TunError :=
| UnsupportedPlatform
| Io (e : IoError)
| PermissionDenied (code : Z)
| InvalidName (name : string)
| DeviceBusy (name : string).

Record TunOptions := mkTunOptions { opt_name : string; opt_ula : Ipv6Addr; mtu : Z }.

(** ** Names *)

(** [String::from_utf8] *)
Definition cont (b : Z) : bool := (0x80 <=? b) && (b <=? 0xbf).
Definition within (lo hi b : Z) : bool := (lo <=? b) && (b <=? hi).
Fixpoint utf8_valid (l : list Z) : bool :=
  match l with
  | [] => true
  | b :: r =>
      if b <? 0x80 then utf8_valid r
      else match r with
           | [] => false
           | c :: r =>
               if within 0xc2 0xdf b then cont c && utf8_valid r
               else match r with
                    | [] => false
                    | d :: r =>
                        if (b =? 0xe0) then within 0xa0 0xbf c && cont d && utf8_valid r
                        else if (b =? 0xed) then within 0x80 0x9f c && cont d && utf8_valid r
                        else if within 0xe1 0xef b then cont c && cont d && utf8_valid r
                        else match r with
                             | [] => false
                             | e :: r =>
                                 if (b =? 0xf0) then within 0x90 0xbf c && cont d && cont e && utf8_valid r
                                 else if within 0xf1 0xf3 b then cont c && cont d && cont e && utf8_valid r
                                 else if (b =? 0xf4) then within 0x80 0x8f c && cont d && cont e && utf8_valid r
                                 else false
                             end
                    end
           end
  end.
Definition from_utf8 (l : list Z) : option string := if utf8_valid l then Some (string_of_bytes l) else None.

(** [as i8] and [as u8] *)
Definition as_i8 (z : Z) : Z := if z mod 256 <? 128 then z mod 256 else z mod 256 - 256.
Definition as_u8 (z : Z) : Z := z mod 256.

Definition IFNAMSIZ : nat := 16.
Definition LINUX_IFNAME_MAX : nat := 15.
Definition IFF_TUN : Z := 0x0001.
Definition IFF_NO_PI : Z := 0x1000.

(** The field [ifr_name] with the first bytes of a name, and the name up to its first
    NUL. *)
Definition ifr_name (requested : string) : list Z :=
  let l := as_i8 <$> take IFNAMSIZ (bytes_of_string requested) in l ++ replicate (IFNAMSIZ - length l) 0.
Fixpoint until_nul (l : list Z) : list Z :=
  match l with [] => [] | b :: r => if b =? 0 then [] else b :: until_nul r end.
Definition read_ifr_name (l : list Z) : option string := from_utf8 (as_u8 <$> until_nul l).

(** The name begins with [utun] and goes on with a number; the kernel wants one more. *)
Definition digit_value (b : Z) : option Z := if (48 <=? b) && (b <=? 57) then Some (b - 48) else None.
Fixpoint digits_value (acc : Z) (l : list Z) : option Z :=
  match l with
  | [] => Some acc
  | b :: r => d ← digit_value b; let z := acc * 10 + d in if z <=? u32_max then digits_value z r else None
  end.
(** [str::parse::<u32>] *)
Definition parse_u32 (s : string) : option Z :=
  match bytes_of_string s with
  | [] => None
  | b :: r =>
      let digits := if b =? 43 then r else b :: r in
      match digits with [] => None | _ => digits_value 0 digits end
  end.
Definition parse_requested_unit (name : string) : Result Z TunError :=
  if bool_decide (name = EmptyString) then Ok 0
  else match strip_prefix "utun" name with
       | None => Err (InvalidName name)
       | Some suffix =>
           if bool_decide (suffix = EmptyString) then Ok 0
           else match parse_u32 suffix with
                | None => Err (InvalidName name)
                | Some unit_index => if unit_index + 1 <=? u32_max then Ok (unit_index + 1) else Err (InvalidName name)
                end
       end.

(** ** Opening *)

(** The answers of the kernel: a value or an [errno]. *)
Record LinuxKernel := mkLinuxKernel {
  open_dev_net_tun : Result unit Z;
  tunsetiff_ioctl : list Z -> Z -> Result (list Z) Z;
  linux_async_fd : Result unit Z;
}.
Record MacKernel := mkMacKernel {
  socket_call : Result unit Z;
  ctliocginfo : Result Z Z;
  connect_call : Z -> Z -> Result unit Z;
  getsockopt_ifname : Result (list Z) Z;
  set_nonblocking_call : Result unit Z;
  mac_async_fd : Result unit Z;
}.

Definition contains_byte (b : Z) (s : string) : bool := bool_decide (b ∈ bytes_of_string s).

Definition open_tun_dev (k : LinuxKernel) : Result unit TunError :=
  match open_dev_net_tun k with
  | Ok _ => Ok tt
  | Err code =>
      Err (if (code =? EPERM) || (code =? EACCES) then PermissionDenied code
           else if code =? ENOENT then Io MissingDevice else Io (Errno code))
  end.
Definition tunsetiff (k : LinuxKernel) (requested_name : string) : Result string TunError :=
  match tunsetiff_ioctl k (ifr_name requested_name) (Z.lor IFF_TUN IFF_NO_PI) with
  | Err code =>
      Err (if code =? EPERM then PermissionDenied code
           else if code =? EBUSY then Io (NameTaken requested_name) else Io (Errno code))
  | Ok name => match read_ifr_name name with Some n => Ok n | None => Err (Io NotUtf8) end
  end.

Section Host.
Context `{Host}.

Definition linux_assign_ula (st : HostState) (iface : string) (ula : Ipv6Addr) : HostState * Result unit string :=
  let arg := fmt_ipv6 ula +:+ "/64" in
  let '(st, o) := invoke st "ip" ["-6"; "addr"; "add"; arg; "dev"; iface] in
  (st, match o with
       | SpawnFailed e => Err ("spawn `ip`: " +:+ e +:+ " (install iproute2)")
       | Exited true _ _ _ => Ok tt
       | Exited false status _ stderr =>
           if contains stderr "File exists" || contains stderr "RTNETLINK answers: File exists" then Ok tt
           else Err ("ip -6 addr add " +:+ arg +:+ " dev " +:+ iface +:+ " exited " +:+ status +:+ ": " +:+ stderr)
       end).
Definition bring_up (st : HostState) (iface : string) (mtu : Z) : HostState * Result unit string :=
  let '(st, o) := invoke st "ip" ["link"; "set"; "dev"; iface; "mtu"; fmt_u mtu; "up"] in
  (st, match o with
       | SpawnFailed e => Err ("spawn `ip`: " +:+ e +:+ " (install iproute2)")
       | Exited true _ _ _ => Ok tt
       | Exited false status _ stderr =>
           Err ("ip link set dev " +:+ iface +:+ " mtu " +:+ fmt_u mtu +:+ " up exited " +:+ status +:+ ": " +:+ stderr)
       end).

(** [linux::open_impl]: the interface's name. A descriptor that was opened is closed
    when anything after it fails. *)
Definition linux_open (k : LinuxKernel) (st : HostState) (opts : TunOptions) : HostState * Result string TunError :=
  if (LINUX_IFNAME_MAX <? String.length (opt_name opts))%nat then (st, Err (InvalidName (opt_name opts)))
  else if contains_byte 47 (opt_name opts) || contains_byte 0 (opt_name opts) then (st, Err (InvalidName (opt_name opts)))
  else
    match (let? _ := open_tun_dev k in tunsetiff k (opt_name opts)) with
    | Err e => (st, Err e)
    | Ok final_name =>
        let '(st, r) := linux_assign_ula st final_name (opt_ula opts) in
        match r with
        | Err m => (st, Err (Io (IpAddrFailed m)))
        | Ok _ =>
            let '(st, r) := bring_up st final_name (mtu opts) in
            match r with
            | Err m => (st, Err (Io (IpLinkFailed m)))
            | Ok _ =>
                match linux_async_fd k with
                | Err code => (st, Err (Io (Errno code)))
                | Ok _ => (st, Ok final_name)
                end
            end
        end
    end.
End Host.

Definition open_kctl_socket (k : MacKernel) : Result unit TunError :=
  match socket_call k with
  | Ok _ => Ok tt
  | Err code => Err (if (code =? EPERM) || (code =? EACCES) then PermissionDenied code else Io (Errno code))
  end.
Definition ctl_info_lookup (k : MacKernel) : Result Z TunError :=
  match ctliocginfo k with Ok id => Ok id | Err code => Err (Io (ControlUnknown code)) end.
Definition connect_sockaddr_ctl (k : MacKernel) (ctl_id sc_unit : Z) (requested_name : string) : Result unit TunError :=
  match connect_call k ctl_id sc_unit with
  | Ok _ => Ok tt
  | Err code =>
      Err (if code =? EBUSY then DeviceBusy requested_name
           else if (code =? EPERM) || (code =? EACCES) then PermissionDenied code else Io (Errno code))
  end.
Definition get_assigned_ifname (k : MacKernel) : Result string TunError :=
  match getsockopt_ifname k with
  | Err code => Err (Io (Errno code))
  | Ok buf =>
      if negb (bool_decide (0 ∈ buf)) then Err (Io Unterminated)
      else match from_utf8 (until_nul buf) with Some n => Ok n | None => Err (Io NotUtf8) end
  end.
Definition set_nonblocking (k : MacKernel) : Result unit TunError := map_err (fun c => Io (Errno c)) (set_nonblocking_call k).

(** [macos::open_impl] *)
Definition macos_open (k : MacKernel) (opts : TunOptions) : Result string TunError :=
  let? requested_unit := parse_requested_unit (opt_name opts) in
  let? _ := open_kctl_socket k in
  let? ctl_id := ctl_info_lookup k in
  let? _ := connect_sockaddr_ctl k ctl_id requested_unit (opt_name opts) in
  let? final_name := get_assigned_ifname k in
  let? _ := set_nonblocking k in
  let? _ := map_err (fun c => Io (Errno c)) (mac_async_fd k) in
  Ok final_name.

(** [open] of [tun/mod.rs], as it is compiled for each system. Elsewhere there is only a
    placeholder type without values ([unsupported.rs]), so a device never exists. *)
Inductive Target := LinuxOs (k : LinuxKernel) | MacOs (k : MacKernel) | OtherOs.
Inductive UnsupportedTunDevice :=.
Definition open_ `{Host} (target : Target) (st : HostState) (opts : TunOptions) : HostState * Result string TunError :=
  match target with
  | LinuxOs k => linux_open k st opts
  | MacOs k => (st, macos_open k opts)
  | OtherOs => (st, Err UnsupportedPlatform)
  end.

(** ** Packets *)

(** One turn of a device's loop: waiting for the descriptor fails, the system call would
    block, or it answers. *)
Inductive Turn (A : Type) := WaitFailed (code : Z) | WouldBlock | Answered (r : Result A Z).
Arguments WaitFailed {A} code.
Arguments WouldBlock {A}.
Arguments Answered {A} r.

(** The loop of [read_packet] and [write_packet]; [None] is still waiting when the
    turns are over. *)
Fixpoint io_loop {A B} (finish : A -> Result B IoError) (turns : list (Turn A)) : option (Result B IoError) :=
  match turns with
  | [] => None
  | WaitFailed code :: _ => Some (Err (Errno code))
  | WouldBlock :: turns => io_loop finish turns
  | Answered (Err code) :: _ => Some (Err (Errno code))
  | Answered (Ok a) :: _ => Some (finish a)
  end.

(** Linux without packet information: the packet itself, cut to the buffer by the
    kernel. The turns of a read hold the packets the kernel has. *)
Definition linux_read_packet (buf_len : nat) (turns : list (Turn (list Z))) : option (Result (list Z) IoError) :=
  io_loop (fun packet => Ok (take buf_len packet)) turns.
(** The turns of a write hold the counts that [write] returns. *)
Definition linux_write_packet (turns : list (Turn nat)) : option (Result nat IoError) := io_loop Ok turns.

Definition AF_INET6_PREFIX : list Z := [0; 0; 0; 30].
Definition AF_PREFIX_LEN : nat := 4.
Definition SCRATCH_LEN : nat := 9 * 1000 + 216.

(** macOS: a frame has four bytes before the packet. *)
Definition finish_utun_read (buf_len : nat) (frame : list Z) : Result (list Z) IoError :=
  let got := take (Nat.min SCRATCH_LEN (buf_len + AF_PREFIX_LEN)) frame in
  let n := length got in
  if (n <? AF_PREFIX_LEN)%nat then Err (ShortFrame n)
  else if (buf_len <? n - AF_PREFIX_LEN)%nat then Err (BufferTooSmall (n - AF_PREFIX_LEN) buf_len)
  else Ok (drop AF_PREFIX_LEN got).
Definition macos_read_packet (buf_len : nat) (turns : list (Turn (list Z))) : option (Result (list Z) IoError) :=
  io_loop (finish_utun_read buf_len) turns.

(** The frame a packet is written as. *)
Definition utun_frame (packet : list Z) : list Z := AF_INET6_PREFIX ++ packet.
Definition finish_utun_write (packet : list Z) (n : nat) : Result nat IoError :=
  Ok (n - AF_PREFIX_LEN)%nat.
(** A turn in which the descriptor is ready ends at once if the packet is too long. *)
Definition macos_write_packet (packet : list Z) (turns : list (Turn nat)) : option (Result nat IoError) :=
  match packet with
  | [] => Some (Err EmptyBuffer)
  | _ =>
      if (SCRATCH_LEN <? length (utun_frame packet))%nat then
        match turns with
        | [] => None
        | WaitFailed code :: _ => Some (Err (Errno code))
        | _ => Some (Err (TooLarge (length packet)))
        end
      else io_loop (finish_utun_write packet) turns
  end.

(** ** Names come back *)

Lemma as_u8_i8 z : is_u8 z -> as_u8 (as_i8 z) = z.
Proof.
  unfold is_u8, u8_max, as_u8, as_i8. intros Hz. rewrite (Z.mod_small z 256) by lia. destruct (z <? 128) eqn:E.
  - apply Z.mod_small. lia.
  - replace (z - 256) with (z + (-1) * 256) by lia. rewrite Z_mod_plus_full. apply Z.mod_small. lia.
Qed.

Lemma until_nul_app l r : Forall (fun b => b <> 0) l -> until_nul (l ++ 0 :: r) = l.
Proof.
  induction 1 as [|b l Hb _ IH]; [done|]. simpl. apply Z.eqb_neq in Hb. by rewrite Hb, IH.
Qed.

(** A name the code lets through is a name the kernel is given whole, and reading it
    back as it was given yields it. *)
Lemma ifr_name_roundtrip name :
  (String.length name <= LINUX_IFNAME_MAX)%nat -> contains_byte 0 name = false -> utf8_valid (bytes_of_string name) = true ->
  length (ifr_name name) = IFNAMSIZ /\ read_ifr_name (ifr_name name) = Some name.
Proof.
  intros Hl H0 Hu. unfold ifr_name, LINUX_IFNAME_MAX in *. pose proof (length_bytes_of name) as Hlen.
  rewrite take_ge by (unfold IFNAMSIZ; lia). rewrite length_app, length_replicate, length_fmap. split; [unfold IFNAMSIZ; lia|].
  replace (IFNAMSIZ - length (bytes_of_string name))%nat with (S (IFNAMSIZ - length (bytes_of_string name) - 1)) by (unfold IFNAMSIZ; lia).
  cbn [replicate]. unfold read_ifr_name. rewrite until_nul_app.
  - rewrite <- list_fmap_compose. assert ((as_u8 ∘ as_i8) <$> bytes_of_string name = bytes_of_string name) as ->.
    { rewrite <- (list_fmap_id (bytes_of_string name)) at 2. apply list_fmap_ext. intros i b Hb. simpl. apply as_u8_i8.
      by eapply (Forall_lookup_1 _ _ _ _ (bytes_of_u8 name)). }
    unfold from_utf8. by rewrite Hu, string_of_bytes_of.
  - apply Forall_forall. intros z (b & -> & Hb)%list_elem_of_fmap Hz.
    assert (b = 0) as ->.
    { pose proof (proj1 (Forall_forall _ _) (bytes_of_u8 name) b Hb) as Hr. rewrite <- (as_u8_i8 b Hr), Hz. done. }
    apply bool_decide_eq_false in H0. done.
Qed.

(** ** How an interface is opened *)

Lemma parse_unit_examples :
  parse_requested_unit "" = Ok 0 /\ parse_requested_unit "utun" = Ok 0 /\ parse_requested_unit "utun7" = Ok 8
  /\ parse_requested_unit "utun+7" = Ok 8 /\ parse_requested_unit "utun4294967295" = Err (InvalidName "utun4294967295")
  /\ parse_requested_unit "tun7" = Err (InvalidName "tun7") /\ parse_requested_unit "utun-1" = Err (InvalidName "utun-1").
Proof. by vm_compute. Qed.

Lemma digits_value_bound acc l z : 0 <= acc <= u32_max -> digits_value acc l = Some z -> 0 <= z <= u32_max.
Proof.
  revert acc. induction l as [|b l IH]; intros acc Ha; simpl; [by intros [= <-]|].
  unfold digit_value. destruct ((48 <=? b) && (b <=? 57)) eqn:Eb; simpl; [|done].
  destruct (acc * 10 + (b - 48) <=? u32_max) eqn:E; [|done]. apply IH. lia.
Qed.
(** The unit the kernel is asked for is a [u32], 0 exactly for a name without a number. *)
Lemma requested_unit_range name u : parse_requested_unit name = Ok u -> is_u32 u /\ (u = 0 -> name = EmptyString \/ name = "utun").
Proof.
  unfold parse_requested_unit, is_u32. case_bool_decide as He; [intros [= <-]; split; [unfold u32_max; lia|by left]|].
  destruct (strip_prefix "utun" name) as [suffix|] eqn:Es; [|done]. case_bool_decide as Hs.
  - intros [= <-]. split; [unfold u32_max; lia|]. right. subst suffix.
    apply strip_prefix_spec in Es. by rewrite string_app_nil_r in Es.
  - destruct (parse_u32 suffix) as [n|] eqn:Hn; [|done]. destruct (n + 1 <=? u32_max) eqn:E; [|done]. intros [= <-].
    assert (0 <= n) as H0.
    { unfold parse_u32 in Hn. destruct (bytes_of_string suffix) as [|b r]; [done|].
      destruct (if b =? 43 then r else b :: r); [done|]. apply digits_value_bound in Hn; [lia|]. unfold u32_max. lia. }
    split; lia.
Qed.

(** The loop goes on exactly while the descriptor is not ready, and ends with the first
    answer. *)
Lemma io_loop_spec {A B} (finish : A -> Result B IoError) n turns :
  io_loop finish (replicate n WouldBlock ++ turns) = io_loop finish turns.
Proof. by induction n. Qed.

(** What the other end of a macOS interface is written, a read gives back; a packet that
    does not fit the buffer is cut off silently, because the read asks the kernel for no
    more than fits, so the error for a small buffer is never returned. *)
Theorem utun_carries_packets packet buf_len n wturns rturns :
  packet <> [] ->
  (macos_write_packet packet (replicate n WouldBlock ++ Answered (Ok (length (utun_frame packet))) :: wturns)
     = Some (if (SCRATCH_LEN <? length (utun_frame packet))%nat then Err (TooLarge (length packet)) else Ok (length packet)))
  /\ macos_read_packet buf_len (replicate n WouldBlock ++ Answered (Ok (utun_frame packet)) :: rturns)
     = Some (Ok (take (Nat.min (SCRATCH_LEN - AF_PREFIX_LEN) buf_len) packet))
  /\ (forall frame e, macos_read_packet buf_len [Answered (Ok frame)] = Some (Err e) -> exists k, e = ShortFrame k /\ (k < 4)%nat).
Proof.
  intros Hne. split_and!.
  - unfold macos_write_packet. destruct packet as [|b packet]; [done|].
    destruct (SCRATCH_LEN <? length (utun_frame (b :: packet)))%nat; [by destruct n|].
    rewrite io_loop_spec. cbn [io_loop]. unfold finish_utun_write, utun_frame. done.
  - unfold macos_read_packet. rewrite io_loop_spec. cbn [io_loop]. unfold finish_utun_read.
    assert (take (Nat.min SCRATCH_LEN (buf_len + AF_PREFIX_LEN)) (utun_frame packet)
      = AF_INET6_PREFIX ++ take (Nat.min (SCRATCH_LEN - AF_PREFIX_LEN) buf_len) packet) as ->.
    { unfold utun_frame. rewrite take_app_ge by (change (length AF_INET6_PREFIX) with 4%nat; unfold SCRATCH_LEN, AF_PREFIX_LEN; lia). do 2 f_equal.
      change (length AF_INET6_PREFIX) with 4%nat. unfold AF_PREFIX_LEN. lia. }
    rewrite length_app, length_take. change (length AF_INET6_PREFIX) with 4%nat.
    destruct (_ <? AF_PREFIX_LEN)%nat eqn:E; [apply Nat.ltb_lt in E; unfold AF_PREFIX_LEN in E; lia|].
    destruct (buf_len <? _)%nat eqn:E'; [apply Nat.ltb_lt in E'; unfold AF_PREFIX_LEN in *; lia|]. done.
  - intros frame e. unfold macos_read_packet. cbn [io_loop]. unfold finish_utun_read. rewrite length_take.
    destruct (_ <? AF_PREFIX_LEN)%nat eqn:E.
    + intros He. exists (length (take (Nat.min SCRATCH_LEN (buf_len + AF_PREFIX_LEN)) frame)). rewrite length_take.
      split; [congruence|]. apply Nat.ltb_lt in E. unfold AF_PREFIX_LEN in *. lia.
    + destruct (buf_len <? _)%nat eqn:E'; [|done]. apply Nat.ltb_lt in E'. unfold AF_PREFIX_LEN in *. lia.
Qed.

Section Opening.
Context `{Host}.

(** Opening on Linux: a bad name is refused before anything is touched; otherwise the
    interface has the name the kernel reports, which for a kernel that takes names as
    they are is the requested one. *)
Lemma linux_open_name k st opts st' n :
  linux_open k st opts = (st', Ok n) ->
  (String.length (opt_name opts) <= LINUX_IFNAME_MAX)%nat
  /\ contains_byte 47 (opt_name opts) = false /\ contains_byte 0 (opt_name opts) = false
  /\ tunsetiff k (opt_name opts) = Ok n
  /\ (tunsetiff_ioctl k (ifr_name (opt_name opts)) (Z.lor IFF_TUN IFF_NO_PI) = Ok (ifr_name (opt_name opts)) ->
      utf8_valid (bytes_of_string (opt_name opts)) = true -> n = opt_name opts).
Proof.
  unfold linux_open. destruct (LINUX_IFNAME_MAX <? _)%nat eqn:El; [done|]. apply Nat.ltb_ge in El.
  destruct (contains_byte 47 _ || _) eqn:Eb; [done|]. apply orb_false_iff in Eb as [E47 E0].
  destruct (open_tun_dev k) as [[]|e]; [|done]. destruct (tunsetiff k (opt_name opts)) as [final|e] eqn:Et; [|done].
  destruct (linux_assign_ula st final (opt_ula opts)) as [st1 [[]|m]]; [|done].
  destruct (bring_up st1 final (mtu opts)) as [st2 [[]|m]]; [|done]. destruct (linux_async_fd k); [|done].
  intros [= _ <-]. split_and!; try done. intros Hk Hu. unfold tunsetiff in Et. rewrite Hk in Et.
  by rewrite (proj2 (ifr_name_roundtrip _ El E0 Hu)) in Et; simplify_eq.
Qed.

Lemma linux_open_bad_name k st opts :
  (LINUX_IFNAME_MAX < String.length (opt_name opts))%nat \/ contains_byte 47 (opt_name opts) = true \/ contains_byte 0 (opt_name opts) = true ->
  linux_open k st opts = (st, Err (InvalidName (opt_name opts))).
Proof.
  intros Hb. unfold linux_open. destruct (LINUX_IFNAME_MAX <? _)%nat eqn:El; [done|]. apply Nat.ltb_ge in El.
  destruct Hb as [Hb|[-> | ->]]; [lia|done|by rewrite orb_true_r].
Qed.
End Opening.
