(* ===== verification/HostSink.v ===== *)
(** * The lifeline's hold on its host ([tools/tabbify-mesh/src/host_sink.rs])

    A lifeline joiner turns accepted commands into calls of [systemctl]. Reboots pass
    a guard that keeps their history in a file and refuses the fourth within an
    hour. *)

From S2P Require Import Prelude NetAddr Types RosterStore Identity PeerSession SessionTable CommandGate.

Open Scope Z_scope.

Definition MAX_PER_WINDOW : nat := 3.
Definition WINDOW_SECS : Z := 3600.
Definition SUPERVISOR_UNIT : string := "tabbify-supervisor".

(** [serde_json] on [RebootHistory]: reading also takes that the bytes are UTF-8. *)
Class HistoryJson := {
  history_of_json : list Z -> option (list Z);
  history_to_json : list Z -> option (list Z);
}.
Class HistoryJsonLaws `{HistoryJson} := {
  history_writes : forall h, is_Some (history_to_json h);
  history_reads : forall h json, Forall is_u64 h -> history_to_json h = Some json -> history_of_json json = Some h;
}.

(** What the sink runs on the host; the status of a run is not looked at. *)
Inductive HostCommand := systemctl_restart (unit : string) | systemctl_reboot.
#[export] Instance HostCommand_eq_dec : EqDecision HostCommand.
Proof. solve_decision. Defined.

Record RebootGuard := mkRebootGuard { guard_path : Path }.
Record HostCommandSink := mkHostCommandSink { reboot_guard : RebootGuard; unit_name : string }.

Definition reboot_history_path (data_dir : Path) : Path := path_join data_dir "reboot-guard.json".
Definition sink_new (data_dir : Path) (unit : string) : HostCommandSink :=
  mkHostCommandSink (mkRebootGuard (reboot_history_path data_dir)) unit.

Section Guard.
Context `{HistoryJson}.

Definition load_history (d : Disk) (io : FsCalls) (g : RebootGuard) : list Z :=
  match fs_read d io (guard_path g) with
  | Err _ => []
  | Ok json => default [] (history_of_json json)
  end.

(** The file is written in place. *)
Definition save_history (d : Disk) (io : FsCalls) (g : RebootGuard) (h : list Z) : Disk * Result unit ErrorKind :=
  if negb (parent_made io (guard_path g)) then (d, Err OtherKind)
  else match history_to_json h with
       | None => (d, Err InvalidData)
       | Some json =>
           match write_tmp io with
           | WriteOk => (fs_write d io (guard_path g) json, Ok tt)
           | WriteFailed left_behind =>
               (match left_behind with Some b => fs_write d io (guard_path g) b | None => d end, Err OtherKind)
           end
       end.

(** [u64::saturating_sub] *)
Definition cutoff (now : Z) : Z := Z.max 0 (now - WINDOW_SECS).
Definition retain_recent (now : Z) (h : list Z) : list Z := filter (fun t => cutoff now <= t) h.

Definition try_reboot (d : Disk) (io : FsCalls) (g : RebootGuard) (now : Z) : Disk * bool :=
  let h := retain_recent now (load_history d io g) in
  if (MAX_PER_WINDOW <=? length h)%nat then (fst (save_history d io g h), false)
  else (fst (save_history d io g (h ++ [now])), true).

(** [restart_joiner] and [reboot_host] of the sink; the reset of a handshake is not
    its business. *)
Definition perform (s : HostCommandSink) (d : Disk) (io : FsCalls) (now : Z) (e : Effect) : Disk * list HostCommand :=
  match e with
  | restart_joiner => (d, [systemctl_restart (unit_name s)])
  | reboot_host =>
      let '(d, allowed) := try_reboot d io (reboot_guard s) now in
      (d, if allowed then [systemctl_reboot] else [])
  | rehandshake_all => (d, [])
  end.
End Guard.

(** ** The configured key *)

Section Key.
Context `{Signatures}.

Definition parse_super_admin_pubkey (hex_opt : option string) : option (list Z) :=
  hex ← hex_opt;
  let trimmed := trim hex in
  if bool_decide (trimmed = EmptyString) then None
  else raw ← hex_decode trimmed; if (length raw =? 32)%nat then Some raw else None.

Definition build_sink (pubkey : string) (data_dir : Path) : option HostCommandSink :=
  _ ← parse_super_admin_pubkey (Some pubkey); Some (sink_new data_dir SUPERVISOR_UNIT).

Lemma parsed_key_length hex_opt raw : parse_super_admin_pubkey hex_opt = Some raw -> length raw = 32%nat.
Proof.
  unfold parse_super_admin_pubkey. destruct hex_opt as [hex|]; simpl; [|done]. case_bool_decide; [done|].
  destruct (hex_decode (trim hex)) as [r|]; simpl; [|done]. destruct (length r =? 32)%nat eqn:E; [|done].
  intros [= <-]. by apply Nat.eqb_eq.
Qed.
End Key.

(** ** The guard against its specification

    The specification keeps every reboot it ever granted and counts those of the
    last hour. *)

Definition recent (now : Z) (granted : list Z) : nat := length (filter (fun t => now - WINDOW_SECS <= t) granted).
Definition grant (granted : list Z) (now : Z) : bool := (recent now granted <? MAX_PER_WINDOW)%nat.
Fixpoint granted_after (granted : list Z) (requests : list Z) : list Z :=
  match requests with
  | [] => granted
  | now :: requests => granted_after (if grant granted now then granted ++ [now] else granted) requests
  end.

(** The reboots of a span of one hour, both ends included. *)
Definition in_hour_from (start : Z) (l : list Z) : nat := length (filter (fun t => start <= t <= start + WINDOW_SECS) l).

Lemma filter_length_mono {A} (P Q : A -> Prop) `{!forall x, Decision (P x), !forall x, Decision (Q x)} l :
  (forall x, P x -> Q x) -> (length (filter P l) <= length (filter Q l))%nat.
Proof.
  intros HPQ. induction l as [|x l IH]; [done|]. rewrite !filter_cons.
  destruct (decide (P x)) as [HP|], (decide (Q x)) as [HQ|HQ]; simpl; try lia. by destruct (HQ (HPQ x HP)).
Qed.

(** However the clock moves, no hour has more than three granted reboots. *)
Lemma reboots_spaced granted requests :
  (forall start, (in_hour_from start granted <= MAX_PER_WINDOW)%nat) ->
  forall start, (in_hour_from start (granted_after granted requests) <= MAX_PER_WINDOW)%nat.
Proof.
  revert granted. induction requests as [|now requests IH]; intros granted Hg; cbn [granted_after]; [done|].
  apply IH. destruct (grant granted now) eqn:Hn; [|done]. intros start. apply Nat.ltb_lt in Hn.
  unfold in_hour_from. rewrite filter_app, length_app. specialize (Hg start). unfold in_hour_from, recent in *.
  rewrite filter_cons, filter_nil. case_decide as Hd; simpl; [|lia].
  pose proof (filter_length_mono (fun t => start <= t <= start + WINDOW_SECS) (fun t => now - WINDOW_SECS <= t) granted) as Hm.
  specialize (Hm ltac:(intros ? Hx; cbn beta in *; lia)). lia.
Qed.

Section Bounded.
Context `{HistoryJsonLaws}.

(** The guard's answers to requests at these times, with the file system's. *)
Fixpoint run_guard (d : Disk) (g : RebootGuard) (requests : list (FsCalls * Z)) : Disk * list Z :=
  match requests with
  | [] => (d, [])
  | (io, now) :: requests =>
      let '(d, allowed) := try_reboot d io g now in
      let '(d, granted) := run_guard d g requests in
      (d, if allowed then now :: granted else granted)
  end.

(** A call in which the file can be read and written. *)
Definition io_works (io : FsCalls) : Prop := read_ok io = true /\ dirs_ok io = true /\ write_tmp io = WriteOk.

Lemma history_save_load d io g h :
  io_works io -> Forall is_u64 h ->
  forall io', read_ok io' = true -> load_history (fst (save_history d io g h)) io' g = h.
Proof.
  intros (_ & Hd & Hw) Hh io' Hr. unfold save_history, parent_made. rewrite Hd, Hw.
  assert (match path_parent (guard_path g) with Some parent => path_is_empty parent || true | None => true end = true) as ->
    by (destruct (path_parent _); rewrite ?orb_true_r; done).
  cbn [negb]. destruct (history_writes h) as [json Hj]. rewrite Hj. cbn [fst].
  unfold load_history, fs_read, fs_write. rewrite lookup_insert_eq, Hr. cbn [content].
  by rewrite (history_reads h json).
Qed.

(** The history as the guard sees it at [now] or later is that of the granted ones. *)
Definition agrees (now : Z) (h granted : list Z) : Prop :=
  Forall is_u64 h
  /\ forall later, now <= later -> filter (fun t => cutoff later <= t) h = filter (fun t => later - WINDOW_SECS <= t) granted.

Lemma retain_idem now later h :
  now <= later -> filter (fun t => cutoff later <= t) (retain_recent now h) = filter (fun t => cutoff later <= t) h.
Proof.
  intros Hl. unfold retain_recent. rewrite list_filter_filter_l; [done|]. unfold cutoff. lia.
Qed.

Lemma try_reboot_agrees d io g now granted :
  io_works io -> is_u64 now -> agrees now (load_history d io g) granted ->
  let '(d', allowed) := try_reboot d io g now in
  allowed = grant granted now
  /\ forall io', read_ok io' = true -> agrees now (load_history d' io' g) (if allowed then granted ++ [now] else granted).
Proof.
  intros Hio Hnow [Hu Ha]. unfold try_reboot, grant, recent. pose proof (Ha now ltac:(lia)) as Hn.
  unfold retain_recent at 1. rewrite Hn.
  assert (Forall is_u64 (retain_recent now (load_history d io g))) as Hru.
  { apply Forall_forall. intros t [_ Ht]%list_elem_of_filter. by apply (proj1 (Forall_forall _ _) Hu). }
  destruct (MAX_PER_WINDOW <=? length _)%nat eqn:Hm; simpl.
  - apply Nat.leb_le in Hm. split; [symmetry; apply Nat.ltb_ge; lia|]. intros io' Hr.
    rewrite history_save_load by done. split; [done|]. intros later Hl. by rewrite retain_idem, Ha.
  - apply Nat.leb_gt in Hm. split; [symmetry; apply Nat.ltb_lt; lia|]. intros io' Hr.
    rewrite history_save_load; [|done| |done]; [|apply Forall_app; split; [done|by repeat constructor; apply Hnow]].
    split; [apply Forall_app; split; [done|by repeat constructor; apply Hnow]|]. intros later Hl.
    rewrite !filter_app, retain_idem, Ha by done. f_equal. rewrite !filter_cons.
    assert (cutoff later <= now <-> later - WINDOW_SECS <= now) as He by (unfold cutoff, is_u64 in *; lia).
    by destruct (decide (cutoff later <= now)), (decide (later - WINDOW_SECS <= now)); tauto.
Qed.

Lemma agrees_later now later h granted : now <= later -> agrees now h granted -> agrees later h granted.
Proof. intros Hl [Hu Ha]. split; [done|]. intros x Hx. apply Ha. lia. Qed.

Lemma run_guard_spec d g requests granted now :
  Forall (fun r => io_works (fst r) /\ is_u64 (snd r)) requests ->
  Sorted Z.le (now :: (snd <$> requests)) ->
  (forall io, read_ok io = true -> agrees now (load_history d io g) granted) ->
  granted ++ snd (run_guard d g requests) = granted_after granted (snd <$> requests).
Proof.
  revert d granted now. induction requests as [|[io t] requests IH]; intros d granted now Hr Hs Ha; cbn [run_guard granted_after fmap list_fmap].
  { by rewrite app_nil_r. }
  inversion Hr as [|? ? [Hio Ht] Hr']; subst. apply Sorted_inv in Hs as [Hs Hhd]. inversion Hhd as [|? ? Hle]; subst.
  cbn [fst snd] in *. pose proof (try_reboot_agrees d io g t granted Hio Ht) as Hg.
  specialize (Hg (agrees_later _ _ _ _ Hle (Ha io (proj1 Hio)))).
  destruct (try_reboot d io g t) as [d' allowed]. destruct Hg as [-> Hg'].
  pose proof (IH d' _ t Hr' Hs Hg') as He. destruct (run_guard d' g requests) as [d'' granted']. cbn [snd] in *.
  rewrite <- He. destruct (grant granted t); [|done]. by rewrite <- app_assoc.
Qed.

Lemma agrees_self h : Forall is_u64 h -> agrees 0 h h.
Proof.
  intros Hu. split; [done|]. intros later Hl. induction Hu as [|t h Ht _ IH]; [done|]. rewrite !filter_cons, IH.
  assert (cutoff later <= t <-> later - WINDOW_SECS <= t) as He by (unfold cutoff, is_u64 in *; lia).
  by destruct (decide (cutoff later <= t)), (decide (later - WINDOW_SECS <= t)); tauto.
Qed.

(** The guard, its history pruned on every call and kept in a file that every process
    reads anew, grants exactly what a guard would that remembered every reboot: a
    request is refused when three have been granted in the hour before it. So no
    hour has more than three reboots. The file works and the clock does not go
    back. *)
Theorem guard_is_sliding_window d g requests :
  d !! guard_path g = None ->
  Forall (fun r => io_works (fst r) /\ is_u64 (snd r)) requests -> Sorted Z.le (snd <$> requests) ->
  let granted := snd (run_guard d g requests) in
  granted = granted_after [] (snd <$> requests)
  /\ forall start, (in_hour_from start granted <= MAX_PER_WINDOW)%nat.
Proof.
  intros Hn Hr Hs. cbn zeta.
  assert (snd (run_guard d g requests) = granted_after [] (snd <$> requests)) as ->.
  { apply (run_guard_spec d g requests [] 0); [done| |].
    - constructor; [done|]. destruct Hr as [|r requests [_ Hu]]; constructor. apply Hu.
    - intros io _. unfold load_history, fs_read. rewrite Hn. by apply agrees_self. }
  split; [done|]. apply reboots_spaced. intros start. unfold in_hour_from, MAX_PER_WINDOW. simpl. lia.
Qed.

(** A history that cannot be written holds nothing back: with such a disk every
    request is granted, however many there are. *)
Lemma unwritable_history_grants_all d g requests :
  d !! guard_path g = None ->
  Forall (fun r => write_tmp (fst r) = WriteFailed None) requests ->
  run_guard d g requests = (d, snd <$> requests).
Proof.
  intros Hn. induction 1 as [|[io now] requests Hw _ IH]; [done|]. cbn [run_guard fmap list_fmap].
  assert (forall h, fst (save_history d io g h) = d) as Hsave.
  { intros h. unfold save_history. destruct (parent_made _ _); [|done]. cbn [negb].
    destruct (history_to_json h); [|done]. cbn [fst] in Hw. by rewrite Hw. }
  assert (try_reboot d io g now = (d, true)) as ->; [|by rewrite IH].
  unfold try_reboot, load_history, fs_read. rewrite Hn. cbn. by rewrite Hsave.
Qed.
End Bounded.

(** ** From the signed command to the host *)

Section Lifeline.
Context `{HistoryJsonLaws} `{SignatureLaws}.

(** What the gate lets through, with the batch it came in. *)
Fixpoint timed_effects (g : CommandGate) (l : list Batch) : list (Batch * Effect) :=
  match l with
  | [] => []
  | b :: l =>
      let '(g, effects, _) := process_commands (commands b) (before_batch b g) (processed_at b) (writes b) in
      ((b,.) <$> effects) ++ timed_effects g l
  end.

Context (clock : Batch -> Z) (fs : Batch -> FsCalls).

(** The commands the host gets, with the second at which it gets them. *)
Fixpoint run_sink (s : HostCommandSink) (d : Disk) (effects : list (Batch * Effect)) : list (Z * HostCommand) :=
  match effects with
  | [] => []
  | (b, e) :: effects =>
      let '(d, cmds) := perform s d (fs b) (clock b) e in
      ((clock b,.) <$> cmds) ++ run_sink s d effects
  end.

Definition lifeline (s : HostCommandSink) (d : Disk) (g : CommandGate) (l : list Batch) : list (Z * HostCommand) :=
  run_sink s d (timed_effects g l).

Definition asks (s : HostCommandSink) (v : CommandVerb) : option HostCommand :=
  match v with
  | RestartJoiner => Some (systemctl_restart (unit_name s))
  | RebootHost => Some systemctl_reboot
  | ResetWg => None
  end.
Definition reboot_times (cmds : list (Z * HostCommand)) : list Z :=
  omap (fun '(t, c) => match c with systemctl_reboot => Some t | _ => None end) cmds.

Lemma timed_effects_run g l : snd <$> timed_effects g l = run_batches g l.
Proof.
  revert g. induction l as [|b l IH]; intros g; cbn [timed_effects run_batches]; [done|].
  destruct (process_commands _ _ _ _) as [[g' effects] acks]. rewrite fmap_app, IH. f_equal.
  rewrite <- list_fmap_compose. apply list_fmap_id.
Qed.

Lemma timed_effects_clock g l b e : (b, e) ∈ timed_effects g l -> b ∈ l.
Proof.
  revert g. induction l as [|b' l IH]; intros g; cbn [timed_effects]; [set_solver|].
  destruct (process_commands _ _ _ _) as [[g' effects] acks]. intros [Hin|Hin]%elem_of_app.
  - apply list_elem_of_fmap in Hin as (? & [= -> _] & _). by left.
  - right. by eapply IH.
Qed.

Lemma timed_effects_sorted g l :
  StronglySorted Z.le (clock <$> l) -> StronglySorted Z.le ((clock ∘ fst) <$> timed_effects g l).
Proof.
  revert g. induction l as [|b l IH]; intros g Hs; cbn [timed_effects]; [constructor|].
  cbn [fmap list_fmap] in Hs. apply StronglySorted_inv in Hs as [Hs Hb].
  destruct (process_commands _ _ _ _) as [[g' effects] acks]. specialize (IH g' Hs).
  rewrite fmap_app, <- list_fmap_compose. induction effects as [|e effects IHe]; [done|].
  cbn [fmap list_fmap app]. constructor; [done|]. apply Forall_app. split.
  - apply Forall_forall. intros x (? & -> & _)%list_elem_of_fmap. simpl. lia.
  - apply Forall_forall. intros x ([b' e'] & -> & Hin)%list_elem_of_fmap. simpl. apply timed_effects_clock in Hin.
    apply (proj1 (Forall_forall _ _) Hb). by apply list_elem_of_fmap_2.
Qed.

Lemma run_sink_performed s d effects ran :
  snd <$> effects = (effect_of ∘ verb) <$> ran ->
  exists performed, performed `sublist_of` ran /\ Some <$> (snd <$> run_sink s d effects) = (asks s ∘ verb) <$> performed.
Proof.
  revert d ran. induction effects as [|[b e] effects IH]; intros d ran He; destruct ran as [|c ran]; try done.
  { by exists []. }
  cbn [fmap list_fmap snd compose] in He. injection He as -> He. cbn [run_sink].
  assert (forall d', exists performed, performed `sublist_of` c :: ran
    /\ Some <$> (snd <$> run_sink s d' effects) = (asks s ∘ verb) <$> performed) as Hskip.
  { intros d'. destruct (IH d' ran He) as (p & Hp & Hq). exists p. split; [by constructor|done]. }
  assert (forall d' k, asks s (verb c) = Some k -> exists performed, performed `sublist_of` c :: ran
    /\ Some <$> (snd <$> (clock b, k) :: run_sink s d' effects) = (asks s ∘ verb) <$> performed) as Htake.
  { intros d' k Hk. destruct (IH d' ran He) as (p & Hp & Hq). exists (c :: p). split; [by constructor|].
    cbn [fmap list_fmap compose]. by rewrite Hk, <- Hq. }
  destruct (verb c); cbn [effect_of perform].
  - by apply Htake.
  - apply Hskip.
  - destruct (try_reboot _ _ _ _) as [d' []]; [by apply Htake|apply Hskip].
Qed.

Definition reboot_requests (effects : list (Batch * Effect)) : list (FsCalls * Z) :=
  omap (fun '(b, e) => match e with reboot_host => Some (fs b, clock b) | _ => None end) effects.

Lemma run_sink_reboots s d effects :
  reboot_times (run_sink s d effects) = snd (run_guard d (reboot_guard s) (reboot_requests effects)).
Proof.
  revert d. induction effects as [|[b e] effects IH]; intros d; [done|]. destruct e; cbn [run_sink perform].
  - apply IH.
  - unfold reboot_requests. cbn [omap list_omap]. fold (reboot_requests effects). cbn [run_guard].
    destruct (try_reboot _ _ _ _) as [d' []]; specialize (IH d'); destruct (run_guard d' _ _) as [d'' granted]; cbn [snd] in *.
    + unfold reboot_times in *. cbn [fmap list_fmap app omap list_omap]. by rewrite IH.
    + done.
  - apply IH.
Qed.

Lemma reboot_requests_clock effects :
  StronglySorted Z.le ((clock ∘ fst) <$> effects) -> StronglySorted Z.le (snd <$> reboot_requests effects).
Proof.
  induction effects as [|[b e] effects IH]; intros Hs; [constructor|]. cbn [fmap list_fmap] in Hs.
  apply StronglySorted_inv in Hs as [Hs Hb]. specialize (IH Hs).
  destruct e; [done| |done]. unfold reboot_requests. cbn [omap list_omap fmap list_fmap]. fold (reboot_requests effects).
  constructor; [done|]. apply Forall_forall. intros x ([io t] & -> & Hin)%list_elem_of_fmap.
  apply list_elem_of_omap in Hin as ([b' e'] & Hin & He). destruct e'; try done. injection He as <- <-.
  apply (proj1 (Forall_forall _ _) Hb). apply list_elem_of_fmap. by exists (b', reboot_host).
Qed.

(** C26: What a lifeline does to its host, over its whole life, restarts of the joiner and
    of the host included: every call of [systemctl] carries out a command of its own
    that was delivered, signed with the configured key, unexpired, with a nonce no
    other executed command has; the reboots are exactly those that a guard with a
    perfect memory would grant, so no hour has more than three, whatever is signed;
    and without a key nothing is run. (Both files work and the clock does not go
    back.) *)
Theorem host_obeys_the_key s d g l :
  synced g -> Forall reliable l -> d !! guard_path (reboot_guard s) = None ->
  Forall (fun b => io_works (fs b) /\ is_u64 (clock b)) l -> Sorted Z.le (clock <$> l) ->
  let cmds := lifeline s d g l in
  (exists performed,
     Some <$> (snd <$> cmds) = (asks s ∘ verb) <$> performed
     /\ NoDup (nonce <$> performed)
     /\ forall c, c ∈ performed -> (nonce c ∉ nonces (nonce_store g)) /\
          exists b pk, b ∈ l /\ c ∈ commands b /\ super_admin_pubkey g = Some pk /\ authentic pk (processed_at b) c)
  /\ reboot_times cmds = granted_after [] (snd <$> reboot_requests (timed_effects g l))
  /\ (forall start, (in_hour_from start (reboot_times cmds) <= MAX_PER_WINDOW)%nat)
  /\ (super_admin_pubkey g = None -> cmds = []).
Proof.
  intros Hg Hl Hd Hio Hs. cbn zeta. unfold lifeline. destruct (run_batches_ran g l Hg Hl) as (ran & Hran & Hnd & Hin & _).
  rewrite <- timed_effects_run in Hran. destruct (run_sink_performed s d _ ran Hran) as (performed & Hsub & Hp).
  assert (reboot_times (run_sink s d (timed_effects g l)) = granted_after [] (snd <$> reboot_requests (timed_effects g l))) as Hr.
  { rewrite run_sink_reboots. apply (run_guard_spec d _ (reboot_requests (timed_effects g l)) [] 0).
    - apply Forall_forall. intros [io t] ([b e] & Hb & He)%list_elem_of_omap. destruct e; try done. injection He as <- <-.
      apply timed_effects_clock in Hb. by apply (proj1 (Forall_forall _ _) Hio) in Hb.
    - apply Sorted_StronglySorted in Hs; [|intros ?; lia]. apply StronglySorted_Sorted. constructor.
      + by apply reboot_requests_clock, timed_effects_sorted.
      + apply Forall_forall. intros x ([io t] & -> & Hx)%list_elem_of_fmap.
        apply list_elem_of_omap in Hx as ([b e] & Hb & He). destruct e; try done. injection He as <- <-.
        apply timed_effects_clock in Hb. by apply (proj1 (Forall_forall _ _) Hio) in Hb as [_ [Hb _]].
    - intros io _. unfold load_history, fs_read. rewrite Hd. apply agrees_self. constructor. }
  split; [exists performed|split; [done|split]].
  - split; [done|]. split; [|intros c Hc; apply Hin; by eapply sublist_in].
    eapply sublist_NoDup; [exact Hnd|]. by apply fmap_sublist.
  - rewrite Hr. apply reboots_spaced. intros start. unfold in_hour_from, MAX_PER_WINDOW. simpl. lia.
  - intros Hk. destruct performed as [|c performed].
    + by destruct (run_sink s d (timed_effects g l)).
    + exfalso. destruct (Hin c) as (_ & b & pk & _ & _ & Hpk & _); [by eapply sublist_in; [exact Hsub|left]|]. congruence.
Qed.
End Lifeline.

(** ** A lifeline that is asked to reboot too often *)

Module Sink.
Import Toy.
#[export] Instance plain_json : HistoryJson := {| history_of_json := Some; history_to_json := Some |}.
#[export] Instance plain_json_laws : HistoryJsonLaws.
Proof. split; [by eexists|]. intros h json _. simpl. congruence. Qed.

Definition the_sink : HostCommandSink := sink_new (mkPath true ["var"]) SUPERVISOR_UNIT.
Definition seconds (b : Batch) : Z := processed_at b.
Definition works (b : Batch) : FsCalls := fs_ok.
Definition order (v : CommandVerb) (n : string) : NodeCommand := mkNodeCommand 1%N v "node-a" n 100 100000 "xx".
Definition no_failure (n : string) : option (option string) := None.
(** Five reboots within the hour, the joiner restarting in between, one of them
    delivered twice; and another one after the hour. *)
Definition orders : list Batch :=
  [mkBatch false [order RebootHost "n1"; order RestartJoiner "n2"] 500 no_failure;
   mkBatch true [order RebootHost "n1"; order RebootHost "n3"] 600 no_failure;
   mkBatch true [order RebootHost "n4"; order RebootHost "n5"] 700 no_failure;
   mkBatch true [order ResetWg "n6"; order RebootHost "n7"] 4101 no_failure].

Definition expected : list (Z * HostCommand) :=
  [(500, systemctl_reboot); (500, systemctl_restart SUPERVISOR_UNIT); (600, systemctl_reboot); (700, systemctl_reboot);
   (4101, systemctl_reboot)].

Lemma host_obeys_the_key_witness :
  lifeline seconds works the_sink ∅ gate0 orders = expected
  /\ (exists performed,
       Some <$> (snd <$> lifeline seconds works the_sink ∅ gate0 orders) = (asks the_sink ∘ verb) <$> performed
       /\ NoDup (nonce <$> performed))
  /\ forall start, (in_hour_from start (reboot_times (lifeline seconds works the_sink ∅ gate0 orders)) <= 3)%nat.
Proof.
  split; [by vm_compute|].
  destruct (host_obeys_the_key seconds works the_sink ∅ gate0 orders) as ((performed & Hp & Hnd & _) & _ & Hr & _).
  - apply mark_synced.
  - by repeat constructor.
  - done.
  - repeat constructor; unfold is_u64, u64_max, seconds; simpl; lia.
  - unfold orders, seconds. simpl. repeat constructor; lia.
  - split; [by exists performed|exact Hr].
Defined.

Definition hour : list (FsCalls * Z) := [(fs_ok, 10); (fs_ok, 10); (fs_ok, 20); (fs_ok, 3610); (fs_ok, 3611)].
Lemma guard_is_sliding_window_witness :
  snd (run_guard ∅ (reboot_guard the_sink) hour) = [10; 10; 20; 3611]
  /\ forall start, (in_hour_from start (snd (run_guard ∅ (reboot_guard the_sink) hour)) <= 3)%nat.
Proof.
  split; [by vm_compute|]. apply guard_is_sliding_window.
  - done.
  - repeat constructor; unfold is_u64, u64_max; simpl; lia.
  - simpl. repeat constructor; lia.
Defined.
End Sink.
