(* ===== verification/Cli.v ===== *)
(** * The command-line tool ([tools/tabbify-mesh]): its arguments, files and reports

    What [join] makes of its arguments, the status files, and the commands [leave],
    [status] and [peers]. The life of a [join] daemon is in [CliRun.v]. *)

From S2P Require Import Prelude NetAddr AddrText Text Types Auth PeerSession SessionTable CommandGate.
From S2P Require Import Client RelayClient RosterStore Identity Platform Routes Startup HostSink.

Open Scope Z_scope.

(** ** Arguments ([cli.rs]) *)

Definition DEFAULT_COORDINATOR_URL : string := "http://3.124.69.92:8888".

Inductive UlaError := InvalidIpv6 | NotAUla.
Definition cli_parse_ula (value : string) : Result Ipv6Addr UlaError :=
  match parse_ipv6 value with
  | None => Err InvalidIpv6
  | Some address => if negb (Z.land (seg0 address) 0xfe00 =? 0xfc00) then Err NotAUla else Ok address
  end.

Record JoinArgs := mkJoinArgs {
  ja_coordinator : string;
  ja_name : string;
  ja_tags : list string;
  ja_join_token : option string;
  ja_listen_port : option Z;
  ja_tun_name : option string;
  ja_identity_path : option Path;
  ja_requested_ula : option Ipv6Addr;
  ja_super_admin_pubkey : option string;
  ja_heartbeat_interval : Z;
  ja_advertise_endpoint : option string;
  ja_tls_cert : option Path;
  ja_tls_key : option Path;
  ja_tls_ca : option Path;
  ja_insecure_no_mtls : bool;
  ja_no_relay : bool;
  ja_relay_url : list string;
  ja_relay_only : bool;
  ja_source_scoped_routes : bool;
  ja_manage_firewall : bool;
  ja_route_metric : Z;
  ja_mesh_stun_server : option SocketAddr;
  ja_status_file : option Path;
}.
Record PeersArgs := mkPeersArgs { pa_coordinator : string; admin_token : option string }.
Record LeaveArgs := mkLeaveArgs { la_peer_id : option Uuid; la_coordinator : option string }.

(** [chars().filter(|c| !c.is_whitespace())] on UTF-8 bytes. *)
Fixpoint drop_ws (l : list Z) : list Z :=
  match l with
  | [] => []
  | b :: r =>
      if ws1 b then drop_ws r
      else match r with
           | c :: r' =>
               if ws2 b c then drop_ws r'
               else match r' with
                    | d :: r'' => if ws3 b c d then drop_ws r'' else b :: drop_ws r
                    | [] => b :: drop_ws r
                    end
           | [] => b :: drop_ws r
           end
  end.
Definition sanitize_join_token (token : string) : string := string_of_bytes (drop_ws (bytes_of_string token)).

Definition build_join_config (args : JoinArgs) : JoinConfig :=
  let d := join_config_default in {|
  jc_coordinator_url := ja_coordinator args;
  jc_display_name := ja_name args;
  jc_tags := ja_tags args;
  jc_join_token := sanitize_join_token <$> ja_join_token args;
  jc_listen_port := ja_listen_port args;
  jc_tun_name := ja_tun_name args;
  jc_heartbeat_interval_secs := ja_heartbeat_interval args;
  jc_advertise_endpoint := ja_advertise_endpoint args;
  jc_keypair_path := None;
  jc_tls_cert := ja_tls_cert args;
  jc_tls_key := ja_tls_key args;
  jc_tls_ca := ja_tls_ca args;
  jc_insecure_no_mtls := ja_insecure_no_mtls args;
  jc_requested_ula := fmt_ipv6 <$> ja_requested_ula args;
  jc_kind := jc_kind d;
  jc_parent := jc_parent d;
  jc_app_uuid := jc_app_uuid d;
  jc_identity_path := ja_identity_path args;
  jc_software_version := jc_software_version d;
  jc_relay_enabled := negb (ja_no_relay args);
  jc_relay_url := None;
  jc_relay_urls := ja_relay_url args;
  jc_relay_only := ja_relay_only args;
  jc_source_scoped_routes := ja_source_scoped_routes args;
  jc_manage_firewall := ja_manage_firewall args;
  jc_stun_server := ja_mesh_stun_server args;
  jc_route_metric := ja_route_metric args;
|}.

(** ** Files ([status_file.rs], and the lifeline's record of [join.rs]) *)

Inductive CliError :=
| HomeNotSet | HomeEmpty
| CreateDir | Serialize | WriteTmp | RenameFile
| FileNotFound | ReadFile | ParseFile | RemoveFile
| InvalidPubkey | JoinFailed (e : JoinFailure) | LifelineStatusFailed (e : CliError)
| NoPeerId | PostFailed | GetFailed | HttpError (status : Z) | NotAuthorised | DecodePeers.

(** An instant is its nanoseconds since the epoch. *)
Abbreviation DateTime := Z.

Record StatusSnapshot := mkStatusSnapshot {
  ss_peer_id : Uuid;
  ss_ula : Ipv6Addr;
  ss_coordinator_url : string;
  ss_display_name : string;
  ss_tags : list string;
  peer_count : nat;
  last_heartbeat_at : DateTime;
  pid : Z;
}.
Record LifelineStatus := mkLifelineStatus { ls_peer_id : Uuid; ls_ula : Ipv6Addr; ls_name : string }.

(** [serde_json] on the two records. *)
Class StatusJson := {
  snapshot_to_json : StatusSnapshot -> option (list Z);
  snapshot_of_json : list Z -> option StatusSnapshot;
  lifeline_to_json : LifelineStatus -> option (list Z);
  lifeline_of_json : list Z -> option LifelineStatus;
}.
Class StatusJsonLaws `{StatusJson} := {
  snapshot_writes : forall s, is_Some (snapshot_to_json s);
  snapshot_reads : forall s json, snapshot_to_json s = Some json -> snapshot_of_json json = Some s;
  lifeline_writes : forall s, is_Some (lifeline_to_json s);
  lifeline_reads : forall s json, lifeline_to_json s = Some json -> lifeline_of_json json = Some s;
}.

(** [env::var("HOME")] as a path; an empty variable is the empty path. *)
Definition status_dir (home : option Path) : Result Path CliError :=
  match home with
  | None => Err HomeNotSet
  | Some h => if path_is_empty h then Err HomeEmpty else Ok (path_join h ".tabbify-mesh")
  end.
Definition status_path (home : option Path) : Result Path CliError :=
  let? dir := status_dir home in Ok (path_join dir "status.json").

(** A text to a temporary file beside [p], and that renamed over [p]. *)
Definition write_beside (d : Disk) (io : FsCalls) (p : Path) (json : option (list Z)) : Disk * Result unit CliError :=
  if negb (parent_made io p) then (d, Err CreateDir)
  else match json with
       | None => (d, Err Serialize)
       | Some json =>
           let tmp := with_extension p "json.tmp" in
           match write_tmp io with
           | WriteFailed left_behind =>
               (match left_behind with Some b => fs_write d io tmp b | None => d end, Err WriteTmp)
           | WriteOk =>
               let d := fs_write d io tmp json in
               if negb (rename_done io) then (d, Err RenameFile) else (fs_rename d tmp p, Ok tt)
           end
       end.

Section Files.
Context `{StatusJson}.

Definition write_to (d : Disk) (io : FsCalls) (p : Path) (s : StatusSnapshot) : Disk * Result unit CliError :=
  write_beside d io p (snapshot_to_json s).
Definition status_write (d : Disk) (io : FsCalls) (home : option Path) (s : StatusSnapshot) : Disk * Result unit CliError :=
  match status_path home with Err e => (d, Err e) | Ok p => write_to d io p s end.
Definition write_lifeline_status (d : Disk) (io : FsCalls) (p : Path) (s : LifelineStatus) : Disk * Result unit CliError :=
  write_beside d io p (lifeline_to_json s).

Definition read_from (d : Disk) (io : FsCalls) (p : Path) : Result StatusSnapshot CliError :=
  match d !! p with
  | None => Err FileNotFound
  | Some f =>
      if negb (read_ok io) then Err ReadFile
      else match snapshot_of_json (content f) with Some s => Ok s | None => Err ParseFile end
  end.
Definition status_read (d : Disk) (io : FsCalls) (home : option Path) : Result StatusSnapshot CliError :=
  let? p := status_path home in read_from d io p.

(** [unlink_ok] is whether a file that is there can be removed. *)
Definition status_remove (d : Disk) (unlink_ok : bool) (home : option Path) : Disk * Result unit CliError :=
  match status_path home with
  | Err e => (d, Err e)
  | Ok p =>
      match d !! p with
      | None => (d, Ok tt)
      | Some _ => if unlink_ok then (delete p d, Ok tt) else (d, Err RemoveFile)
      end
  end.
End Files.

(** ** [leave] *)

(** The request that [leave] posts: the URL and the peer id of its body. *)
Definition LEAVE_ENDPOINT : string := "/v1/mesh/deregister".
Record DeregisterPost := mkDeregisterPost { post_url : string; post_peer_id : Uuid }.

Section Leave.
Context `{StatusJson}.

(** What [leave] is about to do, from its flags and the status file. *)
Definition leave_request (args : LeaveArgs) (snapshot : option StatusSnapshot) : Result DeregisterPost CliError :=
  match (match la_peer_id args with Some id => Some id | None => ss_peer_id <$> snapshot end) with
  | None => Err NoPeerId
  | Some id =>
      let coordinator := match la_coordinator args with
                         | Some c => c
                         | None => default DEFAULT_COORDINATOR_URL (ss_coordinator_url <$> snapshot)
                         end in
      Ok (mkDeregisterPost (trim_end_slashes coordinator +:+ LEAVE_ENDPOINT) id)
  end.

(** [leave]'s [run]: [post] is the status the coordinator answers with, [None] when
    there is no answer. *)
Definition leave_run (args : LeaveArgs) (home : option Path) (d : Disk) (io : FsCalls) (unlink_ok : bool)
    (post : DeregisterPost -> option Z) : Disk * Result unit CliError :=
  match leave_request args (ok (status_read d io home)) with
  | Err e => (d, Err e)
  | Ok req =>
      match post req with
      | None => (d, Err PostFailed)
      | Some status =>
          if negb (is_success status) then (d, Err (HttpError status))
          else (fst (status_remove d unlink_ok home), Ok tt)
      end
  end.
End Leave.

(** ** Relative times ([time_format.rs]) *)

(** [TimeDelta::num_seconds] of a difference of instants truncates. *)
Definition relative (then_ now : DateTime) : string :=
  let secs := (now - then_) `quot` 1000000000 in
  if secs <=? 0 then "just now"
  else if secs <? 60 then fmt_u secs +:+ "s ago"
  else
    let mins := secs / 60 in
    if mins <? 60 then fmt_u mins +:+ "m ago"
    else
      let hours := mins / 60 in
      if hours <? 24 then fmt_u hours +:+ "h ago"
      else fmt_u (hours / 24) +:+ "d ago".

(** ** [status] *)

Definition format_tags (tags : list string) : string :=
  match tags with [] => "-" | _ => string_join "," tags end.

(** The lines printed for a snapshot; [rfc3339] is [to_rfc3339]. *)
Definition status_report (rfc3339 : DateTime -> string) (display : Path -> string) `{Externals}
    (snap : StatusSnapshot) (p : Path) (now : DateTime) : list string :=
  ["status:           running";
   "pid:              " +:+ fmt_u (pid snap);
   "peer_id:          " +:+ uuid_to_string (ss_peer_id snap);
   "ula:              " +:+ fmt_ipv6 (ss_ula snap);
   "display_name:     " +:+ ss_display_name snap;
   "tags:             " +:+ format_tags (ss_tags snap);
   "coordinator:      " +:+ ss_coordinator_url snap;
   "peer_count:       " +:+ fmt_u (Z.of_nat (peer_count snap));
   "last_heartbeat:   " +:+ rfc3339 (last_heartbeat_at snap) +:+ " (" +:+ relative (last_heartbeat_at snap) now +:+ ")";
   "status_file:      " +:+ display p].

(** How [status] ends: a report, exit code 1 for a missing file, or an error. *)
Inductive StatusOutcome := Report (lines : list string) | NotRunning | StatusError (e : CliError).
Definition status_run (rfc3339 : DateTime -> string) (display : Path -> string) `{Externals} `{StatusJson}
    (d : Disk) (io : FsCalls) (home : option Path) (now : DateTime) : StatusOutcome :=
  match status_path home with
  | Err e => StatusError e
  | Ok p =>
      match read_from d io p with
      | Ok snap => Report (status_report rfc3339 display snap p now)
      | Err FileNotFound => NotRunning
      | Err e => StatusError e
      end
  end.

(** ** The files are written whole *)

Lemma write_beside_effect d io p json :
  with_extension p "json.tmp" <> p ->
  let '(d', r) := write_beside d io p json in
  (forall q, q <> p -> q <> with_extension p "json.tmp" -> d' !! q = d !! q)
  /\ match r with
     | Ok _ => exists bytes, json = Some bytes /\ content <$> d' !! p = Some bytes
     | Err _ => d' !! p = d !! p
     end.
Proof.
  intros Hne. unfold write_beside. set (tmp := with_extension p "json.tmp") in *.
  destruct (parent_made io p); [cbn [negb]|done]. destruct json as [bytes|]; [|done]. unfold fs_write.
  destruct (write_tmp io) as [|[b|]]; [|by split; [intros q Hq Ht|]; rewrite lookup_insert_ne|done].
  destruct (rename_done io); cbn [negb].
  - unfold fs_rename. rewrite lookup_insert_eq. split.
    + intros q Hq Ht. by rewrite lookup_insert_ne, lookup_delete_ne, lookup_insert_ne.
    + exists bytes. by rewrite lookup_insert_eq.
  - split; [intros q Hq Ht|]; by rewrite lookup_insert_ne.
Qed.

(** The status file lives in the directory [.tabbify-mesh] of the home. *)
Lemma status_path_shape home p : status_path home = Ok p ->
  exists h, home = Some h /\ path_is_empty h = false /\ p = path_join (path_join h ".tabbify-mesh") "status.json".
Proof.
  unfold status_path, status_dir. destruct home as [h|]; simpl; [|done]. destruct (path_is_empty h) eqn:E; [done|].
  simpl. intros [= <-]. by exists h.
Qed.

Lemma status_tmp_ne h : with_extension (path_join h "status.json") "json.tmp" <> path_join h "status.json".
Proof.
  unfold with_extension, map_file_name, path_join. cbn [components absolute]. rewrite rev_app_distr. cbn [rev app].
  intros He. injection He as He. apply app_inj_tail in He as [_ He]. by vm_compute in He.
Qed.

Section FileProperties.
Context `{StatusJsonLaws}.

(** A status that was written is the status that is read; a write that fails, or is cut
    short, leaves the one before it; and only the file and its temporary are touched. *)
Lemma status_write_read d io home s p :
  status_path home = Ok p ->
  let '(d', r) := status_write d io home s in
  (forall q, q <> p -> q <> with_extension p "json.tmp" -> d' !! q = d !! q)
  /\ match r with
     | Ok _ => forall io', read_ok io' = true -> status_read d' io' home = Ok s
     | Err _ => forall io', status_read d' io' home = status_read d io' home
     end.
Proof.
  intros Hp. unfold status_write. rewrite Hp. destruct (status_path_shape _ _ Hp) as (h & -> & _ & ->).
  set (p := path_join (path_join h ".tabbify-mesh") "status.json") in *. unfold write_to.
  pose proof (write_beside_effect d io p (snapshot_to_json s) (status_tmp_ne _)) as He.
  destruct (write_beside d io p (snapshot_to_json s)) as [d' [[]|e]]; destruct He as [Hq Hr]; (split; [exact Hq|]); unfold status_read; rewrite Hp; simpl.
  - intros io' Hio. destruct Hr as (bytes & Hb & Hc). unfold read_from. destruct (d' !! p) as [f|]; [|done].
    cbn [fmap option_fmap option_map] in Hc. injection Hc as Hc. rewrite Hio, Hc. cbn [negb]. by rewrite (snapshot_reads s bytes).
  - intros io'. unfold read_from. by rewrite Hr.
Qed.

Lemma lifeline_write_read d io p s :
  with_extension p "json.tmp" <> p ->
  let '(d', r) := write_lifeline_status d io p s in
  match r with
  | Ok _ => exists f, d' !! p = Some f /\ lifeline_of_json (content f) = Some s
  | Err _ => d' !! p = d !! p
  end.
Proof.
  intros Hne. unfold write_lifeline_status. pose proof (write_beside_effect d io p (lifeline_to_json s) Hne) as He.
  destruct (write_beside _ _ _ _) as [d' [[]|e]]; destruct He as [_ Hr]; [|done]. destruct Hr as (bytes & Hb & Hc).
  destruct (d' !! p) as [f|]; [|done]. cbn [fmap option_fmap option_map] in Hc. injection Hc as Hc.
  exists f. split; [done|]. rewrite Hc. by apply lifeline_reads.
Qed.

Lemma status_remove_gone d unlink_ok home d' p :
  status_path home = Ok p -> status_remove d unlink_ok home = (d', Ok tt) -> d' = delete p d.
Proof.
  intros Hp. unfold status_remove. rewrite Hp. destruct (d !! p) eqn:Hd; [destruct unlink_ok; [|done]|]; intros [= <-]; [done|].
  by rewrite delete_id.
Qed.

(** What [leave] asks of whom: the peer id of the flag or else of the status file, at the
    coordinator of the flag (or its environment variable), of the status file, or the
    default; it posts nothing without a peer id, and removes the status file only
    after the coordinator has agreed. *)
Lemma leave_run_cases args home d io unlink_ok post :
  let snapshot := ok (status_read d io home) in
  let '(d', r) := leave_run args home d io unlink_ok post in
  match r with
  | Ok _ => exists id url status, (la_peer_id args = Some id \/ (la_peer_id args = None /\ ss_peer_id <$> snapshot = Some id))
      /\ post (mkDeregisterPost url id) = Some status /\ is_success status = true
  | Err NoPeerId => la_peer_id args = None /\ snapshot = None /\ d' = d
  | Err _ => d' = d
  end.
Proof.
  cbn zeta. unfold leave_run, leave_request. set (snapshot := ok (status_read d io home)).
  destruct (la_peer_id args) as [id|] eqn:Hid; [|destruct snapshot as [s|] eqn:Hs; simpl; [|done]].
  all: cbn beta iota; destruct (post _) as [status|] eqn:Hp; [|done].
  all: destruct (is_success status) eqn:Hst; cbn [negb]; [|done]; destruct (status_remove d unlink_ok home) as [d' r]; simpl.
  - eexists _, _, status. split; [by left|done].
  - eexists _, _, status. split; [by right|done].
Qed.
End FileProperties.

(** ** The token *)

(** Sanitising a token puts its words together. *)
Lemma drop_ws_words cur l : concat (split_ws cur l) = rev cur ++ drop_ws l.
Proof.
  assert (forall cur words, concat (end_word cur words) = rev cur ++ concat words) as Hend by (by intros [|]).
  assert (forall n l cur, (length l < n)%nat -> concat (split_ws cur l) = rev cur ++ drop_ws l) as H.
  { induction n as [|n IH]; intros l' cur' Hn; [lia|]. destruct l' as [|b r]; cbn [split_ws drop_ws]; [by rewrite Hend|].
    simpl in Hn. destruct (ws1 b); [rewrite Hend, IH by lia; done|].
    assert (concat (split_ws (b :: cur') r) = rev cur' ++ b :: drop_ws r) as Hgo.
    { rewrite IH by lia. simpl. by rewrite <- app_assoc. }
    destruct r as [|c r']; [done|]. simpl in Hn. destruct (ws2 b c); [rewrite Hend, IH by lia; done|].
    destruct r' as [|d r'']; [done|]. simpl in Hn. destruct (ws3 b c d); [rewrite Hend, IH by lia; done|done]. }
  by apply (H (S (length l))); lia.
Qed.
Lemma sanitize_joins_words token :
  sanitize_join_token token = string_of_bytes (concat (split_ws [] (bytes_of_string token))).
Proof. unfold sanitize_join_token. by rewrite drop_ws_words. Qed.

Lemma relative_examples :
  relative 0 (-5) = "just now" /\ relative 0 999999999 = "just now" /\ relative 0 (59 * 1000000000) = "59s ago"
  /\ relative 0 (3600 * 1000000000) = "1h ago" /\ relative 0 (48 * 3600 * 1000000000) = "2d ago".
Proof. by vm_compute. Qed.
