(* ===== verification/PeersReport.v ===== *)
(** * The command [peers] ([commands/peers.rs]) against the coordinator's roster

    The command reads the roster as rows of its own and prints them as a table. What
    the coordinator sends is its record of a member as [serde] renders it; both ends
    are here as values of JSON. *)

From S2P Require Import Prelude NetAddr AddrText Text Json Types Policy RosterStore Stream Api Dto.
From S2P Require Import Auth PeerSession SessionTable CommandGate PeerSync Client Wire RelayClient Identity Startup HostSink Cli.

Open Scope Z_scope.

(** ** What the command reads *)

Record PeerRow := mkPeerRow {
  info : SessionTable.PeerInfo;
  connectivity : option string;
  connectivity_age_ms : option Z;
}.

Section Peers.
Context `{Externals}.

Definition read_ipv6 (j : Json) : option Ipv6Addr := read_string j ≫= parse_ipv6.
Definition read_sock (j : Json) : option SocketAddr := read_string j ≫= parse_sock.

(** [Deserialize] of the joiner's [PeerInfo], and of the row that flattens it; with
    [#[serde(flatten)]] the fields the row does not know are kept for it. *)
Definition read_peer_info (o : list (string * Json)) : option SessionTable.PeerInfo :=
  id ← assoc "peer_id" o ≫= read_uuid;
  key ← assoc "wg_public_key" o ≫= read_bytes32;
  u ← assoc "ula" o ≫= read_ipv6;
  endpoint ← read_option read_sock (assoc "listen_endpoint" o);
  name ← assoc "display_name" o ≫= read_string;
  tags ← assoc "tags" o ≫= read_list read_string;
  hosted ← read_default_list read_ipv6 (assoc "hosted_app_ulas" o);
  software ← read_option read_string (assoc "software_version" o);
  mesh ← read_option read_string (assoc "mesh_version" o);
  joined ← assoc "joined_at_micros" o ≫= read_i64;
  Some (SessionTable.mkPeerInfo id key u endpoint name tags hosted software mesh joined).
Definition row_names : list string :=
  ["connectivity"; "connectivity_age_ms"; "peer_id"; "wg_public_key"; "ula"; "listen_endpoint"; "display_name"; "tags";
   "hosted_app_ulas"; "software_version"; "mesh_version"; "joined_at_micros"].
Definition read_row : Json -> option PeerRow :=
  read_struct row_names (fun o =>
    connectivity ← read_option read_string (assoc "connectivity" o);
    age ← read_option read_u64 (assoc "connectivity_age_ms" o);
    info ← read_peer_info o;
    Some (mkPeerRow info connectivity age)).
(** [PeersResponse] *)
Definition read_roster : Json -> option (list PeerRow) :=
  read_struct ["peers"] (fun o => assoc "peers" o ≫= read_list read_row).

(** ** The table *)

(** Strings are counted in characters: the bytes that continue one do not count. *)
Definition continues (b : Z) : bool := Z.land b 0xc0 =? 0x80.
Definition char_count (l : list Z) : nat := length (filter (fun b => continues b = false) l).
Fixpoint take_chars (n : nat) (l : list Z) : list Z :=
  match l with
  | [] => []
  | b :: r =>
      if continues b then b :: take_chars n r
      else match n with O => [] | S n => b :: take_chars n r end
  end.
Definition ellipsis : list Z := [0xe2; 0x80; 0xa6].
Definition truncate (s : string) (max : nat) : string :=
  let l := bytes_of_string s in
  if (char_count l <=? max)%nat then s else string_of_bytes (take_chars (max - 1) l ++ ellipsis).
(** [{:<width}] *)
Definition pad (width : nat) (s : string) : string :=
  s +:+ string_of_bytes (replicate (width - char_count (bytes_of_string s)) 32).

Definition fmt_age_ms (ms : Z) : string :=
  if ms <? 1000 then fmt_u ms +:+ "ms"
  else if ms <? 60000 then fmt_u (ms / 1000) +:+ "." +:+ fmt_u (ms `mod` 1000 / 100) +:+ "s"
  else fmt_u (ms / 60000) +:+ "m".
Definition conn_cell (connectivity : option string) (age_ms : option Z) : string :=
  match connectivity with
  | None => "-"
  | Some state => match age_ms with None => state | Some ms => state +:+ " " +:+ fmt_age_ms ms end
  end.

(** [Utc.timestamp_micros(..).single()]; chrono's years do not hold every [i64]. *)
Context (timestamp_micros : Z -> option DateTime).

Definition joined_at_relative (micros : Z) (now : DateTime) : string :=
  match timestamp_micros micros with None => "?" | Some then_ => relative then_ now end.

Definition columns (cells : list string) : string := string_join " " (zip_with pad [20; 26; 22; 14; 18; 12]%nat cells).
Definition row_line (self_peer_id : option Uuid) (now : DateTime) (row : PeerRow) : string :=
  let peer := info row in
  columns
    [truncate (i_display_name peer) 20;
     fmt_ipv6 (i_ula peer);
     match i_listen_endpoint peer with None => "-" | Some e => fmt_sock e end;
     conn_cell (connectivity row) (connectivity_age_ms row);
     truncate (format_tags (i_tags peer)) 18;
     if bool_decide (Some (i_peer_id peer) = self_peer_id) then "self" else joined_at_relative (i_joined_at_micros peer) now].
Definition print_peers (peers : list PeerRow) (self_peer_id : option Uuid) (now : DateTime) : list string :=
  columns ["NAME"; "ULA"; "ENDPOINT"; "CONN"; "TAGS"; "LAST_SEEN"]
  :: match peers with [] => ["(no peers)"] | _ => row_line self_peer_id now <$> peers end.

(** ** The command *)

Definition PEERS_ENDPOINT : string := "/v1/mesh/peers".
Definition peers_url (args : PeersArgs) : string := trim_end_slashes (pa_coordinator args) +:+ PEERS_ENDPOINT.

(** [answer] is the reply to the request with this URL and token: a status, and the
    body as JSON if it is that. *)
Definition peers_run `{StatusJson} (args : PeersArgs) (d : Disk) (io : FsCalls) (home : option Path) (now : DateTime)
    (answer : string -> option string -> option (Z * option Json)) : Result (list string) CliError :=
  match answer (peers_url args) (admin_token args) with
  | None => Err GetFailed
  | Some (status, body) =>
      if status =? 401 then Err NotAuthorised
      else if negb (is_success status) then Err (HttpError status)
      else match body ≫= read_roster with
           | None => Err DecodePeers
           | Some peers => Ok (print_peers peers (ss_peer_id <$> ok (status_read d io home)) now)
           end
  end.

(** ** The two ends do not fit *)

(** The coordinator renders a key as a string, and the command expects an array: no row
    the coordinator sends is read. *)
Lemma no_row_is_read p : read_row (peer_json p) = None.
Proof.
  unfold read_row, peer_json. read_object.
  destruct (read_option read_u64 _); [|done]. cbn [mbind option_bind].
  assert (forall l, assoc "wg_public_key" l = Some (JString (pi_wg_public_key p)) -> read_peer_info l = None) as Hn.
  { intros l Hl. unfold read_peer_info. rewrite Hl. by destruct (assoc "peer_id" l ≫= read_uuid). }
  by rewrite Hn by (by rewrite assoc_object by (vm_compute; reflexivity)).
Qed.

(** How the command ends, for every answer; and with the roster of a coordinator, which
    it can read only when that is empty. *)
Theorem peers_command_outcomes `{StatusJson} args d io home now answer :
  let r := peers_run args d io home now answer in
  match answer (peers_url args) (admin_token args) with
  | None => r = Err GetFailed
  | Some (status, body) =>
      (status = 401 -> r = Err NotAuthorised)
      /\ (status <> 401 -> is_success status = false -> r = Err (HttpError status))
      /\ (is_success status = true -> body ≫= read_roster = None -> r = Err DecodePeers)
      /\ (forall rows, is_success status = true -> body ≫= read_roster = Some rows ->
            exists lines, r = Ok lines /\ length lines = S (Nat.max 1 (length rows)))
      /\ (forall roster, is_success status = true -> body = Some (roster_json roster) ->
            match roster with
            | [] => exists header, r = Ok [header; "(no peers)"]
            | _ => r = Err DecodePeers
            end)
  end.
Proof.
  cbn zeta. unfold peers_run. destruct (answer _ _) as [[status body]|]; [|done].
  assert (is_success status = true -> (status =? 401) = false) as H401.
  { unfold is_success. intros Hs. apply Z.eqb_neq. lia. }
  split_and!.
  - by intros ->.
  - intros Hne Hs. apply Z.eqb_neq in Hne. by rewrite Hne, Hs.
  - intros Hs Hb. by rewrite (H401 Hs), Hs, Hb.
  - intros rows Hs Hb. rewrite (H401 Hs), Hs, Hb. cbn [negb]. eexists. split; [done|].
    unfold print_peers. destruct rows; [done|]. cbn [length]. by rewrite length_fmap.
  - intros roster Hs ->. rewrite (H401 Hs), Hs. cbn [negb mbind option_bind].
    destruct roster as [|p roster]; [by eexists|]. unfold read_roster, roster_json. read_object.
    cbn [json_list read_list fmap list_fmap mapM mbind option_bind]. by rewrite no_row_is_read.
Qed.

(** ** Cells *)

Lemma char_count_app a b : char_count (a ++ b) = (char_count a + char_count b)%nat.
Proof. unfold char_count. by rewrite filter_app, length_app. Qed.
Lemma char_count_cons b l : char_count (b :: l) = ((if continues b then 0 else 1) + char_count l)%nat.
Proof. unfold char_count. rewrite filter_cons. by destruct (continues b). Qed.
Lemma char_count_take n l : char_count (take_chars n l) = Nat.min n (char_count l).
Proof.
  revert n. induction l as [|b l IH]; intros n; cbn [take_chars].
  { unfold char_count. simpl. lia. }
  destruct (continues b) eqn:E; [rewrite !char_count_cons, E, IH; done|].
  destruct n as [|n]; [unfold char_count at 1; simpl; lia|]. rewrite !char_count_cons, E, IH. simpl. lia.
Qed.

(** A cell is cut to exactly the width given, ellipsis included, and only when it is
    longer. *)
Lemma truncate_width s max :
  (1 <= max)%nat ->
  if decide (char_count (bytes_of_string s) <= max)%nat then truncate s max = s
  else exists l, truncate s max = string_of_bytes l /\ char_count l = max.
Proof.
  intros Hm. unfold truncate. case_decide as Hc.
  - apply Nat.leb_le in Hc. by rewrite Hc.
  - destruct (_ <=? max)%nat eqn:E; [apply Nat.leb_le in E; lia|]. eexists. split; [done|].
    rewrite char_count_app, char_count_take. unfold char_count at 2. simpl. lia.
Qed.
End Peers.

Lemma cell_examples :
  conn_cell (Some "direct") (Some 820) = "direct 820ms" /\ conn_cell (Some "relay") (Some 3400) = "relay 3.4s"
  /\ conn_cell (Some "relay") (Some 120000) = "relay 2m" /\ conn_cell (Some "dead") None = "dead" /\ conn_cell None None = "-"
  /\ truncate "hello" 10 = "hello" /\ bytes_of_string (truncate "abcdefghijklmnop" 5) = [97; 98; 99; 100] ++ ellipsis.
Proof. by vm_compute. Qed.
