(* ===== verification/CliRun.v ===== *)
(** * The life of a [join] daemon ([commands/join.rs])

    Starting one, with the commands it accepts and the files it leaves for operators;
    then its two tasks: the one that waits for Ctrl-C and takes the node down, and the
    one that refreshes the status file. Their steps interleave. One thing the daemon
    waits for it does not do itself: the answer to its deregistration, a request without
    a time limit. *)

From S2P Require Import Prelude NetAddr AddrText Text Types PeerSession SessionTable CommandGate.
From S2P Require Import Client RosterStore Identity Platform Routes Startup HostSink Cli.

Open Scope Z_scope.

(** ** Starting *)

Definition default_data_dir (home : option Path) : Path :=
  match status_dir home with Ok dir => dir | Err _ => mkPath false ["."] end.
Definition sink_data_dir (args : JoinArgs) (home : option Path) : Path :=
  match ja_identity_path args ≫= path_parent with Some dir => dir | None => default_data_dir home end.
Definition lifeline_command_nonce_path (sink_data_dir : Path) : Path := path_join sink_data_dir "lifeline-command-nonces.json".

(** What the snapshots say of a node: its id and address, which never change, and what it
    was started with. *)
Record Self := mkSelf {
  self_peer_id : Uuid;
  self_ula : Ipv6Addr;
  coordinator : string;
  name : string;
  tags : list string;
  process_id : Z;
}.
(** [snapshot_from] and [snapshot_under_lock] *)
Definition snapshot_of (l : Self) (peers : nat) (now : DateTime) : StatusSnapshot :=
  mkStatusSnapshot (self_peer_id l) (self_ula l) (coordinator l) (name l) (tags l) peers now (process_id l).

(** What [join_with_optional_sink] hands to [join_with_commands]. *)
Record Commands := mkCommands { pubkey : list Z; nonce_path : Path; sink : HostCommandSink }.

Section Start.
Context `{Externals} `{Curve} `{IdentitySerde} `{Noise} `{TableOrder} `{Signatures} `{Host} `{StatusJson}.
Context (secret_from : list Z -> StaticSecret).

Definition optional_sink (super_admin_pubkey : option string) (sink_data_dir : Path) : Result (option Commands) CliError :=
  match (hex ← super_admin_pubkey; if bool_decide (trim hex = EmptyString) then None else Some hex) with
  | None => Ok None
  | Some hex =>
      match parse_super_admin_pubkey (Some hex) with
      | None => Err InvalidPubkey
      | Some pk =>
          match build_sink hex sink_data_dir with
          | None => Err InvalidPubkey
          | Some sink => Ok (Some (mkCommands pk (lifeline_command_nonce_path sink_data_dir) sink))
          end
      end
  end.

(** The gate that [join_with_commands] builds; [NonceStore::load] reads its file. *)
Definition node_gate (commands : option Commands) (config : JoinConfig) (home : option Path) (d : Disk) (io : FsCalls) : CommandGate :=
  let path := match commands with Some c => nonce_path c | None => default_command_nonce_path config home end in
  gate_new (pubkey <$> commands) (string_of_bytes <$> ok (fs_read d io path)).

(** A running node. *)
Record Lifeline := mkLifeline { node : Joiner; gate : CommandGate; command_sink : option HostCommandSink; self : Self }.

(** How the files of a start go. *)
Record StartIo := mkStartIo { nonce_io : FsCalls; lifeline_io : FsCalls; first_status_io : FsCalls; started_at : DateTime; own_pid : Z }.

(** [run] up to the first status; [None] is a panic of the join. *)
Definition start (args : JoinArgs) (o : Outside) (io : StartIo) (d : Disk) (st : HostState)
    : option (Disk * HostState * Result Lifeline CliError) :=
  let dir := sink_data_dir args (home o) in
  let config := build_join_config args in
  match optional_sink (ja_super_admin_pubkey args) dir with
  | Err e => Some (d, st, Err e)
  | Ok commands =>
      '(d, st, r) ← join secret_from config o d st;
      match r with
      | Err e => Some (d, st, Err (JoinFailed e))
      | Ok j =>
          let l := {| node := j;
                      gate := node_gate commands config (home o) d (nonce_io io);
                      command_sink := sink <$> commands;
                      self := mkSelf (my_peer_id j) (my_ula j) (ja_coordinator args) (ja_name args) (ja_tags args) (own_pid io) |} in
          let '(d, r) := match ja_status_file args with
                         | None => (d, Ok tt)
                         | Some p => write_lifeline_status d (lifeline_io io) p (mkLifelineStatus (my_peer_id j) (my_ula j) (ja_name args))
                         end in
          match r with
          | Err e => Some (d, st, Err (LifelineStatusFailed e))
          | Ok _ =>
              let s := snapshot_of (self l) (length (peers j (node_sessions j))) (started_at io) in
              Some (fst (status_write d (first_status_io io) (home o) s), st, Ok l)
          end
      end
  end.

(** A key that cannot be parsed does not merely keep remote commands off: nothing is
    started at all. *)
Lemma malformed_key_stops_the_join args o io d st hex :
  ja_super_admin_pubkey args = Some hex -> trim hex <> EmptyString -> parse_super_admin_pubkey (Some hex) = None ->
  start args o io d st = Some (d, st, Err InvalidPubkey).
Proof.
  intros Hk Ht Hp. unfold start, optional_sink. rewrite Hk. cbn [mbind option_bind]. rewrite bool_decide_eq_false_2 by done.
  by rewrite Hp.
Qed.

(** Without a key, or with a blank one, the node runs and its gate rejects everything. *)
Lemma no_key_rejects_all args o io d st d' st' l cmd now :
  (ja_super_admin_pubkey args = None \/ exists hex, ja_super_admin_pubkey args = Some hex /\ trim hex = EmptyString) ->
  start args o io d st = Some (d', st', Ok l) ->
  command_sink l = None /\ evaluate (gate l) cmd now = Reject BadSignature.
Proof.
  intros Hk. unfold start.
  assert (optional_sink (ja_super_admin_pubkey args) (sink_data_dir args (home o)) = Ok None) as ->.
  { unfold optional_sink. destruct Hk as [->|(hex & -> & Ht)]; [done|]. cbn [mbind option_bind]. by rewrite bool_decide_eq_true_2. }
  destruct (join _ _ _ _ _) as [[[d1 st1] [j|e]]|]; cbn [mbind option_bind]; [|done|done].
  destruct (match ja_status_file args with None => _ | Some _ => _ end) as [d2 [[]|e]]; [|done]. by intros [= _ _ <-].
Qed.
End Start.

(** A node that has started has left its address of record where the operator looks for
    it, and the first status. *)
Lemma start_leaves_address `{Externals} `{Curve} `{IdentitySerde} `{Noise} `{TableOrder} `{Signatures} `{Host} `{StatusJsonLaws}
    secret_from args o io d st d' st' l p :
  ja_status_file args = Some p -> with_extension p "json.tmp" <> p ->
  (forall q, status_path (home o) = Ok q -> p <> q /\ p <> with_extension q "json.tmp") ->
  start secret_from args o io d st = Some (d', st', Ok l) ->
  exists f, d' !! p = Some f
    /\ lifeline_of_json (content f) = Some (mkLifelineStatus (self_peer_id (self l)) (self_ula (self l)) (ja_name args)).
Proof.
  intros Hf Hne Hq. unfold start. destruct (optional_sink _ _) as [commands|e]; [|done].
  destruct (join _ _ _ _ _) as [[[d1 st1] [j|e]]|]; cbn [mbind option_bind]; [|done|done]. rewrite Hf.
  pose proof (lifeline_write_read d1 (lifeline_io io) p (mkLifelineStatus (my_peer_id j) (my_ula j) (ja_name args)) Hne) as Hw.
  destruct (write_lifeline_status _ _ _ _) as [d2 [[]|e]]; [|done]. destruct Hw as (f & Hd2 & Hj).
  set (snap := snapshot_of _ _ _). intros [= <- _ <-]. exists f. split; [|done].
  destruct (status_path (home o)) as [q|e] eqn:Hp.
  - pose proof (status_write_read d2 (first_status_io io) (home o) snap q Hp) as Hs.
    destruct (status_write _ _ _ _) as [d3 r]. destruct Hs as [Hs _]. destruct (Hq q eq_refl) as [H1' H2']. simpl. by rewrite Hs.
  - unfold status_write. by rewrite Hp.
Qed.

(** ** The two tasks *)

(** Where [run] is after the start: waiting for Ctrl-C, about to take the node out of
    the shared cell, about to stop the refresher, waiting for it to have stopped, about
    to leave the mesh, inside [leave] and waiting for the coordinator's answer, about to
    remove the file, at the end. *)
Inductive Phase := Serving | Interrupted | Taken | Stopping | Alone | Leaving | Gone | Finished.
#[export] Instance Phase_eq_dec : EqDecision Phase.
Proof. solve_decision. Defined.
(** The refresher waits for its next turn, has a snapshot to write, or has ended. *)
Inductive Refresher := Waiting | Holding (s : StatusSnapshot) | Ended.

Record Daemon := mkDaemon {
  disk : Disk;
  cell : option Self;   (** what the snapshots take from the node, until it is taken *)
  phase : Phase;
  refresher : Refresher;
  aborted : bool;
  has_left : bool;
  removal : option (Result unit CliError);
}.

Section Tasks.
Context `{StatusJson}.
Context (home : option Path).

(** One step that a task makes by itself. Reading the roster for a snapshot happens under
    the lock of the cell, and writing the file has no point at which the task could be
    cancelled. *)
Inductive task_step : Daemon -> Daemon -> Prop :=
| step_snapshot d l ph ab hl rm (peers : nat) (now : DateTime) :
    task_step (mkDaemon d (Some l) ph Waiting ab hl rm) (mkDaemon d (Some l) ph (Holding (snapshot_of l peers now)) ab hl rm)
| step_cell_empty d ph ab hl rm :
    task_step (mkDaemon d None ph Waiting ab hl rm) (mkDaemon d None ph Ended ab hl rm)
| step_write d c ph s ab hl rm (io : FsCalls) :
    task_step (mkDaemon d c ph (Holding s) ab hl rm) (mkDaemon (fst (status_write d io home s)) c ph Waiting ab hl rm)
| step_cancelled d c ph hl rm :
    task_step (mkDaemon d c ph Waiting true hl rm) (mkDaemon d c ph Ended true hl rm)
| step_ctrl_c d c r ab hl rm :
    task_step (mkDaemon d c Serving r ab hl rm) (mkDaemon d c Interrupted r ab hl rm)
| step_take d c r ab hl rm :
    task_step (mkDaemon d c Interrupted r ab hl rm) (mkDaemon d None Taken r ab hl rm)
| step_abort d c r ab hl rm :
    task_step (mkDaemon d c Taken r ab hl rm) (mkDaemon d c Stopping r true hl rm)
| step_joined d c ab hl rm :
    task_step (mkDaemon d c Stopping Ended ab hl rm) (mkDaemon d c Alone Ended ab hl rm)
| step_leave d c r ab hl rm :
    task_step (mkDaemon d c Alone r ab hl rm) (mkDaemon d c Leaving r ab hl rm)
| step_remove d c r ab hl rm (unlink_ok : bool) :
    task_step (mkDaemon d c Gone r ab hl rm)
      (mkDaemon (fst (status_remove d unlink_ok home)) c Finished r ab hl (Some (snd (status_remove d unlink_ok home)))).

(** The step that is not its own: [deregister] is answered, or its connection fails. It
    bears no time limit, so this may never happen. Whatever the outcome, [leave] then
    takes down what is local, waiting at most two seconds for each task of the node, and
    returns. *)
Inductive coordinator_answers : Daemon -> Daemon -> Prop :=
| step_answered d c r ab hl rm : coordinator_answers (mkDaemon d c Leaving r ab hl rm) (mkDaemon d c Gone r ab true rm).

Definition daemon_step (s s' : Daemon) : Prop := task_step s s' \/ coordinator_answers s s'.

Definition started (d : Disk) (l : Self) : Daemon := mkDaemon d (Some l) Serving Waiting false false None.
Definition reachable (d : Disk) (l : Self) : Daemon -> Prop := rtc daemon_step (started d l).

(** ** What holds throughout *)

Definition in_service (ph : Phase) : bool := match ph with Serving | Interrupted => true | _ => false end.
Definition before_abort (ph : Phase) : bool := match ph with Serving | Interrupted | Taken => true | _ => false end.
Definition alone (ph : Phase) : bool := match ph with Alone | Leaving | Gone | Finished => true | _ => false end.
Definition left_mesh (ph : Phase) : bool := match ph with Gone | Finished => true | _ => false end.
Definition is_finished (ph : Phase) : bool := match ph with Finished => true | _ => false end.
Definition has_ended (r : Refresher) : bool := match r with Ended => true | _ => false end.

(** How the control of the two tasks hangs together. *)
Record control_inv (l : Self) (s : Daemon) : Prop := {
  inv_cell : cell s = if in_service (phase s) then Some l else None;
  inv_alone : alone (phase s) = true -> refresher s = Ended;
  inv_running : in_service (phase s) = true -> refresher s <> Ended;
  inv_aborted : aborted s = negb (before_abort (phase s));
  inv_left : has_left s = left_mesh (phase s);
  inv_removal : is_Some (removal s) <-> phase s = Finished;
  inv_holding : forall snap, refresher s = Holding snap -> exists peers now, snap = snapshot_of l peers now;
}.

(** What is on the disk: other files as they were, and the status file of before or
    one of this node's own. *)
Record disk_inv (d0 : Disk) (l : Self) (s : Daemon) : Prop := {
  inv_others : forall q, (forall p, status_path home = Ok p -> q <> p /\ q <> with_extension p "json.tmp") -> disk s !! q = d0 !! q;
  inv_removed : forall p, status_path home = Ok p -> removal s = Some (Ok tt) -> disk s !! p = None;
  inv_file : phase s <> Finished ->
    (forall io, status_read (disk s) io home = status_read d0 io home)
    \/ exists peers now, forall io, read_ok io = true -> status_read (disk s) io home = Ok (snapshot_of l peers now);
}.

Lemma control_inv_step l s s' : daemon_step s s' -> control_inv l s -> control_inv l s'.
Proof.
  intros Hs [H1 H2 H3 H4 H5 H6 H7]. destruct Hs as [Hs|Hs]; destruct Hs; simpl in *.
  all: constructor; simpl in *; try done; try (by intros ? [= <-]; eauto); try (by destruct ph; naive_solver).
  all: naive_solver.
Qed.
End Tasks.

Section TaskProperties.
Context `{StatusJsonLaws} (home : option Path).

Lemma no_home_no_write d io s e : status_path home = Err e -> status_write d io home s = (d, Err e).
Proof. intros He. unfold status_write. by rewrite He. Qed.

Lemma status_write_disk d0 l d io snap c ph ab hl rm :
  ph <> Finished -> (exists peers now, snap = snapshot_of l peers now) -> (is_Some rm <-> ph = Finished) ->
  disk_inv home d0 l (mkDaemon d c ph (Holding snap) ab hl rm) ->
  disk_inv home d0 l (mkDaemon (fst (status_write d io home snap)) c ph Waiting ab hl rm).
Proof.
  intros Hph (peers & now & ->) Hrm Hi. destruct (status_path home) as [p|e] eqn:Hp.
  2: { rewrite (no_home_no_write _ _ _ _ Hp). destruct Hi as [H1 H2 H3]. by split. }
  pose proof (status_write_read d io home (snapshot_of l peers now) p Hp) as Hw.
  destruct (status_write d io home _) as [d' r]. destruct Hw as [Hq Hr], Hi as [H1 H2 H3]. split; simpl in *.
  - intros q Hn. destruct (Hn p Hp) as [Hn1 Hn2]. rewrite Hq by done. by apply H1.
  - intros p' _ ->. exfalso. apply Hph. apply (proj1 Hrm). by eexists.
  - intros _. destruct r as [[]|e].
    + right. by exists peers, now.
    + destruct (H3 Hph) as [Ho|(n & t & Ho)]; [left|right; exists n, t]; intros io'; [|intros Hio]; rewrite Hr; by apply Ho.
Qed.

Lemma disk_inv_step d0 l s s' : daemon_step home s s' -> control_inv l s -> disk_inv home d0 l s -> disk_inv home d0 l s'.
Proof.
  intros Hs Hc Hd. destruct Hs as [Hs|Hs]; destruct Hs; try (destruct Hd as [H1 H2 H3]; split; simpl in *; done || naive_solver).
  - apply status_write_disk; [|by apply (inv_holding _ _ Hc)|apply (inv_removal _ _ Hc)|done].
    intros ->. by pose proof (inv_alone _ _ Hc eq_refl).
  - destruct Hd as [H1 H2 H3]. split; simpl in *; [| |done].
    + intros q Hq. unfold status_remove. destruct (status_path home) as [p|e] eqn:Hp; [|by apply H1].
      destruct (Hq p eq_refl) as [Hn _]. destruct (d !! p); [|by apply H1]. destruct unlink_ok; [|by apply H1].
      simpl. rewrite lookup_delete_ne by done. by apply H1.
    + intros p Hp [= Hr]. destruct (status_remove d unlink_ok home) as [d' res] eqn:E. simpl in *. subst res.
      rewrite (status_remove_gone _ _ _ _ _ Hp E). apply lookup_delete_eq.
Qed.

Lemma reachable_inv d0 l s : reachable home d0 l s -> control_inv l s /\ disk_inv home d0 l s.
Proof.
  unfold reachable. intros Hr. remember (started d0 l) as s0 eqn:E.
  assert (control_inv l s0 /\ disk_inv home d0 l s0) as Hi.
  { subst s0. split; constructor; simpl; try done. intros _. by left. }
  clear E. induction Hr as [s|s s1 s2 Hs Hr IH]; [done|]. apply IH. destruct Hi as [Hc Hd].
  split; [by eapply control_inv_step|by eapply disk_inv_step].
Qed.

(** ** The end *)

(** The steps that are left once the node has been taken out. *)
Definition phase_steps (ph : Phase) : nat :=
  match ph with Serving => 7 | Interrupted => 6 | Taken => 5 | Stopping => 4 | Alone => 3 | Leaving => 2 | Gone => 1 | Finished => 0 end.
Definition refresher_steps (r : Refresher) : nat := match r with Holding _ => 2 | Waiting => 1 | Ended => 0 end.
Definition steps_left (s : Daemon) : nat := (phase_steps (phase s) + refresher_steps (refresher s))%nat.

Lemma step_decreases l s s' :
  control_inv l s -> in_service (phase s) = false -> daemon_step home s s' ->
  in_service (phase s') = false /\ (steps_left s' < steps_left s)%nat.
Proof.
  intros Hc Hs Hst. pose proof (inv_cell _ _ Hc) as Hcell. rewrite Hs in Hcell.
  destruct Hst as [Hst|Hst]; destruct Hst; unfold steps_left; simpl in *; try done; (split; [done|lia]).
Qed.

Lemma run_bounded l n s s' :
  control_inv l s -> in_service (phase s) = false -> nsteps (daemon_step home) n s s' -> (n <= steps_left s)%nat.
Proof.
  revert s. induction n as [|n IH]; intros s Hc Hs Hn; [lia|]. inversion Hn as [|? ? s1 ? Hst Hn']; subst.
  destruct (step_decreases l _ _ Hc Hs Hst) as [Hs1 Hlt]. pose proof (IH s1 (control_inv_step _ _ _ _ Hst Hc) Hs1 Hn'). lia.
Qed.

(** Where the tasks come to a halt by themselves: at the end, or inside [leave]. *)
Lemma tasks_stuck l s :
  control_inv l s -> in_service (phase s) = false -> (forall s', ~ task_step home s s') -> phase s = Finished \/ phase s = Leaving.
Proof.
  intros Hc Hs Hno. pose proof (inv_aborted _ _ Hc) as Ha. destruct s as [d c ph r ab hl rm]. simpl in *.
  destruct ph; simpl in *; subst; auto; try done.
  all: exfalso; destruct r; eapply Hno;
    solve [by apply (step_write _ _ _ _ _ _ _ _ fs_ok)|by apply (step_remove _ _ _ _ _ _ _ true)|by constructor].
Qed.

Lemma tasks_run l s s' : rtc (task_step home) s s' -> control_inv l s -> in_service (phase s) = false ->
  control_inv l s' /\ in_service (phase s') = false /\ (has_left s = true -> has_left s' = true).
Proof.
  induction 1 as [|s s1 s2 Hs Hr IH]; [done|]. intros Hc Hin.
  destruct (step_decreases l s s1 Hc Hin) as [Hin1 _]; [by left|].
  destruct IH as (Hc2 & Hin2 & Hl); [by eapply control_inv_step; [left|]|done|]. split_and!; [done..|].
  intros Hleft. apply Hl. by destruct Hs.
Qed.

(** C38: A daemon that has been interrupted comes to its end and leaves nothing behind, unless
    the coordinator stays silent. At any time before the end, the status file is what it
    was or a status this node has written, and no other file but its temporary is
    touched. Once the node has been taken out of the shared cell at most seven more
    steps are possible, in whatever order the two tasks run; by themselves the tasks
    come to a halt only at the end of [run] or inside [leave], which waits for the
    answer to a deregistration without a time limit. There nothing happens until the
    answer comes; once it has come, whatever it is, the tasks halt only at the end. The
    node asks to leave only when the refresher has ended; and if the file could be
    removed it is gone for good: no write of the refresher can bring it back. *)
Theorem daemon_ends_clean d0 l s :
  reachable home d0 l s ->
  (forall q, (forall p, status_path home = Ok p -> q <> p /\ q <> with_extension p "json.tmp") -> disk s !! q = d0 !! q)
  /\ (phase s <> Finished ->
        (forall io, status_read (disk s) io home = status_read d0 io home)
        \/ exists peers now, forall io, read_ok io = true -> status_read (disk s) io home = Ok (snapshot_of l peers now))
  /\ (phase s = Leaving \/ has_left s = true -> refresher s = Ended)
  /\ (in_service (phase s) = false ->
        (forall n s', nsteps (daemon_step home) n s s' -> (n <= 7)%nat)
        /\ forall s', rtc (task_step home) s s' -> (forall s'', ~ task_step home s' s'') ->
             phase s' = Finished \/ phase s' = Leaving /\ has_left s = false)
  /\ (phase s = Leaving ->
        (forall s', ~ task_step home s s')
        /\ exists s', coordinator_answers s s' /\ (forall s'', coordinator_answers s s'' -> s'' = s')
             /\ has_left s' = true /\ disk s' = disk s)
  /\ (phase s = Finished ->
        (forall s', ~ daemon_step home s s')
        /\ forall p, status_path home = Ok p -> removal s = Some (Ok tt) -> disk s !! p = None).
Proof.
  intros Hr. destruct (reachable_inv _ _ _ Hr) as [Hc Hd]. split_and!.
  - apply (inv_others _ _ _ _ Hd).
  - apply (inv_file _ _ _ _ Hd).
  - intros Hl. apply (inv_alone _ _ Hc). rewrite (inv_left _ _ Hc) in Hl. destruct (phase s); naive_solver.
  - intros Hs. split.
    + intros n s' Hn. pose proof (run_bounded _ _ _ _ Hc Hs Hn) as Hle. unfold steps_left in Hle.
      destruct (phase s), (refresher s); simpl in *; done || lia.
    + intros s' Hrun Hno. destruct (tasks_run l s s' Hrun Hc Hs) as (Hc' & Hs' & Hl).
      destruct (tasks_stuck l s' Hc' Hs' Hno) as [Hf|Hf]; [by left|right]. split; [done|].
      destruct (has_left s); [|done]. specialize (Hl eq_refl). rewrite (inv_left _ _ Hc'), Hf in Hl. done.
  - intros Hl. destruct s as [d c ph r ab hl rm]. simpl in Hl. subst ph.
    pose proof (inv_alone _ _ Hc eq_refl) as He. simpl in He. subst r. split; [intros s' Hst; inversion Hst|].
    eexists. split; [constructor|]. split; [|done]. intros s'' Ha. by inversion Ha.
  - intros Hf. split.
    + intros s' Hst. pose proof (step_decreases l _ _ Hc ltac:(by rewrite Hf) Hst) as [_ Hlt]. unfold steps_left in Hlt.
      rewrite Hf in Hlt. rewrite (inv_alone _ _ Hc) in Hlt by (by rewrite Hf). simpl in Hlt. lia.
    + intros p. apply (inv_removed _ _ _ _ Hd).
Qed.
End TaskProperties.
