(* ===== verification/Evolve.v ===== *)
(** * How the data plane changes sessions

    A relation on sessions that each elementary write of the data plane respects is
    respected by every operation of the data plane, on every session of the heap;
    and no such operation touches the address index, the key index, the app routes
    or the route sink. Properties of single sessions are lifted to the whole joiner
    by choosing the relation. *)

From S2P Require Import Prelude NetAddr Types RelayFrame PeerSession SessionTable SessionInv DataPlane.

Open Scope Z_scope.

Section Evolve.
Context `{Noise} `{TableOrder}.
Implicit Types (w : World) (s : PeerSession) (h : Arc) (t : SessionTable).

(** A relation that the elementary writes respect, at clock readings that are
    [i64]s. *)
Class Evolution (R : PeerSession -> PeerSession -> Prop) : Prop := {
  evolve_refl : forall s, R s s;
  evolve_trans : forall s1 s2 s3, R s1 s2 -> R s2 s3 -> R s1 s3;
  evolve_tunn : forall s tn, R s (s <| tunn := tn |>);
  evolve_endpoint : forall s a b, R s ((s <| endpoint := a |>) <| endpoint_learned := b |>);
  evolve_rx : forall s now, is_i64 now -> R s (note_direct_rx s now);
  evolve_confirm : forall s now, is_i64 now -> R s (confirm_direct s now);
  evolve_handshake : forall s d now, is_i64 now -> R s (note_handshake_rx s d now);
  evolve_tx : forall s now, is_i64 now -> R s (note_direct_tx s now);
  evolve_failure : forall s now, is_i64 now -> R s (note_handshake_failure s now);
  evolve_probe : forall s now i, is_i64 now -> R s (fst (should_probe_direct s now i));
  evolve_rearm : forall s now b c, is_i64 now -> R s (fst (should_rearm_expired s now b c));
  evolve_downgrade : forall s now, is_i64 now -> R s (downgrade now s);
}.

(** The clocks of the table and the counter, in the widths of their atomics. *)
Definition clocks w : Prop :=
  is_i64 (last_inbound_data_frame_ts (table w)) /\ is_i64 (last_send_attempt_ts (table w))
  /\ is_i64 (last_idle_probe_ts (table w)) /\ is_u64 (rx_source_denied w).

Section Relation.
Context (R : PeerSession -> PeerSession -> Prop) `{!Evolution R}.

Record evolves w w' : Prop := {
  evolves_heap : Forall2 R (heap (table w)) (heap (table w'));
  evolves_ula : by_ula (table w') = by_ula (table w);
  evolves_pubkey : by_pubkey (table w') = by_pubkey (table w);
  evolves_routes : app_routes (table w') = app_routes (table w);
  evolves_sink : route_sink (table w') = route_sink (table w);
  evolves_endpoint : forall a h, by_endpoint (table w') !! a = Some h ->
    by_endpoint (table w) !! a = Some h \/ is_Some (get (table w) h);
  evolves_clocks : clocks w -> clocks w';
}.

Lemma heap_refl (l : list PeerSession) : Forall2 R l l.
Proof. induction l; constructor; [apply evolve_refl|done]. Qed.
Lemma heap_trans (l1 l2 l3 : list PeerSession) : Forall2 R l1 l2 -> Forall2 R l2 l3 -> Forall2 R l1 l3.
Proof.
  intros Hl. revert l3. induction Hl as [|s1 s2 l1 l2 Hs Hl IH]; intros l3 Hl3; inversion Hl3; subst; constructor.
  - by eapply evolve_trans.
  - by apply IH.
Qed.

Lemma heap_get t t' h : Forall2 R (heap t) (heap t') -> (is_Some (get t h) <-> is_Some (get t' h)).
Proof. intros Hf. unfold get. rewrite !lookup_lt_is_Some. by rewrite (Forall2_length _ _ _ Hf). Qed.

#[local] Instance evolves_refl : Reflexive evolves.
Proof. intros w. split; try done; [apply heap_refl|by left]. Qed.

Lemma evolves_trans w1 w2 w3 : evolves w1 w2 -> evolves w2 w3 -> evolves w1 w3.
Proof.
  intros A B. split; [by eapply heap_trans, (evolves_heap _ _ B); apply A| | | | | |].
  - by rewrite (evolves_ula _ _ B), (evolves_ula _ _ A).
  - by rewrite (evolves_pubkey _ _ B), (evolves_pubkey _ _ A).
  - by rewrite (evolves_routes _ _ B), (evolves_routes _ _ A).
  - by rewrite (evolves_sink _ _ B), (evolves_sink _ _ A).
  - intros a h Ha. apply (evolves_endpoint _ _ B) in Ha as [Ha|Ha]; [by apply (evolves_endpoint _ _ A)|right].
    by rewrite (heap_get _ _ h (evolves_heap _ _ A)).
  - intros Hc. by apply (evolves_clocks _ _ B), (evolves_clocks _ _ A).
Qed.

(** ** Elementary steps *)

Lemma ev_upd w h f : (forall s, R s (f s)) -> evolves w (upd w h f).
Proof.
  intros Hf. split; try done; [|by left]. simpl. revert h. induction (heap (table w)) as [|s l IH]; intros [|h];
    simpl; constructor; try done; [apply heap_refl|apply evolve_refl|apply IH].
Qed.

Lemma ev_emit w o : evolves w (emit w o).
Proof. split; try done; [apply heap_refl|by left]. Qed.

Lemma ev_relay_out w k b : evolves w (relay_out w k b).
Proof. split; try done; [apply heap_refl|by left]. Qed.

Lemma is_i64_max a b : is_i64 a -> is_i64 b -> is_i64 (store_max a b).
Proof. unfold store_max. by case_match. Qed.

Lemma ev_note_send w now : is_i64 now -> evolves w (w <| table := note_send_attempt (table w) now |>).
Proof.
  intros Hn. split; try done; [apply heap_refl|by left|]. intros (A & B & C & D). split_and!; try done.
  by apply is_i64_max.
Qed.

Lemma ev_note_inbound w now : is_i64 now -> evolves w (w <| table := note_inbound_data_frame (table w) now |>).
Proof.
  intros Hn. split; try done; [apply heap_refl|by left|]. intros (A & B & C & D). split_and!; try done.
  by apply is_i64_max.
Qed.

Lemma ev_denied w : evolves w (w <| rx_source_denied := u64_wrapping_add (rx_source_denied w) 1 |>).
Proof.
  split; try done; [apply heap_refl|by left|]. intros (A & B & C & D). split_and!; try done.
  apply is_u64_lt. by apply Z.mod_pos_bound.
Qed.

Lemma ev_with_tunn w h call w' a : with_tunn w h call = (w', a) -> evolves w w'.
Proof.
  unfold with_tunn. destruct (get (table w) h) as [s|]; [|by intros [= <- _]].
  destruct (call (tunn s)) as [tn res]. intros [= <- _]. apply ev_upd. intros. apply evolve_tunn.
Qed.

Lemma ev_learn w h a : is_Some (get (table w) h) -> evolves w (w <| table := learn_endpoint (table w) h a |>).
Proof.
  intros Hh. split; try done.
  - apply (ev_upd w h). intros s. case_bool_decide; [apply evolve_refl|apply evolve_endpoint].
  - intros b j. simpl. rewrite lookup_insert_Some. intros [[_ <-]|[_ Hb]]; [by right|by left].
Qed.

(** An elementary write. *)
Ltac write := first [by apply evolve_rx|by apply evolve_confirm|by apply evolve_handshake|by apply evolve_tx
  |by apply evolve_failure|by apply evolve_probe|by apply evolve_rearm|by apply evolve_downgrade|by apply evolve_tunn].

(** Undoes the writes of a goal from the last one on. *)
Ltac peel := repeat match goal with
  | |- evolves ?w ?w => reflexivity
  | |- evolves ?w (emit ?w2 ?o) => apply (evolves_trans w w2); [|apply ev_emit]
  | |- evolves ?w (upd ?w2 ?h ?f) => apply (evolves_trans w w2); [|apply ev_upd; intros; write]
  end.

(** ** Sending *)

Lemma ev_maybe_note w now b :
  is_i64 now -> evolves w (if negb (is_wg_keepalive b) then w <| table := note_send_attempt (table w) now |> else w).
Proof. intros Hn. destruct (negb _); [by apply ev_note_send|reflexivity]. Qed.

Lemma ev_probe w now h s r b : is_i64 now -> evolves w (probe_beside_relay now w h s r b).
Proof.
  intros Hn. unfold probe_beside_relay. destruct (_ && _); [|reflexivity].
  destruct (endpoint s); [|reflexivity]. destruct (should_probe_direct s now _) as [? []]; [|reflexivity].
  peel.
Qed.

Lemma ev_send_wire w now h b : is_i64 now -> evolves w (send_wire now w h b).
Proof.
  intros Hn. unfold send_wire. destruct (get (table w) h) as [s|]; [|reflexivity].
  eapply evolves_trans; [by apply (ev_maybe_note w now b)|]. set (w1 := if negb _ then _ else w). clearbody w1.
  destruct (if direct_confirmed s then endpoint s else None) as [ep|].
  - destruct (is_wg_data_frame b); peel.
  - destruct (relay (table w1)) as [r|].
    + eapply evolves_trans; [by apply ev_probe|apply ev_relay_out].
    + destruct (endpoint s); [apply ev_emit|reflexivity].
Qed.

Lemma ev_floored w now h b : is_i64 now -> evolves w (send_wire_relay_floored now w h b).
Proof.
  intros Hn. unfold send_wire_relay_floored. destruct (get (table w) h) as [s|]; [|reflexivity].
  eapply evolves_trans; [by apply (ev_maybe_note w now b)|]. apply ev_relay_out.
Qed.

(** ** Receiving *)

Lemma ev_action w now via_direct h a : is_i64 now -> evolves w (apply_wg_action now via_direct w h a).
Proof.
  intros Hn. destruct a as [b|p| |]; simpl; [by apply ev_send_wire| |reflexivity|reflexivity].
  destruct (get (table w) h) as [s|]; [|reflexivity]. unfold inner_source_allowed.
  destruct (ipv6_source p) as [src|]; [|apply ev_denied]. destruct (is_allowed_source s src); simpl; [|apply ev_denied].
  destruct via_direct; peel; by apply ev_note_inbound.
Qed.

Lemma ev_drain fuel w now via_direct h w' :
  is_i64 now -> drain fuel now via_direct w h = Some w' -> evolves w w'.
Proof.
  intros Hn. revert w. induction fuel as [|fuel IH]; intros w; [done|]. cbn [drain].
  destruct (with_tunn w h _) as [w1 a] eqn:Ew. apply ev_with_tunn in Ew.
  pose proof (ev_action w1 now via_direct h a Hn) as Ha.
  destruct a; try (intros Hd; eapply evolves_trans; [exact Ew|]; eapply evolves_trans; [exact Ha|]; by apply IH).
  by intros [= <-].
Qed.

Lemma ev_process fuel w now via_direct h d w' :
  is_i64 now -> process_inbound_datagram fuel now via_direct w h d = Some w' -> evolves w w'.
Proof.
  intros Hn. unfold process_inbound_datagram. destruct (with_tunn w h _) as [w1 a] eqn:Ew.
  apply ev_with_tunn in Ew. intros Hd. eapply evolves_trans; [exact Ew|].
  eapply evolves_trans; [|by eapply ev_drain].
  set (w2 := if via_direct && _ then _ else w1). set (w3 := if is_wg_handshake_frame d && _ then _ else w2).
  assert (evolves w1 w2) as H2 by (unfold w2; destruct (via_direct && _); [apply ev_upd; intros; write|reflexivity]).
  assert (evolves w2 w3) as H3.
  { unfold w3. destruct (is_wg_handshake_frame d && _); [apply ev_upd; intros; write|reflexivity]. }
  eapply evolves_trans; [exact H2|]. eapply evolves_trans; [exact H3|]. by apply ev_action.
Qed.

Lemma ev_try fuel w now l addr d w' :
  is_i64 now -> Forall (fun h => is_Some (get (table w) h)) l ->
  try_sessions fuel now w l addr d = Some w' -> evolves w w'.
Proof.
  intros Hn. revert w. induction l as [|h l IH]; intros w Hl; [by intros [= <-]|]. cbn [try_sessions].
  apply Forall_cons in Hl as [Hh Hl].
  destruct (with_tunn w h _) as [w1 a] eqn:Ew. apply ev_with_tunn in Ew.
  pose proof (heap_get _ _ h (evolves_heap _ _ Ew)) as Hg.
  assert (Forall (fun h => is_Some (get (table w1) h)) l) as Hl1.
  { eapply Forall_impl; [exact Hl|]. intros j. by rewrite (heap_get _ _ j (evolves_heap _ _ Ew)). }
  assert (forall w3 w', drain fuel now true (apply_wg_action now true w3 h a) h = Some w' -> evolves w3 w') as Hrest.
  { intros w3 w'' Hd. eapply evolves_trans; [by apply (ev_action w3 now true h a)|]. by eapply ev_drain. }
  assert (forall w3, w3 = upd (w1 <| table := learn_endpoint (table w1) h addr |>) h (fun s => note_direct_rx s now)
    -> evolves w1 (if is_wg_handshake_frame d then upd w3 h (fun s => note_handshake_rx s true now) else w3)) as Hheard.
  { intros w3 ->. destruct (is_wg_handshake_frame d); peel; apply ev_learn; by rewrite <- Hg. }
  destruct a; intros Hd; (eapply evolves_trans; [exact Ew|]).
  - eapply evolves_trans; [by apply Hheard|]. by apply Hrest.
  - eapply evolves_trans; [by apply Hheard|]. by apply Hrest.
  - by apply IH.
  - by apply IH.
Qed.

Lemma snapshot_get `{!TableOrderLaws} t : wf_table t -> Forall (fun h => is_Some (get t h)) (snapshot t).
Proof.
  intros Hw. apply Forall_forall. intros h Hin. unfold snapshot in Hin. apply list_elem_of_fmap in Hin as ([u x] & -> & Hin).
  rewrite iter_ulas_perm in Hin. apply elem_of_map_to_list in Hin.
  destruct (wf_ula _ (table_index _ Hw) _ _ Hin) as (s & Hg & _). by exists s.
Qed.

Lemma ev_udp `{!TableOrderLaws} fuel w now addr d w' :
  is_i64 now -> wf_table (table w) -> udp_recv fuel now w addr d = Some w' -> evolves w w'.
Proof.
  intros Hn Hw. unfold udp_recv. destruct (by_endpoint (table w) !! addr) as [h|]; [by apply ev_process|].
  apply ev_try; [done|by apply snapshot_get].
Qed.

Lemma ev_inbound fuel w now buf w' : is_i64 now -> handle_inbound fuel now w buf = Some w' -> evolves w w'.
Proof.
  intros Hn. unfold handle_inbound. destruct (decode_relay_frame buf) as [[src p]|]; [|by intros [= <-]].
  destruct (by_pubkey (table w) !! src) as [h|]; [|by intros [= <-]]. by apply ev_process.
Qed.

(** ** Packets from the host, timers, kicks and punches *)

Lemma ev_encapsulate w now h p : is_i64 now -> evolves w (encapsulate_and_send now w h p).
Proof.
  intros Hn. unfold encapsulate_and_send. destruct (with_tunn w h _) as [w1 a] eqn:Ew. apply ev_with_tunn in Ew.
  destruct a; try done. eapply evolves_trans; [exact Ew|]. by apply ev_send_wire.
Qed.

Lemma ev_tun w now my p : is_i64 now -> evolves w (tun_read now my w p).
Proof.
  intros Hn. unfold tun_read. destruct (ipv6_destination p); [|reflexivity]. case_bool_decide; [reflexivity|].
  destruct (session_for (table w) i); [by apply ev_encapsulate|reflexivity].
Qed.

Lemma ev_rearm our w now h : is_i64 now -> evolves w (fst (maybe_rearm_expired_session our now w h)).
Proof.
  intros Hn. unfold maybe_rearm_expired_session. destruct (get (table w) h) as [s|]; [|reflexivity].
  destruct (negb _); [reflexivity|]. case_bool_decide; [reflexivity|].
  destruct (should_rearm_expired s now _ _) as [? []]; simpl; [|reflexivity].
  set (base := rearm_base_micros _). set (w1 := upd w h _). set (w2 := upd w1 h _).
  assert (evolves w w1) as Hv1 by (apply ev_upd; intros; write).
  assert (evolves w1 w2) as Hv2 by (apply ev_upd; intros; apply evolve_tunn).
  destruct (with_tunn w2 h _) as [w3 a] eqn:Ew. apply ev_with_tunn in Ew. simpl.
  eapply evolves_trans; [exact Hv1|]. eapply evolves_trans; [exact Hv2|]. eapply evolves_trans; [exact Ew|].
  destruct a; try reflexivity. by apply ev_floored.
Qed.

Lemma ev_data_probe w now my h : is_i64 now -> evolves w (maybe_direct_data_probe now my w h).
Proof.
  intros Hn. unfold maybe_direct_data_probe. destruct (relay (table w)) as [r|]; [|reflexivity].
  destruct (get (table w) h) as [s|]; [|reflexivity]. destruct (relay_only r); [reflexivity|].
  destruct (_ || _); [reflexivity|]. destruct (endpoint s) as [ep|]; [|reflexivity].
  destruct (should_probe_direct s now _) as [? []]; simpl; [|reflexivity].
  set (w1 := upd w h _). assert (evolves w w1) as Hv1 by (unfold w1; peel). clearbody w1.
  destruct (negb _); [done|].
  destruct (with_tunn w1 h _) as [w2 a] eqn:Ew. apply ev_with_tunn in Ew. pose proof (evolves_trans _ _ _ Hv1 Ew).
  destruct a; try done. by peel.
Qed.

Lemma ev_tick_session our my w now h : is_i64 now -> evolves w (tick_session our my now w h).
Proof.
  intros Hn. unfold tick_session. set (w1 := upd w h _).
  assert (evolves w w1) as Hv1 by (apply ev_upd; intros; write). clearbody w1.
  pose proof (ev_rearm our w1 now h Hn) as Hv2. destruct (maybe_rearm_expired_session our now w1 h) as [w2 rearmed].
  simpl in Hv2. eapply evolves_trans; [exact Hv1|]. eapply evolves_trans; [exact Hv2|].
  destruct rearmed; [reflexivity|]. destruct (with_tunn w2 h _) as [w3 a] eqn:Ew. apply ev_with_tunn in Ew.
  eapply evolves_trans; [exact Ew|].
  eapply evolves_trans; [|by apply ev_data_probe]. destruct a; try reflexivity. by apply ev_send_wire.
Qed.

Lemma ev_idle_probe w now my : is_i64 now -> evolves w (maybe_idle_probe now my w).
Proof.
  intros Hn. unfold maybe_idle_probe. destruct (should_emit_idle_probe (table w) now _) as [t due] eqn:Et.
  assert (evolves w (w <| table := t |>)) as Hv1.
  { unfold should_emit_idle_probe in Et. repeat case_match; injection Et as <- _;
      split; try done; try apply heap_refl; try (by left); by intros (A & B & C & D). }
  destruct (negb due); [done|]. destruct (idle_probe_target _) as [h|]; [|done].
  set (w1 := w <| table := t |>) in *. clearbody w1. destruct (get (table w1) h) as [s|]; [|done].
  destruct (with_tunn w1 h _) as [w2 a] eqn:Ew. apply ev_with_tunn in Ew. eapply evolves_trans; [exact Hv1|].
  eapply evolves_trans; [exact Ew|]. destruct a; try reflexivity. by apply ev_send_wire.
Qed.

Lemma ev_tick our w now my : is_i64 now -> evolves w (timer_tick our my now w).
Proof.
  intros Hn. unfold timer_tick.
  assert (forall l w, evolves w (foldl (tick_session our my now) w l)) as Hl.
  { induction l as [|h l IH]; intros w0; [reflexivity|]. simpl. eapply evolves_trans; [by apply ev_tick_session|apply IH]. }
  eapply evolves_trans; [apply (Hl (snapshot (table w)))|]. set (w1 := foldl _ w _). clearbody w1.
  eapply evolves_trans; [|by apply ev_idle_probe]. destruct (_ && _); [by apply ev_note_inbound|reflexivity].
Qed.

Lemma ev_kick w now h : is_i64 now -> evolves w (kick_convergence_handshake now w h).
Proof.
  intros Hn. unfold kick_convergence_handshake. destruct (with_tunn w h _) as [w1 a] eqn:Ew. apply ev_with_tunn in Ew.
  eapply evolves_trans; [exact Ew|]. destruct a; try reflexivity. by apply ev_floored.
Qed.

Lemma ev_convergence w now : is_i64 now -> evolves w (convergence_next now w).
Proof.
  intros Hn. unfold convergence_next. destruct (convergence_tx (table w)) as [[|h q]|]; [reflexivity| |reflexivity].
  eapply evolves_trans; [|by apply ev_kick]. split; try done; [apply heap_refl|by left].
Qed.

Lemma ev_shot c h ep w now : evolves w (punch_shot c h ep w now).
Proof.
  unfold punch_shot. destruct (with_tunn w h _) as [w1 a] eqn:Ew. apply ev_with_tunn in Ew. destruct a; try done.
  eapply evolves_trans; [exact Ew|]. eapply evolves_trans; [apply (ev_emit w1 (UdpSend ep bytes))|].
  set (w2 := emit w1 _).
  destruct (get (table w2) h); [|reflexivity]. destruct (negb c); [apply ev_relay_out|reflexivity].
Qed.

Lemma ev_punch `{Externals} w now my event : evolves w (punch now my w event).
Proof.
  unfold punch. destruct (plan_punch _ _ _) as [[h ep]|]; [|reflexivity]. unfold execute_punch.
  destruct (get (table w) h) as [s|]; [|reflexivity]. generalize ((fun i => now + Z.of_nat i * PUNCH_INTERVAL_MICROS) <$> seq 0 PUNCH_BURST).
  generalize (direct_confirmed s). intros c l. revert w. induction l as [|x l IH]; intros w; [reflexivity|].
  simpl. eapply evolves_trans; [apply ev_shot|apply IH].
Qed.
End Relation.

(** ** What an evolution preserves *)

(** Sessions keep who they are and what they may send. *)
Definition same_peer s s' : Prop :=
  peer_id s' = peer_id s /\ ula s' = ula s /\ peer_pubkey s' = peer_pubkey s /\ allowed_ips s' = allowed_ips s.

#[export] Instance same_peer_evolution : Evolution same_peer.
Proof.
  split; try done.
  - intros s1 s2 s3 (A & B & C & D) (A' & B' & C' & D'). unfold same_peer. by rewrite A', B', C', D'.
  - intros. unfold should_probe_direct. by case_match.
  - intros. unfold should_rearm_expired. by case_match.
  - intros. unfold downgrade, downgrade_direct_if_tx_blackholed, downgrade_direct_if_stale.
    repeat case_match; done.
Qed.

(** A property of a session that the elementary writes keep, as a relation. *)
Definition keeps (P : PeerSession -> Prop) s s' : Prop := P s -> P s'.

Lemma evolves_get R w w' h s :
  evolves R w w' -> get (table w) h = Some s -> exists s', get (table w') h = Some s' /\ R s s'.
Proof. intros Hev Hg. by apply (Forall2_lookup_l _ _ _ _ _ (evolves_heap _ _ _ Hev)). Qed.

Lemma wf_evolves w w' : evolves same_peer w w' -> wf_table (table w) -> wf_table (table w').
Proof.
  intros Hev [[A B C] Hr Hh]. split; [split| |].
  - intros u h. rewrite (evolves_ula _ _ _ Hev). intros Hu. destruct (A _ _ Hu) as (s & Hs & <-).
    destruct (evolves_get _ _ _ _ _ Hev Hs) as (s' & Hs' & (_ & ? & _)). by exists s'.
  - intros pk h. rewrite (evolves_pubkey _ _ _ Hev), (evolves_ula _ _ _ Hev). intros Hp.
    destruct (B _ _ Hp) as (s & Hs & <- & Hu).
    destruct (evolves_get _ _ _ _ _ Hev Hs) as (s' & Hs' & (_ & E1 & E2 & _)). exists s'. by rewrite E1.
  - intros a h Ha. rewrite <- (heap_get _ _ _ h (evolves_heap _ _ _ Hev)).
    apply (evolves_endpoint _ _ _ Hev) in Ha as [Ha|Ha]; [by apply (C _ _ Ha)|done].
  - unfold routes_are. by rewrite (evolves_ula _ _ _ Hev), (evolves_routes _ _ _ Hev), (evolves_sink _ _ _ Hev).
  - intros a u. rewrite (evolves_ula _ _ _ Hev), (evolves_routes _ _ _ Hev). apply Hh.
Qed.
End Evolve.
