(* ===== verification/Sources.v ===== *)
(** * What sessions keep through roster changes

    Two families of facts about the operations of the session table that follow the
    roster: a property of sessions that the table's writes keep and new sessions
    have holds of every session that exists; and every app route leads to a session
    that accepts the app's address as a source, so that what the app answers gets
    through. *)

From S2P Require Import Prelude NetAddr AddrText Types PeerSession SessionTable SessionInv.
From S2P Require Import DataPlane CommandGate PeerSync PeerSyncProps Evolve.

Open Scope Z_scope.

Section HeapAll.
Context `{Noise} `{TableOrder}.
Implicit Types (t : SessionTable) (s : PeerSession).

(** A property that does not depend on what the table writes in a session. *)
Class TableClosed (P : PeerSession -> Prop) : Prop := {
  closed_allowed : forall s x, P s -> P (s <| allowed_ips := x |>);
  closed_endpoint : forall s a, P s -> P (s <| endpoint := a |>);
  closed_learned : forall s a b, P s -> P ((s <| endpoint := a |>) <| endpoint_learned := b |>);
  closed_tunn : forall s tn, P s -> P (s <| tunn := tn |>);
}.

Context (P : PeerSession -> Prop) `{!TableClosed P}.

Definition heap_all t : Prop := Forall P (heap t).

Lemma all_modify t h f : (forall s, P s -> P (f s)) -> heap_all t -> heap_all (modify t h f).
Proof. intros Hf. unfold heap_all. simpl. intros Ht. apply Forall_alter; [done|]. intros. by apply Hf. Qed.

Lemma all_replay t u s : P s -> P (replay_app_routes t u s).
Proof.
  unfold replay_app_routes. generalize (iter_ulas (app_routes t)). intros l. revert s.
  induction l as [|kv l IH]; intros s Hs; simpl; [done|]. apply IH. case_bool_decide; [|done].
  by apply closed_allowed.
Qed.

Lemma all_host t a u : heap_all t -> heap_all (host_remote_app_route t a u).
Proof.
  intros Ht. unfold host_remote_app_route. cbn zeta. case_match; [|done].
  apply (all_modify (t <| app_routes := <[a := u]> (app_routes t) |>)); [|done]. intros s. apply closed_allowed.
Qed.
Lemma all_unhost t a : heap_all t -> heap_all (unhost_remote_app_route t a).
Proof.
  intros Ht. unfold unhost_remote_app_route. cbn zeta. destruct (app_routes t !! a) as [u|]; [|done].
  case_match; [|done]. apply (all_modify (t <| app_routes := delete a (app_routes t) |>)); [|done].
  intros s. apply closed_allowed.
Qed.
Lemma all_reconcile t u l : heap_all t -> heap_all (reconcile_app_routes t u l).
Proof.
  intros Ht. unfold reconcile_app_routes. apply (foldl_inv heap_all); [intros; by apply all_unhost|].
  apply (foldl_inv heap_all); [intros; by apply all_host|done].
Qed.

Lemma all_index t a h : heap_all (index_endpoint t a h) <-> heap_all t.
Proof. by destruct a. Qed.
Lemma all_unindex t a : heap_all (unindex_endpoint t a) <-> heap_all t.
Proof. by destruct a. Qed.

Lemma all_update t h s info : heap_all t -> heap_all (update_in_place t h s info).
Proof.
  intros Ht. unfold update_in_place. apply all_modify; [intros; by apply all_replay|].
  destruct (endpoint_learned s); [by apply all_index|]. apply all_modify; [intros; by apply closed_endpoint|].
  apply all_index. case_bool_decide; [by apply all_unindex|done].
Qed.

Lemma all_insert our index t prior info :
  P (session_new our index info) -> heap_all t -> heap_all (insert_session our index t prior info).
Proof.
  intros Hn Ht. unfold insert_session. apply all_index.
  set (t0 := match prior with Some _ => _ | None => t end).
  assert (heap t0 = heap t) as E by (unfold t0; destruct prior as [old|]; [by destruct (endpoint old)|done]).
  destruct (_ && negb (is_ephemeral_peer _)); unfold heap_all; simpl; rewrite E;
    (apply Forall_app; split; [done|]; apply Forall_singleton; destruct prior; [by apply all_replay|done]).
Qed.

Lemma all_upsert our index t info :
  P (session_new our index info) -> heap_all t -> heap_all (upsert our index t info).
Proof.
  intros Hn Ht. unfold upsert. destruct (by_ula t !! i_ula info) as [h|]; simpl; [|by apply all_insert].
  destruct (get _ h); [|by apply all_insert]. case_bool_decide; [by apply all_update|by apply all_insert].
Qed.

Lemma all_remove t u : heap_all t -> heap_all (fst (remove t u)).
Proof.
  intros Ht. unfold remove. destruct (by_ula t !! u) as [h|]; [|done]. cbn [fst].
  set (t1 := match get _ h with Some _ => _ | None => _ end).
  assert (heap t1 = heap t) as E.
  { unfold t1. destruct (get _ h) as [s|]; [|done]. by destruct (endpoint s). }
  destruct (drop_app_routes_eq (app_ulas_for_host t1 u) t1) as (Eh & _).
  unfold heap_all in *. simpl. by rewrite Eh, E.
Qed.

Lemma all_clear t : heap_all t -> heap_all (clear t).
Proof.
  intros Ht. unfold clear, heap_all. simpl.
  apply (foldl_inv heap_all); [by intros t' x _ Ht'|]. by apply (foldl_inv heap_all).
Qed.

Lemma all_rehandshake t our : heap_all t -> heap_all (force_rehandshake_all t our).
Proof.
  intros Ht. unfold force_rehandshake_all. apply (foldl_inv heap_all); [|done].
  intros t' h _ Ht'. apply all_modify; [|done]. intros. by apply closed_tunn.
Qed.
End HeapAll.

(** ** The operations that follow the roster *)

Section HeapRoster.
Context `{Noise} `{TableOrder} `{Externals} `{Signatures}.
Context (P : PeerSession -> Prop) `{!TableClosed P}.

(** What [remote_to_info] lets through yields sessions with the property. *)
Hypothesis new_sessions : forall env r info our index,
  remote_to_info env r = Ok info -> P (session_new our index info).

Lemma all_install our index t env r info :
  remote_to_info env r = Ok info -> heap_all P t -> heap_all P (install our index t info).
Proof. intros Hi Ht. unfold install. apply all_reconcile; [done|]. apply all_upsert; [done| |done]. by eapply new_sessions. Qed.

Lemma roster_infos_in env remote info :
  info ∈ roster_infos env remote -> exists r, r ∈ remote /\ remote_to_info env r = Ok info.
Proof.
  intros (r & Hr & Hi)%list_elem_of_omap. exists r. split; [done|]. destruct (remote_to_info env r); [by injection Hi as ->|done].
Qed.

Lemma all_reconcile_roster env our t remote : heap_all P t -> heap_all P (reconcile_roster env our t remote).
Proof.
  intros Ht. unfold reconcile_roster. apply (foldl_inv (heap_all P)).
  { intros t' u _ Ht'. case_bool_decide; [done|by apply all_remove]. }
  unfold install_all. apply (foldl_inv (heap_all P)); [|done]. intros t' [i info] Hin Ht'. simpl.
  apply elem_of_lookup_imap in Hin as (k & x & [= -> ->] & Hx). apply list_elem_of_lookup_2 in Hx.
  apply roster_infos_in in Hx as (r & _ & Hr). by eapply all_install.
Qed.

Lemma all_event `{EventData} env our t q kind data :
  heap_all P t -> heap_all P (fst (apply_event env our t q kind data)).
Proof.
  intros Ht. destruct kind; simpl.
  1,2: destruct (remote_of_json data) as [r|]; [|done]; destruct (remote_to_info env r) eqn:Er; [|done];
    simpl; by eapply all_install.
  - destruct (removed_of_json data) as [id|]; [|done]. simpl. apply (foldl_inv (heap_all P)); [|done].
    intros t' u _ Ht'. unfold remove_if_still. case_match; [|done]. case_bool_decide; [by apply all_remove|done].
  - by destruct q, (punch_of_json data).
  - unfold apply_relay_wake. destruct (wake_of_json data ≫= parse_ipv6); [|done]. simpl. unfold request_convergence_kick. by case_match.
Qed.

Lemma all_tick env our now post strict requested writes reply st :
  heap_all P (sessions st) -> heap_all P (sessions (tick_once env our now post strict requested writes reply st)).
Proof.
  intros Ht. unfold tick_once.
  assert (forall effects st, heap_all P (sessions st) -> heap_all P (sessions (foldl (run_effect our) st effects))) as He.
  { intros effects st0 H0'. apply (foldl_inv (fun st => heap_all P (sessions st))); [|done].
    intros st' e _ Hs. destruct e; try done. simpl. by apply all_rehandshake. }
  destruct reply as [resp|[s|]].
  - pose proof (all_reconcile_roster env our (sessions st) (hb_peers resp) Ht) as Hr.
    case_bool_decide; [done|]. destruct (process_commands _ _ _ _) as [[g effects] acks]. simpl. by apply He.
  - assert (heap_all P (sessions (st <| pending_acks := [] |>))) as Ht' by done.
    destruct (decide (s = 404)) as [->|Hne].
    + simpl. destruct (handling_roster_loss st); [done|]. unfold reregister_after_roster_loss.
      destruct (register_with_409_fallback post strict requested); [|done]. simpl. by apply all_reconcile_roster.
    + cbv beta zeta iota. rewrite (not_404 (HttpStatus s)) by congruence. by destruct (pending_acks st).
  - by destruct (pending_acks st).
Qed.
End HeapRoster.

(** ** Apps are accepted from their hosts *)

Section AppSources.
Context `{Noise} `{TableOrderLaws}.
Implicit Types (t : SessionTable) (s : PeerSession).

(** Every app route leads to a live session that accepts the app as a source. *)
Definition wf_sources t : Prop :=
  forall a u h s, app_routes t !! a = Some u -> by_ula t !! u = Some h -> get t h = Some s -> a ∈ allowed_ips s.

(** The same routes and addresses, and sessions that accept at least as much. *)
Lemma sources_grow t t' :
  wf_sources t -> app_routes t' = app_routes t -> by_ula t' = by_ula t ->
  (forall h s', get t' h = Some s' -> exists s, get t h = Some s /\ allowed_ips s ⊆ allowed_ips s') ->
  wf_sources t'.
Proof.
  intros Hs Ea Eu Hg a u h s'. rewrite Ea, Eu. intros Ha Hu (s & Hs0 & Hsub)%Hg. apply Hsub. by eapply Hs.
Qed.

Lemma modify_grows t h f j s' :
  (forall s, allowed_ips s ⊆ allowed_ips (f s)) -> get (modify t h f) j = Some s' ->
  exists s, get t j = Some s /\ allowed_ips s ⊆ allowed_ips s'.
Proof.
  intros Hf. rewrite get_modify. case_decide as E; [subst|by exists s'].
  intros (s & Hg & ->)%fmap_Some. by exists s.
Qed.

Lemma sources_host t a u : wf_index t -> wf_sources t -> wf_sources (host_remote_app_route t a u).
Proof.
  intros Hi Hs b v j s'. rewrite app_host_one, by_ula_host. unfold host_remote_app_route. cbn zeta.
  change (by_ula (t <| app_routes := <[a := u]> (app_routes t) |>)) with (by_ula t).
  destruct (by_ula t !! u) as [h|] eqn:Eu.
  - change (get (sink ?x ?c) j) with (get x j). rewrite get_modify.
    change (get (t <| app_routes := <[a := u]> (app_routes t) |>)) with (get t).
    case_decide as Eb; [intros [= <-] Hv|intros Hb Hv].
    + assert (j = h) as -> by congruence. rewrite decide_True by done. intros (s & Hg & ->)%fmap_Some.
      subst. simpl. set_solver.
    + case_decide as Ej; [|by eapply Hs]. intros (s & Hg & ->)%fmap_Some. subst j. simpl.
      apply elem_of_union_r. by eapply Hs.
  - case_decide as Eb; [intros [= <-] Hv; congruence|]. intros Hb Hv. by eapply Hs.
Qed.

Lemma sources_unhost t a : wf_index t -> wf_sources t -> wf_sources (unhost_remote_app_route t a).
Proof.
  intros Hi Hs b v j s'. rewrite app_unhost_one, by_ula_unhost. case_decide as Eb; [done|].
  intros Hb Hv. unfold unhost_remote_app_route. cbn zeta. destruct (app_routes t !! a) as [u|] eqn:Ea; [|by eapply Hs].
  change (by_ula (t <| app_routes := delete a (app_routes t) |>)) with (by_ula t).
  destruct (by_ula t !! u) as [h|] eqn:Eu; [|by eapply Hs].
  change (get (sink ?x ?c) j) with (get x j). rewrite get_modify. case_decide as Ej; [|by eapply Hs].
  intros (s & Hg & ->)%fmap_Some. subst j. simpl. apply elem_of_difference. split; [|set_solver]. by eapply Hs.
Qed.

Lemma sources_reconcile t u l :
  is_Some (by_ula t !! u) -> wf_table t -> wf_sources t -> wf_sources (reconcile_app_routes t u l).
Proof.
  intros Hu Ht Hs. unfold reconcile_app_routes.
  assert (wf_table (foldl (fun t a => host_remote_app_route t a u) t l)
          /\ wf_sources (foldl (fun t a => host_remote_app_route t a u) t l)) as [Hw1 Hs1].
  { apply (foldl_inv (fun t' => is_Some (by_ula t' !! u) /\ wf_table t' /\ wf_sources t')); [|done].
    intros t' a _ (Hu' & Ht' & Hs'). rewrite by_ula_host. split_and!; [done|by apply wf_host|].
    apply sources_host; [apply Ht'|done]. }
  apply (foldl_inv (fun t' => wf_table t' /\ wf_sources t')); [|done].
  intros t' a _ [Ht' Hs']. split; [by apply wf_unhost|]. apply sources_unhost; [apply Ht'|done].
Qed.

Lemma replay_allowed t u s :
  allowed_ips s ⊆ allowed_ips (replay_app_routes t u s)
  /\ (forall a, app_routes t !! a = Some u -> a ∈ allowed_ips (replay_app_routes t u s)).
Proof.
  assert (forall l s, allowed_ips s ⊆ allowed_ips (foldl (fun s kv => if bool_decide (kv.2 = u) then add_allowed_source s kv.1 else s) s l)
    /\ forall a, (a, u) ∈ l -> a ∈ allowed_ips (foldl (fun s (kv : Ipv6Addr * Ipv6Addr) => if bool_decide (kv.2 = u) then add_allowed_source s kv.1 else s) s l)) as Hl.
  { induction l as [|[b v] l IH]; intros s0; simpl; [split; [done|]; intros a Ha; by apply elem_of_nil in Ha|].
    destruct (IH (if bool_decide (v = u) then add_allowed_source s0 b else s0)) as [A B]. split.
    - etrans; [|exact A]. case_bool_decide; [simpl; set_solver|done].
    - intros a [[= -> ->]|Ha]%elem_of_cons; [|by apply B]. apply A. rewrite bool_decide_eq_true_2 by done. simpl. set_solver. }
  destruct (Hl (iter_ulas (app_routes t)) s) as [A B]. split; [done|]. intros a Ha. apply B.
  rewrite iter_ulas_perm. by apply elem_of_map_to_list.
Qed.

Lemma sources_update t h s info : wf_sources t -> wf_sources (update_in_place t h s info).
Proof.
  intros Hs. destruct (update_in_place_routes t h s info) as (Eu & Ea & _). apply (sources_grow t _ Hs Ea Eu).
  intros j s'. unfold update_in_place. intros (s1 & Hg1 & Hsub)%modify_grows; [|intros; apply replay_allowed].
  destruct (endpoint_learned s).
  - rewrite get_index in Hg1. by exists s1.
  - apply modify_grows in Hg1 as (s2 & Hg2 & Hsub2); [|done]. rewrite get_index in Hg2. exists s2.
    split; [|by etrans]. case_bool_decide; [by rewrite get_unindex in Hg2|done].
Qed.

Lemma sources_insert our index t prior info :
  wf_table t -> prior = by_ula t !! i_ula info ≫= get t -> wf_sources t ->
  wf_sources (insert_session our index t prior info).
Proof.
  intros Ht Hp Hs a u h s'. destruct (insert_session_routes our index t prior info) as (-> & -> & _).
  destruct (get_insert our index t prior info) as [Hold _]. intros Ha. rewrite lookup_insert_Some.
  intros [[<- <-]|[Hne Hu]] Hg.
  - destruct (table_hosts _ Ht _ _ Ha) as [h Hh]. destruct (wf_ula _ (table_index _ Ht) _ _ Hh) as (old & Hgo & _).
    rewrite Hh in Hp. simpl in Hp. rewrite Hgo in Hp. subst prior.
    assert (s' = replay_app_routes (after_prior t (Some old)) (i_ula info) (session_new our index info)) as ->.
    { unfold insert_session in Hg. rewrite get_index in Hg. unfold get in Hg. cbn [negb andb] in Hg. simpl in Hg.
      assert (heap (unindex_endpoint t (endpoint old)) = heap t) as E by by destruct (endpoint old).
      rewrite E, lookup_app_r, Nat.sub_diag in Hg by lia. by injection Hg as <-. }
    apply replay_allowed. by destruct (after_prior_same t (Some old)) as (_ & _ & _ & ->).
  - destruct (wf_ula _ (table_index _ Ht) _ _ Hu) as (s & Hg' & _). rewrite (Hold _ _ Hg') in Hg.
    injection Hg as <-. by eapply Hs.
Qed.

Lemma sources_upsert our index t info : wf_table t -> wf_sources t -> wf_sources (upsert our index t info).
Proof.
  intros Ht Hs. set (t1 := sink t (add_allowed (i_ula info))).
  assert (wf_sources t1) as Hs1 by exact Hs. unfold upsert. fold t1.
  assert (forall prior, prior = by_ula t !! i_ula info ≫= get t -> wf_sources (insert_session our index t1 prior info)) as Hins.
  { intros prior Hp a u h s. destruct (insert_session_routes our index t1 prior info) as (_ & _ & _).
    pose proof (sources_insert our index t prior info Ht Hp Hs a u h s) as Hx.
    destruct (insert_session_routes our index t prior info) as (E1 & E2 & _).
    destruct (insert_session_routes our index t1 prior info) as (E3 & E4 & _). rewrite E1, E2 in Hx. rewrite E3, E4.
    assert (get (insert_session our index t1 prior info) h = get (insert_session our index t prior info) h) as ->; [|done].
    unfold insert_session. rewrite !get_index. destruct prior as [old|]; [by destruct (endpoint old)|].
    destruct (true && _); done. }
  destruct (by_ula t !! i_ula info) as [h|] eqn:Eu; simpl; [|by apply Hins].
  change (get t1 h) with (get t h). destruct (get t h) as [old|] eqn:Eg; [|apply Hins; simpl; by rewrite ?Eg].
  case_bool_decide; [by apply sources_update|]. apply Hins. simpl. by rewrite ?Eg.
Qed.

Lemma sources_remove t u : wf_index t -> wf_sources t -> wf_sources (fst (remove t u)).
Proof.
  intros Hi Hs a v h s. destruct (remove_eq t u Hi) as [Eu Eh]. unfold get. rewrite Eu, Eh, lookup_delete_Some.
  intros Ha [_ Hv] Hg. assert (app_routes t !! a = Some v) as Ha'; [|by eapply Hs].
  revert Ha. unfold remove. destruct (by_ula t !! u) as [j|]; [|done]. cbn [fst].
  set (t1 := match get _ j with Some _ => _ | None => _ end).
  assert (app_routes t1 = app_routes t) as E.
  { unfold t1. destruct (get _ j) as [s0|]; [|done]. by destruct (endpoint s0). }
  destruct (drop_app_routes_eq (app_ulas_for_host t1 u) t1) as (_ & _ & _ & _ & Hd & _).
  simpl. rewrite Hd, E. tauto.
Qed.

Lemma sources_clear t : wf_sources (clear t).
Proof. intros a u h s. unfold clear. simpl. by rewrite lookup_empty. Qed.

Lemma sources_evolves w w' : evolves same_peer w w' -> wf_sources (table w) -> wf_sources (table w').
Proof.
  intros Hev Hs. apply (sources_grow _ _ Hs (evolves_routes _ _ _ Hev) (evolves_ula _ _ _ Hev)).
  intros h s' Hg. destruct (Forall2_lookup_r _ _ _ _ _ (evolves_heap _ _ _ Hev) Hg) as (s & Hg' & (_ & _ & _ & E)).
  exists s. split; [done|]. by rewrite E.
Qed.
End AppSources.
