(* ===== verification/Joiner.v ===== *)
(** * The joiner as a state machine

    All that a running joiner does, as one step relation: datagrams, relay frames,
    packets from the host, ticks, kicks, punches, events of the peer stream,
    heartbeats, the draining of the relay lanes and leaving, in any order and with
    any results of the libraries and the network; and the single calls on the session
    table that events and heartbeats consist of, when those of two tasks mix. *)

From S2P Require Import Prelude NetAddr AddrText Types PeerSession SessionTable SessionInv.
From S2P Require Import DataPlane CommandGate PeerSync PeerSyncProps DataPlaneProps RelayClient Evolve Sources.

Open Scope Z_scope.

Section Joiner.
Context `{Noise} `{TableOrderLaws} `{Externals} `{Signatures} `{EventData}.

(** The heartbeat task owns the session table; the queue of the puncher; the
    counter of denied packets; and what has left the joiner. *)
Record Joiner := mkJoiner {
  task : HeartbeatState;
  punch_rx : list HolePunchInitiate;
  denied : Z;
  sent : list Output;
}.
#[export] Instance eta_Joiner : Eta Joiner := fun j => mkJoiner (task j) (punch_rx j) (denied j) (sent j).

Definition net (j : Joiner) : World := mkWorld (sessions (task j)) (denied j) (sent j).
Definition with_net (j : Joiner) (w : World) : Joiner :=
  mkJoiner ((task j) <| sessions := table w |>) (punch_rx j) (rx_source_denied w) (out w).

Definition on_table (j : Joiner) (f : SessionTable -> SessionTable) : Joiner :=
  j <| task := (task j) <| sessions := f (sessions (task j)) |> |>.

(** The key pair's secret half, the node's own address and the join options. *)
Context (our_private : StaticSecret) (my_ula : Ipv6Addr) (strict : bool) (requested_ula : option string).

Inductive joiner_step (j : Joiner) : Joiner -> Prop :=
| step_udp fuel now addr datagram w :
    is_i64 now -> udp_recv fuel now (net j) addr datagram = Some w -> joiner_step j (with_net j w)
| step_relay fuel now buf w :
    is_i64 now -> handle_inbound fuel now (net j) buf = Some w -> joiner_step j (with_net j w)
| step_tun now packet : is_i64 now -> joiner_step j (with_net j (tun_read now my_ula (net j) packet))
| step_timer now : is_i64 now -> joiner_step j (with_net j (timer_tick our_private my_ula now (net j)))
| step_convergence now : is_i64 now -> joiner_step j (with_net j (convergence_next now (net j)))
| step_punch now ev q :
    punch_rx j = ev :: q ->
    joiner_step j (with_net (j <| punch_rx := q |>) (punch now (shared_peer_id (task j)) (net j) ev))
| step_lane l o w : recv_outbound l (net j) = Some (o, w) -> joiner_step j (with_net j w)
| step_event env kind data t q :
    apply_event env our_private (sessions (task j)) (Some (punch_rx j)) kind data = (t, Some q) ->
    joiner_step j ((j <| task := (task j) <| sessions := t |> |>) <| punch_rx := q |>)
| step_heartbeat env now post writes reply :
    joiner_step j (j <| task := tick_once env our_private now post strict requested_ula writes reply (task j) |>)
(** One call of an event or a heartbeat in progress, between which other tasks have their
    turns. The app routes of a peer are set after its [upsert], while it is live. *)
| step_upsert env index r info :
    remote_to_info env r = Ok info -> joiner_step j (on_table j (fun t => upsert our_private index t info))
| step_app_routes u l :
    is_Some (by_ula (sessions (task j)) !! u) -> joiner_step j (on_table j (fun t => reconcile_app_routes t u l))
| step_remove u : joiner_step j (on_table j (fun t => fst (remove t u)))
| step_reset h : joiner_step j (on_table j (fun t => modify t h (fun s => reset_handshake s our_private)))
| step_leave : joiner_step j (j <| task := (task j) <| sessions := clear (sessions (task j)) |> |>).

(** A joiner that has just registered: its table holds the roster of the answer
    ([seed_initial_roster] is the installing half of [reconcile_roster]). *)
Definition joined (env : Surroundings) (r : option RelayHandle) (gate : CommandGate) (id : Uuid)
    (roster : list RemotePeer) : Joiner :=
  mkJoiner (mkHeartbeatState
      (install_all env our_private (with_convergence_tx (with_route_sink_and_relay r)) (roster_infos env roster))
      id false [] gate []) [] 0 [].

Inductive reachable : Joiner -> Prop :=
| reach_start env r gate id roster : reachable (joined env r gate id roster)
| reach_step j j' : reachable j -> joiner_step j j' -> reachable j'.

(** ** Invariants by steps *)

(** An invariant of the table holds in every reachable state when the operations that
    follow the roster keep it and every evolution of sessions does. *)
Lemma reachable_table (I : SessionTable -> Prop) :
  (forall t, I t -> wf_table t) ->
  (forall env r roster, I (install_all env our_private (with_convergence_tx (with_route_sink_and_relay r)) (roster_infos env roster))) ->
  (forall w w', (forall R, Evolution R -> evolves R w w') -> I (table w) -> I (table w')) ->
  (forall l w o w', recv_outbound l w = Some (o, w') -> I (table w) -> I (table w')) ->
  (forall env t q kind data, I t -> I (fst (apply_event env our_private t q kind data))) ->
  (forall env now post writes reply st, I (sessions st) ->
     I (sessions (tick_once env our_private now post strict requested_ula writes reply st))) ->
  (forall env index t r info, remote_to_info env r = Ok info -> I t -> I (upsert our_private index t info)) ->
  (forall t u l, is_Some (by_ula t !! u) -> I t -> I (reconcile_app_routes t u l)) ->
  (forall t u, I t -> I (fst (remove t u))) ->
  (forall t h, I t -> I (modify t h (fun s => reset_handshake s our_private))) ->
  (forall t, I t -> I (clear t)) ->
  forall j, reachable j -> I (sessions (task j)).
Proof.
  intros Hwf Hstart Hev Hlane Hevent Htick Hupsert Hroutes Hremove Hreset Hclear j Hr. induction Hr as [|j j' Hr IH Hstep]; [apply Hstart|].
  pose proof (Hwf _ IH) as Hw. change (wf_table (table (net j))) in Hw. change (I (table (net j))) in IH.
  destruct Hstep as [fuel now addr d w Hn Hu|fuel now buf w Hn Hu|now p Hn|now Hn|now Hn|now ev q Hq|l o w Ho
    |env kind data t q He|env now post writes reply|env index r info Hi|u l Hu|u|h|].
  - apply (Hev (net j)); [|done]. intros R HR. by eapply ev_udp.
  - apply (Hev (net j)); [|done]. intros R HR. by eapply ev_inbound.
  - apply (Hev (net j)); [|done]. intros R HR. by apply ev_tun.
  - apply (Hev (net j)); [|done]. intros R HR. by apply ev_tick.
  - apply (Hev (net j)); [|done]. intros R HR. by apply ev_convergence.
  - apply (Hev (net j)); [|done]. intros R HR. by apply ev_punch.
  - by eapply Hlane.
  - pose proof (Hevent env _ (Some (punch_rx j)) kind data IH) as He'. simpl in He'. rewrite He in He'. exact He'.
  - by apply Htick.
  - by eapply Hupsert.
  - by apply Hroutes.
  - by apply Hremove.
  - by apply Hreset.
  - by apply Hclear.
Qed.

(** ** The table stays consistent *)

Definition consistent t : Prop := wf_table t /\ wf_sources t.

Lemma consistent_upsert our index t info : consistent t -> consistent (upsert our index t info).
Proof. intros [Hw Hs]. split; [by apply wf_upsert|by apply sources_upsert]. Qed.

Lemma consistent_routes t u l : is_Some (by_ula t !! u) -> consistent t -> consistent (reconcile_app_routes t u l).
Proof. intros Hu [Hw Hs]. split; [by apply wf_reconcile|by apply sources_reconcile]. Qed.

Lemma consistent_install our index t info : consistent t -> consistent (install our index t info).
Proof.
  intros Ht. apply consistent_routes; [apply upsert_live|by apply consistent_upsert].
Qed.

Lemma consistent_remove t u : consistent t -> consistent (fst (remove t u)).
Proof. intros [Hw Hs]. split; [by apply wf_remove|]. apply sources_remove; [apply Hw|done]. Qed.

Lemma consistent_install_all env our t infos : consistent t -> consistent (install_all env our t infos).
Proof. intros Ht. apply (install_all_inv (fun _ => consistent)); [done|]. intros. by apply consistent_install. Qed.

Lemma consistent_reconcile env our t remote : consistent t -> consistent (reconcile_roster env our t remote).
Proof.
  intros Ht. unfold reconcile_roster. apply foldl_inv; [|by apply consistent_install_all].
  intros t' u _ Ht'. case_bool_decide; [done|by apply consistent_remove].
Qed.

Lemma consistent_evolves w w' : evolves same_peer w w' -> consistent (table w) -> consistent (table w').
Proof. intros Hev [Hw Hs]. split; [by eapply wf_evolves|by eapply sources_evolves]. Qed.

Lemma consistent_same t t' :
  heap t' = heap t -> by_ula t' = by_ula t -> by_endpoint t' = by_endpoint t -> by_pubkey t' = by_pubkey t ->
  app_routes t' = app_routes t -> route_sink t' = route_sink t -> consistent t -> consistent t'.
Proof.
  destruct t, t'; simpl; intros -> -> -> -> -> -> [[[A B C] D E] F]. by split; [split; [split| |]|].
Qed.

Lemma consistent_event env our t q kind data : consistent t -> consistent (fst (apply_event env our t q kind data)).
Proof.
  intros Ht. destruct kind; simpl.
  1,2: destruct (remote_of_json data) as [r|]; [|done]; destruct (remote_to_info env r); [|done];
    simpl; by apply consistent_install.
  - destruct (removed_of_json data) as [id|]; [|done]. simpl. apply foldl_inv; [|done].
    intros t' u _ Ht'. unfold remove_if_still. case_match; [|done]. case_bool_decide; [by apply consistent_remove|done].
  - by destruct q, (punch_of_json data).
  - unfold apply_relay_wake. destruct (wake_of_json data ≫= parse_ipv6); [|done]. simpl. unfold request_convergence_kick.
    case_match; [|done]. by apply (consistent_same t).
Qed.

Lemma consistent_reset t our h : consistent t -> consistent (modify t h (fun s => reset_handshake s our)).
Proof.
  apply (consistent_evolves (mkWorld t 0 []) (mkWorld (modify t h (fun s => reset_handshake s our)) 0 [])).
  by apply (ev_upd same_peer (mkWorld t 0 []) h).
Qed.

Lemma consistent_rehandshake t our : consistent t -> consistent (force_rehandshake_all t our).
Proof.
  intros Ht. unfold force_rehandshake_all. apply foldl_inv; [|done]. intros t' h _.
  apply consistent_reset.
Qed.

Lemma consistent_tick env our now post writes reply st :
  consistent (sessions st) -> consistent (sessions (tick_once env our now post strict requested_ula writes reply st)).
Proof.
  intros Ht. unfold tick_once.
  assert (forall effects st, consistent (sessions st) -> consistent (sessions (foldl (run_effect our) st effects))) as He.
  { intros effects st0 Hst. apply (foldl_inv (fun st => consistent (sessions st))); [|done].
    intros st' e _ Hs. destruct e; try done. by apply consistent_rehandshake. }
  destruct reply as [resp|[s|]].
  - pose proof (consistent_reconcile env our (sessions st) (hb_peers resp) Ht) as Hr.
    case_bool_decide; [done|]. destruct (process_commands _ _ _ _) as [[g effects] acks]. simpl. by apply He.
  - destruct (decide (s = 404)) as [->|Hne].
    + simpl. destruct (handling_roster_loss st); [done|]. unfold reregister_after_roster_loss.
      destruct (register_with_409_fallback post strict requested_ula); [|done]. by apply consistent_reconcile.
    + cbv beta zeta iota. rewrite (not_404 (HttpStatus s)) by congruence. by destruct (pending_acks st).
  - by destruct (pending_acks st).
Qed.

Lemma consistent_lane l w o w' : recv_outbound l w = Some (o, w') -> consistent (table w) -> consistent (table w').
Proof.
  unfold recv_outbound. destruct (relay (table w)) as [r|]; [|done]. destruct (lane_queue l r); [done|].
  intros [= _ <-]. by apply (consistent_same (table w)).
Qed.

Lemma consistent_start env r roster :
  consistent (install_all env our_private (with_convergence_tx (with_route_sink_and_relay r)) (roster_infos env roster)).
Proof.
  apply consistent_install_all. apply (consistent_same (with_route_sink_and_relay r)); try done.
Qed.

(** C9: In whatever order the joiner's tasks make their calls, its session table stays
    consistent. Datagrams, relay frames, packets, ticks, kicks and punches are taken
    one at a time; events of the stream and heartbeats may be taken whole or call by
    call (an [upsert], the setting of a live peer's app routes, a [remove], the reset of
    a session), with anything else in between. What is not covered is two tasks inside
    one such call, where two [upsert]s of the same new peer break this, and a peer that
    is removed between its [upsert] and the setting of its app routes, which then stay.
    Consistent means: each address and each key leads to a live session with that very
    address and key, every address of the demultiplexer to a session that exists,
    every app route to a live peer that is allowed to answer for the app, and the
    kernel routes asked for are exactly those of the live peers and routed apps. *)
Theorem joiner_invariant j : reachable j -> wf_table (sessions (task j)) /\ wf_sources (sessions (task j)).
Proof.
  apply (reachable_table consistent).
  - by intros t [Hw _].
  - apply consistent_start.
  - intros w w' Hev. by apply consistent_evolves, Hev, _.
  - apply consistent_lane.
  - intros. by apply consistent_event.
  - intros. by apply consistent_tick.
  - intros. by apply consistent_upsert.
  - intros. by apply consistent_routes.
  - intros. by apply consistent_remove.
  - intros. by apply consistent_reset.
  - intros t [Hw _]. split; [by apply wf_clear|apply sources_clear].
Qed.
End Joiner.
