(* ===== verification/Mesh.v ===== *)
(** * The coordinator and a whole joiner

    The coordinator's steps ([System.v]) and the joiner's ([Joiner.v]) interleaved, with
    the heartbeats, the registrations and the leaving of the joiner as exchanges
    between the two; every request or answer may be lost. *)

From S2P Require Import Json Wire.
From S2P Require Import Prelude NetAddr AddrText Types Policy RelayFrame Reflexive Auth RosterStore Allocator HolePunch DirectFlags.
From S2P Require Import RelayRegistry Coordinator Apply Registration Heartbeat CoordInv Membership Joining RelayRoute Topology Stream Api ApiProps System.
From S2P Require Import PeerSession SessionTable SessionInv CommandGate PeerSync PeerSyncProps DataPlane DataPlaneProps Client EndToEnd.
From S2P Require Import HeartbeatLoop RelayClient Evolve Sources Joiner.

Open Scope Z_scope.

Section Mesh.
Context {EX : Externals} {EXL : ExternalLaws} {IT : Iteration} {ITL : IterationLaws}
  {RS : RosterSerde} {CH : Channels} {CS : ClaimsSerde} {UC : UrlCodec} {PS : PolicySerde} {HC : HeaderCodec}.
Context {NO : Noise} {TO : TableOrder} {TOL : TableOrderLaws} {SG : Signatures} {ED : EventData} {JT : JsonText}.

(** ** Exchanges *)

(** A request is lost on its way, or served, and then the answer may be lost. *)
Inductive exchange : ApiState -> Request -> HttpAnswer -> ApiState -> Prop :=
| exchange_lost a req : exchange a req NoAnswer a
| exchange_served env a peer headers req a' resp answer :
    roster (coordinator a) !! fresh_id env = None ->
    serve env a peer headers req = Some (a', resp) ->
    answer = answer_of resp \/ answer = NoAnswer ->
    exchange a req answer a'.

(** Registrations one after the other, the [n]th being the first. *)
Inductive exchanges (answers : nat -> HttpAnswer) : nat -> ApiState -> list RegisterRequest -> ApiState -> Prop :=
| exchanges_nil n a : exchanges answers n a [] a
| exchanges_cons n a req reqs token_check a1 a2 :
    exchange a (PostRegister req token_check) (answers n) a1 ->
    exchanges answers (S n) a1 reqs a2 ->
    exchanges answers n a (req :: reqs) a2.

(** ** Steps *)

(** How far the joiner has left ([Joiner::leave]): its deregistration has been answered,
    the shutdown signal is set, its tasks are gone. *)
Inductive Phase := Attached | Deregistered | Signalled | Gone.

Record Mesh := mkMesh {
  served : ApiState;
  node : Joiner;
  beating : bool;         (** the heartbeat task has not panicked *)
  phase : Phase;
  posted : list Post;
}.
#[export] Instance eta_Mesh : Eta Mesh := fun m => mkMesh (served m) (node m) (beating m) (phase m) (posted m).

Context (beats : HeartbeatTask) (my_ula : Ipv6Addr).
Definition node_step : Joiner -> Joiner -> Prop :=
  joiner_step (our_private beats) my_ula (strict_requested_ula (reregister beats)) (requested_ula (reregister beats)).

(** The loop looks at the signal first, so it does not tick once it is set. *)
Definition ticking (m : Mesh) : bool :=
  beating m && match phase m with Attached | Deregistered => true | Signalled | Gone => false end.

(** The coordinator gives [id] to a registration. *)
Definition issues (id : Uuid) (a a' : ApiState) : Prop :=
  exists env peer headers req token_check resp,
    serve env a peer headers (PostRegister req token_check) = Some (a', resp) /\ fresh_id env = id.

(** What happens besides the exchanges: the coordinator serves others and sweeps,
    issuing new ids other than [id]; the joiner's other tasks work. *)
Inductive background (id : Uuid) (m : Mesh) : Mesh -> Prop :=
| mesh_coordinator a' :
    step (served m) a' -> ~ issues id (served m) a' -> background id m (m <| served := a' |>)
| mesh_node j' :
    node_step (node m) j' -> task j' = (task (node m)) <| sessions := sessions (task j') |> ->
    background id m (m <| node := j' |>).

Inductive mesh_step (id : Uuid) (m : Mesh) : Mesh -> Prop :=
| mesh_background m' : background id m m' -> mesh_step id m m'
| mesh_beat p a1 a2 st posts :
    ticking m = true ->
    exchange (served m) (PostHeartbeat (beat_body beats p (task (node m)))) (beat_answer p) a1 ->
    tick beats p (task (node m)) = Some (st, posts) ->
    exchanges (register_answers p) 0 a1 (registrations posts) a2 ->
    mesh_step id m (mkMesh a2 ((node m) <| task := st |>) (beating m) (phase m) (posted m ++ posts))
| mesh_crash p a1 :
    ticking m = true ->
    exchange (served m) (PostHeartbeat (beat_body beats p (task (node m)))) (beat_answer p) a1 ->
    tick beats p (task (node m)) = None ->
    mesh_step id m (mkMesh a1 (node m) false (phase m) (posted m ++ [PostedHeartbeat (beat_body beats p (task (node m)))]))
| mesh_deregister answer a1 :
    phase m = Attached ->
    exchange (served m) (PostDeregister (deregister_body (shared_peer_id (task (node m))))) answer a1 ->
    is_Some (deregister_outcome answer) ->
    mesh_step id m ((m <| served := a1 |>) <| phase := Deregistered |>)
| mesh_signal : phase m = Deregistered -> mesh_step id m (m <| phase := Signalled |>)
| mesh_gone :
    phase m = Signalled ->
    mesh_step id m ((m <| phase := Gone |>) <| node := (node m) <| task := (task (node m)) <| sessions := clear (sessions (task (node m))) |> |> |>).

(** ** Who comes back *)

(** A step of the coordinator makes a member of an id that had none only by registering
    it under that fresh id. *)
Lemma step_readmits a a' id :
  system_inv a -> step a a' -> roster (coordinator a) !! id = None -> is_Some (roster (coordinator a') !! id) ->
  issues id a a'.
Proof.
  intros (Hw & _) Hs Hn [e' He']. destruct Hs as [o Hs]; destruct Hs as [env a peer headers req a' resp Hid Hs|env a pk lane tx Hl|env a pk buf|a pk lane i|env a].
  - assert ((exists r t, req = PostRegister r t) \/ (forall r t, req <> PostRegister r t)) as [(r & t & ->)|Hne]
      by (destruct req; eauto).
    2: { destruct (other_requests_keep_identity _ _ _ _ _ _ _ Hw Hs Hne _ _ He') as (e & He & _). congruence. }
    exists env, peer, headers, r, t, resp. split; [done|].
    simpl in Hs. apply fmap_Some in Hs as ([s' resp'] & Hreg & [= -> _]). unfold register_handler in Hreg.
    apply bind_Some in Hreg as ([s1 [[entry outcome]|er]] & Hr & [= <- _]).
    + destruct (register_Ok_effect _ _ _ _ _ _ _ _ _ Hw Hid Hr) as (_ & _ & Hk & Hold).
      destruct (decide (id = Types.peer_id entry)) as [->|Hne].
      * destruct Hk as [[x Hx]|Hk]; [congruence|done].
      * apply Hold in He'; [congruence|done].
    + destruct (refused_join_admits_nobody _ _ _ _ _ _ _ _ Hw Hr) as (Hsub & _).
      simpl in He'. pose proof (lookup_weaken _ _ _ _ He' Hsub). congruence.
  - simpl in He'. congruence.
  - simpl in He'. destruct (route_uplink_frame env (coordinator a) pk buf) as (Hr & _). rewrite Hr in He'. congruence.
  - simpl in He'. congruence.
  - simpl in He'. pose proof (lookup_weaken _ _ _ _ He' (sweep_shrinks _ _)). congruence.
Qed.

Lemma exchange_inv a req answer a' :
  system_inv a -> exchange a req answer a' -> system_inv a'.
Proof.
  intros Hi Hx. destruct Hx as [|env b peer headers r b' resp ans Hid Hs _]; [done|].
  eapply system_inv_step; [exact Hi|]. by eexists; econstructor.
Qed.

Lemma served_deregister env a peer headers id a' resp :
  serve env a peer headers (PostDeregister (deregister_body id)) = Some (a', resp) ->
  roster (coordinator a') !! id = None.
Proof.
  simpl. unfold deregister_handler. simpl. rewrite uuid_parse_to_string. intros [= <- _]. simpl.
  rewrite deregister_roster. by rewrite decide_True.
Qed.

(** A heartbeat under an id the coordinator does not have changes nothing, and no answer
    to it is a roster; it is a 404 or unreadable. *)
Lemma unknown_beat a id st p answer a' :
  roster (coordinator a) !! id = None -> shared_peer_id st = id ->
  exchange a (PostHeartbeat (beat_body beats p st)) answer a' ->
  a' = a /\ forall reply, ensure_success heartbeat_of_json answer = Some reply ->
    is_ok reply = false.
Proof.
  intros Hn Hi Hx. inversion Hx as [|env b peer headers r b' resp ans Hid Hs Hans]; subst; [split; [done|by intros ? [= <-]]|].
  simpl in Hs. rewrite (heartbeat_unknown _ _ _ _ (shared_peer_id st)) in Hs; [|apply uuid_parse_to_string|done].
  injection Hs as <- <-. split; [by destruct a|]. intros reply.
  destruct Hans as [-> | ->]; [|by intros [= <-]]. unfold answer_of, ensure_success. simpl.
  destruct (body_excerpt_text _); [|done]. by intros [= <-].
Qed.

(** The joiner will not register again by itself: its recovery has failed before, its
    heartbeat task is gone, or it is shutting down. *)
Definition silenced (m : Mesh) : bool :=
  handling_roster_loss (task (node m)) || negb (ticking m).

Definition out_for_good (id : Uuid) (m : Mesh) : Prop :=
  system_inv (served m) /\ roster (coordinator (served m)) !! id = None
  /\ shared_peer_id (task (node m)) = id /\ silenced m = true.

Lemma background_keeps_out id m m' : out_for_good id m -> background id m m' -> out_for_good id m' /\ posted m' = posted m.
Proof.
  intros (Hi & Hn & Hid & Hs) Hb. destruct Hb as [a' Hstep Hiss|j' Hstep Hq]; (split; [|done]).
  - split; [by eapply system_inv_step|]. split; [|done]. simpl.
    destruct (roster (coordinator a') !! id) as [e|] eqn:He; [exfalso|done].
    apply Hiss. by apply step_readmits; [..|by exists e].
  - unfold out_for_good, silenced, ticking in *. cbn -[handling_roster_loss shared_peer_id] in *. by rewrite Hq.
Qed.

Lemma mesh_step_keeps_out id m m' :
  out_for_good id m -> mesh_step id m m' -> out_for_good id m' /\ registrations (posted m') = registrations (posted m).
Proof.
  intros Ho Hs. pose proof Ho as (Hi & Hn & Hid & Hsil).
  destruct Hs as [m' Hb|p a1 a2 st posts Ht Hx Htick Hregs|p a1 Ht Hx Htick|answer a1 Hp Hx _|Hp|Hp].
  - destruct (background_keeps_out _ _ _ Ho Hb) as [? ->]. done.
  - apply (unknown_beat _ id) in Hx as [-> Hrep]; [|done..].
    assert (handling_roster_loss (task (node m)) = true) as Hl.
    { unfold silenced in Hsil. rewrite Ht, orb_false_r in Hsil. done. }
    apply tick_facts in Htick as (reply & attempts & Hr & -> & Hlen & Hf & Hkeep & _). apply Hrep in Hr.
    rewrite Hl, andb_false_r in *. destruct attempts; [|simpl in Hlen; lia]. cbn in Hregs. inversion Hregs; subst.
    split; [|cbn; by rewrite registrations_app, app_nil_r].
    split; [done|]. split; [done|]. split; [simpl; by rewrite Hkeep|]. unfold silenced. simpl. rewrite Hf.
    destruct reply; [done|]. by rewrite orb_true_r.
  - apply (unknown_beat _ id) in Hx as [-> _]; [|done..]. split; [|cbn; by rewrite registrations_app, app_nil_r].
    split_and!; try done. unfold silenced, ticking. simpl. by rewrite orb_true_r.
  - split; [|done]. split; [by eapply exchange_inv|]. simpl. split_and!; [|done|].
    + inversion Hx as [|env b peer headers r b' resp ans Hfr Hse Hans]; subst; [done|].
      by eapply served_deregister.
    + unfold silenced, ticking in *. simpl. by rewrite Hp in Hsil.
  - split; [|done]. split_and!; try done. unfold silenced, ticking. simpl. by rewrite andb_false_r, orb_true_r.
  - split; [|done]. split_and!; try done. unfold silenced, ticking. simpl. by rewrite andb_false_r, orb_true_r.
Qed.

Lemma stays_out id m m' :
  out_for_good id m -> rtc (mesh_step id) m m' ->
  out_for_good id m' /\ registrations (posted m') = registrations (posted m).
Proof.
  intros Ho Hr. induction Hr as [m|m m1 m2 Hs _ IH]; [done|].
  destruct (mesh_step_keeps_out _ _ _ Ho Hs) as [Ho1 He]. destruct (IH Ho1) as [? He']. split; [done|congruence].
Qed.
(** C39: A node that the coordinator does not know, and whose heartbeat task will not register
    again by itself, stays unknown under its id: whatever the coordinator serves and
    sweeps, as long as it draws that id for nobody else, whatever the joiner's tasks do
    and whichever requests and answers are lost, it sends no registration, and every
    heartbeat it sends changes nothing at the coordinator and is not answered with a
    roster. The task will not register again when it has crashed or is shut down, as
    it should, but also when one registration after a loss of the roster has failed:
    that one failure is final until the process restarts. *)
Theorem unknown_stays_out id m m' :
  system_inv (served m) -> roster (coordinator (served m)) !! id = None ->
  shared_peer_id (task (node m)) = id -> silenced m = true ->
  rtc (mesh_step id) m m' ->
  roster (coordinator (served m')) !! id = None /\ shared_peer_id (task (node m')) = id
  /\ silenced m' = true /\ registrations (posted m') = registrations (posted m)
  /\ forall p answer a1, exchange (served m') (PostHeartbeat (beat_body beats p (task (node m')))) answer a1 ->
       a1 = served m' /\ forall reply, ensure_success heartbeat_of_json answer = Some reply -> is_ok reply = false.
Proof.
  intros Hi Hn Hid Hs Hr.
  destruct (stays_out id m m') as [(_ & Hn' & Hid' & Hs') Hp]; [unfold out_for_good; by split_and!|done|].
  split_and!; try done. intros p answer a1. by apply (unknown_beat _ id).
Qed.

Lemma background_keeps_absent id m m' :
  system_inv (served m) -> roster (coordinator (served m)) !! id = None -> rtc (background id) m m' ->
  system_inv (served m') /\ roster (coordinator (served m')) !! id = None
  /\ shared_peer_id (task (node m')) = shared_peer_id (task (node m)) /\ posted m' = posted m.
Proof.
  intros Hi Hn Hr. induction Hr as [m|m m1 m2 [a' Hs Hiss|j' Hs Hq] _ IH]; [done|..]; simpl in IH.
  - destruct IH as (? & ? & ? & ?); [by eapply system_inv_step| |done].
    destruct (roster (coordinator a') !! id) as [e|] eqn:He; [exfalso|done].
    apply Hiss. apply step_readmits; [done..|by exists e].
  - destruct (IH Hi Hn) as (? & ? & E & ?). split_and!; try done. rewrite E, Hq. done.
Qed.

(** C35: Leaving is final when no heartbeat comes in between: once the deregistration of a
    node has been served and its tasks have been told to stop before their next
    heartbeat, the node is out under its id and registers no more, whatever happens.
    (A heartbeat in between is answered 404 and makes the node register again:
    the shutdown signal is sent only after the deregistration.) *)
Theorem leaving_is_final id m env peer headers a1 resp m2 m' :
  system_inv (served m) -> phase m = Attached -> shared_peer_id (task (node m)) = id ->
  roster (coordinator (served m)) !! fresh_id env = None ->
  serve env (served m) peer headers (PostDeregister (deregister_body id)) = Some (a1, resp) ->
  rtc (background id) ((m <| served := a1 |>) <| phase := Deregistered |>) m2 ->
  rtc (mesh_step id) (m2 <| phase := Signalled |>) m' ->
  roster (coordinator (served m')) !! id = None
  /\ registrations (posted m') = registrations (posted m).
Proof.
  intros Hi Hp Hid Hf Hs Hb Hr.
  assert (system_inv a1) as Hi1 by (eapply system_inv_step; [exact Hi|by eexists; econstructor]).
  assert (roster (coordinator a1) !! id = None) as Hn.
  { by eapply served_deregister. }
  apply background_keeps_absent in Hb as (Hi2 & Hn2 & Hid2 & Hpo); [|done..]. simpl in Hid2, Hpo.
  rewrite <- Hpo. destruct (stays_out id (m2 <| phase := Signalled |>) m') as [(_ & ? & _) ?]; [|done|by split].
  unfold out_for_good. split_and!; [done|done|simpl; congruence|]. unfold silenced, ticking. simpl. by rewrite andb_false_r, orb_true_r.
Qed.
End Mesh.
