(* ===== verification/Widths.v ===== *)
(** * Machine integers of the joiner

    Every integer of a session lives in an atomic of fixed width. The model keeps
    them as unbounded integers with the wrap-around and saturation written out; that
    the model keeps to the widths is what makes a heartbeat, in any reachable state,
    one that the coordinator can read. *)

From S2P Require Import Json Policy RosterStore Stream Api Dto Client Wire.
From S2P Require Import Prelude NetAddr AddrText Types PeerSession SessionTable SessionInv.
From S2P Require Import DataPlane CommandGate PeerSync PeerSyncProps RelayClient Evolve Sources Joiner.

Open Scope Z_scope.

Section Widths.
Context `{Noise} `{TableOrderLaws} `{Externals} `{Signatures} `{EventData}.

(** The types of [PeerSession]'s fields: [AtomicI64], [AtomicU32], [AtomicU64] and
    [[u8; 32]]. *)
Record typed (s : PeerSession) : Prop := {
  t_direct_rx : is_i64 (last_direct_rx_micros s);
  t_data_tx : is_i64 (last_direct_data_tx_micros s);
  t_data_rx : is_i64 (last_direct_data_rx_micros s);
  t_probe : is_i64 (last_probe_micros s);
  t_failed : is_u32 (failed_handshake_count s);
  t_suppressed : is_i64 (direct_suppressed_until s);
  t_rearm : is_i64 (last_rearm_micros s);
  t_streak : is_u32 (rearm_streak s);
  t_handshake : is_i64 (last_handshake_rx_micros s);
  t_count : is_u64 (handshake_rx_count s);
  t_key : length (peer_pubkey s) = 32%nat;
}.

Lemma typed_failure s now : typed s -> typed (note_handshake_failure s now).
Proof. intros []. by constructor; simpl; auto with mesh. Qed.

Lemma typed_unconfirm s : typed s -> typed ((s <| direct_confirmed := false |>) <| endpoint_learned := false |>).
Proof. by intros []. Qed.

#[export] Instance typed_evolution : Evolution (keeps typed).
Proof.
  split; unfold keeps; try done; try (by intros ? ? []); try (by intros ? ? ? []).
  - intuition.
  - intros s d now Hn []. constructor; first [apply is_u64_wrap|by simpl; auto with mesh].
  - intros. by apply typed_failure.
  - intros s now i Hn []. unfold should_probe_direct. by case_match; constructor.
  - intros s now b c Hn []. unfold should_rearm_expired. by case_match; constructor; simpl; auto with mesh.
  - intros s now Hn Hs. unfold downgrade.
    assert (typed (downgrade_direct_if_stale s now DIRECT_PATH_TTL_MICROS)) as Hd.
    { unfold downgrade_direct_if_stale. case_match; [by apply typed_failure, typed_unconfirm|done]. }
    revert Hd. generalize (downgrade_direct_if_stale s now DIRECT_PATH_TTL_MICROS). intros s1 Hd.
    unfold downgrade_direct_if_tx_blackholed. repeat case_match; try done. by apply typed_failure, typed_unconfirm.
Qed.

#[export] Instance typed_closed : TableClosed typed.
Proof. by split; [intros s x []|intros s a []|intros s a b []|intros s tn []]. Qed.

Lemma typed_new env r info our index : remote_to_info env r = Ok info -> typed (session_new our index info).
Proof.
  intros Hi. assert (length (i_wg_public_key info) = 32%nat) as Hl.
  { unfold remote_to_info, decode_pubkey in Hi. destruct (b64_decode (r_wg_public_key r)) as [b|]; [|done].
    destruct (length b =? 32)%nat eqn:E; [|done]. apply Nat.eqb_eq in E. simpl in Hi.
    destruct (parse_ipv6 (r_ula r)); [|done]. by injection Hi as <-. }
  constructor; simpl; auto with mesh. apply is_u64_lt. lia.
Qed.

Lemma typed_evolves w w' : evolves (keeps typed) w w' -> heap_all typed (table w) -> heap_all typed (table w').
Proof.
  intros Hev. unfold heap_all. rewrite !Forall_lookup. intros Ht h s' Hs'.
  destruct (Forall2_lookup_r _ _ _ _ _ (evolves_heap _ _ _ Hev) Hs') as (s & Hs & Hk). apply Hk. by eapply Ht.
Qed.

Lemma typed_install_all env our t roster :
  heap_all typed t -> heap_all typed (install_all env our t (roster_infos env roster)).
Proof.
  intros Ht. unfold install_all. apply foldl_inv; [|done]. intros t' [i info] Hin Ht'. simpl.
  apply elem_of_lookup_imap in Hin as (k & x & [= -> ->] & Hx). apply list_elem_of_lookup_2 in Hx.
  apply roster_infos_in in Hx as (r & _ & Hr). apply (all_install typed typed_new our (draw env k) t' env r x Hr Ht').
Qed.

(** Every session on the heap of a reachable state is typed. *)
Lemma reachable_typed our_private my_ula strict requested_ula j :
  reachable our_private my_ula strict requested_ula j -> heap_all typed (sessions (task j)).
Proof.
  intros Hr.
  assert (consistent (sessions (task j)) /\ heap_all typed (sessions (task j))) as [_ Ht]; [|exact Ht].
  revert j Hr. apply (reachable_table _ _ _ _ (fun t => consistent t /\ heap_all typed t)).
  - by intros t [[Hw _] _].
  - intros env r roster. split; [apply consistent_start|]. apply typed_install_all. by constructor.
  - intros w w' Hev [Hc Ht]. split; [apply (consistent_evolves w w'); [apply (Hev same_peer), _|done]|].
    apply (typed_evolves w w'); [|done]. apply Hev, _.
  - intros l w o w' Hl [Hc Ht]. split; [by eapply consistent_lane|]. revert Hl. unfold recv_outbound.
    destruct (relay (table w)) as [r|]; [|done]. destruct (lane_queue l r); [done|]. by intros [= _ <-].
  - intros env t q kind data [Hc Ht]. split; [by apply consistent_event|]. apply all_event; [apply typed_closed|apply typed_new|done].
  - intros env now post writes reply st [Hc Ht]. split; [by apply consistent_tick|].
    apply all_tick; [apply typed_closed|apply typed_new|done].
  - intros env index t r info Hi [Hc Ht]. split; [by apply consistent_upsert|].
    apply all_upsert; [apply typed_closed|by eapply typed_new|done].
  - intros t u l Hu [Hc Ht]. split; [by apply consistent_routes|]. apply all_reconcile; [apply typed_closed|done].
  - intros t u [Hc Ht]. split; [by apply consistent_remove|]. by apply all_remove.
  - intros t h [Hc Ht]. split; [by apply consistent_reset|]. apply all_modify; [|done]. intros. by apply typed_closed.
  - intros t [[Hw _] Ht]. split; [split; [by apply wf_clear|apply sources_clear]|]. by apply all_clear.
Qed.

(** So the heartbeat of every reachable state is read by the coordinator as what
    [Client.v] has in it. *)
Lemma reachable_heartbeat_arrives `{JsonTextLaws} `{!ExternalLaws} our_private my_ula strict requested_ula j
    relay_only port hosted sv mv now_micros :
  reachable our_private my_ula strict requested_ula j -> is_u16 port ->
  of_text (to_text (heartbeat_request_json (heartbeat_request (task j) relay_only port hosted sv mv now_micros)))
    ≫= read_heartbeat_request
  = Some (heartbeat_body (task j) relay_only port hosted sv mv now_micros).
Proof.
  intros Hr Hp. apply heartbeat_request_arrives; [done|].
  pose proof (reachable_typed _ _ _ _ _ Hr) as Ht. unfold heap_all in Ht. rewrite Forall_forall in Ht.
  apply Forall_forall. intros s (h & _ & Hs)%list_elem_of_omap. apply t_count, Ht.
  unfold get in Hs. by eapply list_elem_of_lookup_2.
Qed.
End Widths.
