(* ===== verification/JoinerDemo.v ===== *)
(** * A concrete joiner

    A joiner with two peers, one reached through the relay and one directly, on
    which the theorems about any joiner are shown to apply, and the runs that
    exhibit the surprising behaviours of the code; among them announcements of peers
    that overlap. *)

From S2P Require Import Prelude NetAddr AddrText Types RelayFrame PeerSession SessionTable SessionInv.
From S2P Require Import DataPlane CommandGate PeerSync PeerSyncProps DataPlaneProps RelayClient.
From S2P Require Import Evolve Sources Joiner Widths StreamClient.

Open Scope Z_scope.

Module JoinerDemo.
#[export] Existing Instances Cleartext.cleartext Concrete.externals Concrete.external_laws Toy.toy Toy.toy_laws.
#[export] Instance order : TableOrder := {| iter_ulas A m := map_to_list m |}.
#[export] Instance order_laws : TableOrderLaws.
Proof. by split. Qed.
#[export] Instance event_data : EventData := {|
  remote_of_json _ := None;
  removed_of_json s := ok (Concrete.uuid_of_text s);
  punch_of_json _ := None;
  wake_of_json s := Some s;
|}.

(** ** Two peers *)

Definition me : Ipv6Addr := Ipv6 0xfd5a 0x1f00 1 7 0 0 0 1.
Definition ula_a : Ipv6Addr := Ipv6 0xfd5a 0x1f00 1 7 0 0 0 2.
Definition ula_b : Ipv6Addr := Ipv6 0xfd5a 0x1f00 1 7 0 0 0 3.
Definition app : Ipv6Addr := Ipv6 0xfd5a 0x1f02 0 0 0 0 0 9.
Definition addr_a : SocketAddr := SockV4 (Ipv4 8 8 8 8) 51820.
Definition addr_b : SocketAddr := SockV4 (Ipv4 9 9 9 9) 51820.
Definition roamed : SocketAddr := SockV4 (Ipv4 7 7 7 7) 4500.
Definition key_a : list Z := replicate 32 2.
Definition key_b : list Z := replicate 32 3.
Definition secret : StaticSecret := [5].

Definition info (id : Uuid) (key : list Z) (u : Ipv6Addr) (addr : option SocketAddr) (apps : list Ipv6Addr) : PeerInfo :=
  mkPeerInfo id key u addr "peer" [] apps None None 0.
Definition info_a : PeerInfo := info 1%N key_a ula_a (Some addr_a) [].
Definition info_b : PeerInfo := info 2%N key_b ula_b (Some addr_b) [app].
Definition relay_handle : RelayHandle := mkRelayHandle [] [] false.
Definition table0 : SessionTable :=
  install secret 1 (install secret 0 (with_route_sink_and_relay (Some relay_handle)) info_a) info_b.
Definition world0 : World := mkWorld table0 0 [].

Lemma wf_table0 : wf_table table0.
Proof. unfold table0. apply wf_install, wf_install, wf_fresh. Qed.

(** An IPv6 packet without payload. *)
Definition packet (src dst : Ipv6Addr) : list Z := direct_probe_packet src dst.
(** A data frame of the peer with first key byte [k]. *)
Definition frame (k : Z) (p : list Z) : list Z := 4 :: (5 + k) :: p.

(** ** The theorems apply *)

Lemma some_by_bool {A} (x : option A) : (match x with Some _ => true | None => false end) = true -> exists a, x = Some a.
Proof. destruct x; [by eexists|done]. Qed.

Lemma tun_read_reaches_owner_witness :
  let w := tun_read 2000000 me world0 (packet me app) in
  (relay (table w) ≫= (fun r => head (tx_lo r))) = Some (mkRelayOutbound key_b (frame 3 (packet me app)))
  /\ exists h s, get table0 h = Some s /\ acts_for h s world0 w.
Proof.
  cbn zeta. split; [vm_compute; reflexivity|].
  destruct (tun_read_reaches_owner 2000000 me world0 (packet me app) wf_table0) as [He|(dst & h & s & _ & _ & Hg & _ & _ & Ha)].
  - apply (f_equal (fun w => length (out w))) in He. vm_compute in He. discriminate He.
  - exists h, s. split; [exact Hg|exact Ha].
Defined.

Lemma relay_frame_confined_witness :
  exists w h s, handle_inbound 3 2000000 world0 (key_a ++ frame 2 (packet ula_a me)) = Some w
    /\ out w = [TunWrite (packet ula_a me)] /\ get table0 h = Some s /\ peer_pubkey s = key_a /\ acts_for h s world0 w.
Proof.
  destruct (some_by_bool (handle_inbound 3 2000000 world0 (key_a ++ frame 2 (packet ula_a me)))) as [w E];
    [vm_compute; reflexivity|].
  assert (out w = [TunWrite (packet ula_a me)]) as Ho.
  { transitivity (from_option out [] (Some w)); [reflexivity|]. rewrite <- E. vm_compute. reflexivity. }
  destruct (relay_frame_confined 3 2000000 world0 _ w wf_table0 E) as [->|(src & p & h & s & Hd & Hg & Hk & _ & Ha)].
  - vm_compute in Ho. discriminate Ho.
  - exists w, h, s. split; [exact E|]. split; [exact Ho|]. split; [exact Hg|]. split; [|exact Ha].
    rewrite Hk. vm_compute in Hd. injection Hd as <- _. vm_compute. reflexivity.
Defined.

(** A datagram of [a] from an address nobody has seen. *)
Lemma datagram_confined_witness :
  exists w, udp_recv 3 2000000 world0 roamed (frame 2 (packet ula_a me)) = Some w
    /\ out w = [TunWrite (packet ula_a me)] /\ confined world0 w (snapshot table0) roamed.
Proof.
  destruct (some_by_bool (udp_recv 3 2000000 world0 roamed (frame 2 (packet ula_a me)))) as [w E];
    [vm_compute; reflexivity|].
  exists w. split; [exact E|]. split.
  - transitivity (from_option out [] (Some w)); [reflexivity|]. rewrite <- E. vm_compute. reflexivity.
  - pose proof (datagram_confined 3 2000000 world0 roamed _ w wf_table0 E) as Hc.
    assert (by_endpoint (table world0) !! roamed = None) as En by (vm_compute; reflexivity).
    rewrite En in Hc. exact Hc.
Defined.

Lemma inbound_terminates_witness :
  is_Some (process_inbound_datagram 1 2000000 true world0 0%nat (frame 2 (packet ula_a me))).
Proof.
  destruct (get table0 0%nat) as [s|] eqn:E; [|vm_compute in E; discriminate E].
  apply (inbound_terminates 0 2000000 true world0 0%nat s); [exact E|]. left. reflexivity.
Defined.

(** ** Following the roster *)

Definition env : Surroundings := mkSurroundings (fun _ => None) (fun n => Z.of_nat n).
Definition remote (id : Uuid) (key : list Z) (u : Ipv6Addr) (apps : list Ipv6Addr) : RemotePeer :=
  mkRemotePeer id (Concrete.bytes_text key) (fmt_ipv6 u) None "peer" [] (fmt_ipv6 <$> apps) None None 0.
(** The coordinator has forgotten [b] and moved its app to [a]. *)
Definition roster1 : list RemotePeer := [remote 1%N key_a ula_a [app]].

Lemma reconcile_converges_witness :
  let t := reconcile_roster env secret table0 roster1 in
  key_at t ula_a = Some key_a /\ key_at t ula_b = None /\ app_routes t !! app = Some ula_a.
Proof.
  cbn zeta. destruct (reconcile_converges env secret table0 roster1 wf_table0) as (Hk & _).
  split; [|split].
  - rewrite Hk. vm_compute. reflexivity.
  - rewrite Hk. vm_compute. reflexivity.
  - vm_compute. reflexivity.
Defined.

Lemma peer_removed_exact_witness :
  let t := fst (apply_event env secret table0 None KRemoved (Concrete.uuid_text 1%N)) in
  live t ula_a = None /\ live t ula_b = live table0 ula_b.
Proof.
  cbn zeta. destruct (peer_removed_exact env secret table0 None (Concrete.uuid_text 1%N) wf_table0) as [_ H].
  assert (removed_of_json (Concrete.uuid_text 1%N) = Some 1%N) as E by (vm_compute; reflexivity).
  rewrite E in H. split.
  - rewrite H. case_decide as Hd; [reflexivity|]. exfalso. apply Hd. vm_compute. reflexivity.
  - rewrite H. case_decide as Hd; [|reflexivity]. vm_compute in Hd. discriminate Hd.
Defined.

Definition task0 : HeartbeatState := mkHeartbeatState table0 7%N false ["ack"] Toy.gate0 [].
Definition refuse (n : nat) (u : option string) : Result RegisterReply JoinerError := Err (HttpStatus 503).

(** The coordinator has forgotten the joiner, and refuses the registration. *)
Lemma tick_once_outcomes_witness :
  let st := tick_once env secret 3000000 refuse false None (fun _ => None) (Err (HttpStatus 404)) task0 in
  handling_roster_loss st = true /\ shared_peer_id st = 7%N /\ sessions st = table0.
Proof.
  cbn zeta.
  destruct (tick_once_outcomes env secret 3000000 refuse false None (fun _ => None) (Err (HttpStatus 404)) task0 wf_table0)
    as (_ & _ & _ & H). destruct (H eq_refl) as (H1 & H2 & H3).
  split; [exact H1|]. split; [exact H2|exact H3].
Defined.

(** ** A run *)

Definition roster0 : list RemotePeer := [remote 1%N key_a ula_a []; remote 2%N key_b ula_b [app]].
Definition start : Joiner := joined secret env (Some relay_handle) Toy.gate0 7%N roster0.
(** [b] leaves, and the timer ticks. *)
Definition without_b : Joiner :=
  let '(t, q) := apply_event env secret (sessions (task start)) (Some []) KRemoved (Concrete.uuid_text 2%N) in
  (start <| task := (task start) <| sessions := t |> |>) <| punch_rx := default [] q |>.
Definition ticked : Joiner := with_net without_b (timer_tick secret me 5000000 (net without_b)).

Lemma reachable_ticked : reachable secret me false None ticked.
Proof.
  apply (reach_step _ _ _ _ without_b); [|apply step_timer; vm_compute; split; discriminate].
  apply (reach_step _ _ _ _ start); [apply reach_start|].
  unfold without_b. destruct (apply_event env secret (sessions (task start)) (Some []) KRemoved (Concrete.uuid_text 2%N))
    as [t [q|]] eqn:E.
  - exact (step_event secret me false None start env KRemoved (Concrete.uuid_text 2%N) t q E).
  - apply (f_equal snd) in E. vm_compute in E. discriminate E.
Qed.

Lemma joiner_invariant_witness :
  dom (by_ula (sessions (task ticked))) = {[ula_a]} /\ app_routes (sessions (task ticked)) = ∅
  /\ wf_table (sessions (task ticked)).
Proof.
  split; [vm_compute; reflexivity|]. split; [vm_compute; reflexivity|].
  exact (proj1 (joiner_invariant secret me false None ticked reachable_ticked)).
Defined.

(** ** The relay client *)

Definition queue_world : World := relay_out (relay_out world0 key_a [4; 1]) key_b [4; 2].
Lemma wf_queue : wf_table (table queue_world).
Proof. apply wf_relay_out, (wf_relay_out world0), wf_table0. Qed.

Definition connection : Connection := mkConnection queue_world 0 [].
Definition events : list ConnEvent := [LivenessTick 1000 true; Outbound true; Queued key_a [4; 3]; Outbound true; Outbound false].

Lemma lane_in_order_witness :
  exists c, conn_run 3 Lo connection events = Some (c, Some (Disconnected "sink-send-failed"))
    /\ datagrams (wire c) = [key_a ++ [4; 1]; key_b ++ [4; 2]]
    /\ exists sent lost more, queued Lo queue_world ++ more = sent ++ lost ++ queued Lo (world c).
Proof.
  destruct (some_by_bool (conn_run 3 Lo connection events)) as [[c o] E]; [vm_compute; reflexivity|].
  assert (o = Some (Disconnected "sink-send-failed")) as ->.
  { transitivity (conn_run 3 Lo connection events ≫= snd); [rewrite E; reflexivity|vm_compute; reflexivity]. }
  exists c. split; [exact E|]. split.
  - transitivity (default [] ((datagrams ∘ wire ∘ fst) <$> conn_run 3 Lo connection events)); [rewrite E; reflexivity|].
    vm_compute. reflexivity.
  - destruct (lane_in_order 3 Lo connection events c _ wf_queue E) as (sent & lost & more & Hq & _).
    exists sent, lost, more. exact Hq.
Defined.

Lemma relay_redials_round_robin_witness :
  exists w, relay_run 3 Hi true "http://c:8888/" ["ws://r1"; "ws://r2"; "ws://r1"] "pk" world0
      (replicate 3 (mkAttempt false ConnectFailed false))
    = Some (w, [mkDial "ws://r1?pubkey=pk&lane=hi" (Some 1); mkDial "ws://r2?pubkey=pk&lane=hi" (Some 1);
                mkDial "ws://r1?pubkey=pk&lane=hi" (Some 1)]).
Proof.
  destruct (relay_redials_round_robin 3 Hi "http://c:8888/" ["ws://r1"; "ws://r2"; "ws://r1"] "pk" world0
    (replicate 3 (mkAttempt false ConnectFailed false))) as (_ & _ & _ & [w Hw] & _).
  - repeat constructor; intros w; exists w, "connect-failed"; reflexivity.
  - exists w. rewrite Hw. vm_compute. reflexivity.
Defined.

Lemma half_open_is_detected_witness :
  exists c, conn_run 3 Lo connection [LivenessTick 15000 true; LivenessTick 30000 true; LivenessTick 45000 true]
    = Some (c, Some (Disconnected "idle-timeout")).
Proof.
  destruct (some_by_bool (conn_run 3 Lo connection [LivenessTick 15000 true; LivenessTick 30000 true])) as [[c o] E];
    [vm_compute; reflexivity|].
  assert (o = None) as ->.
  { transitivity (conn_run 3 Lo connection [LivenessTick 15000 true; LivenessTick 30000 true] ≫= snd);
      [rewrite E; reflexivity|vm_compute; reflexivity]. }
  exists c. destruct (half_open_is_detected 3 Lo connection [LivenessTick 15000 true; LivenessTick 30000 true] c 45000 true)
    as [H _]; [repeat constructor|exact E|discriminate|]. apply H. discriminate.
Defined.
(** ** The event stream *)

(** The first connection brings a removal and an event of a kind the joiner does not
    know, and ends; while it lasts, the heartbeat puts a member back that the stream has
    removed. The second is refused. *)
Definition put_back (st : SessionTable * option (list HolePunchInitiate)) : SessionTable * option (list HolePunchInitiate) :=
  (install secret 9 st.1 info_b, st.2).
Definition round1 : Round :=
  mkRound id false 1%N (Responded 200 [NextEvent env "peer_removed" (Concrete.uuid_text 1%N);
    NextEvent env "peer_removed" (Concrete.uuid_text 2%N); Meanwhile put_back; NextEvent env "peer_greeted" "{}"; NextNone]) None.
Definition round2 : Round := mkRound id false 2%N (Responded 503 []) (Some false).
Definition stop : Round := mkRound id false 2%N (NotConnected "refused") (Some true).
(** The coordinator accepts the third connection and never answers. *)
Definition silent : Round := mkRound id false 2%N Unanswered (Some true).

Lemma quiet_rounds : Forall (quiet secret) [round1; round2].
Proof.
  apply Forall_cons. split; [|apply Forall_singleton]; (split; [split; [reflexivity|]|reflexivity]); exists (table0, None).
  - exists EndOfStream. split; [vm_compute; reflexivity|discriminate].
  - exists (StreamError "status 503"). split; [vm_compute; reflexivity|discriminate].
Qed.

Lemma stream_followed_witness :
  let run := stream_run secret "http://c" (table0, None) 0 [round1; round2] in
  snd <$> run.1.2 = [Some 1; Some 2] /\ key_at run.1.1.1 ula_a = None /\ key_at run.1.1.1 ula_b = Some key_b
  /\ (stream_run secret "http://c" (table0, None) 0 ([round1; round2] ++ [stop; round1])).2 = true
  /\ (stream_run secret "http://c" (table0, None) 0 ([round1; round2] ++ [silent; round1])).2 = false.
Proof.
  cbn zeta. destruct (stream_followed secret "http://c" (table0, None) [round1; round2] quiet_rounds) as (Hrun & _ & _ & Hstop).
  rewrite Hrun. split; [reflexivity|]. split; [vm_compute; reflexivity|]. split; [vm_compute; reflexivity|]. split.
  - destruct (Hstop stop [round1]) as (_ & _ & H & _). rewrite H; [reflexivity| |reflexivity].
    split; [reflexivity|]. exists (table0, None), (StreamError "connect: refused"). split; [vm_compute; reflexivity|discriminate].
  - destruct (Hstop silent [round1]) as (_ & _ & _ & H). rewrite H; reflexivity.
Defined.
End JoinerDemo.

(** * Announcements of concrete peers that overlap

    The joiner of [JoinerDemo], on which two announcements step in turn. *)

From S2P Require Import SessionTableConc.

Module SessionTableDemo.
Import JoinerDemo.

Definition step_call (k : nat) (x : UpConf) : option UpConf :=
  th ← calls x !! k;
  '(t, pc) ← upsert_step secret (u_call th) (table_of x) (u_pc th);
  Some (mkUpConf t (<[k := mkUp (u_call th) pc]> (calls x))).
Definition run_calls (schedule : list nat) (x : UpConf) : option UpConf :=
  foldl (fun x k => x ← x; step_call k x) (Some x) schedule.

Lemma step_call_sound k x x' : step_call k x = Some x' -> up_step secret x x'.
Proof.
  unfold step_call. intros (th & Hk & Hs)%bind_Some. apply bind_Some in Hs as ([t pc] & Hs & [= <-]).
  destruct th as [c pc0]. by eapply up_own.
Qed.
Lemma run_calls_none schedule : foldl (fun x k => x ← x; step_call k x) (None : option UpConf) schedule = None.
Proof. by induction schedule. Qed.
Lemma run_calls_sound schedule x x' : run_calls schedule x = Some x' -> rtc (up_step secret) x x'.
Proof.
  unfold run_calls. revert x. induction schedule as [|k schedule IH]; intros x; simpl; [intros [= ->]; apply rtc_refl|].
  destruct (step_call k x) as [x1|] eqn:Hs; simpl; [|by rewrite run_calls_none]. intros Hr.
  eapply rtc_l; [by apply (step_call_sound k)|by apply IH].
Qed.

Definition begin (cs : list Call) : UpConf := mkUpConf table0 ((fun c => mkUp c Looking) <$> cs).
(** Where the address and the key of a peer lead. *)
Definition ways (t : SessionTable) (i : PeerInfo) : option Arc * option Arc :=
  (by_ula t !! i_ula i, by_pubkey t !! i_wg_public_key i).
Definition returned (x : UpConf) : bool := forallb (fun th => match u_pc th with Upserted => true | _ => false end) (calls x).

Definition key_c : list Z := replicate 32 4.
Definition ula_c : Ipv6Addr := Ipv6 0xfd5a 0x1f00 1 7 0 0 0 4.
Definition info_c : PeerInfo := info 3%N key_c ula_c None [].
(** The first peer with a new key. *)
Definition key_a2 : list Z := replicate 32 6.
Definition info_a2 : PeerInfo := info 1%N key_a2 ula_a (Some addr_a) [].

(** The heartbeat removes a peer after the stream's [upsert] of it and before the stream
    sets its app route: the route leads to nobody, and no later removal takes it away. *)
Lemma route_to_a_removed_peer :
  let t := upsert secret 2 table0 (info 3%N key_c ula_c None [app]) in
  let t := fst (remove t ula_c) in
  let t := reconcile_app_routes t ula_c [app] in
  app_routes t !! app = Some ula_c /\ by_ula t !! ula_c = None /\ app_routes (fst (remove t ula_c)) !! app = Some ula_c.
Proof. by vm_compute. Qed.

(** A new peer from the stream while the heartbeat's roster brings another's new key. *)
Definition stream : Call := mkCall info_c 2.
Definition beat : Call := mkCall info_a2 3.
Definition crossing : list nat := [0; 1; 1; 0; 1; 0; 1; 0; 1; 1; 0; 1; 1; 0]%nat.

Lemma both_ready c : c ∈ [stream; beat] -> ready_for table0 (c_info c).
Proof.
  intros [->|[->|Hin]%elem_of_cons]%elem_of_cons; [| |inversion Hin]; split.
  - intros h s Hp. vm_compute in Hp. discriminate Hp.
  - left. vm_compute. reflexivity.
  - intros h s Hp. vm_compute in Hp. discriminate Hp.
  - right. exists 0%nat. split; [vm_compute; reflexivity|]. eexists. split; [reflexivity|]. split; vm_compute; reflexivity.
Qed.
Lemma both_apart : apart ((fun c => mkUp c Looking) <$> [stream; beat]).
Proof.
  intros [|[|k]] [|[|k']] x y Hne Hk Hk'; try (by destruct Hne); try discriminate Hk; try discriminate Hk';
    injection Hk as <-; injection Hk' as <-; split; vm_compute; discriminate.
Qed.

Lemma apart_calls_settle_witness :
  exists x, run_calls crossing (begin [stream; beat]) = Some x
    /\ ways (table_of x) info_c = (Some 2%nat, Some 2%nat) /\ settled (table_of x) info_c
    /\ ways (table_of x) info_a2 = (Some 3%nat, Some 3%nat) /\ settled (table_of x) info_a2
    /\ by_pubkey (table_of x) !! key_a = None.
Proof.
  destruct (run_calls crossing (begin [stream; beat])) as [x|] eqn:Er; [|vm_compute in Er; discriminate Er].
  pose (facts := fun x => (ways (table_of x) info_c, ways (table_of x) info_a2, by_pubkey (table_of x) !! key_a, returned x, u_call <$> calls x)).
  assert (Some (facts x) = Some ((Some 2%nat, Some 2%nat), (Some 3%nat, Some 3%nat), None, true, [stream; beat])) as E.
  { transitivity (facts <$> run_calls crossing (begin [stream; beat])); [rewrite Er; reflexivity|vm_compute; reflexivity]. }
  injection E as E1 E1' E2 E2' E3 E4 E5.
  destruct (apart_calls_settle secret table0 [stream; beat] x (table_index _ wf_table0) both_ready both_apart (run_calls_sound _ _ _ Er)) as [_ Hset].
  assert (forall c, c ∈ [stream; beat] -> settled (table_of x) (c_info c)) as Hall.
  { intros c Hc. rewrite <- E5 in Hc. apply list_elem_of_fmap in Hc as (th & -> & Hth). apply Hset; [exact Hth|].
    unfold returned in E4. rewrite forallb_forall in E4. specialize (E4 th (proj1 (list_elem_of_In _ _) Hth)).
    destruct (u_pc th); try discriminate E4. reflexivity. }
  exists x. split; [reflexivity|]. split; [exact (f_equal2 pair E1 E1')|]. split; [apply (Hall stream); by left|].
  split; [exact (f_equal2 pair E2 E2')|]. split; [apply (Hall beat); right; by left|exact E3].
Defined.

(** The stream and the heartbeat announce the same new peer. Both find its address free and
    build a session; the one whose session is the last to be filed under the address is
    not the last to file it under the key. From then on packets for the peer go through
    one session's tunnel and the relay's frames from it to the other's, whose handshake
    was never started by this node; announcing the peer again changes nothing. *)
Definition twice : list Call := [mkCall info_c 2; mkCall info_c 3].
Definition overtaken : list nat := [0; 1; 0; 1; 0; 1; 0; 1; 1; 1; 0; 0]%nat.
Lemma one_peer_two_sessions :
  match run_calls overtaken (begin twice) with
  | Some x =>
      returned x = true /\ ways (table_of x) info_c = (Some 3%nat, Some 2%nat)
      /\ ways (upsert secret 4 (table_of x) info_c) info_c = (Some 3%nat, Some 2%nat)
      /\ (let w := mkWorld (table_of x) 0 [] in
          session_for (table_of x) ula_c = Some 3%nat /\
          match handle_inbound 3 2000000 w (key_c ++ [1; 9; 0; 0]) with
          | Some w' => get (table w') 3%nat = get (table_of x) 3%nat /\ get (table w') 2%nat <> get (table_of x) 2%nat
          | None => False
          end)
  | None => False
  end.
Proof.
  vm_compute. split; [reflexivity|]. split; [reflexivity|]. split; [reflexivity|]. split; [reflexivity|].
  split; [reflexivity|]. discriminate.
Qed.
End SessionTableDemo.
