(* ===== verification/EndToEndDemo.v ===== *)
(** * A concrete mesh

    The coordinator of [Demo.v] and the joiners of its two members, on which the
    theorems about the two ends together are shown to apply, also when one leaves. *)

From S2P Require Import Prelude NetAddr AddrText Json JsonText Types Policy RelayFrame Reflexive Auth RosterStore Allocator HolePunch DirectFlags.
From S2P Require Import RelayRegistry Coordinator Apply Registration Heartbeat CoordInv Membership Joining RelayRoute Topology Stream Api Dto ApiProps Demo.
From S2P Require Import PeerSession SessionTable SessionInv CommandGate PeerSync PeerSyncProps DataPlane DataPlaneProps Client Wire EndToEnd JoinerDemo.

Open Scope Z_scope.

Module Mesh.
Import Demo.
#[export] Existing Instances Cleartext.cleartext Toy.toy Toy.toy_laws JoinerDemo.order JoinerDemo.order_laws.

(** ** The text of the bodies *)

#[export] Instance text_json : JsonText := reference_text.
#[export] Instance text_json_laws : JsonTextLaws := reference_text_laws.

(** ** The first member beats *)

Definition secret_alpha : StaticSecret := [1].
Definition env : Surroundings := mkSurroundings (fun _ => None) (fun n => Z.of_nat n).
Definition left_key : list Z := replicate 32 9.
Definition left_peer : SessionTable.PeerInfo := JoinerDemo.info 8%N left_key JoinerDemo.ula_a None [].
(** It still talks to a peer that has left. *)
Definition joiner (id : Uuid) : HeartbeatState :=
  mkHeartbeatState (install [1] 0 (with_route_sink_and_relay (Some JoinerDemo.relay_handle)) left_peer)
    id false [] Toy.gate0 [].
Lemma wf_joiner id : wf_table (sessions (joiner id)).
Proof. apply wf_install, wf_fresh. Qed.

(** Whether all members are typed, by evaluation. *)
#[export] Instance typed_member_dec f : Decision (typed_member f) := ltac:(unfold typed_member; apply _).
Definition all_typed (s : Inner) : bool := forallb (fun p => bool_decide (typed_member p.2)) (map_to_list (roster s)).
Lemma all_typed_spec s : all_typed s = true -> typed_members s.
Proof.
  intros H i f Hf. apply elem_of_map_to_list, list_elem_of_In in Hf.
  by apply (proj1 (forallb_forall _ _) H), bool_decide_eq_true in Hf.
Qed.

Definition ula_of (s : Inner) (id : Uuid) : Ipv6Addr := from_option Types.ula (Ipv6 0 0 0 0 0 0 0 0) (roster s !! id).
Definition refuse (n : nat) (u : option string) : Result RegisterReply JoinerError := Err (HttpStatus 503).

Lemma two_see :
  match roster two !! alpha, roster two !! beta with
  | Some e, Some f => can_see (current (policy_store two)) (Types.tags e) (Types.tags f) = true
      /\ Types.wg_public_key f = key 2
  | _, _ => False
  end.
Proof. vm_compute. by split. Qed.

Lemma heartbeat_synchronises_witness :
  exists reply, let st' := tick_once env secret_alpha 5000000 refuse false None (fun _ => None) (Ok reply) (joiner alpha) in
    key_at (sessions (joiner alpha)) JoinerDemo.ula_a = Some left_key
    /\ key_at (sessions st') JoinerDemo.ula_a = None
    /\ key_at (sessions st') (ula_of two beta) = Some (key 2) /\ key_at (sessions st') (ula_of two alpha) = None.
Proof.
  destruct (roster two !! alpha) as [e|] eqn:He; [|vm_compute in He; discriminate He].
  pose proof (heartbeat_synchronises (at_time 4000 9%N) env secret_alpha 5000000 refuse false None (fun _ => None)
    (Some address) false 51820 ∅ None None two (joiner alpha) e wf_two
    (all_typed_spec two ltac:(vm_compute; reflexivity)) (wf_joiner alpha) He) as H.
  assert (undelivered e (pending_acks (joiner alpha)) = []) as Hu.
  { assert (Some (Types.pending_commands e) = Some []) as E; [|injection E as E; unfold undelivered; rewrite E; reflexivity].
    transitivity (Types.pending_commands <$> roster two !! alpha); [rewrite He; reflexivity|vm_compute; reflexivity]. }
  rewrite Hu in H. cbn zeta in H.
  match type of H with context [heartbeat_handler ?a ?b ?c ?d] => set (h := heartbeat_handler a b c d) in H end.
  assert (roster h.1 !! beta = roster two !! beta) as Hb by (vm_compute; reflexivity).
  assert (policy_store h.1 = policy_store two) as Hp by (vm_compute; reflexivity).
  assert (bool_decide (map_Forall (fun j f => Types.ula f <> JoinerDemo.ula_a) (roster h.1)) = true) as Hno
    by (vm_compute; reflexivity).
  clearbody h. destruct h as [s' resp]. cbn [fst] in *.
  destruct H as (reply & _ & _ & _ & Hk & Hown & _); [intros c Hc; inversion Hc|].
  exists reply. split; [vm_compute; reflexivity|]. split; [|split].
  - destruct (key_at _ JoinerDemo.ula_a) as [k|] eqn:E; [exfalso|reflexivity].
    apply Hk in E as (j & f & Hj & _ & _ & Hf & _). apply bool_decide_eq_true in Hno. exact (Hno j f Hj Hf).
  - apply Hk. destruct (roster two !! beta) as [f|] eqn:Hf; [|vm_compute in Hf; discriminate Hf].
    exists beta, f. split; [exact Hb|]. split; [discriminate|]. rewrite Hp. unfold ula_of.
    pose proof two_see as Hs. rewrite He, Hf in Hs. destruct Hs as [Hc Hkey]. rewrite Hf.
    split; [exact Hc|]. split; [reflexivity|exact Hkey].
  - unfold ula_of. rewrite He. exact Hown.
Defined.

(** ** The coordinator restarts empty *)

(** The second member has registered again, the first has not. *)
Definition restarted : Inner := run (at_time 2000 beta) start (request 2 "beta" None).
Lemma wf_restarted : wf_inner restarted.
Proof. apply wf_run; [apply wf_start|by vm_compute]. Qed.

Definition inputs : ReregisterInputs :=
  mkReregisterInputs (key 1) None "alpha" ["tag:a"] None None false None None None false.
Definition new_id : Uuid := 3%N.
Definition second_registration : option (Inner * Response) :=
  register_handler (at_time 6000 new_id) restarted (Some address) no_headers no_reply (register_body inputs 51820 None None None).
Definition answered (n : nat) (u : option string) : Result RegisterReply JoinerError :=
  match second_registration with
  | Some (_, resp) => default (Err OtherError) (ensure_success register_of_json (answer_of resp))
  | None => Err OtherError
  end.

Lemma registered_sees :
  match second_registration with
  | Some (s', _) =>
      match roster s' !! new_id, roster s' !! beta with
      | Some e, Some f => can_see (current (policy_store s')) (Types.tags e) (Types.tags f) = true
          /\ Types.ula f = ula_of restarted beta /\ Types.wg_public_key f = key 2
      | _, _ => False
      end
  | None => False
  end.
Proof. vm_compute. by split_and!. Qed.

Lemma roster_loss_recovers_witness :
  let st' := tick_once env secret_alpha 5000000 answered false None (fun _ => None) (Err (HttpStatus 404)) (joiner alpha) in
  shared_peer_id st' = new_id /\ key_at (sessions st') (ula_of restarted beta) = Some (key 2).
Proof.
  cbn zeta. split; [vm_compute; reflexivity|].
  destruct (JoinerDemo.some_by_bool second_registration) as [[s' resp] E]; [vm_compute; reflexivity|].
  assert (is_success (Api.status resp) = true) as Hs.
  { transitivity (from_option (fun x => is_success (Api.status x.2)) false second_registration);
      [rewrite E; reflexivity|vm_compute; reflexivity]. }
  assert (Some (answered 0 None) = ensure_success register_of_json (answer_of resp)) as Ha.
  { transitivity (second_registration ≫= fun x => ensure_success register_of_json (answer_of x.2));
      [vm_compute; reflexivity|rewrite E; reflexivity]. }
  assert (accepts_joiner answered inputs 51820 None None (Some address) None restarted s') as Hacc.
  { left. exists resp. split; [|exact Hs]. exists (at_time 6000 new_id), no_headers, no_reply.
    split; [vm_compute; reflexivity|]. split; [vm_compute; by split|]. split; [exact E|exact Ha]. }
  destruct (roster_loss_recovers (at_time 5000 9%N) env secret_alpha 5000000 answered inputs 51820 None
    (fun _ => None) (Some address) false ∅ None None restarted s' (joiner alpha) wf_restarted
    (all_typed_spec restarted ltac:(vm_compute; reflexivity)) (wf_joiner alpha)) as (_ & _ & _ & e & He & _ & Hk).
  - apply Forall_forall. intros b Hb. apply list_elem_of_In, repeat_spec in Hb. subst. split; discriminate.
  - vm_compute; reflexivity.
  - reflexivity.
  - vm_compute. lia.
  - exact Hacc.
  - apply Hk. pose proof registered_sees as Hr. rewrite E in Hr.
    assert (shared_peer_id (tick_once env secret_alpha 5000000 answered false None (fun _ => None)
      (Err (HttpStatus 404)) (joiner alpha)) = new_id) as Hi by (vm_compute; reflexivity).
    cbn [strict_requested_ula inputs] in He |- *. rewrite Hi in He |- *. rewrite He in Hr.
    destruct (roster s' !! beta) as [f|] eqn:Hf; [|destruct Hr]. destruct Hr as (Hc & Hu & Hkey).
    exists beta, f. split; [exact Hf|]. split; [discriminate|]. split; [exact Hc|]. split; [exact Hu|exact Hkey].
Defined.

(** ** A packet between the members *)

Definition peer_of (k : Z) (id : Uuid) : SessionTable.PeerInfo := JoinerDemo.info id (key k) (ula_of two id) None [].
Definition node (secret : StaticSecret) (other : SessionTable.PeerInfo) : World :=
  mkWorld (install secret 0 (with_route_sink_and_relay (Some JoinerDemo.relay_handle)) other) 0 [].
Definition node_a : World := node secret_alpha (peer_of 2 beta).
Definition node_b : World := node [2] (peer_of 1 alpha).
(** The second member has a socket to the relay. *)
Definition connected : Inner := two <| Coordinator.relay := fst (register (Coordinator.relay two) 2500 (key 2) Lo 7%N) |>.
Definition hello : list Z := JoinerDemo.packet (ula_of two alpha) (ula_of two beta).
Definition routed : Inner * option (list Z) :=
  route_uplink (at_time 3000 9%N) connected (key 1) (encode_relay_frame (key 2) (4 :: 3 :: hello)).

Lemma session_of_a : exists pa, get (table node_a) 0%nat = Some pa /\ peer_pubkey pa = key 2
  /\ direct_confirmed pa = false /\ encapsulate (tunn pa) 3000000 hello = (tunn pa, WriteToNetwork (4 :: 3 :: hello)).
Proof. eexists. split; [vm_compute; reflexivity|]. vm_compute. by split_and!. Qed.
Lemma session_of_b : exists pb, get (table node_b) 0%nat = Some pb
  /\ is_allowed_source pb (ula_of two alpha) = true
  /\ decapsulate (tunn pb) 3100000 (4 :: 3 :: hello) = (tunn pb, WriteToTunnelV6 hello (ula_of two alpha))
  /\ classify_tunn_result (decapsulate (tunn pb) 3100000 []).2 = ActNothing.
Proof. eexists. split; [vm_compute; reflexivity|]. vm_compute. by split_and!. Qed.

Lemma packet_crosses_the_relay_witness :
  exists frame wb, snd routed = Some frame /\ handle_inbound 1 3100000 node_b frame = Some wb
    /\ DataPlane.out wb = [TunWrite hello].
Proof.
  destruct routed as [s' o] eqn:Er.
  assert (o = Some (key 1 ++ 4 :: 3 :: hello)) as ->.
  { transitivity (snd routed); [rewrite Er; reflexivity|vm_compute; reflexivity]. }
  destruct session_of_a as (pa & Ea & Ka & Ca & Ta). destruct session_of_b as (pb & Eb & Ab & Tb & Db).
  destruct (packet_crosses_the_relay (at_time 3000 9%N) 3000000 3100000 (ula_of two alpha) connected s' node_a node_b
    hello (ula_of two beta) 0%nat pa JoinerDemo.relay_handle (tunn pa) (4 :: 3 :: hello) (key 1) (key 1 ++ 4 :: 3 :: hello)
    0%nat pb (tunn pb) hello (ula_of two alpha)) as (_ & _ & _ & _ & wb & Hw & Ho).
  - vm_compute; reflexivity.
  - vm_compute; discriminate.
  - vm_compute; reflexivity.
  - exact Ea.
  - exact Ca.
  - vm_compute; reflexivity.
  - exact Ta.
  - vm_compute; reflexivity.
  - rewrite Ka. vm_compute; reflexivity.
  - rewrite Ka. exact Er.
  - apply wf_install, wf_fresh.
  - vm_compute; reflexivity.
  - exact Eb.
  - exact Tb.
  - exact Db.
  - exists (key 1 ++ 4 :: 3 :: hello), wb. split; [reflexivity|]. split; [exact Hw|]. rewrite Ho.
    assert (ipv6_source hello = Some (ula_of two alpha)) as -> by (vm_compute; reflexivity). rewrite Ab. reflexivity.
Defined.

(** ** What crosses the wire *)

Definition counted (s : PeerSession) : bool := (0 <=? handshake_rx_count s) && (handshake_rx_count s <=? u64_max).
Lemma joiner_counted :
  Forall (fun s => is_u64 (handshake_rx_count s)) (omap (get (sessions (joiner alpha))) (snapshot (sessions (joiner alpha)))).
Proof.
  assert (forallb counted (omap (get (sessions (joiner alpha))) (snapshot (sessions (joiner alpha)))) = true) as H
    by (vm_compute; reflexivity).
  apply Forall_forall. intros s Hs. apply list_elem_of_In in Hs. pose proof (proj1 (forallb_forall _ _) H s Hs) as Hc.
  unfold counted in Hc. unfold is_u64. lia.
Qed.

Lemma requests_arrive_witness :
  is_u16 51820
  /\ of_text (to_text (register_request_json (register_request inputs 51820 None None None))) ≫= read_register_request
     = Some (register_body inputs 51820 None None None)
  /\ of_text (to_text (heartbeat_request_json (heartbeat_request (joiner alpha) false 51820 {[JoinerDemo.ula_a]} (Some "1.2") None 5000000)))
       ≫= read_heartbeat_request
     = Some (heartbeat_body (joiner alpha) false 51820 {[JoinerDemo.ula_a]} (Some "1.2") None 5000000).
Proof.
  assert (is_u16 51820) as Hp by (vm_compute; by split).
  destruct (requests_arrive inputs 51820 None None None (joiner alpha) false {[JoinerDemo.ula_a]} 5000000 alpha Hp joiner_counted) as (H & _).
  destruct (requests_arrive inputs 51820 (Some "1.2") None None (joiner alpha) false {[JoinerDemo.ula_a]} 5000000 alpha Hp joiner_counted)
    as (_ & H' & _).
  by split_and!.
Defined.

Definition initiate : HolePunchInitiate := mkHolePunchInitiate (uuid_to_string alpha) (uuid_to_string beta) "203.0.113.7:51820" (-5).
Definition alpha_sees : list Types.PeerInfo := visible_peers two alpha ["tag:a"].
Definition registered : RegisterResponse := mkRegisterResponse (uuid_to_string alpha) "fd5a::1" alpha_sees None None.
Definition command : NodeCommandDto := mkNodeCommandDto (uuid_to_string beta) "reboot_host" (uuid_to_string alpha) "n1" 4000 9000 "c2ln".
Definition beaten : HeartbeatResponse := mkHeartbeatResponse alpha_sees (Some "203.0.113.7") None [command].

Lemma answers_arrive_witness :
  length alpha_sees = 1%nat
  /\ is_Some (wire_heartbeat beaten)
  /\ heartbeat_of_json (body_text (BodyHeartbeat beaten)) = wire_heartbeat beaten
  /\ punch_of_json (EventData := json_event_data) (snd (to_sse_frame (EJ := json_payloads) (HolePunch initiate))) = Some initiate.
Proof.
  assert (Forall typed_peer alpha_sees) as Ht
    by (apply typed_visible, all_typed_spec; [exact wf_two|vm_compute; reflexivity]).
  assert (Forall typed_command [command]) as Hc
    by (apply Forall_singleton; split; vm_compute; by split).
  destruct (answers_arrive (HolePunch initiate) registered beaten Ht Ht Hc) as (_ & Hb & Hp).
  split; [vm_compute; reflexivity|]. split; [vm_compute; eexists; reflexivity|]. split; [exact Hb|].
  apply Hp. vm_compute. by split.
Defined.
End Mesh.

(** * A node that leaves, one that is stuck, and one that comes back

    The theorems of [Mesh.v] on the concrete mesh above, and the run
    in which a heartbeat undoes a leave. *)

From S2P Require Import Boot System Lifetime HeartbeatLoop RelayClient Evolve Sources Joiner Mesh.

Module Departures.
Import Demo EndToEndDemo.Mesh.
#[export] Existing Instances Cleartext.cleartext Toy.toy Toy.toy_laws JoinerDemo.order JoinerDemo.order_laws JoinerDemo.event_data text_json text_json_laws.

(** ** The nodes *)

Definition beats : HeartbeatTask := mkHeartbeatTask secret_alpha inputs 51820 None None.
Definition me : Ipv6Addr := ula_of two alpha.
Definition a_node (id : Uuid) (lost : bool) : Joiner :=
  mkJoiner ((joiner id) <| handling_roster_loss := lost |>) [] 0 [].
Definition a_mesh (a : ApiState) (lost : bool) : Mesh := mkMesh a (a_node alpha lost) true Attached [].

(** The coordinator that has started again without the first member. *)
Definition api_restarted : ApiState := mkApiState 1 restarted (Some "secret").
Lemma restarted_inv : system_inv api_restarted.
Proof.
  destruct (serve_run (at_time 2000 beta) 1 start (Some "secret") (request 2 "beta" None)) as [resp Hs]; [by vm_compute|].
  apply (life_inv_reachable api_start); [exact start_started|]. apply rtc_once, life_running.
  eexists. eapply step_request; [|exact Hs]. by vm_compute.
Qed.
Lemma two_inv : system_inv api_two.
Proof.
  apply (life_inv_reachable api_start); [exact start_started|].
  eapply rtc_l; [apply life_running, step_one|]. apply rtc_once, life_running, step_two.
Qed.

(** What the coordinator says to a heartbeat from someone it does not know. *)
Definition not_found : HttpAnswer := answer_of (coord_err_to_response (UnknownPeer alpha)).
Definition registered_answer : HttpAnswer :=
  match second_registration with Some (_, resp) => answer_of resp | None => NoAnswer end.
Definition a_pass (answers : nat -> HttpAnswer) : Pass :=
  mkPass ∅ env 5000000 (fun _ => None) not_found answers.

Lemma unknown_heartbeat_exchange a req :
  hr_peer_id req = uuid_to_string alpha -> roster (coordinator a) !! alpha = None -> roster (coordinator a) !! (9%N : Uuid) = None ->
  exchange a (PostHeartbeat req) not_found a.
Proof.
  intros Hi Hn Hf. eapply (exchange_served (at_time 5000 9%N) a (Some address) no_headers _ _ (coord_err_to_response (UnknownPeer alpha)));
    [exact Hf| |by left].
  simpl. rewrite (heartbeat_unknown _ _ _ _ alpha); [by destruct a|rewrite Hi; apply uuid_parse_to_string|done].
Qed.

(** ** Stuck *)

(** The node has failed once to register again. Its next heartbeat is a 404, and that
    is all it ever sends. *)
Lemma unknown_stays_out_witness :
  exists m', rtc (mesh_step beats me alpha) (a_mesh api_restarted true) m' /\ length (posted m') = 1%nat
    /\ roster (coordinator (served m')) !! alpha = None /\ registrations (posted m') = [].
Proof.
  set (p := a_pass (fun _ => registered_answer)). set (st0 := task (a_node alpha true)).
  destruct (JoinerDemo.some_by_bool (tick beats p st0)) as [[st posts] Ht]; [vm_compute; reflexivity|].
  assert (length posts = 1%nat /\ registrations posts = []) as [Hl Hr].
  { assert (Some (length posts) = Some 1%nat) as E1.
    { transitivity ((length ∘ snd) <$> tick beats p st0); [rewrite Ht; reflexivity|vm_compute; reflexivity]. }
    assert (Some (registrations posts) = Some []) as E2.
    { transitivity ((registrations ∘ snd) <$> tick beats p st0); [rewrite Ht; reflexivity|vm_compute; reflexivity]. }
    split; congruence. }
  assert (rtc (mesh_step beats me alpha) (a_mesh api_restarted true)
    (mkMesh api_restarted ((a_node alpha true) <| task := st |>) true Attached posts)) as Hs.
  { apply rtc_once. eapply (mesh_beat beats me alpha (a_mesh api_restarted true) p api_restarted); [reflexivity| |exact Ht|].
    - apply unknown_heartbeat_exchange; vm_compute; reflexivity.
    - rewrite Hr. constructor. }
  exists (mkMesh api_restarted ((a_node alpha true) <| task := st |>) true Attached posts).
  split; [exact Hs|]. split; [exact Hl|].
  assert (roster (coordinator api_restarted) !! alpha = None) as Ha by (vm_compute; reflexivity).
  destruct (unknown_stays_out beats me alpha (a_mesh api_restarted true) _ restarted_inv Ha eq_refl eq_refl Hs) as (Hn & _ & _ & Hreg & _).
  split; [exact Hn|exact Hreg].
Defined.

(** A node that loses the coordinator's roster, finds itself in it again, and loses it
    twice more while every registration meets a conflict: it registers twice for the
    start, twice for the heartbeat that succeeded, and no more. *)
Definition conflicted : HttpAnswer := answer_of (coord_err_to_response (UlaConflict "fd5a::1")).
Definition lost_pass : Pass := a_pass (fun _ => conflicted).
Definition found_answer : HttpAnswer :=
  answer_of (heartbeat_handler (at_time 4000 9%N) two (Some address) (beat_body beats lost_pass (joiner alpha))).2.
Definition found_pass : Pass := mkPass ∅ env 5000000 (fun _ => None) found_answer (fun _ => conflicted).
Definition three_losses : list Wake :=
  [Ticked id lost_pass; Ticked id found_pass; Ticked id lost_pass; Ticked id lost_pass; HeartbeatLoop.ShutdownChanged true].
Definition sent : list Post := (HeartbeatLoop.run beats three_losses (joiner alpha)).1.2.
Lemma registrations_bounded_witness :
  successes three_losses = 1%nat /\ length (registrations sent) = 4%nat /\ (length (registrations sent) <= 4)%nat.
Proof.
  assert (successes three_losses = 1%nat) as Hs by (vm_compute; reflexivity).
  split; [exact Hs|]. split; [vm_compute; reflexivity|].
  pose proof (registrations_bounded beats three_losses (joiner alpha)) as H. rewrite Hs in H. exact H.
Defined.

(** ** Leaving *)

Definition left : option (ApiState * Response) :=
  serve (at_time 5000 9%N) api_two (Some address) no_headers (PostDeregister (deregister_body alpha)).

Lemma leaving_is_final_witness :
  exists a1 m', rtc (mesh_step beats me alpha) (mkMesh a1 (a_node alpha false) true Signalled []) m'
    /\ phase m' = Gone /\ is_Some (roster two !! alpha) /\ roster (coordinator (served m')) !! alpha = None.
Proof.
  destruct (JoinerDemo.some_by_bool left) as [[a1 resp] Hl]; [vm_compute; reflexivity|].
  assert (rtc (mesh_step beats me alpha) (mkMesh a1 (a_node alpha false) true Signalled [])
    (mkMesh a1 ((a_node alpha false) <| task := (task (a_node alpha false)) <| sessions := clear (sessions (task (a_node alpha false))) |> |>)
      true Gone [])) as Hs by (apply rtc_once; exact (mesh_gone beats me alpha (mkMesh a1 (a_node alpha false) true Signalled []) eq_refl)).
  exists a1. eexists. split; [exact Hs|]. split; [reflexivity|]. split; [vm_compute; by eexists|].
  assert (roster (coordinator api_two) !! (9%N : Uuid) = None) as Hf by (vm_compute; reflexivity).
  unfold left in Hl. change api_two with (served (a_mesh api_two false)) in Hl.
  destruct (leaving_is_final beats me alpha (a_mesh api_two false) (at_time 5000 9%N) (Some address) no_headers a1 resp
    (mkMesh a1 (a_node alpha false) true Deregistered []) _ two_inv eq_refl eq_refl Hf Hl (rtc_refl _ _) Hs) as [Hn _].
  exact Hn.
Defined.

(** ** A leave undone *)

Definition after_leave : ApiState := from_option fst api_two left.
Definition rejoined : option (ApiState * Response) :=
  serve (at_time 6000 new_id) after_leave (Some address) no_headers (PostRegister (register_body inputs 51820 None None None) no_reply).
Definition rejoin_pass : Pass :=
  a_pass (fun _ => match rejoined with Some (_, resp) => answer_of resp | None => NoAnswer end).

Lemma rejoin_tick :
  match rejoined, tick beats rejoin_pass (task (a_node alpha false)) with
  | Some (a2, _), Some (st, posts) =>
      registrations posts = [register_body inputs 51820 None None None] /\ shared_peer_id st = new_id
      /\ Coordinator.by_pubkey (coordinator a2) !! key 1 = Some new_id
  | _, _ => False
  end.
Proof. vm_compute. by split_and!. Qed.

(** The deregistration is served and its answer lost. *)
Lemma deregistration_lost : exchange api_two (PostDeregister (deregister_body alpha)) NoAnswer after_leave.
Proof.
  destruct (JoinerDemo.some_by_bool left) as [[a1 resp] Hl]; [vm_compute; reflexivity|].
  assert (after_leave = a1) as -> by (unfold after_leave; rewrite Hl; reflexivity).
  unfold left in Hl. eapply (exchange_served (at_time 5000 9%N) api_two); [|exact Hl|by right]. vm_compute; reflexivity.
Qed.

(** A heartbeat between the deregistration and the shutdown signal: the node registers
    again and is a member after it has gone. *)
Lemma heartbeat_undoes_leave :
  exists m', rtc (mesh_step beats me alpha) (a_mesh api_two false) m' /\ phase m' = Gone
    /\ Coordinator.by_pubkey (coordinator (served m')) !! key 1 = Some new_id.
Proof.
  pose proof rejoin_tick as H. destruct rejoined as [[a2 resp]|] eqn:Hr; [|destruct H].
  destruct (tick beats rejoin_pass _) as [[st posts]|] eqn:Ht; [|destruct H]. destruct H as (Hreg & _ & Hk).
  assert (roster (coordinator after_leave) !! alpha = None /\ roster (coordinator after_leave) !! (9%N : Uuid) = None
    /\ roster (coordinator after_leave) !! new_id = None) as (Ha & H9 & Hnew) by (vm_compute; by split_and!).
  set (j2 := (a_node alpha false) <| task := st |>).
  set (m1 := mkMesh after_leave (a_node alpha false) true Deregistered []).
  set (m2 := mkMesh a2 j2 true Deregistered posts). set (m3 := mkMesh a2 j2 true Signalled posts).
  set (m4 := mkMesh a2 (j2 <| task := (task j2) <| sessions := clear (sessions (task j2)) |> |>) true Gone posts).
  exists m4. split; [|split; [reflexivity|exact Hk]].
  apply (rtc_l _ _ m1); [|apply (rtc_l _ _ m2); [|apply (rtc_l _ _ m3); [|apply rtc_once]]].
  - apply (mesh_deregister beats me alpha (a_mesh api_two false) NoAnswer after_leave);
      [reflexivity|exact deregistration_lost|by eexists].
  - apply (mesh_beat beats me alpha m1 rejoin_pass after_leave a2 st posts); [reflexivity| |exact Ht|].
    + apply unknown_heartbeat_exchange; [vm_compute; reflexivity|exact Ha|exact H9].
    + rewrite Hreg. apply (exchanges_cons _ _ _ _ _ no_reply a2); [|constructor]. apply (exchange_served (at_time 6000 new_id) after_leave (Some address) no_headers _ a2 resp); [exact Hnew|exact Hr|].
      left. unfold rejoin_pass, a_pass, register_answers. by rewrite Hr.
  - exact (mesh_signal beats me alpha m2 eq_refl).
  - exact (mesh_gone beats me alpha m3 eq_refl).
Qed.
End Departures.
