(* ===== verification/HostDemo.v ===== *)
(** * A concrete host

    A Linux machine with routes, policy rules and firewall chains on which the laws
    of [Routes.v], [Firewall.v] and [StartupProps.v] hold, and a node that joins and
    leaves it; and the command-line tool at work there. *)

From S2P Require Import Prelude NetAddr AddrText Text Types Reflexive Stun CoordInv PeerSession SessionTable SessionInv.
From S2P Require Import CommandGate PeerSync PeerSyncProps DataPlane DataPlaneProps RelayClient Client RosterStore Identity Platform Routes Firewall Startup StartupProps JoinerDemo.

Open Scope Z_scope.

(** ** Texts without white space *)

Definition word_byte (b : Z) : bool := (33 <=? b) && (b <=? 126).
Definition is_word (s : string) : bool := forallb word_byte (bytes_of_string s).

Lemma is_word_app a b : is_word (a +:+ b) = is_word a && is_word b.
Proof. unfold is_word. by rewrite bytes_of_app, forallb_app. Qed.

Lemma is_word_digits fuel radix z : 2 <= radix <= 16 -> is_word (digits fuel radix z) = true.
Proof.
  intros Hr. revert z. induction fuel as [|fuel IH]; intros z; [done|]. rewrite digits_S, is_word_app.
  assert (is_word (String (digit_char (z mod radix)) EmptyString) = true) as ->.
  { pose proof (Z.mod_pos_bound z radix ltac:(lia)) as Hm. unfold is_word, digit_char, bytes_of_string. simpl.
    rewrite andb_true_r. unfold word_byte. destruct (z mod radix <? 10) eqn:E;
      rewrite Ascii.N_ascii_embedding by lia; lia. }
  destruct (z / radix =? 0); [done|]. by rewrite IH.
Qed.
Lemma is_word_join sep l : is_word sep = true -> Forall (fun s => is_word s = true) l -> is_word (string_join sep l) = true.
Proof.
  intros Hs Hl. induction Hl as [|x [|y l] Hx Hl IH]; [done|done|].
  change (string_join sep (x :: y :: l)) with (x +:+ sep +:+ string_join sep (y :: l)).
  by rewrite !is_word_app, Hx, Hs, IH.
Qed.
Lemma is_word_ipv4 a : is_word (fmt_ipv4 a) = true.
Proof.
  apply is_word_join; [done|]. apply Forall_forall. intros s (z & -> & _)%list_elem_of_fmap.
  change (fmt_u z) with (digits 20 10 z). by apply is_word_digits.
Qed.
Lemma is_word_ipv6 a : is_word (fmt_ipv6 a) = true.
Proof.
  assert (forall l, is_word (fmt_subslice l) = true) as Hs.
  { intros l. apply is_word_join; [done|]. apply Forall_forall. intros s (z & -> & _)%list_elem_of_fmap.
    change (fmt_hex z) with (digits 4 16 z). by apply is_word_digits. }
  unfold fmt_ipv6. destruct (to_ipv4_mapped a); [by rewrite is_word_app, is_word_ipv4|].
  destruct (zero_run (segments a)) as [start len]. destruct (1 <? len)%nat; [|apply Hs]. by rewrite !is_word_app, !Hs.
Qed.

Lemma fmt_ipv6_nonempty a : fmt_ipv6 a <> EmptyString.
Proof.
  intros He. apply (f_equal String.length) in He. revert He. unfold fmt_ipv6.
  destruct (to_ipv4_mapped a); [by rewrite string_app_length|].
  destruct (zero_run (segments a)) as [start len]. destruct (1 <? len)%nat; [rewrite !string_app_length; simpl; lia|].
  destruct a as [s0 s1 s2 s3 s4 s5 s6 s7]. unfold fmt_subslice. cbn [segments fmap list_fmap string_join].
  rewrite !string_app_length. cbn [String.length]. lia.
Qed.

Lemma word_not_ws b : word_byte b = true -> ws1 b = false /\ (forall c, ws2 b c = false) /\ forall c d, ws3 b c d = false.
Proof. unfold word_byte, ws1, ws2, ws3. intros Hb. split_and!; intros; lia. Qed.

Lemma split_word cur w rest : forallb word_byte w = true -> split_ws cur (w ++ 32 :: rest) = end_word (rev w ++ cur) (split_ws [] rest).
Proof.
  revert cur. induction w as [|b w IH]; intros cur; [done|]. intros [Hb Hw]%andb_true_iff.
  destruct (word_not_ws b Hb) as (E1 & E2 & E3). specialize (IH (b :: cur) Hw).
  cbn [rev]. rewrite <- app_assoc. cbn [app] in *. cbn [split_ws]. rewrite E1.
  destruct w as [|c w]; cbn [app] in *.
  - rewrite E2. destruct rest as [|d rest]; rewrite ?E3; exact IH.
  - rewrite E2. destruct w as [|d w]; cbn [app] in *; rewrite ?E3; exact IH.
Qed.
Lemma split_last_word cur w : forallb word_byte w = true -> split_ws cur w = end_word (rev w ++ cur) [].
Proof.
  revert cur. induction w as [|b w IH]; intros cur; [done|]. intros [Hb Hw]%andb_true_iff.
  destruct (word_not_ws b Hb) as (E1 & E2 & E3). specialize (IH (b :: cur) Hw).
  cbn [rev]. rewrite <- app_assoc. cbn [app split_ws] in *. rewrite E1.
  destruct w as [|c [|d w]]; rewrite ?E2, ?E3; exact IH.
Qed.
Lemma split_join ws :
  Forall (fun s => is_word s = true /\ s <> EmptyString) ws -> split_whitespace (string_join " " ws) = ws.
Proof.
  unfold split_whitespace. induction 1 as [|x l [Hx Hne] Hl IH]; [done|].
  assert (forall words, end_word (rev (bytes_of_string x) ++ []) words = bytes_of_string x :: words) as He.
  { intros words. rewrite app_nil_r. unfold end_word. destruct (rev (bytes_of_string x)) eqn:E.
    - exfalso. apply Hne. apply (f_equal (@length Z)) in E. rewrite length_rev in E. destruct x; [done|].
      unfold bytes_of_string in E. by rewrite length_fmap in E.
    - by rewrite <- E, rev_involutive. }
  destruct l as [|y l].
  - change (string_join " " [x]) with x. rewrite split_last_word, He by done. by rewrite fmap_cons, string_of_bytes_of.
  - change (string_join " " (x :: y :: l)) with (x +:+ " " +:+ string_join " " (y :: l)).
    rewrite bytes_of_app, bytes_of_app. change (bytes_of_string " ") with [32].
    change ([32] ++ bytes_of_string (string_join " " (y :: l))) with (32 :: bytes_of_string (string_join " " (y :: l))).
    rewrite split_word, He, fmap_cons, string_of_bytes_of by done. by rewrite IH.
Qed.

Lemma fmt_usize_inj n m : fmt_usize n = fmt_usize m -> n = m.
Proof.
  intros He. unfold fmt_usize in He.
  assert (forall k, 0 <= Z.of_nat k < 10 ^ Z.of_nat (S k)) as Hk.
  { intros k. split; [lia|]. apply Z.lt_le_trans with (10 ^ Z.of_nat k); [|apply Z.pow_le_mono_r; lia].
    apply Z.pow_gt_lin_r; lia. }
  pose proof (read_digits_digits 10 ltac:(lia) (S n) (Z.of_nat n) 0 0 EmptyString (Hk n)) as Hn.
  pose proof (read_digits_digits 10 ltac:(lia) (S m) (Z.of_nat m) 0 0 EmptyString (Hk m)) as Hm.
  rewrite !string_app_nil_r, He in *. rewrite Hm in Hn. injection Hn as Hn. lia.
Qed.

(** ** The machine *)

Module Machine.
(** Rules and routes by the texts of their selectors, chains by the family's binary. *)
Record Kernel := mkKernel {
  routes : gmap (list string) string;
  rule_list : list (list string);
  chains : gmap string (list string);
}.
#[export] Instance eta_Kernel : Eta Kernel := fun k => mkKernel (routes k) (rule_list k) (chains k).

Definition line_ok (l : string) : bool := plain_line l && bool_decide (trim l = l) && starts_with "-A INPUT" l.
Definition input_chain (k : Kernel) (bin : string) : list string := List.filter line_ok (default [] (chains k !! bin)).
Definition set_chain (k : Kernel) (bin : string) (l : list string) : Kernel := k <| chains := <[bin := l]> (chains k) |>.

Definition drop_suffix (n : nat) (s : string) : string := String.substring 0 (String.length s - n) s.
(** A rule as [ip rule show] prints it. *)
Definition rule_line (key : list string) : string :=
  match key with
  | [_; from; _; table; _; prf] => prf +:+ ": from " +:+ drop_suffix 4 from +:+ " lookup " +:+ table
  | _ => EmptyString
  end.

Fixpoint remove_first (key : list string) (l : list (list string)) : list (list string) :=
  match l with
  | [] => []
  | x :: l => if bool_decide (x = key) then l else x :: remove_first key l
  end.

Definition done_ (k : Kernel) : Kernel * CommandOutput := (k, Exited true "exit status: 0" "" "").
Definition failed (k : Kernel) (message : string) : Kernel * CommandOutput := (k, Exited false "exit status: 2" "" message).
Definition key_of (p m : string) (tbl : list string) : list string := p :: m :: match tbl with [_; t] => [t] | _ => [] end.

Definition ip_rule (k : Kernel) (verb : string) (key : list string) : Kernel * CommandOutput :=
  if bool_decide (verb = "add") then done_ (k <| rule_list := key :: rule_list k |>)
  else if bool_decide (verb = "del") then
    if bool_decide (key ∈ rule_list k) then done_ (k <| rule_list := remove_first key (rule_list k) |>)
    else failed k "RTNETLINK answers: No such file or directory"
  else (k, Exited true "exit status: 0" (unlines (List.filter plain_line (rule_line <$> rule_list k))) "").
Definition ip_route (k : Kernel) (verb p dev m : string) (tbl : list string) : Kernel * CommandOutput :=
  let key := key_of p m tbl in
  if bool_decide (verb = "add") then
    match routes k !! key with
    | Some _ => failed k "RTNETLINK answers: File exists"
    | None => done_ (k <| routes := <[key := dev]> (routes k) |>)
    end
  else if bool_decide (verb = "replace") then done_ (k <| routes := <[key := dev]> (routes k) |>)
  else if bool_decide (routes k !! key = Some dev) then done_ (k <| routes := delete key (routes k) |>)
  else failed k "RTNETLINK answers: No such process".
Definition ip (k : Kernel) (args : list string) : Kernel * CommandOutput :=
  match args with
  | _ :: what :: verb :: rest =>
      if bool_decide (what = "rule") then ip_rule k verb rest
      else if bool_decide (what = "route") then
        match rest with
        | p :: _ :: dev :: _ :: m :: tbl => ip_route k verb p dev m tbl
        | _ => done_ k
        end
      else done_ k
  | _ => done_ k
  end.
Definition iptables (k : Kernel) (bin : string) (args : list string) : Kernel * CommandOutput :=
  match args with
  | [verb; _] =>
      if bool_decide (verb = "-S") then (k, Exited true "exit status: 0" (unlines ("-P INPUT ACCEPT" :: input_chain k bin)) "")
      else done_ k
  | [verb; _; index] =>
      match List.find (fun i => bool_decide (fmt_usize i = index)) (seq 1 (length (input_chain k bin))) with
      | Some i => done_ (set_chain k bin (delete (i - 1)%nat (input_chain k bin)))
      | None => failed k "iptables: Index of deletion too big."
      end
  | [verb; _; _; _; iface; _; _] => done_ (set_chain k bin (accept_line iface :: input_chain k bin))
  | _ => done_ k
  end.

#[export] Instance machine : Host := {|
  HostState := Kernel;
  target_os := Linux;
  invoke k program args := if bool_decide (program = "ip") then ip k args else iptables k program args;
|}.
#[export] Instance machine_ip : Iproute2 := {| fib := routes; rules := rule_list |}.
#[export] Instance machine_ipt : Iptables := {| chain := input_chain |}.

Lemma remove_first_perm key l : key ∈ l -> l ≡ₚ key :: remove_first key l.
Proof.
  induction l as [|x l IH]; [by intros ?%elem_of_nil|]. intros Hin. cbn [remove_first]. case_bool_decide as Hx; [by subst|].
  apply elem_of_cons in Hin as [->|Hin]; [done|]. rewrite (IH Hin) at 1. by rewrite perm_swap.
Qed.

Lemma drop_suffix_app s t : drop_suffix (String.length t) (s +:+ t) = s.
Proof.
  unfold drop_suffix. rewrite string_app_length. replace (String.length s + String.length t - String.length t)%nat with (String.length s) by lia.
  induction s as [|c s IH]; [by destruct t|]. rewrite string_app_cons. cbn [String.length String.substring]. by rewrite IH.
Qed.

Lemma rule_line_words s :
  rule_line (rule_key s) = string_join " " [fmt_u (pref s) +:+ ":"; "from"; fmt_ipv6 (own_ula s); "lookup"; fmt_u (scope_table s)].
Proof.
  unfold rule_line, rule_key. rewrite (drop_suffix_app _ "/128"). cbn [string_join]. rewrite !string_app_assoc. done.
Qed.
Lemma digits_nonempty fuel radix z : digits (S fuel) radix z <> EmptyString.
Proof. rewrite digits_S. destruct (if z / radix =? 0 then _ else _); by rewrite ?string_app_nil, ?string_app_cons. Qed.

Lemma word_no_newline s : is_word s = true -> no_newline s = true.
Proof.
  unfold is_word, bytes_of_string. induction s as [|c s IH]; [done|]. cbn [String.list_ascii_of_string]. rewrite fmap_cons.
  intros [Hc Hs]%andb_true_iff. cbn [no_newline]. rewrite IH by done. rewrite andb_true_r, negb_true_iff, bool_decide_eq_false.
  intros ->. done.
Qed.

Lemma strip_suffix_app c a b : b <> EmptyString -> strip_suffix_char c (a +:+ b) = (fun s => a +:+ s) <$> strip_suffix_char c b.
Proof.
  intros Hb. induction a as [|x a IH]; [change (EmptyString +:+ b) with b; by destruct (strip_suffix_char c b)|]. rewrite string_app_cons.
  assert (exists y t, a +:+ b = String y t) as (y & t & He).
  { destruct a as [|z a]; [destruct b as [|z b]; [done|by eexists _, _]|by eexists _, _]. }
  rewrite He in IH |- *. change (strip_suffix_char c (String x (String y t))) with (String x <$> strip_suffix_char c (String y t)).
  rewrite IH. by destruct (strip_suffix_char c b).
Qed.
Lemma lines_app_no_newline a b : no_newline (a +:+ b) = no_newline a && no_newline b.
Proof. induction a as [|c a IH]; [done|]. rewrite string_app_cons. cbn [no_newline]. by rewrite IH, andb_assoc. Qed.

Lemma plain_word_line ws : Forall (fun s => is_word s = true) ws -> plain_line (string_join " " ws) = true.
Proof.
  intros Hw.
  assert (no_newline (string_join " " ws) = true /\ strip_suffix_char carriage_return (string_join " " ws) = None) as [Hn Hc].
  { induction Hw as [|x [|y l] Hx Hl [IH1 IH2]]; [done| |].
    - change (string_join " " [x]) with x. split; [by apply word_no_newline|].
      destruct (strip_suffix_char carriage_return x) as [p|] eqn:E; [|done]. apply strip_suffix_char_spec in E as ->.
      rewrite is_word_app in Hx. by apply andb_true_iff in Hx as [_ Hx].
    - change (string_join " " (x :: y :: l)) with (x +:+ (" " +:+ string_join " " (y :: l))).
      rewrite !lines_app_no_newline, IH1, word_no_newline by done. split; [done|]. rewrite strip_suffix_app by done.
      destruct (string_join " " (y :: l)) as [|z t]; [done|]. by rewrite strip_suffix_app, IH2. }
  unfold plain_line. by rewrite Hn, Hc.
Qed.

#[export] Instance machine_ip_laws : Iproute2Laws.
Proof.
  split.
  - done.
  - intros st u dev m t. change (fib (invoke st "ip" (ip_route_args "add" u dev m t)).1)
      with (routes (ip_route st "add" (route_prefix u) dev (fmt_u m) (match t with Some t => ["table"; fmt_u t] | None => [] end)).1).
    unfold ip_route. rewrite bool_decide_true by done.
    assert (key_of (route_prefix u) (fmt_u m) (match t with Some t => ["table"; fmt_u t] | None => [] end) = route_key u m t) as ->
      by by destruct t.
    simpl. by destruct (routes st !! route_key u m t).
  - intros st u dev m t. destruct t; reflexivity.
  - intros st u dev m t. change (fib (invoke st "ip" (ip_route_args "del" u dev m t)).1)
      with (routes (ip_route st "del" (route_prefix u) dev (fmt_u m) (match t with Some t => ["table"; fmt_u t] | None => [] end)).1).
    unfold ip_route. rewrite !bool_decide_false by done.
    assert (key_of (route_prefix u) (fmt_u m) (match t with Some t => ["table"; fmt_u t] | None => [] end) = route_key u m t) as ->
      by by destruct t.
    simpl. destruct (decide (routes st !! route_key u m t = Some dev)); [by rewrite !bool_decide_true|by rewrite !bool_decide_false].
  - intros st s. reflexivity.
  - intros st s. change (invoke st "ip" (Routes.rule_args "del" s)) with (ip_rule st "del" (rule_key s)).
    unfold ip_rule. rewrite (bool_decide_false ("del" = "add")), (bool_decide_true ("del" = "del")) by done.
    change (rules st) with (rule_list st).
    destruct (decide (rule_key s ∈ rule_list st)) as [Hin|Hin]; [rewrite !bool_decide_true by done; by apply remove_first_perm|by rewrite !bool_decide_false].
  - done.
  - intros st. eexists "exit status: 0", _, "". split; [reflexivity|]. intros s Hs.
    assert (Forall (fun w => is_word w = true /\ w <> EmptyString)
      [fmt_u (pref s) +:+ ":"; "from"; fmt_ipv6 (own_ula s); "lookup"; fmt_u (scope_table s)]) as Hw.
    { repeat constructor; rewrite ?is_word_app; try done.
      - change (fmt_u (pref s)) with (digits 20 10 (pref s)). by rewrite is_word_digits.
      - change (fmt_u (pref s)) with (digits 20 10 (pref s)). intros He. apply (f_equal String.length) in He.
        rewrite string_app_length in He. simpl in He. lia.
      - apply is_word_ipv6.
      - apply fmt_ipv6_nonempty.
      - by apply (is_word_digits 20 10).
      - apply (digits_nonempty 19 10). }
    assert (plain_line (rule_line (rule_key s)) = true) as Hp.
    { rewrite rule_line_words. apply plain_word_line. eapply Forall_impl; [exact Hw|]. by intros ? []. }
    exists (rule_line (rule_key s)). split.
    + rewrite lines_unlines; [|apply Forall_forall; intros l [_ Hl]%list_elem_of_In%filter_In; done].
      apply list_elem_of_In, filter_In. split; [|done]. apply list_elem_of_In. by apply list_elem_of_fmap_2.
    + rewrite rule_line_words, split_join by done. unfold needle. cbn [string_join]. by rewrite !string_app_assoc.
Qed.

Lemma input_chain_set k bin bin' l :
  Forall (fun x => line_ok x = true) l ->
  input_chain (set_chain k bin l) bin' = if decide (bin' = bin) then l else input_chain k bin'.
Proof.
  intros Hl. unfold input_chain, set_chain. simpl. case_decide as Hb.
  - subst. rewrite lookup_insert_eq. by apply filter_all_true.
  - by rewrite lookup_insert_ne.
Qed.
Lemma input_chain_ok k bin : Forall (fun x => line_ok x = true) (input_chain k bin).
Proof. apply Forall_forall. intros l Hl. unfold input_chain in Hl. by apply list_elem_of_In, filter_In in Hl as [_ Hl]. Qed.

Lemma on_family bin st args : bin ∈ families -> invoke st bin args = iptables st bin args.
Proof. by intros [->|[->|[]%elem_of_nil]%elem_of_cons]%elem_of_cons. Qed.

#[export] Instance machine_ipt_laws : IptablesLaws.
Proof.
  split.
  - intros st bin. eapply Forall_impl; [apply input_chain_ok|]. intros l. unfold line_ok.
    intros [[Hp Ht]%andb_true_iff Hs]%andb_true_iff. split_and!; [done|by apply bool_decide_eq_true in Ht|done].
  - intros st bin Hb. rewrite on_family by done. by eexists "exit status: 0", "-P INPUT ACCEPT", "".
  - intros st bin iface Hb [Hp Ht]. rewrite on_family by done. eexists _, "exit status: 0", "", "". split; [reflexivity|].
    assert (Forall (fun x => line_ok x = true) (accept_line iface :: input_chain st bin)) as Hl.
    { constructor; [|apply input_chain_ok]. unfold line_ok. by rewrite Hp, bool_decide_true. }
    simpl. split; [by rewrite input_chain_set, decide_True|]. intros bin' Hne. by rewrite input_chain_set, decide_False.
  - intros st bin i Hb Hi. rewrite on_family by done. cbn zeta. simpl in Hi |- *.
    destruct (List.find _ _) as [i'|] eqn:Hf.
    + apply find_some in Hf as [_ Hf]. apply bool_decide_eq_true, fmt_usize_inj in Hf as ->. simpl.
      assert (Forall (fun x => line_ok x = true) (delete (i - 1)%nat (input_chain st bin))) as Hl.
      { apply Forall_delete, input_chain_ok. }
      split; [by rewrite input_chain_set, decide_True|]. intros bin' Hne. by rewrite input_chain_set, decide_False.
    + exfalso. pose proof (find_none _ _ Hf i ltac:(apply in_seq; lia)) as Hn. cbn beta in Hn. by rewrite bool_decide_true in Hn.
Qed.

#[export] Instance machine_separate : SeparateCommands.
Proof.
  split.
  - intros st args bin. change (chain (invoke st "ip" args).1 bin) with (input_chain (ip st args).1 bin).
    unfold ip, ip_rule, ip_route. repeat case_match; done.
  - intros st bin args Hb. rewrite on_family by done. unfold iptables. repeat case_match; done.
  - intros st args. change (rules (invoke st "ip" ("-6" :: "addr" :: args)).1) with (rule_list (ip st ("-6" :: "addr" :: args)).1).
    unfold ip. by destruct args.
  - intros st args. change (rules (invoke st "ip" ("-6" :: "route" :: args)).1) with (rule_list (ip st ("-6" :: "route" :: args)).1).
    unfold ip, ip_route. repeat case_match; done.
  - done.
Qed.
End Machine.

(** ** A node on it *)

Module Node.
Import Machine.
#[export] Existing Instances Cleartext.cleartext Concrete.externals Concrete.external_laws Toy.toy Toy.toy_laws
  JoinerDemo.order JoinerDemo.order_laws.

(** A key's public part is here the key itself, reversed. *)
#[export] Instance curve : Curve := {| public_of l := rev l |}.
#[export] Instance identity_serde : IdentitySerde := {|
  identity_from_slice b :=
    '(k, u) ← (decode (Toy.positive_of_string (string_of_bytes b)) : option (string * string)); Some (mkIdentityFile k u);
  identity_to_vec r := Some (bytes_of_string (Toy.string_of_positive (encode (private_key r, ula_text r))));
|}.
#[export] Instance identity_serde_laws : IdentitySerdeLaws.
Proof.
  split; [by eexists|]. intros r bytes [= <-]. simpl. rewrite string_of_bytes_of, Toy.positive_of_string_of, decode_encode. by destruct r.
Qed.

Definition quiet : @HostState machine := mkKernel ∅ [["from"; "fd5a::9/128"; "lookup"; "300"; "pref"; "150"]] {["ip6tables" := ["-A INPUT -i lo -j ACCEPT"]]}.
Definition iface : string := "mesh0".
Definition id_path : Path := mkPath true ["var"; "lib"; "mesh"; "identity.json"].
Definition rnd : list Z := replicate 32 7.
Definition fresh_keys : WgKeypair := mkWgKeypair rnd (rev rnd).

Lemma wf_fresh_keys : wf_keypair fresh_keys.
Proof. split; [reflexivity|]. split; [|reflexivity]. apply Forall_replicate. by split. Qed.

Lemma iface_is_ok : iface_ok iface.
Proof. split; vm_compute; reflexivity. Qed.
Lemma quiet_untrusting bin : accept_line iface ∉ chain quiet bin.
Proof.
  simpl. unfold input_chain. simpl. destruct (decide (bin = "ip6tables")) as [->|Hne].
  - vm_compute. intros Hin. inversion Hin as [|? ? ? H]. inversion H.
  - rewrite lookup_singleton_ne by done. apply not_elem_of_nil.
Qed.

(** ** The theorems apply *)

(** Two sessions whose route tasks run in the opposite order. *)
Definition swapped : list RouteSink := [add_allowed JoinerDemo.ula_b; add_allowed JoinerDemo.ula_a].
Lemma kernel_routes_follow_sessions_witness :
  fib (run_tasks (sink_new iface) quiet swapped) !! sink_key (sink_new iface) JoinerDemo.ula_a = Some iface
  /\ fib (run_tasks (sink_new iface) quiet swapped) !! sink_key (sink_new iface) JoinerDemo.app = None.
Proof.
  destruct (JoinerDemo.some_by_bool (route_sink JoinerDemo.table0)) as [log Hlog]; [vm_compute; reflexivity|].
  assert (log = [add_allowed JoinerDemo.ula_a; add_allowed JoinerDemo.ula_b; add_app_route JoinerDemo.app]) as Hl.
  { assert (Some log = Some [add_allowed JoinerDemo.ula_a; add_allowed JoinerDemo.ula_b; add_app_route JoinerDemo.app]) as H;
      [rewrite <- Hlog; vm_compute; reflexivity|injection H as ->; reflexivity]. }
  assert (forall u, wf_ipv6 u ->
    (is_Some (by_ula JoinerDemo.table0 !! u) -> fib (run_tasks (sink_new iface) quiet swapped) !! sink_key (sink_new iface) u = Some iface)
    /\ (by_ula JoinerDemo.table0 !! u = None -> fib (run_tasks (sink_new iface) quiet swapped) !! sink_key (sink_new iface) u = None)) as H.
  { apply (kernel_routes_follow_sessions (sink_new iface) quiet JoinerDemo.table0 log swapped JoinerDemo.wf_table0 Hlog).
    - repeat constructor; vm_compute; done.
    - intros u. rewrite Hl. unfold swapped. simpl. repeat case_bool_decide; try reflexivity.
      exfalso. assert (JoinerDemo.ula_a = JoinerDemo.ula_b) as E by congruence. vm_compute in E. discriminate E.
    - intros u _. reflexivity. }
  split.
  - apply (H JoinerDemo.ula_a); [vm_compute; repeat constructor; done|]. by eexists.
  - apply (H JoinerDemo.app); [vm_compute; repeat constructor; done|]. vm_compute. reflexivity.
Defined.

Lemma trust_lifecycle_witness :
  exists st', ensure_tun_trust quiet iface = (st', true)
    /\ chain st' "ip6tables" = [accept_line iface; "-A INPUT -i lo -j ACCEPT"]
    /\ chain (remove_tun_trust st' iface) "ip6tables" = ["-A INPUT -i lo -j ACCEPT"].
Proof.
  destruct (trust_lifecycle quiet iface iface_is_ok quiet_untrusting) as (st' & He & Hc & _ & Hr).
  exists st'. split; [exact He|]. split.
  - rewrite (Hc "ip6tables" fam6). vm_compute. reflexivity.
  - rewrite (Hr "ip6tables"). vm_compute. reflexivity.
Defined.

Lemma identity_roundtrip_witness :
  exists d', store ∅ fs_ok id_path fresh_keys JoinerDemo.me = (d', Ok tt)
    /\ load d' fs_ok id_path = Ok (Some (mkPeerIdentity fresh_keys JoinerDemo.me)).
Proof.
  destruct (store ∅ fs_ok id_path fresh_keys JoinerDemo.me) as [d' r] eqn:E.
  assert (r = Ok tt) as -> by (transitivity (store ∅ fs_ok id_path fresh_keys JoinerDemo.me).2; [rewrite E; reflexivity|vm_compute; reflexivity]).
  exists d'. split; [reflexivity|].
  pose proof (identity_roundtrip ∅ fs_ok id_path fresh_keys JoinerDemo.me ltac:(vm_compute; discriminate) wf_fresh_keys
    ltac:(vm_compute; repeat constructor; done)) as H.
  rewrite E in H. apply H.
Defined.

Lemma keypair_survives_restarts_witness :
  exists d', load_or_generate ∅ fs_ok id_path rnd = (d', Ok fresh_keys)
    /\ load_or_generate d' fs_ok id_path (replicate 32 8) = (d', Ok fresh_keys).
Proof.
  destruct (load_or_generate ∅ fs_ok id_path rnd) as [d' r] eqn:E.
  assert (r = Ok fresh_keys) as -> by (transitivity (load_or_generate ∅ fs_ok id_path rnd).2; [rewrite E; reflexivity|vm_compute; reflexivity]).
  exists d'. split; [reflexivity|].
  apply (keypair_survives_restarts ∅ fs_ok id_path rnd d' fresh_keys); [vm_compute; discriminate|reflexivity|exact E|reflexivity|reflexivity].
Defined.

(** ** A join *)

Definition config_asking (raw : option string) : JoinConfig := {|
  jc_coordinator_url := "http://coordinator:8888";
  jc_display_name := "node";
  jc_tags := ["prod"];
  jc_join_token := None;
  jc_listen_port := None;
  jc_tun_name := Some iface;
  jc_heartbeat_interval_secs := 20;
  jc_advertise_endpoint := None;
  jc_keypair_path := None;
  jc_tls_cert := None;
  jc_tls_key := None;
  jc_tls_ca := None;
  jc_insecure_no_mtls := true;
  jc_requested_ula := raw;
  jc_kind := None;
  jc_parent := None;
  jc_app_uuid := None;
  jc_identity_path := Some id_path;
  jc_software_version := None;
  jc_relay_enabled := true;
  jc_relay_url := None;
  jc_relay_urls := [];
  jc_relay_only := false;
  jc_source_scoped_routes := true;
  jc_manage_firewall := true;
  jc_stun_server := None;
  jc_route_metric := DEFAULT_ROUTE_METRIC;
|}.
Definition config : JoinConfig := config_asking None.
Definition answer : RegisterReply :=
  mkRegisterReply 7%N (fmt_ipv6 JoinerDemo.me) [JoinerDemo.remote 1%N JoinerDemo.key_a JoinerDemo.ula_a []].
Definition outside : Outside := {|
  home := None;
  identity_io := fs_ok;
  store_io := fs_ok;
  random := rnd;
  bind _ port := Some port;
  local_addr_ok := true;
  debug_assertions := true;
  stun_seed := 0;
  stun_sent := false;
  stun_reply := None;
  client_builds := true;
  post _ _ := Ok answer;
  open_tun name _ := name;
  surroundings := JoinerDemo.env;
|}.
Definition secret_from (bytes : list Z) : StaticSecret := take 1 bytes.

Lemma node_joins : exists d' st' j, join secret_from config outside ∅ quiet = Some (d', st', Ok j).
Proof.
  destruct (JoinerDemo.some_by_bool (join secret_from config outside ∅ quiet)) as [[[d' st'] r] E]; [vm_compute; reflexivity|].
  exists d', st'. destruct r as [j|e]; [by exists j|].
  assert ((match join secret_from config outside ∅ quiet with Some (_, Err _) => false | _ => true end) = true) as H
    by (vm_compute; reflexivity).
  rewrite E in H. discriminate H.
Qed.

Lemma joined_facts d' st' j :
  join secret_from config outside ∅ quiet = Some (d', st', Ok j) -> my_ula j = JoinerDemo.me /\ iface_name j = Some iface.
Proof.
  intros E.
  assert ((match join secret_from config outside ∅ quiet with
           | Some (_, Ok j) => bool_decide (my_ula j = JoinerDemo.me /\ iface_name j = Some iface) | _ => false end) = true) as H
    by (vm_compute; reflexivity).
  rewrite E in H. by apply bool_decide_eq_true in H.
Qed.

(** The node is started again as it was, and with its address spelled out in full,
    which is refused. *)
Definition in_full : string := "fd5a:1f00:1:7:0:0:0:1".
Lemma identity_is_sticky_witness :
  parse_ipv6 in_full = Some JoinerDemo.me
  /\ exists d' st' j, join secret_from config outside ∅ quiet = Some (d', st', Ok j)
    /\ (forall rnd', resolve_identity config None d' fs_ok rnd'
         = (d', Ok (node_key j, Some JoinerDemo.me, Some (fmt_ipv6 JoinerDemo.me))))
    /\ forall rnd', resolve_identity (config_asking (Some in_full)) None d' fs_ok rnd'
         = (d', Err (UlaDiffers in_full (fmt_ipv6 JoinerDemo.me))).
Proof.
  split; [by vm_compute|]. destruct node_joins as (d' & st' & j & E). exists d', st', j. split; [exact E|].
  destruct (identity_is_sticky secret_from config outside ∅ quiet d' st' j id_path) as (u & Hu & Hl);
    [reflexivity|vm_compute; discriminate|reflexivity|apply Forall_replicate; by split|exact E|].
  destruct (joined_facts d' st' j E) as [Hme _].
  assert (load ∅ (identity_io outside) id_path = Ok None) as Hn by (vm_compute; reflexivity).
  rewrite Hn in Hl. destruct Hl as [-> _]. rewrite Hme in Hu. split; intros rnd'; rewrite Hu by reflexivity; [reflexivity|].
  vm_compute. reflexivity.
Defined.

(** It installs a route, checks its rule, and asserts its firewall rule again. *)
Lemma leave_undoes_join_witness :
  exists d' st' j, join secret_from config outside ∅ quiet = Some (d', st', Ok j)
    /\ copies (for_ula JoinerDemo.me) st' = 1%nat
    /\ let st2 := (ensure_tun_trust (sink_task (route_sink_of j) st' (add_allowed JoinerDemo.ula_a)) iface).1 in
       copies (for_ula JoinerDemo.me) (leave_host j st2) = 0%nat
       /\ forall bin, chain (leave_host j st2) bin = chain quiet bin.
Proof.
  destruct node_joins as (d' & st' & j & E). exists d', st', j. split; [exact E|].
  destruct (joined_facts d' st' j E) as [Hme Hif].
  assert ((match join secret_from config outside ∅ quiet with
           | Some (_, st', Ok j) => bool_decide (copies (for_ula JoinerDemo.me) st' = 1%nat) && manage_firewall j | _ => false end) = true) as H
    by (vm_compute; reflexivity).
  rewrite E in H. apply andb_true_iff in H as [H Hmf]. apply bool_decide_eq_true in H. split; [exact H|].
  rewrite <- Hme.
  apply (leave_undoes_join secret_from config outside ∅ quiet d' st' j).
  - exact E.
  - eapply upkeep_route, upkeep_trust; [exact Hmf|exact Hif|apply upkeep_rest].
  - rewrite Hme. vm_compute. reflexivity.
  - rewrite Hif. intros i [= <-]. split; [exact iface_is_ok|exact quiet_untrusting].
Defined.

Lemma join_outcomes_witness :
  exists d' st' j, join secret_from config outside ∅ quiet = Some (d', st', Ok j) /\ my_peer_id j = 7%N
    /\ key_at (node_sessions j) JoinerDemo.ula_a = Some JoinerDemo.key_a.
Proof.
  destruct node_joins as (d' & st' & j & E). exists d', st', j. split; [exact E|].
  pose proof (join_outcomes secret_from config outside ∅ quiet) as H. rewrite E in H.
  destruct H as (n & u & resp & Hp & Hid & _ & _ & Hk & _). injection Hp as <-. split; [exact Hid|].
  rewrite Hk. vm_compute. reflexivity.
Defined.

Lemma source_rule_lifecycle_witness :
  let own := for_ula JoinerDemo.me in
  let other := mkSourceScope (Ipv6 0xfd5a 0 0 0 0 0 0 9) 300 150 in
  let st1 := fst (install_source_rule quiet own) in
  copies own st1 = 1%nat /\ reassert_source_rule st1 own = st1 /\ copies own (remove_source_rule st1 own) = 0%nat
  /\ copies other st1 = copies other quiet.
Proof.
  cbn zeta. destruct (source_rule_lifecycle quiet (for_ula JoinerDemo.me) (mkSourceScope (Ipv6 0xfd5a 0 0 0 0 0 0 9) 300 150))
    as (Hi & _ & _ & _ & Ho).
  assert (copies (for_ula JoinerDemo.me) quiet = 0%nat) as H0 by (vm_compute; reflexivity). rewrite H0 in Hi.
  set (st1 := fst (install_source_rule quiet (for_ula JoinerDemo.me))) in *.
  destruct (source_rule_lifecycle st1 (for_ula JoinerDemo.me) (for_ula JoinerDemo.me)) as (_ & Hr & _ & Hd & _).
  change (Nat.max 1 0) with 1%nat in Hi. rewrite Hi in Hr, Hd. split; [exact Hi|]. split; [apply Hr; constructor|].
  split; [apply Hd; constructor|]. apply Ho. vm_compute. discriminate.
Defined.

(** ** Surprises *)

(** The route tasks are not ordered: when the delete of an earlier session runs after
    the add of the one that replaced it, the live session has no route, and no
    later call repairs it. *)
Lemma swapped_tasks_lose_the_route :
  let calls := [add_allowed JoinerDemo.ula_a; remove_allowed JoinerDemo.ula_a; add_allowed JoinerDemo.ula_a] in
  let late := [add_allowed JoinerDemo.ula_a; add_allowed JoinerDemo.ula_a; remove_allowed JoinerDemo.ula_a] in
  fib (run_tasks (sink_new iface) quiet calls) !! sink_key (sink_new iface) JoinerDemo.ula_a = Some iface
  /\ fib (run_tasks (sink_new iface) quiet late) !! sink_key (sink_new iface) JoinerDemo.ula_a = None.
Proof. vm_compute. by split. Qed.

(** A rule for a table whose number starts with the same digits passes for the
    joiner's own. *)
Lemma longer_table_passes :
  rule_listing_contains "150: from fd5a::9 lookup 3001" (mkSourceScope (Ipv6 0xfd5a 0 0 0 0 0 0 9) 300 150) = true.
Proof. vm_compute. reflexivity. Qed.
End Node.

(** * The command-line tool at work

    A daemon that is started on the machine above, interrupted while its
    refresher holds a snapshot, and gone; and what the commands print. *)

From S2P Require Import Auth HostSink Cli PeersReport CliRun Evolve Sources Demo Json Dto.

#[export] Instance StatusSnapshot_eq_dec : EqDecision StatusSnapshot.
Proof. solve_decision. Defined.
#[export] Instance StatusSnapshot_countable : Countable StatusSnapshot.
Proof.
  apply (inj_countable' (fun s => (ss_peer_id s, ss_ula s, ss_coordinator_url s, ss_display_name s, ss_tags s, peer_count s, last_heartbeat_at s, pid s))
    (fun '(a, b, c, d, e, f, g, h) => mkStatusSnapshot a b c d e f g h)). by intros [].
Defined.
#[export] Instance LifelineStatus_eq_dec : EqDecision LifelineStatus.
Proof. solve_decision. Defined.
#[export] Instance LifelineStatus_countable : Countable LifelineStatus.
Proof.
  apply (inj_countable' (fun s => (ls_peer_id s, ls_ula s, ls_name s)) (fun '(a, b, c) => mkLifelineStatus a b c)). by intros [].
Defined.

Module Tool.
Import Machine Node.
#[export] Existing Instances Cleartext.cleartext Concrete.externals Concrete.external_laws Toy.toy Toy.toy_laws.

(** A text form that is one number. *)
Definition number_of {A} `{Countable A} (a : A) : option (list Z) := Some [Zpos (encode a)].
Definition of_number {A} `{Countable A} (l : list Z) : option A :=
  match l with [Zpos p] => decode p | _ => None end.
#[export] Instance numbers : StatusJson := {|
  snapshot_to_json := number_of; snapshot_of_json := of_number; lifeline_to_json := number_of; lifeline_of_json := of_number;
|}.
#[export] Instance numbers_laws : StatusJsonLaws.
Proof. split; try (by eexists); intros s json [= <-]; apply decode_encode. Qed.

Definition home_dir : option Path := Some (mkPath true ["root"]).
Definition status_file : Path := mkPath true ["root"; ".tabbify-mesh"; "status.json"].
Definition me : Self := mkSelf 7%N (Ipv6 0xfd5a 0x1f00 0 2 0 0 0 1) "http://c" "box" ["tag:edge"] 42.
Definition disk0 : Disk := {[ mkPath true ["etc"; "hosts"] := mkFile [1; 2] 420 ]}.

(** ** The end of a daemon *)

Definition last_words : StatusSnapshot := snapshot_of me 3 1000.
(** The refresher has taken a snapshot and not yet written it when Ctrl-C comes; it
    writes it after the node has been taken away and before it is cancelled. *)
Definition written : Disk := fst (status_write disk0 fs_ok home_dir last_words).
Definition the_end : Daemon :=
  mkDaemon (fst (status_remove written true home_dir)) None Finished Ended true true (Some (snd (status_remove written true home_dir))).

Definition waiting : Daemon := mkDaemon written None Leaving Ended true false None.

Lemma waiting_reachable : reachable home_dir disk0 me waiting.
Proof.
  unfold reachable, started, waiting.
  eapply rtc_l; [left; apply (step_snapshot home_dir _ me _ _ _ _ 3 1000)|].
  eapply rtc_l; [left; apply step_ctrl_c|].
  eapply rtc_l; [left; apply step_take|].
  eapply rtc_l; [left; apply step_abort|].
  eapply rtc_l; [left; apply (step_write home_dir _ _ _ _ _ _ _ fs_ok)|].
  eapply rtc_l; [left; apply step_cancelled|].
  eapply rtc_l; [left; apply step_joined|].
  eapply rtc_l; [left; apply step_leave|]. reflexivity.
Qed.

Lemma the_end_reachable : reachable home_dir disk0 me the_end.
Proof.
  unfold reachable. etrans; [apply waiting_reachable|].
  eapply rtc_l; [right; apply step_answered|].
  eapply rtc_l; [left; apply (step_remove home_dir _ _ _ _ _ _ true)|]. reflexivity.
Qed.

(** The daemon waits for the coordinator with its status still on the disk; answered,
    it removes it. *)
Lemma daemon_ends_clean_witness :
  content <$> (disk waiting !! status_file) = snapshot_to_json last_words
  /\ (forall s', ~ task_step home_dir waiting s')
  /\ disk the_end !! status_file = None
  /\ disk the_end !! mkPath true ["etc"; "hosts"] = Some (mkFile [1; 2] 420)
  /\ forall s', ~ daemon_step home_dir the_end s'.
Proof.
  split; [by vm_compute|].
  destruct (daemon_ends_clean home_dir disk0 me waiting waiting_reachable) as (_ & _ & _ & _ & Hw & _).
  destruct (Hw eq_refl) as [Hstuck _]. split; [exact Hstuck|].
  destruct (daemon_ends_clean home_dir disk0 me the_end the_end_reachable) as (Ho & _ & _ & _ & _ & Hf).
  destruct (Hf eq_refl) as [Hstop Hgone]. split; [by apply (Hgone status_file)|]. split; [|exact Hstop].
  rewrite Ho; [done|]. intros p [= <-]. split; [discriminate|by vm_compute].
Defined.

(** ** The start of one *)

Definition key_hex : string := "00".
Definition args (key : option string) : JoinArgs := {|
  ja_coordinator := "http://c/";
  ja_name := "lifeline";
  ja_tags := ["tag:edge"];
  ja_join_token := None;
  ja_listen_port := None;
  ja_tun_name := None;
  ja_identity_path := Some id_path;
  ja_requested_ula := None;
  ja_super_admin_pubkey := key;
  ja_heartbeat_interval := 20;
  ja_advertise_endpoint := None;
  ja_tls_cert := None;
  ja_tls_key := None;
  ja_tls_ca := None;
  ja_insecure_no_mtls := true;
  ja_no_relay := false;
  ja_relay_url := [];
  ja_relay_only := false;
  ja_source_scoped_routes := true;
  ja_manage_firewall := true;
  ja_route_metric := 1024;
  ja_mesh_stun_server := None;
  ja_status_file := Some (mkPath true ["var"; "lib"; "mesh"; "lifeline-status.json"]);
|}.
Definition start_io : StartIo := mkStartIo fs_ok fs_ok fs_ok 5 42.

Lemma lifeline_starts :
  match start secret_from (args None) outside start_io ∅ quiet with
  | Some (d, _, Ok l) =>
      command_sink l = None
      /\ content <$> d !! mkPath true ["var"; "lib"; "mesh"; "lifeline-status.json"]
         = lifeline_to_json (mkLifelineStatus (self_peer_id (self l)) (self_ula (self l)) "lifeline")
  | _ => False
  end.
Proof. vm_compute. done. Qed.

(** The keys of [toy] are as long as the text says, so every one is malformed here. *)
Lemma malformed_key_example :
  start secret_from (args (Some key_hex)) outside start_io ∅ quiet = Some (∅, quiet, Err InvalidPubkey)
  /\ ja_super_admin_pubkey (args (Some "  ")) = Some "  " /\ optional_sink (Some "  ") id_path = Ok None.
Proof. by vm_compute. Qed.

(** ** The commands *)

Definition snapshot : StatusSnapshot := mkStatusSnapshot 7%N (Ipv6 0xfd5a 0x1f00 0 2 0 0 0 1) "http://c/" "box" [] 3 0 42.
Definition with_status : Disk := fst (status_write ∅ fs_ok home_dir snapshot).

Lemma leave_follows_the_status_file :
  leave_run (mkLeaveArgs None None) home_dir with_status fs_ok true
    (fun req => if bool_decide (post_url req = "http://c/v1/mesh/deregister" /\ post_peer_id req = 7%N) then Some 204 else Some 500)
  = (delete status_file with_status, Ok tt)
  /\ leave_run (mkLeaveArgs None None) home_dir ∅ fs_ok true (fun _ => Some 204) = (∅, Err NoPeerId).
Proof. by vm_compute. Qed.

Lemma peers_command_example :
  peers_run (fun _ => None) (mkPeersArgs "http://c" None) ∅ fs_ok home_dir 0
    (fun url _ => if bool_decide (url = "http://c/v1/mesh/peers") then Some (200, Some (roster_json [])) else None)
  = Ok [columns ["NAME"; "ULA"; "ENDPOINT"; "CONN"; "TAGS"; "LAST_SEEN"]; "(no peers)"].
Proof. by vm_compute. Qed.
End Tool.
