(* ===== verification/FabricDemo.v ===== *)
(** * Concrete fabrics

    Two nodes over TCP and two over WireGuard, on which the theorems about fabrics are
    shown to apply, and the runs that exhibit the surprising behaviours of the code. *)

From S2P Require Import Prelude NetAddr AddrText Types PeerSession SessionTable Fabric Loopback WgFabric JoinerDemo.

Open Scope Z_scope.

#[export] Existing Instance InProcess.in_process_laws.

Module Nodes.
#[export] Existing Instances Cleartext.cleartext JoinerDemo.order JoinerDemo.order_laws.
#[export] Instance peer_order : PeerOrder := {| iter_peers A m := map_to_list m |}.
#[export] Instance peer_order_laws : PeerOrderLaws.
Proof. by split. Qed.

Definition app_a : Ipv6Addr := Ipv6 0xfd5a 0x1f02 0 0 0 0 0 1.
Definition app_b : Ipv6Addr := Ipv6 0xfd5a 0x1f02 0 0 0 0 0 2.
Definition hello : list Z := [104; 105].

Lemma wf_app_b : wf_ipv6 app_b.
Proof. unfold wf_ipv6. simpl. repeat (apply Forall_cons; split; [by split|]). by constructor. Qed.
Lemma wf_local_new : wf_local local_new.
Proof. split; intros u; set_solver. Qed.

Definition cluster : UlaPrefix := mkUlaPrefix 7 3.
Definition uuid_a : list Z := [1; 2; 3; 4; 5; 6; 7; 8; 9; 10; 11; 12; 13; 14; 15; 16].
Definition uuid_b : list Z := [1; 2; 3; 4; 5; 6; 7; 8; 0; 0; 0; 0; 0; 0; 0; 0].

(** Two applications whose UUIDs differ in their second halves share an address. *)
Lemma app_address_determines_witness :
  from_components cluster uuid_a 1 = from_components cluster uuid_b 1
  /\ from_components cluster uuid_a 1 <> from_components cluster uuid_b 2.
Proof.
  assert (wf_prefix cluster) as Hc by by split. assert (is_u16 1) as H1 by by split. assert (is_u16 2) as H2 by by split.
  assert (Forall is_u8 uuid_a) as Ha by (repeat (apply Forall_cons; split; [by split|]); by constructor).
  assert (Forall is_u8 uuid_b) as Hb by (repeat (apply Forall_cons; split; [by split|]); by constructor).
  split.
  - apply (proj2 (app_address_determines cluster cluster uuid_a uuid_b 1 1 Hc Hc H1 H1 Ha Hb eq_refl eq_refl)).
    split; [reflexivity|]. split; reflexivity.
  - intros He. apply (proj2 (app_address_determines cluster cluster uuid_a uuid_b 1 2 Hc Hc H1 H2 Ha Hb eq_refl eq_refl)) in He.
    destruct He as (_ & _ & He). discriminate He.
Defined.

Lemma fabric_contract_witness :
  let '(f1, c) := fabric_register (MeshFabric := InProcess.in_process) local_new app_b "b" in
  let '(f2, rs) := send_all f1 [(tt, app_b, hello); (tt, app_a, hello); (tt, app_b, [])] in
  queue (chan f2 c) = [(app_b, hello); (app_b, [])].
Proof.
  destruct (fabric_contract (H := InProcess.in_process) local_new app_b "b" [(tt, app_b, hello); (tt, app_a, hello); (tt, app_b, [])] tt [] wf_local_new)
    as [Hq _].
  exact Hq.
Defined.

(** ** Over TCP *)

Definition tcp_addr : SocketAddr := SockV4 (Ipv4 127 0 0 1) 5000.
Definition moved : SocketAddr := SockV4 (Ipv4 127 0 0 1) 6000.
Definition node_a : LoopbackFabric :=
  Loopback.add_remote_route (Loopback.add_peer (mkLoopbackFabric "a" tcp_addr local_new ∅ ∅ ∅ []) "b" tcp_addr) app_b "b".
Definition smooth : Attempt := mkAttempt None false Written.
Definition breaks (n : nat) : Attempt := mkAttempt None false (BrokenOff n "broken pipe").

Lemma whole_a : whole node_a.
Proof. split; intros n; set_solver. Qed.

Lemma loopback_delivers_witness :
  exists f' c s, Loopback.send node_a (breaks 5, smooth) app_b hello = (f', Ok tt)
    /\ connections f' !! "b" = Some c /\ streams f' !! c = Some s
    /\ exists l', handle_connection (S (length (written s))) (local_register local_new app_b "b").1 (written s) Eof = Some l'
         /\ last (queue (chan l' 0%nat)) = Some (app_b, hello).
Proof.
  pose proof (loopback_delivers node_a (breaks 5, smooth) "b" app_b hello whole_a wf_app_b eq_refl eq_refl) as H.
  destruct (Loopback.send node_a (breaks 5, smooth) app_b hello) as [f' r] eqn:E.
  assert (r = Ok tt) as -> by (transitivity (Loopback.send node_a (breaks 5, smooth) app_b hello).2; [rewrite E; reflexivity|vm_compute; reflexivity]).
  destruct H as [_ (c & s & ws & Hc & Hs & _ & Hd)]. exists f', c, s. split; [reflexivity|]. split; [exact Hc|]. split; [exact Hs|].
  destruct (Hd (local_register local_new app_b "b").1 Eof (mkEndpointEntry "b" 0)) as (l' & Hl & _ & Hq).
  - apply wf_local_register, wf_local_new.
  - reflexivity.
  - reflexivity.
  - exists l'. split; [exact Hl|exact Hq].
Defined.

(** When both writes of a send break off, the connection stays in the pool with part of
    a frame on it: the next send on it returns [Ok], and the receiver, which takes the
    rest of the broken frame from the next one, delivers a message that nobody sent. *)
Lemma broken_retry_garbles :
  let f1 := (Loopback.send node_a (breaks 0, breaks 41) app_b hello).1 in
  let '(f2, r) := Loopback.send f1 (smooth, smooth) app_b hello in
  r = Ok tt
  /\ match connections f2 !! "b" ≫= fun c => streams f2 !! c with
     | Some s => (handle_connection 3 (local_register local_new app_b "b").1 (written s) Eof ≫= fun l => Some (queue (chan l 0%nat)))
                 = Some [(app_b, [104; 34])]
     | None => False
     end.
Proof. vm_compute. by split. Qed.

(** A peer that has moved still gets its messages at its old address, until the task
    that [add_peer] started has run. *)
Lemma moved_peer_is_late :
  let f1 := (Loopback.send node_a (smooth, smooth) app_b hello).1 in
  let f2 := (Loopback.send (Loopback.add_peer f1 "b" moved) (smooth, smooth) app_b []).1 in
  let f3 := (Loopback.send (drop_connection f2 "b") (smooth, smooth) app_b []).1 in
  (fun s => (st_peer s, length (written s))) <$> streams f2 = [(tcp_addr, 82%nat)]
  /\ (fun s => (st_peer s, length (written s))) <$> streams f3 = [(tcp_addr, 82%nat); (moved, 40%nat)].
Proof. vm_compute. by split. Qed.

(** ** Over WireGuard *)

Definition udp_a : SocketAddr := SockV4 (Ipv4 127 0 0 1) 7001.
Definition udp_b : SocketAddr := SockV4 (Ipv4 127 0 0 1) 7002.
Definition key_of_a : StaticSecret := [1].
Definition key_of_b : StaticSecret := [2].
Definition wg_a : WireGuardFabric :=
  WgFabric.add_remote_route
    (add_wireguard_peer (mkWireGuardFabric "a" udp_a key_of_a local_new ∅ ∅ []) "b" udp_b [2] 0) app_b "b".
Definition wg_b : WireGuardFabric :=
  (WgFabric.register_local (add_wireguard_peer (mkWireGuardFabric "b" udp_b key_of_b local_new ∅ ∅ []) "a" udp_a [1] 0) app_b "b").1.
Definition peer_state (addr : SocketAddr) (key : list Z) (tn : Tunn) : PeerState := mkPeerState addr key tn.
Definition shared : Tunn := 3.

Lemma ipv6_roundtrip_witness :
  exists packet, build_ipv6_packet app_a app_b hello = Ok packet /\ parse_ipv6_packet (packet ++ [0; 0]) = Ok (app_a, app_b, hello).
Proof.
  destruct (build_ipv6_packet app_a app_b hello) as [packet|e] eqn:E; [|vm_compute in E; discriminate E].
  exists packet. split; [reflexivity|].
  pose proof (ipv6_roundtrip app_a app_b hello [0; 0] 0 ltac:(unfold wf_ipv6; simpl; repeat (apply Forall_cons; split; [by split|]); by constructor) wf_app_b) as H.
  rewrite E in H. apply H.
Defined.

Lemma fabric_receive_functional_witness :
  WgFabric.receive 1 wg_b 0 udp_b [4; 3] = Some wg_b
  /\ receive 1 wg_b 0 udp_a [4; 4] = (fun r => effect wg_b "a" (peer_state udp_a [1] shared) r.1 r.2) <$> tunn_run 1 0 shared [4; 4].
Proof.
  split.
  - pose proof (fabric_receive_functional 1 wg_b 0 udp_b [4; 3]) as H.
    assert (peer_at wg_b udp_b = None) as E by (vm_compute; reflexivity). rewrite E in H. apply H.
  - pose proof (fabric_receive_functional 1 wg_b 0 udp_a [4; 4]) as H.
    assert (peer_at wg_b udp_a = Some ("a", peer_state udp_a [1] shared)) as E by (vm_compute; reflexivity). rewrite E in H. apply H.
Defined.

Lemma wireguard_delivers_witness :
  let '(fa', r) := WgFabric.send wg_a (0, None) app_b hello in
  r = Ok tt /\ exists b fb', sent fa' = [(udp_b, b)] /\ receive 1 wg_b 0 udp_a b = Some fb'
    /\ queue (chan (WgFabric.here fb') 0%nat) = [(app_b, hello)].
Proof.
  destruct (build_ipv6_packet (Ipv6 0 0 0 0 0 0 0 0) app_b hello) as [framed|e] eqn:Ef; [|vm_compute in Ef; discriminate Ef].
  pose proof (wireguard_delivers wg_a wg_b 0 0 app_b hello "b" (peer_state udp_b [2] shared) shared (4 :: 3 :: framed)
    (Ipv6 0 0 0 0 0 0 0 0) "a" (peer_state udp_a [1] shared) shared shared udp_a wf_app_b eq_refl eq_refl) as H.
  assert (framed = [96; 0; 0; 0; 0; 2; 59; 64] ++ octets (Ipv6 0 0 0 0 0 0 0 0) ++ octets app_b ++ hello) as Efr.
  { apply build_shape in Ef as [_ Ef]. rewrite Ef. reflexivity. }
  destruct (WgFabric.send wg_a (0, None) app_b hello) as [fa' r].
  destruct H as (Hr & Hs & _ & fb' & Hrec & _ & _ & Hq).
  - vm_compute. reflexivity.
  - vm_compute. congruence.
  - intros f Hf. rewrite Ef in Hf. injection Hf as <-. rewrite Efr. split; vm_compute; reflexivity.
  - rewrite Efr. apply Nat.leb_le. vm_compute. reflexivity.
  - reflexivity.
  - vm_compute. reflexivity.
  - split; [exact Hr|]. exists (4 :: 3 :: framed), fb'. split; [exact Hs|]. split; [exact Hrec|].
    specialize (Hq (mkEndpointEntry "b" 0) eq_refl eq_refl). exact Hq.
Defined.

Lemma wait_returns_witness :
  exists f' r, wait_until_handshake 4 (fun i => 20 * Z.of_nat i) (fun _ => None) (fun _ f => f) wg_a "nobody" (0 + 50) 0 = Some (f', r) /\ r <> Ok tt.
Proof.
  destruct (wait_returns (fun i => 20 * Z.of_nat i) (fun _ => None) (fun _ f => f) wg_a "nobody" 50 ltac:(intros i; cbn beta; lia) ltac:(lia))
    as (f' & r & Hw & Hr).
  exists f', r. split; [exact Hw|]. intros ->. destruct Hr as (p & t & Hp & _).
  assert (wg_peers f' !! "nobody" = None) as Hn; [|congruence].
  assert ((fun x => wg_peers x.1 !! "nobody") <$>
    wait_until_handshake 4 (fun i => 20 * Z.of_nat i) (fun _ => None) (fun _ f => f) wg_a "nobody" (0 + 50) 0 = Some None) as Hx
    by (vm_compute; reflexivity).
  change (S (S (Z.to_nat (50 / 20)))) with 4%nat in Hw. change (20 * Z.of_nat 0 + 50) with (0 + 50) in Hw. rewrite Hw in Hx.
  injection Hx as Hx. exact Hx.
Defined.

(** A payload that [MAX_APP_PAYLOAD] allows, too long for the receiver's buffer: the send
    returns [Ok], and nothing arrives. *)
Lemma long_payload_is_lost :
  let msg := replicate (9 * 1000) 7 in
  let '(fa', r) := WgFabric.send wg_a (0, None) app_b msg in
  r = Ok tt /\ Z.of_nat (length msg) <= MAX_APP_PAYLOAD
  /\ match sent fa' with
     | [(_, b)] => (fun f => queue (chan (WgFabric.here f) 0%nat)) <$> receive 1 wg_b 0 udp_a b = Some []
     | _ => False
     end.
Proof. vm_compute. split; [reflexivity|]. split; [discriminate|reflexivity]. Qed.
End Nodes.
